(** * The world-save decoder and rasterizer of [canvasToBlob.ts]

    A shallow embedding of [TerrariaFileParser], [TerrariaWorldParser] and
    the per-cell colour rule of [WldHandler.doConvert], followed by the
    properties stated about them.

    Conventions of the embedding
    - JavaScript numbers that are always integers in this code are [Z].
    - The read offset is a [jsnum]: an integer, or [NaN] (what
      [this.offset] becomes after [undefined + w]).
    - The bytes of the [DataView] are a [list byte].
    - A method of the parser object is a function [parser -> outcome A]:
      it either returns normally, throws, or does not terminate.
    - Floating-point reads return the IEEE-754 bit pattern of the number
      read; the number [0] is the pattern [0]. *)

From stdpp Require Import base tactics option list strings gmap.
From Stdlib Require Import ZArith Lia Strings.Byte.

#[local] Open Scope Z_scope.

(** ** Numbers and bytes *)

Inductive jsnum : Type :=
  | Num (z : Z)
  | NaN.

Definition js_add (o : jsnum) (w : Z) : jsnum :=
  match o with Num z => Num (z + w) | NaN => NaN end.

Definition js_sub (o : jsnum) (w : Z) : jsnum :=
  match o with Num z => Num (z - w) | NaN => NaN end.

(** [a > n] and [a >= n] on numbers; every comparison with NaN is false. *)
Definition js_gt (a : jsnum) (n : Z) : bool :=
  match a with Num z => n <? z | NaN => false end.

Definition js_ge (a : jsnum) (n : Z) : bool :=
  match a with Num z => n <=? z | NaN => false end.

Definition u8 (b : byte) : Z := Z.of_N (Byte.to_N b).

(** The byte whose value is [z mod 256]; used to write buffers down. *)
Definition byte_of_Z (z : Z) : byte :=
  match Byte.of_N (Z.to_N (z mod 256)) with
  | Some b => b
  | None => Byte.x00
  end.

(** Little-endian unsigned value of a byte string. *)
Fixpoint le_unsigned (bs : list byte) : Z :=
  match bs with
  | [] => 0
  | b :: bs' => u8 b + 256 * le_unsigned bs'
  end.

(** Two's complement reading of a [bits]-bit unsigned value. *)
Definition to_signed (bits : Z) (z : Z) : Z :=
  if z <? 2 ^ (bits - 1) then z else z - 2 ^ bits.

Definition le_signed (bits : Z) (bs : list byte) : Z :=
  to_signed bits (le_unsigned bs).

(** [ToInt32]: the wrap-around of the bitwise operators. *)
Definition to_int32 (z : Z) : Z := (z + 2 ^ 31) mod 2 ^ 32 - 2 ^ 31.

(** [a << s] and [a | b] on 32-bit integers. *)
Definition shl32 (a s : Z) : Z := to_int32 (Z.shiftl a (s mod 32)).
Definition or32 (a b : Z) : Z := to_int32 (Z.lor a b).

(** ** The parser object *)

(** State of the accessor that [parse] installs on [offset] when a
    progress callback is supplied. *)
Record progress : Type := mkProgress {
  onePercentSize : Z;
  nextPercentSize : Z;
  percent : Z
}.

(** The fields of the parser object.  [hook] is [Some _] once [parse] has
    replaced [offset] by the accessor pair; [calls] records the arguments
    the progress callback has been invoked with, oldest first.  The
    callback is the host's: it is taken to return normally and to leave
    the parser alone, so being called is its only effect here. *)
Record parser : Type := mkParser {
  offset : jsnum;
  buffer : list byte;
  ignoreBounds : bool;
  RLE : Z;
  hook : option progress;
  calls : list Z
}.

Definition byteLength (s : parser) : Z := Z.of_nat (length (buffer s)).

Inductive exn : Type :=
  | RangeError
  | TypeError
  | Error (msg : string).

Inductive outcome (A : Type) : Type :=
  | Ok (a : A) (s : parser)
  | Throw (e : exn) (s : parser)
  | Diverge.
Arguments Ok {A} a s.
Arguments Throw {A} e s.
Arguments Diverge {A}.

Definition M (A : Type) : Type := parser -> outcome A.

Definition retM {A} (a : A) : M A := fun s => Ok a s.

Definition bindM {A B} (m : M A) (f : A -> M B) : M B :=
  fun s =>
    match m s with
    | Ok a s' => f a s'
    | Throw e s' => Throw e s'
    | Diverge => Diverge
    end.

#[global] Instance M_ret : MRet M := @retM.
#[global] Instance M_bind : MBind M := fun A B f m => bindM m f.

Definition throw {A} (e : exn) : M A := fun s => Throw e s.
Definition diverge {A} : M A := fun _ => Diverge.

(** [try { m } catch (e) { h }] where the handler ignores [e]. *)
Definition try_catch {A} (m : M A) (h : M A) : M A :=
  fun s =>
    match m s with
    | Ok a s' => Ok a s'
    | Throw _ s' => h s'
    | Diverge => Diverge
    end.

Definition get_parser : M parser := fun s => Ok s s.

(** Assignment to [this.offset].  With the accessor installed the setter
    stores the value and, when it has reached [nextPercentSize], bumps the
    percentage and calls the callback. *)
Definition store_offset (v : jsnum) (s : parser) : parser :=
  match hook s with
  | None => mkParser v (buffer s) (ignoreBounds s) (RLE s) None (calls s)
  | Some h =>
      if js_ge v (nextPercentSize h) then
        mkParser v (buffer s) (ignoreBounds s) (RLE s)
          (Some (mkProgress (onePercentSize h)
                   (nextPercentSize h + onePercentSize h) (percent h + 1)))
          (calls s ++ [percent h + 1])
      else mkParser v (buffer s) (ignoreBounds s) (RLE s) (Some h) (calls s)
  end.

Definition set_offset (v : jsnum) : M unit := fun s => Ok tt (store_offset v s).

Definition set_RLE (r : Z) : M unit :=
  fun s => Ok tt (mkParser (offset s) (buffer s) (ignoreBounds s) r (hook s) (calls s)).

(** [DataView.prototype.getXxx(idx, true)] for a [w]-byte type: [ToIndex]
    maps NaN to 0 and rejects negative numbers, and the [w] bytes must lie
    inside the view. *)
Definition view_get (w : Z) (idx : jsnum) : M (list byte) :=
  fun s =>
    let i := match idx with Num z => z | NaN => 0 end in
    if (i <? 0) || (byteLength s <? i + w) then Throw RangeError s
    else Ok (take (Z.to_nat w) (drop (Z.to_nat i) (buffer s))) s.

(** The common shape of [readUInt8] ... [readFloat64]:
    [this.offset += w;
     if (this.options.ignoreBounds && this.offset > this.buffer.byteLength) return 0;
     return this.buffer.getXxx(this.offset - w, true);] *)
Definition read_typed (w : Z) (conv : list byte -> Z) : M Z :=
  s0 ← get_parser;
  set_offset (js_add (offset s0) w);;
  s ← get_parser;
  if ignoreBounds s && js_gt (offset s) (byteLength s) then mret 0
  else bs ← view_get w (js_sub (offset s) w); mret (conv bs).

Definition readUInt8 : M Z := read_typed 1 le_unsigned.
Definition readInt16 : M Z := read_typed 2 (le_signed 16).
Definition readUInt16 : M Z := read_typed 2 le_unsigned.
Definition readInt32 : M Z := read_typed 4 (le_signed 32).
Definition readUInt32 : M Z := read_typed 4 le_unsigned.
Definition readFloat32 : M Z := read_typed 4 le_unsigned.
Definition readFloat64 : M Z := read_typed 8 le_unsigned.

Definition readBoolean : M bool := b ← readUInt8; mret (negb (b =? 0)).

(** [for (let i = 0; i < count; i++) data[i] = this.readUInt8();] *)
Fixpoint read_n (n : nat) : M (list Z) :=
  match n with
  | O => mret []
  | S n' => b ← readUInt8; bs ← read_n n'; mret (b :: bs)
  end.

Definition readBytes (count : Z) : M (list Z) := read_n (Z.to_nat count).

(** [readString(length?)].  Without a length the do-while loop decodes a
    7-bit-per-byte length prefix with the 32-bit [|=] and [<<] of the
    source.  Every round advances a numeric offset by one, so the loop
    ends within [byteLength + 1] rounds (lemma [read_varlen_total]); at a
    NaN offset every round reads byte 0 again and a round that continues
    is followed by identical rounds for ever, which is what running out of
    rounds stands for. *)
Fixpoint read_varlen (rounds : nat) (len shift : Z) : M Z :=
  match rounds with
  | O => diverge
  | S k =>
      byte ← readUInt8;
      let len' := or32 len (shl32 (Z.land byte 127) shift) in
      if Z.land byte 128 =? 0 then mret len'
      else read_varlen k len' (shift + 7)
  end.

(** [new TextDecoder().decode(bytes)]: the UTF-8 decoder of the platform,
    which never throws.  A lead byte opens a sequence of one to three
    continuation bytes, the first of them in a range that depends on the
    lead byte; a byte outside its range ends the sequence with U+FFFD and
    is decoded again as a first byte; so does the end of the input inside
    a sequence; a byte that can open nothing gives U+FFFD. *)
Inductive utf8_pending : Type :=
  | Idle
  | Pending (cp : Z) (more : nat) (lower upper : Z).

(** A first byte: the characters it yields and the sequence it opens.
    [more] counts the continuation bytes wanted after the next one. *)
Definition utf8_lead (b : Z) : utf8_pending * list Z :=
  if (0 <=? b) && (b <=? 127) then (Idle, [b])
  else if (194 <=? b) && (b <=? 223) then
    (Pending (Z.land b 31) 0 128 191, [])
  else if (224 <=? b) && (b <=? 239) then
    (Pending (Z.land b 15) 1 (if b =? 224 then 160 else 128)
       (if b =? 237 then 159 else 191), [])
  else if (240 <=? b) && (b <=? 244) then
    (Pending (Z.land b 7) 2 (if b =? 240 then 144 else 128)
       (if b =? 244 then 143 else 191), [])
  else (Idle, [65533]).

(** The code points of a byte string. *)
Fixpoint utf8_decode (st : utf8_pending) (bytes : list Z) : list Z :=
  match bytes with
  | [] => match st with Idle => [] | Pending _ _ _ _ => [65533] end
  | b :: rest =>
      match st with
      | Idle => snd (utf8_lead b) ++ utf8_decode (fst (utf8_lead b)) rest
      | Pending cp more lower upper =>
          if (lower <=? b) && (b <=? upper) then
            let cp' := Z.lor (Z.shiftl cp 6) (Z.land b 63) in
            match more with
            | O => cp' :: utf8_decode Idle rest
            | S more' => utf8_decode (Pending cp' more' 128 191) rest
            end
          else 65533 :: snd (utf8_lead b)
                 ++ utf8_decode (fst (utf8_lead b)) rest
      end
  end.

(** A byte-order mark at the very start is not part of the text. *)
Definition strip_bom (cps : list Z) : list Z :=
  match cps with
  | cp :: rest => if cp =? 65279 then rest else cps
  | [] => []
  end.

(** A string is the list of its UTF-16 code units. *)
Definition utf16_units (cp : Z) : list Z :=
  if cp <? 65536 then [cp]
  else [55296 + Z.shiftr (cp - 65536) 10; 56320 + Z.land (cp - 65536) 1023].

Definition TextDecoder_decode (bytes : list Z) : list Z :=
  concat (map utf16_units (strip_bom (utf8_decode Idle bytes))).

Definition readString (length : option Z) : M (list Z) :=
  len ← match length with
        | Some n => mret n
        | None => s ← get_parser; read_varlen (S (List.length (buffer s))) 0 0
        end;
  bytes ← readBytes len;
  mret (TextDecoder_decode bytes).

Definition skipBytes (count : Z) : M unit :=
  s ← get_parser; set_offset (js_add (offset s) count).

Definition jumpTo (o : jsnum) : M unit := set_offset o.

(** [parseBitsByte(size)]: the first loop, [for (i = size; i > 0; i -= 8)],
    makes [ceil(size / 8)] reads for a positive [size] and none otherwise;
    the second fills [bitValues[0 .. size-1]], least significant bit first. *)
Definition bit_of (bytes : list Z) (i : nat) : bool :=
  0 <? Z.land (nth (i / 8) bytes 0) (Z.shiftl 1 (Z.of_nat (i mod 8))).

Definition parseBitsByte (size : Z) : M (list bool) :=
  bytes ← read_n (Z.to_nat ((size + 7) / 8));
  mret (map (bit_of bytes) (seq 0 (Z.to_nat size))).

(** [parseGuid(bytes)]: two lower-case hexadecimal digits per byte, the
    first three groups byte-swapped, a dash after the entries of index 4,
    6, 8 and 10.  The result is given by its character codes. *)
Definition hex_digit (d : Z) : Z := if d <? 10 then 48 + d else 87 + d.

Definition hex2 (b : Z) : list Z := [hex_digit (b / 16); hex_digit (b mod 16)].

Definition guid_piece (ib : nat * Z) : list Z :=
  hex2 (snd ib) ++
  (if bool_decide (fst ib ∈ [4; 6; 8; 10]%nat) then [45] else []).

Definition parseGuid (bytes : list Z) : list Z :=
  let b := rev (take 4 bytes) ++ rev (take 2 (drop 4 bytes))
           ++ rev (take 2 (drop 6 bytes)) ++ drop 8 bytes in
  concat (map guid_piece (imap (fun i x => (i, x)) b)).

(** ** The world parser *)

Record WorldNecessary : Type := mkWorld {
  version : Z;
  pointers : list Z;
  importants : list bool;
  width : Z;
  height : Z
}.

(** The two messages [parseNecessaryData] throws. *)
Definition msg_invalid : string := "Invalid file type".
Definition msg_too_old : string :=
  "Map version is older than 1.3.5.3 and cannot be parsed".

(** What the specification calls FormatError and UnsupportedVersionError. *)
Definition FormatError : exn := Error msg_invalid.
Definition UnsupportedVersionError : exn := Error msg_too_old.

(** The text "relogic", by its character codes. *)
Definition relogic : list Z := [114; 101; 108; 111; 103; 105; 99].

Definition list_Z_eqb (a b : list Z) : bool := bool_decide (a = b).

(** [for (let i = this.readInt16(); i > 0; i--) pointers.push(this.readInt32());]
    and the loops of the same shape in [parseHeader]. *)
Fixpoint read_int32s (n : nat) : M (list Z) :=
  match n with
  | O => mret []
  | S n' => p ← readInt32; ps ← read_int32s n'; mret (p :: ps)
  end.

(** The values assigned inside the [try] block. *)
Record preamble_data : Type := mkPreamble {
  p_version : Z;
  p_magicNumber : list Z;
  p_fileType : Z;
  p_pointers : list Z;
  p_importants : list bool;
  p_height : Z;
  p_width : Z
}.

(** The body of the [try] block of [parseNecessaryData]. *)
Definition preamble : M preamble_data :=
  version ← readInt32;
  magicNumber ← readString (Some 7);
  fileType ← readUInt8;
  skipBytes 12;;
  n ← readInt16;
  rest ← read_int32s (Z.to_nat n);
  m ← readInt16;
  importants ← parseBitsByte m;
  readString None;;
  readString None;;
  skipBytes 44;;
  height ← readInt32;
  width ← readInt32;
  mret (mkPreamble version magicNumber fileType (0 :: rest) importants height width).

Definition parseNecessaryData : M WorldNecessary :=
  set_offset (Num 0);;
  p ← try_catch preamble (throw (Error msg_invalid));
  set_offset (Num 0);;
  if negb (list_Z_eqb (p_magicNumber p) relogic) || negb (p_fileType p =? 2)
  then throw (Error msg_invalid)
  else if p_version p <? 194 then throw (Error msg_too_old)
  else mret (mkWorld (p_version p) (p_pointers p) (p_importants p)
               (p_width p) (p_height p)).

(** ** Tiles *)

Inductive liquid : Type := water | lava | honey | shimmer.

Inductive slope_kind : Type := half | TR | TL | BR | BL.

(** The interface [Tile]: every member is optional. *)
Record Tile : Type := mkTile {
  blockId : option Z;
  frameX : option Z;
  frameY : option Z;
  blockColor : option Z;
  wallId : option Z;
  wallColor : option Z;
  liquidAmount : option Z;
  liquidType : option liquid;
  wireRed : option bool;
  wireBlue : option bool;
  wireGreen : option bool;
  wireYellow : option bool;
  slope : option slope_kind;
  actuator : option bool;
  actuated : option bool;
  invisibleBlock : option bool;
  invisibleWall : option bool;
  fullBrightBlock : option bool;
  fullBrightWall : option bool
}.

Definition empty_tile : Tile :=
  mkTile None None None None None None None None None None None None None
    None None None None None None.

(** Assignments [tile.member = v]. *)
Definition set_blockId (v : Z) (t : Tile) : Tile :=
  mkTile (Some v) (frameX t) (frameY t) (blockColor t) (wallId t)
    (wallColor t) (liquidAmount t) (liquidType t) (wireRed t) (wireBlue t)
    (wireGreen t) (wireYellow t) (slope t) (actuator t) (actuated t)
    (invisibleBlock t) (invisibleWall t) (fullBrightBlock t)
    (fullBrightWall t).
Definition set_frameX (v : Z) (t : Tile) : Tile :=
  mkTile (blockId t) (Some v) (frameY t) (blockColor t) (wallId t)
    (wallColor t) (liquidAmount t) (liquidType t) (wireRed t) (wireBlue t)
    (wireGreen t) (wireYellow t) (slope t) (actuator t) (actuated t)
    (invisibleBlock t) (invisibleWall t) (fullBrightBlock t)
    (fullBrightWall t).
Definition set_frameY (v : Z) (t : Tile) : Tile :=
  mkTile (blockId t) (frameX t) (Some v) (blockColor t) (wallId t)
    (wallColor t) (liquidAmount t) (liquidType t) (wireRed t) (wireBlue t)
    (wireGreen t) (wireYellow t) (slope t) (actuator t) (actuated t)
    (invisibleBlock t) (invisibleWall t) (fullBrightBlock t)
    (fullBrightWall t).
Definition set_blockColor (v : Z) (t : Tile) : Tile :=
  mkTile (blockId t) (frameX t) (frameY t) (Some v) (wallId t) (wallColor t)
    (liquidAmount t) (liquidType t) (wireRed t) (wireBlue t) (wireGreen t)
    (wireYellow t) (slope t) (actuator t) (actuated t) (invisibleBlock t)
    (invisibleWall t) (fullBrightBlock t) (fullBrightWall t).
Definition set_wallId (v : Z) (t : Tile) : Tile :=
  mkTile (blockId t) (frameX t) (frameY t) (blockColor t) (Some v)
    (wallColor t) (liquidAmount t) (liquidType t) (wireRed t) (wireBlue t)
    (wireGreen t) (wireYellow t) (slope t) (actuator t) (actuated t)
    (invisibleBlock t) (invisibleWall t) (fullBrightBlock t)
    (fullBrightWall t).
Definition set_wallColor (v : Z) (t : Tile) : Tile :=
  mkTile (blockId t) (frameX t) (frameY t) (blockColor t) (wallId t) (Some v)
    (liquidAmount t) (liquidType t) (wireRed t) (wireBlue t) (wireGreen t)
    (wireYellow t) (slope t) (actuator t) (actuated t) (invisibleBlock t)
    (invisibleWall t) (fullBrightBlock t) (fullBrightWall t).
Definition set_liquidAmount (v : Z) (t : Tile) : Tile :=
  mkTile (blockId t) (frameX t) (frameY t) (blockColor t) (wallId t)
    (wallColor t) (Some v) (liquidType t) (wireRed t) (wireBlue t)
    (wireGreen t) (wireYellow t) (slope t) (actuator t) (actuated t)
    (invisibleBlock t) (invisibleWall t) (fullBrightBlock t)
    (fullBrightWall t).
Definition set_liquidType (v : liquid) (t : Tile) : Tile :=
  mkTile (blockId t) (frameX t) (frameY t) (blockColor t) (wallId t)
    (wallColor t) (liquidAmount t) (Some v) (wireRed t) (wireBlue t)
    (wireGreen t) (wireYellow t) (slope t) (actuator t) (actuated t)
    (invisibleBlock t) (invisibleWall t) (fullBrightBlock t)
    (fullBrightWall t).
Definition set_wireRed (v : bool) (t : Tile) : Tile :=
  mkTile (blockId t) (frameX t) (frameY t) (blockColor t) (wallId t)
    (wallColor t) (liquidAmount t) (liquidType t) (Some v) (wireBlue t)
    (wireGreen t) (wireYellow t) (slope t) (actuator t) (actuated t)
    (invisibleBlock t) (invisibleWall t) (fullBrightBlock t)
    (fullBrightWall t).
Definition set_wireBlue (v : bool) (t : Tile) : Tile :=
  mkTile (blockId t) (frameX t) (frameY t) (blockColor t) (wallId t)
    (wallColor t) (liquidAmount t) (liquidType t) (wireRed t) (Some v)
    (wireGreen t) (wireYellow t) (slope t) (actuator t) (actuated t)
    (invisibleBlock t) (invisibleWall t) (fullBrightBlock t)
    (fullBrightWall t).
Definition set_wireGreen (v : bool) (t : Tile) : Tile :=
  mkTile (blockId t) (frameX t) (frameY t) (blockColor t) (wallId t)
    (wallColor t) (liquidAmount t) (liquidType t) (wireRed t) (wireBlue t)
    (Some v) (wireYellow t) (slope t) (actuator t) (actuated t)
    (invisibleBlock t) (invisibleWall t) (fullBrightBlock t)
    (fullBrightWall t).
Definition set_wireYellow (v : bool) (t : Tile) : Tile :=
  mkTile (blockId t) (frameX t) (frameY t) (blockColor t) (wallId t)
    (wallColor t) (liquidAmount t) (liquidType t) (wireRed t) (wireBlue t)
    (wireGreen t) (Some v) (slope t) (actuator t) (actuated t)
    (invisibleBlock t) (invisibleWall t) (fullBrightBlock t)
    (fullBrightWall t).
Definition set_slope (v : slope_kind) (t : Tile) : Tile :=
  mkTile (blockId t) (frameX t) (frameY t) (blockColor t) (wallId t)
    (wallColor t) (liquidAmount t) (liquidType t) (wireRed t) (wireBlue t)
    (wireGreen t) (wireYellow t) (Some v) (actuator t) (actuated t)
    (invisibleBlock t) (invisibleWall t) (fullBrightBlock t)
    (fullBrightWall t).
Definition set_actuator (v : bool) (t : Tile) : Tile :=
  mkTile (blockId t) (frameX t) (frameY t) (blockColor t) (wallId t)
    (wallColor t) (liquidAmount t) (liquidType t) (wireRed t) (wireBlue t)
    (wireGreen t) (wireYellow t) (slope t) (Some v) (actuated t)
    (invisibleBlock t) (invisibleWall t) (fullBrightBlock t)
    (fullBrightWall t).
Definition set_actuated (v : bool) (t : Tile) : Tile :=
  mkTile (blockId t) (frameX t) (frameY t) (blockColor t) (wallId t)
    (wallColor t) (liquidAmount t) (liquidType t) (wireRed t) (wireBlue t)
    (wireGreen t) (wireYellow t) (slope t) (actuator t) (Some v)
    (invisibleBlock t) (invisibleWall t) (fullBrightBlock t)
    (fullBrightWall t).
Definition set_invisibleBlock (v : bool) (t : Tile) : Tile :=
  mkTile (blockId t) (frameX t) (frameY t) (blockColor t) (wallId t)
    (wallColor t) (liquidAmount t) (liquidType t) (wireRed t) (wireBlue t)
    (wireGreen t) (wireYellow t) (slope t) (actuator t) (actuated t) (Some v)
    (invisibleWall t) (fullBrightBlock t) (fullBrightWall t).
Definition set_invisibleWall (v : bool) (t : Tile) : Tile :=
  mkTile (blockId t) (frameX t) (frameY t) (blockColor t) (wallId t)
    (wallColor t) (liquidAmount t) (liquidType t) (wireRed t) (wireBlue t)
    (wireGreen t) (wireYellow t) (slope t) (actuator t) (actuated t)
    (invisibleBlock t) (Some v) (fullBrightBlock t) (fullBrightWall t).
Definition set_fullBrightBlock (v : bool) (t : Tile) : Tile :=
  mkTile (blockId t) (frameX t) (frameY t) (blockColor t) (wallId t)
    (wallColor t) (liquidAmount t) (liquidType t) (wireRed t) (wireBlue t)
    (wireGreen t) (wireYellow t) (slope t) (actuator t) (actuated t)
    (invisibleBlock t) (invisibleWall t) (Some v) (fullBrightWall t).
Definition set_fullBrightWall (v : bool) (t : Tile) : Tile :=
  mkTile (blockId t) (frameX t) (frameY t) (blockColor t) (wallId t)
    (wallColor t) (liquidAmount t) (liquidType t) (wireRed t) (wireBlue t)
    (wireGreen t) (wireYellow t) (slope t) (actuator t) (actuated t)
    (invisibleBlock t) (invisibleWall t) (fullBrightBlock t) (Some v).

(** Truthiness of a number, [flags & mask] as a condition, and
    [flags && (flags & mask)] for a flag byte that may be [undefined]. *)
Definition truthy (z : Z) : bool := negb (z =? 0).

Definition has (flags mask : Z) : bool := truthy (Z.land flags mask).

Definition opt_truthy (flags : option Z) : bool :=
  match flags with Some f => truthy f | None => false end.

Definition opt_has (flags : option Z) (mask : Z) : bool :=
  match flags with Some f => truthy f && has f mask | None => false end.

(** The flag bytes of one record; [None] is [undefined]. *)
Record flag_bytes : Type := mkFlags {
  flags1 : Z;
  flags2 : option Z;
  flags3 : option Z;
  flags4 : option Z
}.

(** JavaScript arrays with holes: [None] is a hole (or [undefined]). *)
Abbreviation js_array A := (list (option A)).

(** [new Array(n)] for a number [n]: a length outside [0, 2^32) throws. *)
Definition new_array {A} (n : Z) : M (js_array A) :=
  if (n <? 0) || (2 ^ 32 <=? n) then throw RangeError
  else mret (replicate (Z.to_nat n) None).

(** [a[i]] *)
Definition array_get {A} (i : nat) (a : js_array A) : option A :=
  match a !! i with Some v => v | None => None end.

(** [a[i] = v]: in place inside the array, extending it with holes
    otherwise. *)
Definition array_set {A} (i : nat) (v : option A) (a : js_array A) : js_array A :=
  if decide (i < length a)%nat then <[i := v]> a
  else a ++ replicate (i - length a)%nat None ++ [v].

Section WorldParser.

(** [this.world], assigned by [parse] before any section is decoded and
    never written afterwards. *)
Variable world : WorldNecessary.

(** Lines 517-526: the chain of flag bytes. *)
Definition read_flags : M flag_bytes :=
  f1 ← readUInt8;
  if has f1 1 then
    f2 ← readUInt8;
    if has f2 1 then
      f3 ← readUInt8;
      if has f3 1 then
        f4 ← readUInt8; mret (mkFlags f1 (Some f2) (Some f3) (Some f4))
      else mret (mkFlags f1 (Some f2) (Some f3) None)
    else mret (mkFlags f1 (Some f2) None None)
  else mret (mkFlags f1 None None None).

(** [this.world.importants[id]] as a condition. *)
Definition important (id : Z) : bool :=
  default false (importants world !! Z.to_nat id).

(** Lines 529-537. *)
Definition tile_block (f : flag_bytes) (tile : Tile) : M Tile :=
  if has (flags1 f) 2 then
    id ← (if has (flags1 f) 32 then readUInt16 else readUInt8);
    let tile := set_blockId id tile in
    tile ← (if important id then
              fx ← readInt16;
              fy ← readInt16;
              let tile := set_frameY fy (set_frameX fx tile) in
              mret (if id =? 144 then set_frameY 0 tile else tile)
            else mret tile);
    if opt_has (flags3 f) 8 then
      c ← readUInt8; mret (set_blockColor c tile)
    else mret tile
  else mret tile.

(** Lines 538-541. *)
Definition tile_wall (f : flag_bytes) (tile : Tile) : M Tile :=
  if has (flags1 f) 4 then
    id ← readUInt8;
    let tile := set_wallId id tile in
    if opt_has (flags3 f) 16 then
      c ← readUInt8; mret (set_wallColor c tile)
    else mret tile
  else mret tile.

(** Lines 542-554. *)
Definition tile_liquid (f : flag_bytes) (tile : Tile) : M Tile :=
  let liquidType := Z.shiftr (Z.land (flags1 f) 24) 3 in
  if truthy liquidType then
    amount ← readUInt8;
    let tile := set_liquidAmount amount tile in
    mret (if opt_has (flags3 f) 128 then set_liquidType shimmer tile
          else match liquidType with
               | 1 => set_liquidType water tile
               | 2 => set_liquidType lava tile
               | 3 => set_liquidType honey tile
               | _ => tile
               end)
  else mret tile.

(** Lines 558-568. *)
Definition tile_wires_slope (f2 : Z) (tile : Tile) : Tile :=
  let tile := if has f2 2 then set_wireRed true tile else tile in
  let tile := if has f2 4 then set_wireBlue true tile else tile in
  let tile := if has f2 8 then set_wireGreen true tile else tile in
  let slope := Z.shiftr (Z.land f2 112) 4 in
  if truthy slope then
    match slope with
    | 1 => set_slope half tile
    | 2 => set_slope TR tile
    | 3 => set_slope TL tile
    | 4 => set_slope BR tile
    | 5 => set_slope BL tile
    | _ => tile
    end
  else tile.

(** Lines 570-572. *)
Definition tile_actuator_bits (f3 : Z) (tile : Tile) : Tile :=
  let tile := if has f3 2 then set_actuator true tile else tile in
  let tile := if has f3 4 then set_actuated true tile else tile in
  if has f3 32 then set_wireYellow true tile else tile.

(** Line 573:
    [if (flags3 & 64) tile.wallId = (this.readUInt8() << 8) | (tile.wallId ?? 0);] *)
Definition tile_wall_high (f3 : Z) (tile : Tile) : M Tile :=
  if has f3 64 then
    hi ← readUInt8;
    mret (set_wallId (or32 (shl32 hi 8) (default 0 (wallId tile))) tile)
  else mret tile.

(** Lines 574-579. *)
Definition tile_coating_bits (f4 : option Z) (tile : Tile) : Tile :=
  match f4 with
  | Some f4 =>
      if truthy f4 then
        let tile := if has f4 2 then set_invisibleBlock true tile else tile in
        let tile := if has f4 4 then set_invisibleWall true tile else tile in
        let tile := if has f4 8 then set_fullBrightBlock true tile else tile in
        if has f4 16 then set_fullBrightWall true tile else tile
      else tile
  | None => tile
  end.

(** Lines 557-581. *)
Definition tile_extras (f : flag_bytes) (tile : Tile) : M Tile :=
  match flags2 f with
  | Some f2 =>
      if truthy f2 then
        let tile := tile_wires_slope f2 tile in
        match flags3 f with
        | Some f3 =>
            if truthy f3 then
              let tile := tile_actuator_bits f3 tile in
              tile ← tile_wall_high f3 tile;
              mret (tile_coating_bits (flags4 f) tile)
            else mret tile
        | None => mret tile
        end
      else mret tile
  | None => mret tile
  end.

(** Lines 583-586. *)
Definition tile_rle (f : flag_bytes) : M unit :=
  match Z.shiftr (Z.land (flags1 f) 192) 6 with
  | 1 => r ← readUInt8; set_RLE r
  | 2 => r ← readInt16; set_RLE r
  | _ => mret tt
  end.

(** Lines 528-555, starting from [const tile: Tile = {}]. *)
Definition tile_layers (f : flag_bytes) : M Tile :=
  if 1 <? flags1 f then
    tile ← tile_block f empty_tile;
    tile ← tile_wall f tile;
    tile_liquid f tile
  else mret empty_tile.

Definition parseTileData : M Tile :=
  f ← read_flags;
  tile ← tile_layers f;
  tile ← tile_extras f tile;
  tile_rle f;;
  mret tile.

(** The [while (this.RLE > 0)] loop of [parseWorldTiles]; it makes
    [RLE] rounds, which is the bound it is started with. *)
Fixpoint run_copy (rounds : nat) (y : nat) (col : js_array Tile)
  : M (nat * js_array Tile) :=
  s ← get_parser;
  if 0 <? RLE s then
    match rounds with
    | O => diverge
    | S k =>
        let col := array_set (S y) (array_get y col) col in
        set_RLE (RLE s - 1);;
        run_copy k (S y) col
    end
  else mret (y, col).

(** The loop over [y]; every round advances [y], so [height] rounds
    are enough. *)
Fixpoint column_loop (rounds : nat) (y : nat) (col : js_array Tile)
  : M (js_array Tile) :=
  if Z.of_nat y <? height world then
    match rounds with
    | O => diverge
    | S k =>
        tile ← parseTileData;
        let col := array_set y (Some tile) col in
        s ← get_parser;
        '(y, col) ← run_copy (Z.to_nat (RLE s)) y col;
        column_loop k (S y) col
    end
  else mret col.

(** The loop over [x], [rounds] columns from column [x] on.  The column
    is stored in [data] once filled; the source stores the empty array
    first and fills it in place, which no one can tell apart because
    [data] is local until returned. *)
Fixpoint grid_loop (rounds : nat) (x : nat) (data : js_array (js_array Tile))
  : M (js_array (js_array Tile)) :=
  match rounds with
  | O => mret data
  | S k =>
      col ← new_array (height world);
      col ← column_loop (Z.to_nat (height world)) 0 col;
      grid_loop k (S x) (array_set x (Some col) data)
  end.

Definition parseWorldTiles : M (js_array (js_array Tile)) :=
  set_RLE 0;;
  data ← new_array (width world);
  grid_loop (Z.to_nat (width world)) 0 data.

End WorldParser.

(** ** The header *)

(** Values stored in the header object.  Text is given by its UTF-16 code
    units, floating-point numbers by their bit pattern. *)
Inductive value : Type :=
  | VInt (z : Z)
  | VBool (b : bool)
  | VFloat32 (bits : Z)
  | VFloat64 (bits : Z)
  | VBytes (bs : list Z)
  | VString (text : list Z)
  | VInts (zs : list Z)
  | VStrings (ss : list (list Z)).

(** The object [data] of [parseHeader]: member name to value. *)
Abbreviation header := (gmap string value).

(** One statement of [parseHeader], as a function of [data]. *)
Definition step : Type := header -> M header.

Fixpoint run_steps (l : list step) (data : header) : M header :=
  match l with
  | [] => mret data
  | f :: l' => data ← f data; run_steps l' data
  end.

(** [data.k = r] *)
Definition field (k : string) (r : M value) : step :=
  fun data => v ← r; mret (<[k := v]> data).

Notation "k <~ r" := (field k r) (at level 70, no associativity).

Definition rd_string : M value := v ← readString None; mret (VString v).
Definition rd_bytes (n : Z) : M value := v ← readBytes n; mret (VBytes v).
Definition rd_int32 : M value := v ← readInt32; mret (VInt v).
Definition rd_int16 : M value := v ← readInt16; mret (VInt v).
Definition rd_uint8 : M value := v ← readUInt8; mret (VInt v).
Definition rd_bool : M value := v ← readBoolean; mret (VBool v).
Definition rd_float32 : M value := v ← readFloat32; mret (VFloat32 v).
Definition rd_float64 : M value := v ← readFloat64; mret (VFloat64 v).

(** [[this.readInt32(), ..., this.readInt32()]] with [n] elements. *)
Definition rd_int32_tuple (n : nat) : M value := v ← read_int32s n; mret (VInts v).

Fixpoint read_strings (n : nat) : M (list (list Z)) :=
  match n with
  | O => mret []
  | S n' => x ← readString None; xs ← read_strings n'; mret (x :: xs)
  end.

(** [data.k = []; for (let i = count(); i > 0; i--) data.k.push(this.readInt32());] *)
Definition rd_int32_list (count : M Z) : M value :=
  n ← count; v ← read_int32s (Z.to_nat n); mret (VInts v).

(** The same loop pushing [this.readString()]. *)
Definition rd_string_list (count : M Z) : M value :=
  n ← count; v ← read_strings (Z.to_nat n); mret (VStrings v).

(** [data.guidString = this.parseGuid(data.guid);] *)
Definition guidString_step : step :=
  fun data =>
    let guid := match data !! "guid" with Some (VBytes g) => g | _ => [] end in
    mret (<["guidString" := VString (parseGuid guid)]> data).

Section HeaderDecoder.

Variable world : WorldNecessary.

(** [if (this.world.version >= t) { body }] *)
Definition since (t : Z) (body : list step) : step :=
  fun data => if t <=? version world then run_steps body data else mret data.

(** [if (this.world.version >= t) { body } else { other }] *)
Definition since_else (t : Z) (body other : list step) : step :=
  fun data =>
    if t <=? version world then run_steps body data else run_steps other data.

(** The statements of [parseHeader], in order. *)
Definition header_steps : list step := [
    "mapName" <~ rd_string;
    "seedText" <~ rd_string;
    "worldGeneratorVersion" <~ rd_bytes 8;
    "guid" <~ rd_bytes 16;
    guidString_step;
    "worldId" <~ rd_int32;
    "leftWorld" <~ rd_int32;
    "rightWorld" <~ rd_int32;
    "topWorld" <~ rd_int32;
    "bottomWorld" <~ rd_int32;
    "maxTilesY" <~ rd_int32;
    "maxTilesX" <~ rd_int32;
    since_else 225 [
      "gameMode" <~ rd_int32;
      "drunkWorld" <~ rd_bool;
      since 227 ["getGoodWorld" <~ rd_bool];
      since 238 ["getTenthAnniversaryWorld" <~ rd_bool];
      since 239 ["dontStarveWorld" <~ rd_bool];
      since 241 ["notTheBeesWorld" <~ rd_bool];
      since 249 ["remixWorld" <~ rd_bool];
      since 266 ["noTrapsWorld" <~ rd_bool];
      since 267 ["zenithWorld" <~ rd_bool] ] [
      "expertMode" <~ rd_bool ];
    "creationTime" <~ rd_bytes 8;
    "moonType" <~ rd_uint8;
    "treeX" <~ rd_int32_tuple 3;
    "treeStyle" <~ rd_int32_tuple 4;
    "caveBackX" <~ rd_int32_tuple 3;
    "caveBackStyle" <~ rd_int32_tuple 4;
    "iceBackStyle" <~ rd_int32;
    "jungleBackStyle" <~ rd_int32;
    "hellBackStyle" <~ rd_int32;
    "spawnTileX" <~ rd_int32;
    "spawnTileY" <~ rd_int32;
    "worldSurface" <~ rd_float64;
    "rockLayer" <~ rd_float64;
    "tempTime" <~ rd_float64;
    "tempDayTime" <~ rd_bool;
    "tempMoonPhase" <~ rd_int32;
    "tempBloodMoon" <~ rd_bool;
    "tempEclipse" <~ rd_bool;
    "dungeonX" <~ rd_int32;
    "dungeonY" <~ rd_int32;
    "crimson" <~ rd_bool;
    "downedBoss1" <~ rd_bool;
    "downedBoss2" <~ rd_bool;
    "downedBoss3" <~ rd_bool;
    "downedQueenBee" <~ rd_bool;
    "downedMechBoss1" <~ rd_bool;
    "downedMechBoss2" <~ rd_bool;
    "downedMechBoss3" <~ rd_bool;
    "downedMechBossAny" <~ rd_bool;
    "downedPlantBoss" <~ rd_bool;
    "downedGolemBoss" <~ rd_bool;
    "downedSlimeKing" <~ rd_bool;
    "savedGoblin" <~ rd_bool;
    "savedWizard" <~ rd_bool;
    "savedMech" <~ rd_bool;
    "downedGoblins" <~ rd_bool;
    "downedClown" <~ rd_bool;
    "downedFrost" <~ rd_bool;
    "downedPirates" <~ rd_bool;
    "shadowOrbSmashed" <~ rd_bool;
    "spawnMeteor" <~ rd_bool;
    "shadowOrbCount" <~ rd_uint8;
    "altarCount" <~ rd_int32;
    "hardMode" <~ rd_bool;
    "afterPartyOfDoom" <~
      (if 257 <=? version world then rd_bool else mret (VBool false));
    "invasionDelay" <~ rd_int32;
    "invasionSize" <~ rd_int32;
    "invasionType" <~ rd_int32;
    "invasionX" <~ rd_float64;
    "slimeRainTime" <~ rd_float64;
    "sundialCooldown" <~ rd_uint8;
    "tempRaining" <~ rd_bool;
    "tempRainTime" <~ rd_int32;
    "tempMaxRain" <~ rd_float32;
    "oreTier1" <~ rd_int32;
    "oreTier2" <~ rd_int32;
    "oreTier3" <~ rd_int32;
    "setBG0" <~ rd_uint8;
    "setBG1" <~ rd_uint8;
    "setBG2" <~ rd_uint8;
    "setBG3" <~ rd_uint8;
    "setBG4" <~ rd_uint8;
    "setBG5" <~ rd_uint8;
    "setBG6" <~ rd_uint8;
    "setBG7" <~ rd_uint8;
    "cloudBGActive" <~ rd_int32;
    "numClouds" <~ rd_int16;
    "windSpeed" <~ rd_float32;
    "anglerWhoFinishedToday" <~ rd_string_list readInt32;
    "savedAngler" <~ rd_bool;
    "anglerQuest" <~ rd_int32;
    "savedStylist" <~ rd_bool;
    "savedTaxCollector" <~ rd_bool;
    since 225 ["savedGolfer" <~ rd_bool];
    "invasionSizeStart" <~ rd_int32;
    "tempCultistDelay" <~ rd_int32;
    "killCount" <~ rd_int32_list readInt16;
    "fastForwardTimeToDawn" <~ rd_bool;
    "downedFishron" <~ rd_bool;
    "downedMartians" <~ rd_bool;
    "downedAncientCultist" <~ rd_bool;
    "downedMoonlord" <~ rd_bool;
    "downedHalloweenKing" <~ rd_bool;
    "downedHalloweenTree" <~ rd_bool;
    "downedChristmasIceQueen" <~ rd_bool;
    "downedChristmasSantank" <~ rd_bool;
    "downedChristmasTree" <~ rd_bool;
    "downedTowerSolar" <~ rd_bool;
    "downedTowerVortex" <~ rd_bool;
    "downedTowerNebula" <~ rd_bool;
    "downedTowerStardust" <~ rd_bool;
    "TowerActiveSolar" <~ rd_bool;
    "TowerActiveVortex" <~ rd_bool;
    "TowerActiveNebula" <~ rd_bool;
    "TowerActiveStardust" <~ rd_bool;
    "LunarApocalypseIsUp" <~ rd_bool;
    "tempPartyManual" <~ rd_bool;
    "tempPartyGenuine" <~ rd_bool;
    "tempPartyCooldown" <~ rd_int32;
    "tempPartyCelebratingNPCs" <~ rd_int32_list readInt32;
    "Temp_Sandstorm_Happening" <~ rd_bool;
    "Temp_Sandstorm_TimeLeft" <~ rd_int32;
    "Temp_Sandstorm_Severity" <~ rd_float32;
    "Temp_Sandstorm_IntendedSeverity" <~ rd_float32;
    "savedBartender" <~ rd_bool;
    "DD2Event_DownedInvasionT1" <~ rd_bool;
    "DD2Event_DownedInvasionT2" <~ rd_bool;
    "DD2Event_DownedInvasionT3" <~ rd_bool;
    since 225 [
      "setBG8" <~ rd_uint8;
      "setBG9" <~ rd_uint8;
      "setBG10" <~ rd_uint8;
      "setBG11" <~ rd_uint8;
      "setBG12" <~ rd_uint8;
      "combatBookWasUsed" <~ rd_bool;
      "lanternNightCooldown" <~ rd_int32;
      "lanternNightGenuine" <~ rd_bool;
      "lanternNightManual" <~ rd_bool;
      "lanternNightNextNightIsGenuine" <~ rd_bool;
      "treeTopsVariations" <~ rd_int32_list readInt32;
      "forceHalloweenForToday" <~ rd_bool;
      "forceXMasForToday" <~ rd_bool;
      "savedOreTierCopper" <~ rd_int32;
      "savedOreTierIron" <~ rd_int32;
      "savedOreTierSilver" <~ rd_int32;
      "savedOreTierGold" <~ rd_int32;
      "boughtCat" <~ rd_bool;
      "boughtDog" <~ rd_bool;
      "boughtBunny" <~ rd_bool;
      "downedEmpressOfLight" <~ rd_bool;
      "downedQueenSlime" <~ rd_bool ];
    since 240 ["downedDeerclops" <~ rd_bool];
    since 269 [
      "unlockedSlimeBlueSpawn" <~ rd_bool;
      "unlockedMerchantSpawn" <~ rd_bool;
      "unlockedDemolitionistSpawn" <~ rd_bool;
      "unlockedPartyGirlSpawn" <~ rd_bool;
      "unlockedDyeTraderSpawn" <~ rd_bool;
      "unlockedTruffleSpawn" <~ rd_bool;
      "unlockedArmsDealerSpawn" <~ rd_bool;
      "unlockedNurseSpawn" <~ rd_bool;
      "unlockedPrincessSpawn" <~ rd_bool;
      "combatBookVolumeTwoWasUsed" <~ rd_bool;
      "peddlersSatchelWasUsed" <~ rd_bool;
      "unlockedSlimeGreenSpawn" <~ rd_bool;
      "unlockedSlimeOldSpawn" <~ rd_bool;
      "unlockedSlimePurpleSpawn" <~ rd_bool;
      "unlockedSlimeRainbowSpawn" <~ rd_bool;
      "unlockedSlimeRedSpawn" <~ rd_bool;
      "unlockedSlimeYellowSpawn" <~ rd_bool;
      "unlockedSlimeCopperSpawn" <~ rd_bool;
      "fastForwardTimeToDusk" <~ rd_bool;
      "moondialCooldown" <~ rd_uint8 ]
].

Definition parseHeader : M header := run_steps header_steps ∅.

End HeaderDecoder.

(** ** The entry point [parse] *)

(** The declared type of the argument of [parse]; only the presence of the
    callback matters, its calls are recorded in [calls]. *)
Record options : Type := mkOptions {
  sections : list string;
  progressCallback : bool
}.

(** The object returned by [parse]. *)
Record parse_result : Type := mkResult {
  r_header : option header;
  r_tiles : option (js_array (js_array Tile))
}.

(** [toLowerCase] on the letters A-Z; no other character lower-cases to
    a letter of "header" or "tiles" on its own. *)
Definition lower_ascii (c : Ascii.ascii) : Ascii.ascii :=
  let n := Ascii.nat_of_ascii c in
  if bool_decide (65 ≤ n ∧ n ≤ 90)%nat then Ascii.ascii_of_nat (n + 32) else c.

Fixpoint toLowerCase (s : string) : string :=
  match s with
  | EmptyString => EmptyString
  | String c s' => String (lower_ascii c) (toLowerCase s')
  end.

Definition includes (l : list string) (name : string) : bool :=
  bool_decide (name ∈ l).

(** [this.options = { sections: ..., progressCallback: undefined,
    ignorePointers: false, ...options }]: the new object has no
    [ignoreBounds] member, so the reads are strict from here on. *)
Definition assign_options : M unit :=
  fun s => Ok tt (mkParser (offset s) (buffer s) false (RLE s) (hook s) (calls s)).

(** Lines 617-633: the accessor pair defined on [offset]. *)
Definition install_progress : M unit :=
  fun s =>
    let one := byteLength s / 100 in
    Ok tt (mkParser (offset s) (buffer s) (ignoreBounds s) (RLE s)
             (Some (mkProgress one one 0)) (calls s)).

(** [this.world.pointers[idx]]; a missing entry is [undefined], which the
    next [+=] turns into NaN and which compares like NaN until then. *)
Definition pointer (world : WorldNecessary) (idx : nat) : jsnum :=
  match pointers world !! idx with Some z => Num z | None => NaN end.

(** [parse(options)].  The parser object is expected without an accessor
    on [offset] unless this call installs one (a new parser per file, as
    in [doConvert]): [hook] stands for an accessor whose callback is still
    in [this.options].  A parser that keeps the accessor of an earlier
    call and is parsed again without a callback is outside this reading;
    there the setter of the source finds no callback to call and throws
    [TypeError] at the next percentage. *)
Definition parse (opts : options) : M parse_result :=
  assign_options;;
  let wanted := map toLowerCase (sections opts) in
  (if progressCallback opts then install_progress else mret tt);;
  world ← parseNecessaryData;
  hdr ← (if includes wanted "header" then
           set_offset (pointer world 1);;
           h ← parseHeader world; mret (Some h)
         else mret None);
  tls ← (if includes wanted "tiles" then
           set_offset (pointer world 2);;
           t ← parseWorldTiles world; mret (Some t)
         else mret None);
  mret (mkResult hdr tls).

(** [new TerrariaWorldParser()] followed by [loadFile]: the world parser
    starts with [options = {}], that is, in strict mode. *)
Definition new_parser (bytes : list byte) : parser :=
  mkParser (Num 0) bytes false 0 None [].

(** ** Colour tables and the per-cell colour rule *)

Definition color : Type := Z * Z * Z.

Definition TILE_COLORS : list (Z * color) := [
  (0, (151, 107, 75)); (1, (128, 128, 128)); (2, (28, 216, 94));
  (3, (27, 197, 109)); (4, (253, 221, 3)); (5, (151, 107, 75));
  (6, (140, 101, 80)); (7, (150, 67, 22)); (8, (185, 164, 23));
  (9, (185, 194, 195)); (10, (119, 105, 79)); (11, (119, 105, 79));
  (12, (174, 24, 69)); (13, (133, 213, 247)); (14, (191, 142, 111));
  (15, (191, 142, 111)); (16, (140, 130, 116)); (17, (144, 148, 144));
  (18, (191, 142, 111)); (19, (191, 142, 111)); (20, (163, 116, 81));
  (21, (233, 207, 94)); (22, (98, 95, 167)); (23, (141, 137, 223));
  (24, (122, 116, 218)); (25, (109, 90, 128)); (26, (119, 101, 125));
  (27, (226, 196, 49)); (28, (151, 79, 80)); (29, (175, 105, 128));
  (30, (170, 120, 84)); (31, (141, 120, 168)); (32, (151, 135, 183));
  (33, (253, 221, 3)); (34, (235, 166, 135)); (35, (197, 216, 219));
  (36, (230, 89, 92)); (37, (104, 86, 84)); (38, (144, 144, 144));
  (39, (181, 62, 59)); (40, (146, 81, 68)); (41, (66, 84, 109));
  (42, (251, 235, 127)); (43, (84, 100, 63)); (44, (107, 68, 99));
  (45, (185, 164, 23)); (46, (185, 194, 195)); (47, (150, 67, 22));
  (48, (128, 128, 128)); (49, (43, 143, 255)); (50, (170, 48, 114));
  (51, (192, 202, 203)); (52, (23, 177, 76)); (53, (255, 218, 56));
  (54, (200, 246, 254)); (55, (191, 142, 111)); (56, (43, 40, 84));
  (57, (68, 68, 76)); (58, (142, 66, 66)); (59, (92, 68, 73));
  (60, (143, 215, 29)); (61, (135, 196, 26)); (62, (121, 176, 24));
  (63, (110, 140, 182)); (64, (196, 96, 114)); (65, (56, 150, 97));
  (66, (160, 118, 58)); (67, (140, 58, 166)); (68, (125, 191, 197));
  (69, (190, 150, 92)); (70, (93, 127, 255)); (71, (182, 175, 130));
  (72, (182, 175, 130)); (73, (27, 197, 109)); (74, (96, 197, 27));
  (75, (36, 36, 36)); (76, (142, 66, 66)); (77, (238, 85, 70));
  (78, (121, 110, 97)); (79, (191, 142, 111)); (80, (73, 120, 17));
  (81, (245, 133, 191)); (82, (255, 120, 0)); (83, (255, 120, 0));
  (84, (255, 120, 0)); (85, (192, 192, 192)); (86, (191, 142, 111));
  (87, (191, 142, 111)); (88, (191, 142, 111)); (89, (191, 142, 111));
  (90, (144, 148, 144)); (91, (13, 88, 130)); (92, (213, 229, 237));
  (93, (253, 221, 3)); (94, (191, 142, 111)); (95, (255, 162, 31));
  (96, (144, 148, 144)); (97, (144, 148, 144)); (98, (253, 221, 3));
  (99, (144, 148, 144)); (100, (253, 221, 3)); (101, (191, 142, 111));
  (102, (229, 212, 73)); (103, (141, 98, 77)); (104, (191, 142, 111));
  (105, (144, 148, 144)); (106, (191, 142, 111)); (107, (11, 80, 143));
  (108, (91, 169, 169)); (109, (78, 193, 227)); (110, (48, 186, 135));
  (111, (128, 26, 52)); (112, (103, 98, 122)); (113, (48, 208, 234));
  (114, (191, 142, 111)); (115, (33, 171, 207)); (116, (238, 225, 218));
  (117, (181, 172, 190)); (118, (238, 225, 218)); (119, (107, 92, 108));
  (120, (92, 68, 73)); (121, (11, 80, 143)); (122, (91, 169, 169));
  (123, (106, 107, 118)); (124, (73, 51, 36)); (125, (141, 175, 255));
  (126, (159, 209, 229)); (127, (128, 204, 230)); (128, (191, 142, 111));
  (129, (255, 117, 224)); (130, (160, 160, 160)); (131, (52, 52, 52));
  (132, (144, 148, 144)); (133, (231, 53, 56)); (134, (166, 187, 153));
  (135, (253, 114, 114)); (136, (213, 203, 204)); (137, (144, 148, 144));
  (138, (96, 96, 96)); (139, (191, 142, 111)); (140, (98, 95, 167));
  (141, (192, 59, 59)); (142, (144, 148, 144)); (143, (144, 148, 144));
  (144, (144, 148, 144)); (145, (192, 30, 30)); (146, (43, 192, 30));
  (147, (211, 236, 241)); (148, (181, 211, 210)); (149, (220, 50, 50));
  (150, (128, 26, 52)); (151, (190, 171, 94)); (152, (128, 133, 184));
  (153, (239, 141, 126)); (154, (190, 171, 94)); (155, (131, 162, 161));
  (156, (170, 171, 157)); (157, (104, 100, 126)); (158, (145, 81, 85));
  (159, (148, 133, 98)); (160, (0, 0, 200)); (161, (144, 195, 232));
  (162, (184, 219, 240)); (163, (174, 145, 214)); (164, (218, 182, 204));
  (165, (100, 100, 100)); (166, (129, 125, 93)); (167, (62, 82, 114));
  (168, (132, 157, 127)); (169, (152, 171, 198)); (170, (228, 219, 162));
  (171, (33, 135, 85)); (172, (181, 194, 217)); (173, (253, 221, 3));
  (174, (253, 221, 3)); (175, (129, 125, 93)); (176, (132, 157, 127));
  (177, (152, 171, 198)); (178, (255, 0, 255)); (179, (49, 134, 114));
  (180, (126, 134, 49)); (181, (134, 59, 49)); (182, (43, 86, 140));
  (183, (121, 49, 134)); (184, (100, 100, 100)); (185, (149, 149, 115));
  (186, (255, 0, 255)); (187, (255, 0, 255)); (188, (73, 120, 17));
  (189, (223, 255, 255)); (190, (182, 175, 130)); (191, (151, 107, 75));
  (192, (26, 196, 84)); (193, (56, 121, 255)); (194, (157, 157, 107));
  (195, (134, 22, 34)); (196, (147, 144, 178)); (197, (97, 200, 225));
  (198, (62, 61, 52)); (199, (208, 80, 80)); (200, (216, 152, 144));
  (201, (203, 61, 64)); (202, (213, 178, 28)); (203, (128, 44, 45));
  (204, (125, 55, 65)); (205, (186, 50, 52)); (206, (124, 175, 201));
  (207, (144, 148, 144)); (208, (88, 105, 118)); (209, (144, 148, 144));
  (210, (192, 59, 59)); (211, (191, 233, 115)); (212, (144, 148, 144));
  (213, (137, 120, 67)); (214, (103, 103, 103)); (215, (254, 121, 2));
  (216, (191, 142, 111)); (217, (144, 148, 144)); (218, (144, 148, 144));
  (219, (144, 148, 144)); (220, (144, 148, 144)); (221, (239, 90, 50));
  (222, (231, 96, 228)); (223, (57, 85, 101)); (224, (107, 132, 139));
  (225, (227, 125, 22)); (226, (141, 56, 0)); (227, (255, 255, 255));
  (228, (144, 148, 144)); (229, (255, 156, 12)); (230, (131, 79, 13));
  (231, (224, 194, 101)); (232, (145, 81, 85)); (233, (255, 0, 255));
  (234, (53, 44, 41)); (235, (214, 184, 46)); (236, (149, 232, 87));
  (237, (255, 241, 51)); (238, (225, 128, 206)); (239, (224, 194, 101));
  (240, (99, 50, 30)); (241, (77, 74, 72)); (242, (99, 50, 30));
  (243, (140, 179, 254)); (244, (200, 245, 253)); (245, (99, 50, 30));
  (246, (99, 50, 30)); (247, (140, 150, 150)); (248, (219, 71, 38));
  (249, (249, 52, 243)); (250, (76, 74, 83)); (251, (235, 150, 23));
  (252, (153, 131, 44)); (253, (57, 48, 97)); (254, (248, 158, 92));
  (255, (107, 49, 154)); (256, (154, 148, 49)); (257, (49, 49, 154));
  (258, (49, 154, 68)); (259, (154, 49, 77)); (260, (85, 89, 118));
  (261, (154, 83, 49)); (262, (221, 79, 255)); (263, (250, 255, 79));
  (264, (79, 102, 255)); (265, (79, 255, 89)); (266, (255, 79, 79));
  (267, (240, 240, 247)); (268, (255, 145, 79)); (269, (191, 142, 111));
  (270, (122, 217, 232)); (271, (122, 217, 232)); (272, (121, 119, 101));
  (273, (128, 128, 128)); (274, (190, 171, 94)); (275, (122, 217, 232));
  (276, (122, 217, 232)); (277, (122, 217, 232)); (278, (122, 217, 232));
  (279, (122, 217, 232)); (280, (122, 217, 232)); (281, (122, 217, 232));
  (282, (122, 217, 232)); (283, (128, 128, 128)); (284, (150, 67, 22));
  (285, (122, 217, 232)); (286, (122, 217, 232)); (287, (79, 128, 17));
  (288, (122, 217, 232)); (289, (122, 217, 232)); (290, (122, 217, 232));
  (291, (122, 217, 232)); (292, (122, 217, 232)); (293, (122, 217, 232));
  (294, (122, 217, 232)); (295, (122, 217, 232)); (296, (122, 217, 232));
  (297, (122, 217, 232)); (298, (122, 217, 232)); (299, (122, 217, 232));
  (300, (144, 148, 144)); (301, (144, 148, 144)); (302, (144, 148, 144));
  (303, (144, 148, 144)); (304, (144, 148, 144)); (305, (144, 148, 144));
  (306, (144, 148, 144)); (307, (144, 148, 144)); (308, (144, 148, 144));
  (309, (122, 217, 232)); (310, (122, 217, 232)); (311, (117, 61, 25));
  (312, (204, 93, 73)); (313, (87, 150, 154)); (314, (181, 164, 125));
  (315, (235, 114, 80)); (316, (122, 217, 232)); (317, (122, 217, 232));
  (318, (122, 217, 232)); (319, (96, 68, 48)); (320, (203, 185, 151));
  (321, (96, 77, 64)); (322, (198, 170, 104)); (323, (182, 141, 86));
  (324, (228, 213, 173)); (325, (129, 125, 93)); (326, (9, 61, 191));
  (327, (253, 32, 3)); (328, (200, 246, 254)); (329, (15, 15, 15));
  (330, (226, 118, 76)); (331, (161, 172, 173)); (332, (204, 181, 72));
  (333, (190, 190, 178)); (334, (191, 142, 111)); (335, (217, 174, 137));
  (336, (253, 62, 3)); (337, (144, 148, 144)); (338, (85, 255, 160));
  (339, (122, 217, 232)); (340, (96, 248, 2)); (341, (105, 74, 202));
  (342, (29, 240, 255)); (343, (254, 202, 80)); (344, (131, 252, 245));
  (345, (255, 156, 12)); (346, (149, 212, 89)); (347, (236, 74, 79));
  (348, (44, 26, 233)); (349, (144, 148, 144)); (350, (55, 97, 155));
  (351, (31, 31, 31)); (352, (238, 97, 94)); (353, (28, 216, 94));
  (354, (141, 107, 89)); (355, (141, 107, 89)); (356, (233, 203, 24));
  (357, (168, 178, 204)); (358, (122, 217, 232)); (359, (122, 217, 232));
  (360, (122, 217, 232)); (361, (122, 217, 232)); (362, (122, 217, 232));
  (363, (122, 217, 232)); (364, (122, 217, 232)); (365, (146, 136, 205));
  (366, (223, 232, 233)); (367, (168, 178, 204)); (368, (50, 46, 104));
  (369, (50, 46, 104)); (370, (127, 116, 194)); (371, (249, 101, 189));
  (372, (252, 128, 201)); (373, (9, 61, 191)); (374, (253, 32, 3));
  (375, (255, 156, 12)); (376, (160, 120, 92)); (377, (191, 142, 111));
  (378, (160, 120, 100)); (379, (251, 209, 240)); (380, (191, 142, 111));
  (381, (254, 121, 2)); (382, (28, 216, 94)); (383, (221, 136, 144));
  (384, (131, 206, 12)); (385, (87, 21, 144)); (386, (127, 92, 69));
  (387, (127, 92, 69)); (388, (127, 92, 69)); (389, (127, 92, 69));
  (390, (253, 32, 3)); (391, (122, 217, 232)); (392, (122, 217, 232));
  (393, (122, 217, 232)); (394, (122, 217, 232)); (395, (191, 142, 111));
  (396, (198, 124, 78)); (397, (212, 192, 100)); (398, (100, 82, 126));
  (399, (77, 76, 66)); (400, (96, 68, 117)); (401, (68, 60, 51));
  (402, (174, 168, 186)); (403, (205, 152, 186)); (404, (140, 84, 60));
  (405, (140, 140, 140)); (406, (120, 120, 120)); (407, (255, 227, 132));
  (408, (85, 83, 82)); (409, (85, 83, 82)); (410, (75, 139, 166));
  (411, (227, 46, 46)); (412, (75, 139, 166)); (413, (122, 217, 232));
  (414, (122, 217, 232)); (415, (249, 75, 7)); (416, (0, 160, 170));
  (417, (160, 87, 234)); (418, (22, 173, 254)); (419, (117, 125, 151));
  (420, (255, 255, 255)); (421, (73, 70, 70)); (422, (73, 70, 70));
  (423, (255, 255, 255)); (424, (146, 155, 187)); (425, (174, 195, 215));
  (426, (77, 11, 35)); (427, (119, 22, 52)); (428, (255, 255, 255));
  (429, (63, 63, 63)); (430, (23, 119, 79)); (431, (23, 54, 119));
  (432, (119, 68, 23)); (433, (74, 23, 119)); (434, (78, 82, 109));
  (435, (39, 168, 96)); (436, (39, 94, 168)); (437, (168, 121, 39));
  (438, (111, 39, 168)); (439, (150, 148, 174)); (440, (255, 255, 255));
  (441, (255, 255, 255)); (442, (3, 144, 201)); (443, (123, 123, 123));
  (444, (191, 176, 124)); (445, (55, 55, 73)); (446, (255, 66, 152));
  (447, (179, 132, 255)); (448, (0, 206, 180)); (449, (91, 186, 240));
  (450, (92, 240, 91)); (451, (240, 91, 147)); (452, (255, 150, 181));
  (453, (255, 255, 255)); (454, (174, 16, 176)); (455, (48, 255, 110));
  (456, (179, 132, 255)); (457, (255, 255, 255)); (458, (211, 198, 111));
  (459, (190, 223, 232)); (460, (141, 163, 181)); (461, (255, 222, 100));
  (462, (231, 178, 28)); (463, (155, 214, 240)); (464, (233, 183, 128));
  (465, (51, 84, 195)); (466, (205, 153, 73)); (467, (233, 207, 94));
  (468, (255, 255, 255)); (469, (191, 142, 111)); (583, (113, 113, 113));
  (584, (113, 113, 113)); (585, (113, 113, 113)); (587, (113, 113, 113));
  (588, (113, 113, 113)); (589, (113, 113, 113)); (596, (110, 91, 77));
  (616, (133, 79, 77))
].

Definition WALL_COLORS : list (Z * color) := [
  (0, (0, 0, 0)); (1, (53, 53, 53)); (2, (87, 60, 48)); (3, (47, 41, 53));
  (4, (69, 50, 37)); (5, (59, 59, 59)); (6, (76, 44, 41)); (7, (46, 50, 67));
  (8, (49, 61, 61)); (9, (75, 46, 70)); (10, (107, 91, 34));
  (11, (79, 85, 86)); (12, (101, 57, 25)); (13, (77, 48, 43));
  (14, (12, 12, 12)); (15, (49, 43, 44)); (16, (81, 63, 54));
  (17, (46, 50, 67)); (18, (49, 61, 61)); (19, (75, 46, 70));
  (20, (12, 12, 12)); (21, (54, 89, 98)); (22, (97, 92, 94));
  (23, (56, 44, 58)); (24, (49, 40, 42)); (25, (18, 66, 98));
  (26, (34, 64, 54)); (27, (58, 48, 42)); (28, (77, 70, 81));
  (29, (112, 58, 68)); (30, (56, 115, 80)); (31, (94, 101, 108));
  (32, (102, 20, 48)); (33, (48, 48, 73)); (34, (86, 83, 57));
  (35, (54, 59, 82)); (36, (124, 70, 63)); (37, (89, 84, 55));
  (38, (60, 90, 70)); (39, (89, 89, 84)); (40, (100, 118, 129));
  (41, (57, 55, 64)); (42, (62, 25, 27)); (43, (60, 55, 44));
  (44, (51, 51, 51)); (45, (65, 63, 57)); (46, (68, 83, 69));
  (47, (66, 70, 82)); (48, (78, 69, 83)); (49, (81, 74, 63));
  (50, (56, 66, 81)); (51, (50, 73, 59)); (52, (82, 59, 64));
  (53, (70, 79, 81)); (54, (46, 58, 54)); (55, (56, 56, 46));
  (56, (57, 49, 49)); (57, (45, 51, 56)); (58, (56, 48, 59));
  (59, (80, 63, 55)); (60, (0, 49, 17)); (61, (55, 40, 28));
  (62, (32, 28, 22)); (63, (25, 67, 38)); (64, (47, 67, 25));
  (65, (25, 67, 38)); (66, (25, 67, 38)); (67, (47, 67, 25));
  (68, (25, 67, 38)); (69, (36, 37, 57)); (70, (25, 61, 67));
  (71, (82, 108, 134)); (72, (45, 84, 24)); (73, (211, 217, 219));
  (74, (54, 60, 113)); (75, (61, 61, 44)); (76, (26, 51, 111));
  (77, (75, 18, 22)); (78, (58, 35, 24)); (79, (36, 33, 65));
  (80, (54, 60, 113)); (81, (101, 52, 52)); (82, (56, 19, 0));
  (83, (62, 44, 45)); (84, (78, 105, 131)); (85, (32, 39, 45));
  (86, (121, 80, 36)); (87, (28, 8, 10)); (88, (115, 68, 124));
  (89, (129, 114, 74)); (90, (62, 86, 123)); (91, (90, 121, 94));
  (92, (135, 62, 61)); (93, (100, 96, 103)); (94, (36, 48, 57));
  (95, (48, 46, 58)); (96, (71, 46, 73)); (97, (76, 46, 64));
  (98, (51, 63, 57)); (99, (49, 58, 64)); (100, (36, 48, 57));
  (101, (48, 46, 58)); (102, (71, 46, 73)); (103, (76, 46, 64));
  (104, (51, 63, 57)); (105, (49, 58, 64)); (106, (97, 72, 51));
  (107, (53, 53, 53)); (108, (121, 80, 36)); (109, (110, 37, 19));
  (110, (135, 57, 137)); (111, (33, 25, 21)); (112, (28, 8, 10));
  (113, (160, 75, 7)); (114, (54, 42, 19)); (115, (42, 30, 53));
  (116, (60, 34, 25)); (117, (91, 83, 64)); (118, (59, 61, 54));
  (119, (47, 39, 25)); (120, (80, 88, 111)); (121, (186, 167, 138));
  (122, (110, 119, 143)); (123, (138, 128, 110)); (124, (7, 48, 30));
  (125, (78, 103, 70)); (126, (109, 111, 123)); (127, (112, 166, 226));
  (128, (69, 56, 140)); (129, (72, 44, 145)); (130, (114, 85, 121));
  (131, (104, 119, 158)); (132, (74, 74, 74)); (133, (95, 119, 191));
  (134, (144, 79, 22)); (135, (62, 130, 138)); (136, (61, 98, 169));
  (137, (183, 84, 14)); (138, (61, 57, 69)); (139, (74, 32, 34));
  (140, (110, 100, 76)); (141, (66, 70, 60)); (142, (214, 206, 187));
  (143, (83, 106, 99)); (144, (89, 67, 68)); (145, (120, 120, 120));
  (146, (103, 55, 24)); (147, (77, 77, 77)); (148, (229, 218, 161));
  (149, (82, 70, 65)); (150, (81, 69, 62)); (151, (103, 76, 36));
  (152, (103, 76, 36)); (153, (255, 116, 63)); (154, (191, 63, 255));
  (155, (219, 219, 232)); (156, (63, 255, 71)); (157, (118, 63, 37));
  (158, (81, 37, 118)); (159, (64, 67, 89)); (160, (37, 118, 52));
  (161, (118, 37, 58)); (162, (37, 37, 118)); (163, (118, 113, 37));
  (164, (255, 63, 63)); (165, (63, 81, 255)); (166, (239, 255, 63));
  (167, (78, 77, 58)); (168, (84, 97, 84)); (169, (92, 105, 90));
  (170, (93, 68, 47)); (171, (84, 60, 39)); (172, (168, 125, 0));
  (173, (49, 105, 25)); (174, (69, 48, 54)); (175, (33, 50, 188));
  (176, (75, 128, 148)); (177, (72, 50, 46)); (178, (120, 127, 143));
  (179, (124, 131, 148)); (180, (15, 16, 45)); (181, (31, 31, 74));
  (182, (57, 55, 99)); (183, (120, 127, 143)); (184, (15, 16, 45));
  (185, (61, 61, 61)); (186, (55, 23, 100)); (187, (126, 68, 43));
  (188, (63, 47, 63)); (189, (65, 51, 77)); (190, (67, 72, 59));
  (191, (60, 38, 67)); (192, (123, 56, 47)); (193, (87, 24, 26));
  (194, (102, 64, 53)); (195, (122, 46, 54)); (196, (99, 70, 55));
  (197, (102, 73, 57)); (198, (92, 65, 49)); (199, (106, 75, 58));
  (200, (81, 33, 83)); (201, (96, 79, 99)); (202, (124, 42, 104));
  (203, (111, 54, 112)); (204, (75, 68, 55)); (205, (83, 83, 59));
  (206, (39, 67, 44)); (207, (77, 77, 55)); (208, (92, 36, 28));
  (209, (96, 48, 39)); (210, (108, 44, 26)); (211, (106, 42, 38));
  (212, (70, 69, 61)); (213, (57, 60, 57)); (214, (69, 57, 59));
  (215, (71, 60, 66)); (216, (148, 93, 52)); (217, (51, 38, 65));
  (218, (43, 24, 22)); (219, (78, 73, 114)); (220, (54, 36, 68));
  (221, (73, 18, 12)); (222, (58, 47, 81)); (223, (115, 65, 34));
  (224, (103, 112, 104)); (225, (76, 71, 56)); (226, (133, 124, 66));
  (227, (83, 101, 112)); (228, (139, 0, 64)); (229, (80, 12, 162));
  (230, (0, 93, 81)); (231, (81, 68, 62)); (232, (37, 47, 57));
  (233, (72, 53, 55)); (234, (103, 46, 48)); (235, (126, 68, 43));
  (236, (63, 35, 34)); (237, (57, 34, 33)); (238, (45, 46, 54));
  (239, (43, 52, 56)); (240, (62, 45, 33)); (241, (146, 95, 53));
  (242, (78, 69, 55)); (243, (23, 52, 86)); (244, (58, 35, 24));
  (245, (74, 74, 74)); (246, (47, 41, 53)); (247, (49, 43, 44));
  (248, (77, 70, 81)); (249, (100, 118, 129)); (250, (78, 69, 83));
  (251, (81, 74, 63)); (252, (56, 66, 81)); (253, (50, 73, 59));
  (254, (82, 59, 64)); (255, (70, 79, 81)); (256, (46, 58, 54));
  (257, (56, 56, 46)); (258, (57, 49, 49)); (259, (45, 51, 56));
  (260, (56, 48, 59)); (261, (80, 63, 55)); (262, (55, 40, 28));
  (263, (32, 28, 22)); (264, (36, 37, 57)); (265, (25, 61, 67));
  (266, (82, 108, 134)); (267, (36, 33, 65)); (268, (101, 52, 52));
  (269, (62, 44, 45)); (270, (93, 68, 47)); (271, (84, 60, 39));
  (272, (120, 127, 143)); (273, (15, 16, 45)); (274, (61, 61, 61));
  (275, (126, 68, 43)); (276, (63, 47, 63)); (277, (65, 51, 77));
  (278, (67, 72, 59)); (279, (60, 38, 67)); (280, (123, 56, 47));
  (281, (87, 24, 26)); (282, (102, 64, 53)); (283, (122, 46, 54));
  (284, (99, 70, 55)); (285, (102, 73, 57)); (286, (92, 65, 49));
  (287, (106, 75, 58)); (288, (81, 33, 83)); (289, (96, 79, 99));
  (290, (124, 42, 104)); (291, (111, 54, 112)); (292, (75, 68, 55));
  (293, (83, 83, 59)); (294, (39, 67, 44)); (295, (77, 77, 55));
  (296, (92, 36, 28)); (297, (96, 48, 39)); (298, (108, 44, 26));
  (299, (106, 42, 38)); (300, (70, 69, 61)); (301, (57, 60, 57));
  (302, (69, 57, 59)); (303, (71, 60, 66)); (304, (148, 93, 52));
  (305, (51, 38, 65)); (306, (43, 24, 22)); (307, (78, 73, 114));
  (308, (54, 36, 68)); (309, (73, 18, 12)); (310, (58, 47, 81));
  (311, (115, 65, 34)); (312, (36, 65, 16)); (313, (33, 61, 19));
  (314, (74, 58, 44)); (315, (114, 120, 45)); (316, (58, 52, 64));
  (317, (80, 70, 82)); (318, (6, 6, 34)); (319, (91, 48, 82));
  (320, (66, 39, 27)); (321, (62, 83, 108)); (322, (58, 84, 115));
  (323, (99, 94, 105)); (324, (80, 92, 104)); (325, (56, 95, 124));
  (326, (92, 94, 80)); (327, (62, 102, 116)); (328, (98, 103, 105));
  (329, (87, 92, 118)); (330, (84, 89, 105)); (331, (42, 44, 81));
  (332, (34, 66, 26)); (333, (64, 25, 49)); (334, (76, 66, 32));
  (335, (60, 65, 67)); (336, (76, 45, 32)); (337, (37, 36, 59));
  (338, (57, 34, 32)); (339, (19, 43, 60)); (340, (42, 67, 60));
  (341, (104, 23, 0)); (342, (91, 9, 65)); (343, (17, 89, 43));
  (344, (5, 65, 94)); (345, (58, 6, 81)); (346, (255, 0, 255));
  (347, (255, 0, 255)); (348, (255, 0, 255)); (349, (255, 0, 255));
  (350, (255, 0, 255)); (351, (255, 0, 255)); (352, (255, 0, 255));
  (353, (255, 0, 255)); (354, (255, 0, 255)); (355, (255, 0, 255));
  (356, (255, 0, 255)); (357, (255, 0, 255)); (358, (255, 0, 255));
  (359, (255, 0, 255)); (360, (255, 0, 255)); (361, (255, 0, 255));
  (362, (255, 0, 255)); (363, (255, 0, 255)); (364, (255, 0, 255));
  (365, (255, 0, 255)); (366, (255, 0, 255))
].

(** [TABLE[id]] *)
Fixpoint table_get (t : list (Z * color)) (id : Z) : option color :=
  match t with
  | [] => None
  | (k, c) :: t' => if k =? id then Some c else table_get t' id
  end.

Definition LIQUID_COLORS (l : liquid) : option color :=
  match l with
  | water => Some (9, 61, 191)
  | lava => Some (200, 60, 10)
  | honey => Some (180, 140, 20)
  | shimmer => Some (180, 120, 220)
  end.

Definition BG_SKY : color := (91, 172, 255).
Definition BG_UNDERGROUND : color := (73, 58, 50).
Definition BG_CAVERN : color := (52, 40, 32).
Definition BG_HELL : color := (47, 18, 5).

Definition MOD_TILE_COLORS : list color := [
  (160, 120, 120); (120, 160, 120); (120, 120, 160); (160, 160, 100);
  (100, 160, 160); (160, 100, 160); (140, 140, 120); (120, 140, 140)
].

Definition magenta : color := (255, 0, 255).
Definition dark_gray : color := (60, 60, 60).

(** A floored floating-point number. *)
Inductive bound : Type :=
  | Fin (z : Z)
  | PosInf
  | NegInf
  | Undef.

(** [y < b] for an integer [y]. *)
Definition below (y : Z) (b : bound) : bool :=
  match b with
  | Fin z => y <? z
  | PosInf => true
  | NegInf => false
  | Undef => false
  end.

(** [Math.floor] of the double whose bit pattern is [bits]. *)
Definition floor_f64 (bits : Z) : bound :=
  let negative := Z.testbit bits 63 in
  let e := Z.land (Z.shiftr bits 52) 2047 in
  let m := Z.land bits (2 ^ 52 - 1) in
  if e =? 2047 then
    if m =? 0 then (if negative then NegInf else PosInf) else Undef
  else
    let mant := if e =? 0 then m else 2 ^ 52 + m in
    let k := (if e =? 0 then 1 else e) - 1075 in
    let signed := if negative then - mant else mant in
    Fin (if 0 <=? k then Z.shiftl signed k else Z.shiftr signed (- k)).

(** Lines 1597-1612: the colour of the cell at row [y]. *)
Definition cell_color (surface rockLayer : bound) (hellLayer : Z)
    (y : Z) (tile : Tile) : option color :=
  match blockId tile with
  | Some id =>
      if 419 <? id
      then MOD_TILE_COLORS !! Z.to_nat (id mod Z.of_nat (length MOD_TILE_COLORS))
      else Some (default magenta (table_get TILE_COLORS id))
  | None =>
      match liquidType tile with
      | Some l => Some (default (9, 61, 191) (LIQUID_COLORS l))
      | None =>
          if match wallId tile with Some w => 0 <? w | None => false end
          then Some (default dark_gray
                       (table_get WALL_COLORS (default 0 (wallId tile))))
          else
            Some (if below y surface then BG_SKY
                  else if below y rockLayer then BG_UNDERGROUND
                  else if y <? hellLayer then BG_CAVERN
                  else BG_HELL)
      end
  end.

(** ** Vocabulary of the statements *)

(** The typed reads of the cursor with their declared byte widths. *)
Definition typed_reads : list (Z * M Z) := [
  (1, readUInt8); (2, readInt16); (2, readUInt16); (4, readInt32);
  (4, readUInt32); (4, readFloat32); (8, readFloat64)
].

(** The parser object a call leaves behind, when it comes back at all. *)
Definition after {A} (o : outcome A) : option parser :=
  match o with
  | Ok _ s => Some s
  | Throw _ s => Some s
  | Diverge => None
  end.

(** The offset is a number. *)
Definition numeric (s : parser) : Prop := exists o, offset s = Num o.

(** The offset is a number, the buffer is [bytes] and the mode is [mode]. *)
Definition steady (bytes : list byte) (mode : bool) (s : parser) : Prop :=
  numeric s /\ buffer s = bytes /\ ignoreBounds s = mode.

(** [m] comes back (returning or throwing) from every state satisfying
    [P], in a state that satisfies [P] again. *)
Definition safe (P : parser -> Prop) {A} (m : M A) : Prop :=
  forall s, P s ->
    match m s with
    | Ok _ s' => P s'
    | Throw _ s' => P s'
    | Diverge => False
    end.

(** [m] comes back, returning or throwing, from every state. *)
Definition returns {A} (m : M A) : Prop := forall s, m s <> Diverge.

(** The byte at index [i] of the buffer, 0 past its end: what a lenient
    one-byte read yields. *)
Definition byte_or_zero (bytes : list byte) (i : nat) : Z :=
  match bytes !! i with Some b => u8 b | None => 0 end.

(** The three preamble fields the validator checks, as they lie in the
    buffer: version at bytes 0-3, magic at bytes 4-10, tag at byte 11. *)
Definition version_of (bytes : list byte) : Z := le_signed 32 (take 4 bytes).

Definition magic_of (bytes : list byte) : list Z := map u8 (take 7 (drop 4 bytes)).

Definition tag_of (bytes : list byte) : option Z := u8 <$> bytes !! 11%nat.

(** Little-endian bytes of [z], [n] of them. *)
Definition le_bytes (n : nat) (z : Z) : list Z :=
  map (fun i => (z / 256 ^ Z.of_nat i) mod 256) (seq 0 n).

(** A complete preamble: two section pointers, no important-tile flags,
    two empty strings. *)
Definition sample_preamble (version ptr1 ptr2 height width : Z) : list Z :=
  le_bytes 4 version ++ relogic ++ [2] ++ replicate 12 0 ++
  [2; 0] ++ le_bytes 4 ptr1 ++ le_bytes 4 ptr2 ++
  [0; 0] ++ [0] ++ [0] ++ replicate 44 0 ++
  le_bytes 4 height ++ le_bytes 4 width.

(** A file of version 194 whose section table is empty. *)
Definition sample_no_pointers : list byte :=
  map byte_of_Z
    (le_bytes 4 194 ++ relogic ++ [2] ++
     replicate 12 0 ++ [0; 0] ++ [0; 0] ++ [0] ++ [0] ++ replicate 44 0 ++
     le_bytes 4 1 ++ le_bytes 4 1 ++ replicate 10 0).

(** [s1] and [s2] are strict parsers that differ only in that the buffer
    of [s2] continues the buffer of [s1]. *)
Definition extends (s1 s2 : parser) : Prop :=
  offset s1 = offset s2 /\ RLE s1 = RLE s2 /\ hook s1 = hook s2 /\
  calls s1 = calls s2 /\ ignoreBounds s1 = false /\ ignoreBounds s2 = false /\
  buffer s1 `prefix_of` buffer s2.

(** A successful run of [m] on the shorter buffer is repeated, value for
    value, on the longer one. *)
Definition mono {A} (m : M A) : Prop :=
  forall s1 s2 a s1', extends s1 s2 -> m s1 = Ok a s1' ->
    exists s2', m s2 = Ok a s2' /\ extends s1' s2'.

(** The two-bit liquid field of flag byte 1 and the kind it selects. *)
Definition liquid_field (f1 : Z) : Z := Z.land (Z.shiftr f1 3) 3.

Definition ordinary_liquid (k : Z) : liquid :=
  match k with 1 => water | 2 => lava | _ => honey end.

(** Bit [n] of a flag byte that may not have been read. *)
Definition flag_bit (f : option Z) (n : Z) : bool :=
  match f with Some z => Z.testbit z n | None => false end.

(** The four colour rules of the rasterizer, each on its own. *)
Definition block_rule (id : Z) : option color :=
  if 419 <? id
  then MOD_TILE_COLORS !! Z.to_nat (id mod Z.of_nat (length MOD_TILE_COLORS))
  else Some (match table_get TILE_COLORS id with Some c => c | None => magenta end).

Definition liquid_rule (l : liquid) : color :=
  match LIQUID_COLORS l with Some c => c | None => (9, 61, 191) end.

Definition wall_rule (id : Z) : color :=
  match table_get WALL_COLORS id with Some c => c | None => dark_gray end.

Definition background_rule (surface rockLayer : bound) (hellLayer y : Z) : color :=
  if below y surface then BG_SKY
  else if below y rockLayer then BG_UNDERGROUND
  else if y <? hellLayer then BG_CAVERN
  else BG_HELL.

(** ** Vocabulary of the header statements *)

(** [f] adds the members [K] to the object, whatever it was, and no other. *)
Definition writes (f : step) (K : list string) : Prop :=
  forall d s d' s', f d s = Ok d' s' ->
    forall k, is_Some (d' !! k) <-> is_Some (d !! k) \/ k ∈ K.

(** The members [parseHeader] assigns for structural version [v], in the
    order of the statements. *)
Definition header_keys (v : Z) : list string :=
  ["mapName"] ++ ["seedText"] ++ ["worldGeneratorVersion"] ++ ["guid"] ++
  ["guidString"] ++ ["worldId"] ++ ["leftWorld"] ++ ["rightWorld"] ++
  ["topWorld"] ++ ["bottomWorld"] ++ ["maxTilesY"] ++ ["maxTilesX"] ++
  (if 225 <=? v then
     ["gameMode"] ++ ["drunkWorld"] ++
     (if 227 <=? v then
        ["getGoodWorld"] ++ []
      else []) ++
     (if 238 <=? v then
        ["getTenthAnniversaryWorld"] ++ []
      else []) ++
     (if 239 <=? v then
        ["dontStarveWorld"] ++ []
      else []) ++
     (if 241 <=? v then
        ["notTheBeesWorld"] ++ []
      else []) ++
     (if 249 <=? v then
        ["remixWorld"] ++ []
      else []) ++
     (if 266 <=? v then
        ["noTrapsWorld"] ++ []
      else []) ++
     (if 267 <=? v then
        ["zenithWorld"] ++ []
      else []) ++
     []
   else
     ["expertMode"] ++ []) ++
  ["creationTime"] ++ ["moonType"] ++ ["treeX"] ++ ["treeStyle"] ++
  ["caveBackX"] ++ ["caveBackStyle"] ++ ["iceBackStyle"] ++
  ["jungleBackStyle"] ++ ["hellBackStyle"] ++ ["spawnTileX"] ++
  ["spawnTileY"] ++ ["worldSurface"] ++ ["rockLayer"] ++ ["tempTime"] ++
  ["tempDayTime"] ++ ["tempMoonPhase"] ++ ["tempBloodMoon"] ++
  ["tempEclipse"] ++ ["dungeonX"] ++ ["dungeonY"] ++ ["crimson"] ++
  ["downedBoss1"] ++ ["downedBoss2"] ++ ["downedBoss3"] ++
  ["downedQueenBee"] ++ ["downedMechBoss1"] ++ ["downedMechBoss2"] ++
  ["downedMechBoss3"] ++ ["downedMechBossAny"] ++ ["downedPlantBoss"] ++
  ["downedGolemBoss"] ++ ["downedSlimeKing"] ++ ["savedGoblin"] ++
  ["savedWizard"] ++ ["savedMech"] ++ ["downedGoblins"] ++
  ["downedClown"] ++ ["downedFrost"] ++ ["downedPirates"] ++
  ["shadowOrbSmashed"] ++ ["spawnMeteor"] ++ ["shadowOrbCount"] ++
  ["altarCount"] ++ ["hardMode"] ++ ["afterPartyOfDoom"] ++
  ["invasionDelay"] ++ ["invasionSize"] ++ ["invasionType"] ++
  ["invasionX"] ++ ["slimeRainTime"] ++ ["sundialCooldown"] ++
  ["tempRaining"] ++ ["tempRainTime"] ++ ["tempMaxRain"] ++ ["oreTier1"] ++
  ["oreTier2"] ++ ["oreTier3"] ++ ["setBG0"] ++ ["setBG1"] ++ ["setBG2"] ++
  ["setBG3"] ++ ["setBG4"] ++ ["setBG5"] ++ ["setBG6"] ++ ["setBG7"] ++
  ["cloudBGActive"] ++ ["numClouds"] ++ ["windSpeed"] ++
  ["anglerWhoFinishedToday"] ++ ["savedAngler"] ++ ["anglerQuest"] ++
  ["savedStylist"] ++ ["savedTaxCollector"] ++
  (if 225 <=? v then
     ["savedGolfer"] ++ []
   else []) ++
  ["invasionSizeStart"] ++ ["tempCultistDelay"] ++ ["killCount"] ++
  ["fastForwardTimeToDawn"] ++ ["downedFishron"] ++ ["downedMartians"] ++
  ["downedAncientCultist"] ++ ["downedMoonlord"] ++
  ["downedHalloweenKing"] ++ ["downedHalloweenTree"] ++
  ["downedChristmasIceQueen"] ++ ["downedChristmasSantank"] ++
  ["downedChristmasTree"] ++ ["downedTowerSolar"] ++
  ["downedTowerVortex"] ++ ["downedTowerNebula"] ++
  ["downedTowerStardust"] ++ ["TowerActiveSolar"] ++
  ["TowerActiveVortex"] ++ ["TowerActiveNebula"] ++
  ["TowerActiveStardust"] ++ ["LunarApocalypseIsUp"] ++
  ["tempPartyManual"] ++ ["tempPartyGenuine"] ++ ["tempPartyCooldown"] ++
  ["tempPartyCelebratingNPCs"] ++ ["Temp_Sandstorm_Happening"] ++
  ["Temp_Sandstorm_TimeLeft"] ++ ["Temp_Sandstorm_Severity"] ++
  ["Temp_Sandstorm_IntendedSeverity"] ++ ["savedBartender"] ++
  ["DD2Event_DownedInvasionT1"] ++ ["DD2Event_DownedInvasionT2"] ++
  ["DD2Event_DownedInvasionT3"] ++
  (if 225 <=? v then
     ["setBG8"] ++ ["setBG9"] ++ ["setBG10"] ++ ["setBG11"] ++
     ["setBG12"] ++ ["combatBookWasUsed"] ++ ["lanternNightCooldown"] ++
     ["lanternNightGenuine"] ++ ["lanternNightManual"] ++
     ["lanternNightNextNightIsGenuine"] ++ ["treeTopsVariations"] ++
     ["forceHalloweenForToday"] ++ ["forceXMasForToday"] ++
     ["savedOreTierCopper"] ++ ["savedOreTierIron"] ++
     ["savedOreTierSilver"] ++ ["savedOreTierGold"] ++ ["boughtCat"] ++
     ["boughtDog"] ++ ["boughtBunny"] ++ ["downedEmpressOfLight"] ++
     ["downedQueenSlime"] ++ []
   else []) ++
  (if 240 <=? v then
     ["downedDeerclops"] ++ []
   else []) ++
  (if 269 <=? v then
     ["unlockedSlimeBlueSpawn"] ++ ["unlockedMerchantSpawn"] ++
     ["unlockedDemolitionistSpawn"] ++ ["unlockedPartyGirlSpawn"] ++
     ["unlockedDyeTraderSpawn"] ++ ["unlockedTruffleSpawn"] ++
     ["unlockedArmsDealerSpawn"] ++ ["unlockedNurseSpawn"] ++
     ["unlockedPrincessSpawn"] ++ ["combatBookVolumeTwoWasUsed"] ++
     ["peddlersSatchelWasUsed"] ++ ["unlockedSlimeGreenSpawn"] ++
     ["unlockedSlimeOldSpawn"] ++ ["unlockedSlimePurpleSpawn"] ++
     ["unlockedSlimeRainbowSpawn"] ++ ["unlockedSlimeRedSpawn"] ++
     ["unlockedSlimeYellowSpawn"] ++ ["unlockedSlimeCopperSpawn"] ++
     ["fastForwardTimeToDusk"] ++ ["moondialCooldown"] ++ []
   else []) ++
  [].

(** The version tests of the form [if (this.world.version >= t)] with the
    members assigned directly under each. *)
Definition version_gates : list (Z * list string) := [
  (225, ["gameMode"; "drunkWorld"; "savedGolfer"; "setBG8"; "setBG9";
  "setBG10"; "setBG11"; "setBG12"; "combatBookWasUsed";
  "lanternNightCooldown"; "lanternNightGenuine"; "lanternNightManual";
  "lanternNightNextNightIsGenuine"; "treeTopsVariations";
  "forceHalloweenForToday"; "forceXMasForToday"; "savedOreTierCopper";
  "savedOreTierIron"; "savedOreTierSilver"; "savedOreTierGold"; "boughtCat";
  "boughtDog"; "boughtBunny"; "downedEmpressOfLight"; "downedQueenSlime"]);
  (227, ["getGoodWorld"]);
  (238, ["getTenthAnniversaryWorld"]);
  (239, ["dontStarveWorld"]);
  (240, ["downedDeerclops"]);
  (241, ["notTheBeesWorld"]);
  (249, ["remixWorld"]);
  (266, ["noTrapsWorld"]);
  (267, ["zenithWorld"]);
  (269, ["unlockedSlimeBlueSpawn"; "unlockedMerchantSpawn";
  "unlockedDemolitionistSpawn"; "unlockedPartyGirlSpawn";
  "unlockedDyeTraderSpawn"; "unlockedTruffleSpawn";
  "unlockedArmsDealerSpawn"; "unlockedNurseSpawn"; "unlockedPrincessSpawn";
  "combatBookVolumeTwoWasUsed"; "peddlersSatchelWasUsed";
  "unlockedSlimeGreenSpawn"; "unlockedSlimeOldSpawn";
  "unlockedSlimePurpleSpawn"; "unlockedSlimeRainbowSpawn";
  "unlockedSlimeRedSpawn"; "unlockedSlimeYellowSpawn";
  "unlockedSlimeCopperSpawn"; "fastForwardTimeToDusk"; "moondialCooldown"])
].

(** Membership in a list of names, as a computation. *)
Fixpoint mem (k : string) (l : list string) : bool :=
  match l with
  | [] => false
  | x :: l' => String.eqb k x || mem k l'
  end.

(** The gate table checked against [header_keys] at version [v]. *)
Definition gates_okb (v : Z) : bool :=
  forallb (fun g =>
    forallb (fun k => Bool.eqb (mem k (header_keys v)) (fst g <=? v)) (snd g))
    version_gates.

(** [f] leaves the member [k] of the object as it is. *)
Definition keeps_member (k : string) (f : step) : Prop :=
  forall d s d' s', f d s = Ok d' s' -> d' !! k = d !! k.

(** A file of version [v]: a complete preamble whose first section starts
    right after it, followed by 2000 zero bytes. *)
Definition sample_file (v : Z) : list byte :=
  map byte_of_Z (sample_preamble v 90 90 1 1 ++ replicate 2000 0).

(** The header [parse] returns for a new parser on [bytes], if any. *)
Definition decoded_header (opts : options) (bytes : list byte) : option header :=
  match parse opts (new_parser bytes) with
  | Ok r _ => r_header r
  | Throw _ _ => None
  | Diverge => None
  end.

(** The grid [parse] returns for a new parser on [bytes], if any. *)
Definition decoded_tiles (opts : options) (bytes : list byte)
  : option (js_array (js_array Tile)) :=
  match parse opts (new_parser bytes) with
  | Ok r _ => r_tiles r
  | Throw _ _ => None
  | Diverge => None
  end.

Definition header_only : options := mkOptions ["header"] false.
Definition tiles_only : options := mkOptions ["tiles"] false.

(** ** Vocabulary of the grid statements *)

(** One physical record of the tile stream: where it was decoded, the
    tile, and the value of [RLE] when [parseTileData] returned. *)
Record tile_record : Type := mkRecord {
  rec_x : nat;
  rec_y : nat;
  rec_tile : Tile;
  rec_run : Z
}.

(** [column_loop], [grid_loop] and [parseWorldTiles] once more, also
    returning the list of the records decoded, in stream order
    (lemma [parseWorldTiles_traced_grid]: the grid and the final state are
    those of [parseWorldTiles]). *)
Fixpoint column_loop_traced (world : WorldNecessary) (x : nat) (rounds : nat)
    (y : nat) (col : js_array Tile) (log : list tile_record)
  : M (js_array Tile * list tile_record) :=
  if Z.of_nat y <? height world then
    match rounds with
    | O => diverge
    | S k =>
        tile ← parseTileData world;
        let col := array_set y (Some tile) col in
        s ← get_parser;
        let log := log ++ [mkRecord x y tile (RLE s)] in
        '(y, col) ← run_copy (Z.to_nat (RLE s)) y col;
        column_loop_traced world x k (S y) col log
    end
  else mret (col, log).

Fixpoint grid_loop_traced (world : WorldNecessary) (rounds : nat) (x : nat)
    (data : js_array (js_array Tile)) (log : list tile_record)
  : M (js_array (js_array Tile) * list tile_record) :=
  match rounds with
  | O => mret (data, log)
  | S k =>
      col ← new_array (height world);
      '(col, log) ← column_loop_traced world x (Z.to_nat (height world)) 0 col log;
      grid_loop_traced world k (S x) (array_set x (Some col) data) log
  end.

Definition parseWorldTiles_traced (world : WorldNecessary)
  : M (js_array (js_array Tile) * list tile_record) :=
  set_RLE 0;;
  data ← new_array (width world);
  grid_loop_traced world (Z.to_nat (width world)) 0 data [].

(** The copies a run of [n] makes below row [y]. *)
Fixpoint copy_down (n : nat) (y : nat) (col : js_array Tile) : js_array Tile :=
  match n with
  | O => col
  | S n' => copy_down n' (S y) (array_set (S y) (array_get y col) col)
  end.

(** The number of rows a record fills below its own: its run count when
    positive. *)
Definition run_rows (r : tile_record) : nat := Z.to_nat (rec_run r).

Definition sum_runs (recs : list tile_record) : nat :=
  sum_list_with run_rows recs.

(** The number of entries of the columns of a grid. *)
Definition column_length (c : option (js_array Tile)) : nat :=
  match c with Some col => length col | None => O end.

Definition total_entries (grid : js_array (js_array Tile)) : nat :=
  sum_list_with column_length grid.

(** The entry of the grid at column [x], row [y]. *)
Definition grid_at (grid : js_array (js_array Tile)) (x y : nat) : option Tile :=
  match array_get x grid with
  | Some col => array_get y col
  | None => None
  end.

(** Lines 1577-1581 and 1593-1612: the colour [doConvert] gives the
    pixel of column [x], row [y]; [None] where the source would fail on a
    missing header member or a missing tile. *)
Definition pixel_color (hdr : header) (tiles : js_array (js_array Tile))
    (x y : nat) : option color :=
  match hdr !! "worldSurface", hdr !! "rockLayer", hdr !! "maxTilesY" with
  | Some (VFloat64 surface), Some (VFloat64 rockLayer), Some (VInt height) =>
      match grid_at tiles x y with
      | Some tile =>
          cell_color (floor_f64 surface) (floor_f64 rockLayer) (height - 200)
            (Z.of_nat y) tile
      | None => None
      end
  | _, _, _ => None
  end.

(** ** Vocabulary of the progress statements *)

(** Two parser objects that agree on everything but the progress accessor
    and the calls made to the callback. *)
Definition same_decoder (s1 s2 : parser) : Prop :=
  offset s1 = offset s2 /\ buffer s1 = buffer s2 /\
  ignoreBounds s1 = ignoreBounds s2 /\ RLE s1 = RLE s2.

(** Two outcomes of the same kind, with the same value or error, leaving
    parser objects that agree in that sense. *)
Definition agree {A} (o1 o2 : outcome A) : Prop :=
  match o1, o2 with
  | Ok a s1, Ok b s2 => a = b /\ same_decoder s1 s2
  | Throw e s1, Throw e' s2 => e = e' /\ same_decoder s1 s2
  | Diverge, Diverge => True
  | _, _ => False
  end.

Definition oblivious2 {A} (m1 m2 : M A) : Prop :=
  forall s1 s2, same_decoder s1 s2 -> agree (m1 s1) (m2 s2).

(** [m] does not depend on the progress accessor. *)
Definition oblivious {A} (m : M A) : Prop := oblivious2 m m.

(** What a caller of [parse] gets: the result, the error, or nothing. *)
Inductive answer : Type :=
  | Returned (r : parse_result)
  | Thrown (e : exn)
  | Hangs.

Definition answer_of (o : outcome parse_result) : answer :=
  match o with
  | Ok r _ => Returned r
  | Throw e _ => Thrown e
  | Diverge => Hangs
  end.

(** ** Vocabulary of the cursor statements *)

(** What the caller of a method sees: the value returned or the error
    thrown. *)
Definition result_of {A} (o : outcome A) : option (A + exn) :=
  match o with
  | Ok a _ => Some (inl a)
  | Throw e _ => Some (inr e)
  | Diverge => None
  end.

(** The parser object with another offset, and with another mode. *)
Definition at_offset (v : jsnum) (s : parser) : parser :=
  mkParser v (buffer s) (ignoreBounds s) (RLE s) (hook s) (calls s).

Definition in_mode (mode : bool) (s : parser) : parser :=
  mkParser (offset s) (buffer s) mode (RLE s) (hook s) (calls s).

(** The number a length prefix stands for: seven bits per byte, the least
    significant group first. *)
Fixpoint varlen_value (pre : list Z) : Z :=
  match pre with
  | [] => 0
  | b :: pre' => b mod 128 + 128 * varlen_value pre'
  end.

(** The bytes of the buffer from index [o] on, [n] of them, 0 past the
    end. *)
Definition window (bytes : list byte) (o : Z) (n : Z) : list Z :=
  map (byte_or_zero bytes) (seq (Z.to_nat o) (Z.to_nat n)).

(** A byte value, and the code of a lower-case hexadecimal digit. *)
Definition is_byte (b : Z) : Prop := 0 <= b < 256.

Definition is_hex (c : Z) : Prop := 48 <= c <= 57 \/ 97 <= c <= 102.

(** The places of the dashes in the text [parseGuid] returns for sixteen
    bytes. *)
Definition dash_position (i : nat) : bool :=
  (i =? 10)%nat || (i =? 15)%nat || (i =? 20)%nat || (i =? 25)%nat.

(** The value a typed read of width [w] yields for the offset [o]: the
    number the [w] bytes at [o] stand for, and 0 when they do not all lie
    inside the buffer (which only a lenient read lives to return). *)
Definition field_at (w : Z) (conv : list byte -> Z) (bytes : list byte) (o : Z) : Z :=
  if o + w <=? Z.of_nat (length bytes)
  then conv (take (Z.to_nat w) (drop (Z.to_nat o) bytes))
  else 0.

Definition int16_at : list byte -> Z -> Z := field_at 2 (le_signed 16).
Definition int32_at : list byte -> Z -> Z := field_at 4 (le_signed 32).

(** ** Vocabulary of the statements about what a call leaves behind *)

(** [reach s s']: [s'] is [s] after some assignments to [offset] and to
    [RLE], the only members the decoding methods assign. *)
Inductive reach : parser -> parser -> Prop :=
  | reach_refl s : reach s s
  | reach_offset s s' v : reach s s' -> reach s (store_offset v s')
  | reach_RLE s s' r :
      reach s s' ->
      reach s (mkParser (offset s') (buffer s') (ignoreBounds s') r
                 (hook s') (calls s')).

(** [m] only assigns [offset] and [RLE], and throws nothing but errors
    in [E]. *)
Definition tame (E : exn -> Prop) {A} (m : M A) : Prop :=
  forall s,
    match m s with
    | Ok _ s' => reach s s'
    | Throw e s' => reach s s' /\ E e
    | Diverge => True
    end.

Definition only_RangeError (e : exn) : Prop := e = RangeError.

(** The errors of [parse]: those of the validator and [RangeError]. *)
Definition parse_error (e : exn) : Prop :=
  e = RangeError \/ e = FormatError \/ e = UnsupportedVersionError.

(** The percentages 1, 2, ..., [k]. *)
Definition count_up (k : nat) : list Z := map Z.of_nat (seq 1 k).

(** The accessor is installed and the callback has been called with
    1, 2, ..., [percent], in this order. *)
Definition counted (s : parser) : Prop :=
  exists h k, hook s = Some h /\ percent h = Z.of_nat k /\ calls s = count_up k.

(** ** Vocabulary of the tile statements *)

(** A member that, when present, lies in [lo, hi). *)
Definition in_range (lo hi : Z) (o : option Z) : Prop :=
  match o with Some v => lo <= v < hi | None => True end.

(** A flag member is [true] or absent. *)
Definition not_false (o : option bool) : Prop := o <> Some false.

(** The numeric members of a tile lie in the range of the type they
    were read as; [W] bounds the wall id. *)
Definition numeric_fields (W : Z) (t : Tile) : Prop :=
  in_range 0 65536 (blockId t) /\
  in_range (-32768) 32768 (frameX t) /\
  in_range (-32768) 32768 (frameY t) /\
  in_range 0 256 (blockColor t) /\
  in_range 0 W (wallId t) /\
  in_range 0 256 (wallColor t) /\
  in_range 0 256 (liquidAmount t).

(** The members that come together: both frame coordinates or none, and
    only with a block id; a colour only with what it colours; a liquid
    kind exactly with a liquid amount; frame row 0 for block 144. *)
Definition block_group (t : Tile) : Prop :=
  (is_Some (frameX t) <-> is_Some (frameY t)) /\
  (is_Some (frameX t) -> is_Some (blockId t)) /\
  (is_Some (blockColor t) -> is_Some (blockId t)) /\
  (blockId t = Some 144 -> is_Some (frameY t) -> frameY t = Some 0).

Definition tile_shape (t : Tile) : Prop :=
  block_group t /\
  (is_Some (wallColor t) -> is_Some (wallId t)) /\
  (is_Some (liquidType t) <-> is_Some (liquidAmount t)).

Definition flags_not_false (t : Tile) : Prop :=
  not_false (wireRed t) /\ not_false (wireBlue t) /\
  not_false (wireGreen t) /\ not_false (wireYellow t) /\
  not_false (actuator t) /\ not_false (actuated t) /\
  not_false (invisibleBlock t) /\ not_false (invisibleWall t) /\
  not_false (fullBrightBlock t) /\ not_false (fullBrightWall t).

(** The three together. *)
Definition tile_inv (W : Z) (t : Tile) : Prop :=
  numeric_fields W t /\ tile_shape t /\ flags_not_false t.

(** A call that returns with the offset at a number has moved it forward
    by at least [lo] and at most [hi]. *)
Definition advances (lo hi : Z) {A} (m : M A) : Prop :=
  forall s o a s', offset s = Num o -> m s = Ok a s' ->
    exists o', offset s' = Num o' /\ lo <= o' - o <= hi.

(** The rows [0 .. n-1] of a column hold a tile each. *)
Definition filled (n : nat) (col : js_array Tile) : Prop :=
  forall i, (i < n)%nat -> exists t, col !! i = Some (Some t).

(** ** Vocabulary of the header statements *)

(** One version for each interval between two version tests of
    [parseHeader] that guard members, and the list of those versions. *)
Definition rep_version (v : Z) : Z :=
  if v <? 225 then 0 else if v <? 227 then 225 else if v <? 238 then 227
  else if v <? 239 then 238 else if v <? 240 then 239
  else if v <? 241 then 240 else if v <? 249 then 241
  else if v <? 266 then 249 else if v <? 267 then 266
  else if v <? 269 then 267 else 269.

Definition rep_versions : list Z :=
  [0; 225; 227; 238; 239; 240; 241; 249; 266; 267; 269].

(** Every member listed for the version [r], [expertMode] apart, is
    listed for the version [r']. *)
Definition keys_kept (r r' : Z) : bool :=
  forallb (fun k => String.eqb k "expertMode" || mem k (header_keys r'))
    (header_keys r).

(** The numbers a 32-bit signed read can return. *)
Definition is_int32 (z : Z) : Prop := - 2 ^ 31 <= z < 2 ^ 31.

(** ** The pixel loop of [WldHandler.doConvert] *)

(** A computation outside the parser object: it finishes with a value or
    throws. *)
Inductive attempt (E A : Type) : Type :=
  | Finished (a : A)
  | Failed (e : E).
Arguments Finished {E A} a.
Arguments Failed {E A} e.

(** [img.data[i] = v] on the [Uint8ClampedArray] of an [ImageData]: the
    value is clamped to [0, 255] and stored when [i] is an index of the
    array; nothing happens otherwise. *)
Definition clamp8 (v : Z) : Z := Z.max 0 (Z.min 255 v).

Definition typed_set (i : Z) (v : Z) (data : list Z) : list Z :=
  if i <? 0 then data else <[Z.to_nat i := clamp8 v]> data.

Section Paint.

(** Lines 1578-1582: [width] and [height] are the header members
    [maxTilesX] and [maxTilesY], [surface] and [rockLayer] the floors of
    [worldSurface] and [rockLayer]; [tiles] is [world.tiles]. *)
Variables (width height : Z) (surface rockLayer : bound).
Variable tiles : js_array (js_array Tile).

(** Lines 1594-1617, the body of the two loops.  [world.tiles[x][y]]
    throws [TypeError] when the column is missing, [tile.blockId] when the
    tile is, and [color[0]] when the colour is. *)
Definition paint_cell (x y : nat) (data : list Z) : attempt exn (list Z) :=
  match array_get x tiles with
  | None => Failed TypeError
  | Some col =>
      match array_get y col with
      | None => Failed TypeError
      | Some tile =>
          let i := (Z.of_nat y * width + Z.of_nat x) * 4 in
          match cell_color surface rockLayer (height - 200) (Z.of_nat y) tile with
          | None => Failed TypeError
          | Some (r, g, b) =>
              Finished (typed_set (i + 3) 255
                          (typed_set (i + 2) b
                             (typed_set (i + 1) g (typed_set i r data))))
          end
      end
  end.

(** [for (let y = 0; y < height; y++)], over the rows still to come. *)
Fixpoint paint_rows (x : nat) (ys : list nat) (data : list Z)
  : attempt exn (list Z) :=
  match ys with
  | [] => Finished data
  | y :: ys' =>
      match paint_cell x y data with
      | Finished data' => paint_rows x ys' data'
      | Failed e => Failed e
      end
  end.

(** [for (let x = 0; x < width; x++)], over the columns still to come. *)
Fixpoint paint_columns (xs : list nat) (data : list Z) : attempt exn (list Z) :=
  match xs with
  | [] => Finished data
  | x :: xs' =>
      match paint_rows x (seq 0 (Z.to_nat height)) data with
      | Finished data' => paint_columns xs' data'
      | Failed e => Failed e
      end
  end.

(** Lines 1592-1619, from the contents of [img.data] before the loops to
    its contents after them. *)
Definition paint (data : list Z) : attempt exn (list Z) :=
  paint_columns (seq 0 (Z.to_nat width)) data.

(** The four entries of [img.data] for the pixel of column [x], row [y]
    hold the colour of the cell and the opacity 255. *)
Definition painted (out : list Z) (x y : nat) : Prop :=
  exists tile r g b,
    grid_at tiles x y = Some tile /\
    cell_color surface rockLayer (height - 200) (Z.of_nat y) tile
    = Some (r, g, b) /\
    let i := ((y * Z.to_nat width + x) * 4)%nat in
    out !! i = Some r /\ out !! (i + 1)%nat = Some g /\
    out !! (i + 2)%nat = Some b /\ out !! (i + 3)%nat = Some 255.

End Paint.

(** The three components of a colour are bytes. *)
Definition color_okb (c : color) : bool :=
  let '(r, g, b) := c in
  (0 <=? r) && (r <? 256) && (0 <=? g) && (g <? 256) && (0 <=? b) && (b <? 256).

(** ** Output file names

    A text is given by its UTF-8 bytes; a dot and the letters of ".wld"
    are one byte each and occur in no other character, so splitting at
    dots and comparing a suffix with ".wld" can be done on the bytes. *)

(** The character ".". *)
Definition dot : Ascii.ascii := Ascii.ascii_of_nat 46.

(** [s.split(".")] *)
Fixpoint split_dot (s : string) : list string :=
  match s with
  | EmptyString => [EmptyString]
  | String c s' =>
      if Ascii.eqb c dot then EmptyString :: split_dot s'
      else match split_dot s' with
           | h :: t => String c h :: t
           | [] => [String c EmptyString]
           end
  end.

(** [l.join(".")] *)
Fixpoint join_dot (l : list string) : string :=
  match l with
  | [] => EmptyString
  | x :: l' =>
      match l' with
      | [] => x
      | _ :: _ => x +:+ "." +:+ join_dot l'
      end
  end.

(** [l.slice(0, -1)] *)
Definition slice_but_last {A} (l : list A) : list A := take (length l - 1) l.

(** Line 136, [canvasToBlobHandler.doConvert]:
    [inputFile.name.split(".")[0] + "." + outputFormat.extension]. *)
Definition canvas_name (name extension : string) : string :=
  match split_dot name with
  | first :: _ => first +:+ "." +:+ extension
  | [] => "undefined." +:+ extension
  end.

(** Line 1715, [markdownHandler.doConvert]:
    [file.name.split(".").slice(0, -1).join(".") + "." + outputFormat.extension]. *)
Definition outputName (name extension : string) : string :=
  join_dot (slice_but_last (split_dot name)) +:+ "." +:+ extension.

(** The text matches [/^\.wld$/i]. *)
Definition is_dot_wld (s : string) : bool := String.eqb (toLowerCase s) ".wld".

(** Line 1627, [WldHandler.doConvert]: [file.name.replace(/\.wld$/i, ".png")].
    The search tries the start positions from left to right; at a
    position the pattern matches when what is left of the text is ".wld"
    up to case. *)
Fixpoint outName (name : string) : string :=
  match name with
  | EmptyString => EmptyString
  | String c rest =>
      if is_dot_wld name then ".png" else String c (outName rest)
  end.

(** The text has no dot. *)
Fixpoint no_dot (s : string) : bool :=
  match s with
  | EmptyString => true
  | String c s' => negb (Ascii.eqb c dot) && no_dot s'
  end.

(** ** [markdownHandler.doConvert] *)

Record FileData : Type := mkFile {
  file_name : string;
  file_bytes : list byte
}.

(** What [doConvert] reads of a [FileFormat]. *)
Record FileFormat : Type := mkFormat {
  internal : string;
  extension : string
}.

(** A value thrown by the handler: one of its two texts, or whatever a
    pipeline rejects with. *)
Inductive thrown (R : Type) : Type :=
  | ThrownText (msg : string)
  | Rejected (r : R).
Arguments ThrownText {R} msg.
Arguments Rejected {R} r.

Section Markdown.

(** [new TextDecoder().decode], [new TextEncoder().encode] and the two
    pipelines of [unified] are the host's and the library's: any
    functions, the pipelines possibly rejecting. *)
Variable R : Type.
Variable decode : list byte -> string.
Variable encode : string -> list byte.

(** [await pipeline.process(inputText)] followed by [result.toString()]. *)
Abbreviation pipeline := (string -> attempt R string).

(** The body of the loop, lines 1701-1720. *)
Definition convert_file (markdownToHtml htmlToMarkdown : pipeline)
    (inputFormat outputFormat : FileFormat) (file : FileData)
  : attempt (thrown R) FileData :=
  let inputText := decode (file_bytes file) in
  let outputText :=
    if String.eqb (internal inputFormat) "md"
       && String.eqb (internal outputFormat) "html"
    then match markdownToHtml inputText with
         | Finished t => Finished t
         | Failed r => Failed (Rejected r)
         end
    else if String.eqb (internal inputFormat) "html"
            && String.eqb (internal outputFormat) "md"
    then match htmlToMarkdown inputText with
         | Finished t => Finished t
         | Failed r => Failed (Rejected r)
         end
    else Failed (ThrownText "Invalid output format.") in
  match outputText with
  | Finished t =>
      Finished (mkFile (outputName (file_name file) (extension outputFormat))
                  (encode t))
  | Failed e => Failed e
  end.

(** [for (const file of inputFiles) { ...; outputFiles.push(...) }] *)
Fixpoint convert_files (markdownToHtml htmlToMarkdown : pipeline)
    (inputFormat outputFormat : FileFormat) (inputFiles : list FileData)
  : attempt (thrown R) (list FileData) :=
  match inputFiles with
  | [] => Finished []
  | file :: rest =>
      match convert_file markdownToHtml htmlToMarkdown inputFormat outputFormat file with
      | Finished f =>
          match convert_files markdownToHtml htmlToMarkdown inputFormat
                  outputFormat rest with
          | Finished fs => Finished (f :: fs)
          | Failed e => Failed e
          end
      | Failed e => Failed e
      end
  end.

(** Lines 1689-1724; the two pipelines are [undefined] until [init]. *)
Definition doConvert (htmlToMarkdownPipeline markdownToHtmlPipeline : option pipeline)
    (inputFiles : list FileData) (inputFormat outputFormat : FileFormat)
  : attempt (thrown R) (list FileData) :=
  match htmlToMarkdownPipeline, markdownToHtmlPipeline with
  | Some htmlToMarkdown, Some markdownToHtml =>
      convert_files markdownToHtml htmlToMarkdown inputFormat outputFormat
        inputFiles
  | _, _ => Failed (ThrownText "Handler not initialized.")
  end.

End Markdown.

(** The two conversions of the handler: Markdown to HTML and back. *)
Definition converts (inputFormat outputFormat : FileFormat) : bool :=
  (String.eqb (internal inputFormat) "md"
   && String.eqb (internal outputFormat) "html")
  || (String.eqb (internal inputFormat) "html"
      && String.eqb (internal outputFormat) "md").

(** * Properties *)

(** ** The monad and the cursor primitives *)

Lemma bind_eq {A B} (m : M A) (f : A -> M B) s :
  (m ≫= f) s =
  match m s with
  | Ok a s' => f a s'
  | Throw e s' => Throw e s'
  | Diverge => Diverge
  end.
Proof. reflexivity. Qed.

Lemma bind_Ok {A B} (m : M A) (f : A -> M B) s b s2 :
  (m ≫= f) s = Ok b s2 ->
  exists a s1, m s = Ok a s1 /\ f a s1 = Ok b s2.
Proof.
  rewrite bind_eq. destruct (m s) as [a s1| |]; try discriminate.
  intros H. exists a, s1. split; [reflexivity | exact H].
Qed.

Lemma ret_Ok {A} (a b : A) s s' : mret (M := M) a s = Ok b s' -> a = b /\ s = s'.
Proof. intros H. injection H as -> ->. split; reflexivity. Qed.

Lemma u8_range b : 0 <= u8 b < 256.
Proof. unfold u8. destruct b; vm_compute; split; congruence. Qed.

Lemma offset_store v s : offset (store_offset v s) = v.
Proof.
  unfold store_offset. destruct (hook s) as [h|]; [|reflexivity].
  destruct (js_ge v (nextPercentSize h)); reflexivity.
Qed.

Lemma buffer_store v s : buffer (store_offset v s) = buffer s.
Proof.
  unfold store_offset. destruct (hook s) as [h|]; [|reflexivity].
  destruct (js_ge v (nextPercentSize h)); reflexivity.
Qed.

Lemma ignoreBounds_store v s : ignoreBounds (store_offset v s) = ignoreBounds s.
Proof.
  unfold store_offset. destruct (hook s) as [h|]; [|reflexivity].
  destruct (js_ge v (nextPercentSize h)); reflexivity.
Qed.

Lemma RLE_store v s : RLE (store_offset v s) = RLE s.
Proof.
  unfold store_offset. destruct (hook s) as [h|]; [|reflexivity].
  destruct (js_ge v (nextPercentSize h)); reflexivity.
Qed.

Lemma byteLength_store v s : byteLength (store_offset v s) = byteLength s.
Proof. unfold byteLength. rewrite buffer_store. reflexivity. Qed.

(** What a typed read does, in one equation. *)
Lemma read_typed_eq w conv s :
  read_typed w conv s =
  let s1 := store_offset (js_add (offset s) w) s in
  if ignoreBounds s && js_gt (js_add (offset s) w) (byteLength s) then Ok 0 s1
  else match view_get w (js_sub (js_add (offset s) w) w) s1 with
       | Ok bs s2 => Ok (conv bs) s2
       | Throw e s2 => Throw e s2
       | Diverge => Diverge
       end.
Proof.
  unfold read_typed, get_parser, set_offset.
  repeat (rewrite bind_eq; cbv beta iota).
  rewrite offset_store, ignoreBounds_store, byteLength_store. cbn zeta.
  destruct (ignoreBounds s && js_gt (js_add (offset s) w) (byteLength s));
    reflexivity.
Qed.

Lemma view_get_state w idx s : 
  match view_get w idx s with
  | Ok _ s' => s' = s
  | Throw e s' => s' = s /\ e = RangeError
  | Diverge => False
  end.
Proof.
  unfold view_get.
  destruct ((match idx with Num z => z | NaN => 0 end <? 0)
            || (byteLength s <? match idx with Num z => z | NaN => 0 end + w));
    auto.
Qed.

(** The state a typed read leaves behind, whatever its outcome. *)
Lemma read_typed_state w conv s :
  exists s', s' = store_offset (js_add (offset s) w) s /\
    ((exists v, read_typed w conv s = Ok v s') \/
     read_typed w conv s = Throw RangeError s').
Proof.
  eexists. split; [reflexivity|]. rewrite read_typed_eq. cbn zeta.
  destruct (ignoreBounds s && js_gt (js_add (offset s) w) (byteLength s)).
  - left. eexists. reflexivity.
  - pose proof (view_get_state w (js_sub (js_add (offset s) w) w)
                  (store_offset (js_add (offset s) w) s)) as H.
    destruct (view_get _ _ _) as [bs s2|e s2|].
    + subst s2. left. eexists. reflexivity.
    + destruct H as [-> ->]. right. reflexivity.
    + destruct H.
Qed.

(** ** The text decoder *)

(** A continuation byte adds its six low bits. *)
Lemma utf8_continuation cp b :
  0 <= cp -> 128 <= b <= 191 ->
  Z.lor (Z.shiftl cp 6) (Z.land b 63) = cp * 64 + (b - 128).
Proof.
  intros Hcp Hb.
  assert (Hlow : Z.land b 63 = b - 128).
  { change 63 with (Z.ones 6). rewrite Z.land_ones by lia.
    change (2 ^ 6) with 64. symmetry. apply (Z.mod_unique_pos _ _ 2); lia. }
  rewrite Hlow, Z.shiftl_mul_pow2 by lia. symmetry.
  apply Z.add_nocarry_lor. apply Z.bits_inj'. intros n Hn.
  rewrite Z.land_spec, Z.bits_0.
  destruct (Z.lt_ge_cases n 6) as [Hlt|Hge].
  - rewrite Z.mul_pow2_bits_low by lia. reflexivity.
  - rewrite <- (Z.mod_small (b - 128) (2 ^ 6)) by (change (2 ^ 6) with 64; lia).
    rewrite Z.mod_pow2_bits_high by lia. apply andb_false_r.
Qed.

Lemma land_low_bits b k base :
  0 <= k -> base mod 2 ^ k = 0 -> base <= b < base + 2 ^ k ->
  Z.land b (Z.ones k) = b - base.
Proof.
  intros Hk Hbase Hb. rewrite Z.land_ones by exact Hk.
  assert (Hpos : 0 < 2 ^ k) by (apply Z.pow_pos_nonneg; lia).
  symmetry. apply (Z.mod_unique_pos _ _ (base / 2 ^ k)); [lia|].
  pose proof (Z.div_mod base (2 ^ k)) as Hd. lia.
Qed.

(** Text that is all ASCII is decoded byte by byte. *)
Lemma utf8_decode_ascii bs :
  Forall (fun b => 0 <= b < 128) bs -> utf8_decode Idle bs = bs.
Proof.
  induction 1 as [|b bs Hb _ IH]; [reflexivity|].
  cbn [utf8_decode]. unfold utf8_lead.
  replace ((0 <=? b) && (b <=? 127)) with true by (symmetry; lia).
  cbn [fst snd app]. rewrite IH. reflexivity.
Qed.

Lemma utf16_units_small l :
  Forall (fun c => 0 <= c < 65536) l -> concat (map utf16_units l) = l.
Proof.
  induction 1 as [|c l Hc _ IH]; [reflexivity|].
  cbn [map concat]. unfold utf16_units at 1.
  replace (c <? 65536) with true by (symmetry; lia).
  rewrite IH. reflexivity.
Qed.

Lemma decode_ascii bs :
  Forall (fun b => 0 <= b < 128) bs -> TextDecoder_decode bs = bs.
Proof.
  intros H. unfold TextDecoder_decode. rewrite (utf8_decode_ascii bs H).
  assert (Hs : strip_bom bs = bs).
  { destruct H as [|b bs Hb _]; [reflexivity|]. cbn [strip_bom].
    replace (b =? 65279) with false by (symmetry; lia). reflexivity. }
  rewrite Hs. apply utf16_units_small.
  eapply Forall_impl; [exact H|]. cbn. intros; lia.
Qed.

(** The decoder yields at most one code point per byte. *)
Lemma utf8_decode_length bs : forall st,
  (length (utf8_decode st bs)
   <= length bs + match st with Idle => 0 | Pending _ _ _ _ => 1 end)%nat.
Proof.
  induction bs as [|b bs IH]; intros st.
  - destruct st; cbn; lia.
  - assert (Hlead : (length (snd (utf8_lead b)
                               ++ utf8_decode (fst (utf8_lead b)) bs)
                     <= S (length bs))%nat).
    { unfold utf8_lead.
      repeat match goal with
             | |- context [if ?c then (_, _) else _] => destruct c
             end; cbn [fst snd app length];
        match goal with
        | |- context [utf8_decode ?st bs] => specialize (IH st)
        end; cbn in IH; lia. }
    destruct st as [|cp more lo hi]; cbn [utf8_decode length].
    + lia.
    + destruct ((lo <=? b) && (b <=? hi)).
      * destruct more as [|more]; cbn [length].
        -- specialize (IH Idle). cbn in IH. lia.
        -- specialize (IH (Pending (Z.lor (Z.shiftl cp 6) (Z.land b 63))
                             more 128 191)). cbn in IH. lia.
      * cbn [length]. lia.
Qed.

(** An open sequence always ends in a character outside ASCII. *)
Lemma utf8_pending_not_ascii bs : forall cp more lo hi,
  128 <= lo -> hi <= 191 -> 0 <= cp ->
  match more with O => 128 | S _ => 2 end <= cp * 64 + lo - 128 ->
  Exists (fun c => 128 <= c) (utf8_decode (Pending cp more lo hi) bs).
Proof.
  induction bs as [|b bs IH]; intros cp more lo hi Hlo Hhi Hcp Hbound.
  - apply Exists_cons_hd. lia.
  - cbn [utf8_decode].
    destruct ((lo <=? b) && (b <=? hi)) eqn:Hin; [|apply Exists_cons_hd; lia].
    apply andb_true_iff in Hin as [H1 H2].
    cbv zeta. rewrite utf8_continuation by lia.
    destruct more as [|more].
    + apply Exists_cons_hd. lia.
    + apply IH; try lia. destruct more; lia.
Qed.

(** A decoded text that is all ASCII is its input. *)
Lemma utf8_decode_ascii_inv bs :
  Forall (fun c => 0 <= c < 128) (utf8_decode Idle bs) ->
  utf8_decode Idle bs = bs.
Proof.
  induction bs as [|b bs IH]; [reflexivity|].
  cbn [utf8_decode]. unfold utf8_lead.
  assert (Hno : forall cp more lo hi,
            128 <= lo -> hi <= 191 -> 0 <= cp ->
            match more with O => 128 | S _ => 2 end <= cp * 64 + lo - 128 ->
            Forall (fun c => 0 <= c < 128)
              (utf8_decode (Pending cp more lo hi) bs) -> False).
  { intros cp more lo hi Hlo Hhi Hcp Hbound Hall.
    pose proof (utf8_pending_not_ascii bs cp more lo hi Hlo Hhi Hcp Hbound)
      as Hex.
    apply Exists_exists in Hex as (c & Hc & Hbig).
    rewrite Forall_forall in Hall. specialize (Hall c Hc). lia. }
  destruct ((0 <=? b) && (b <=? 127)) eqn:E1; cbn [fst snd app].
  { intros H. apply Forall_cons in H as [_ H]. rewrite (IH H). reflexivity. }
  destruct ((194 <=? b) && (b <=? 223)) eqn:E2; cbn [fst snd app].
  { apply andb_true_iff in E2 as [Ha Hb].
    intros H. exfalso.
    apply (Hno (Z.land b 31) 0%nat 128 191) in H; [exact H | lia | lia | |].
    - apply Z.land_nonneg. lia.
    - change 31 with (Z.ones 5).
      rewrite (land_low_bits b 5 192) by (try reflexivity; cbn; lia). lia. }
  destruct ((224 <=? b) && (b <=? 239)) eqn:E3; cbn [fst snd app].
  { apply andb_true_iff in E3 as [Ha Hb].
    intros H. exfalso.
    apply (Hno (Z.land b 15) 1%nat (if b =? 224 then 160 else 128)
             (if b =? 237 then 159 else 191)) in H; [exact H | | | |].
    - destruct (b =? 224); lia.
    - destruct (b =? 237); lia.
    - apply Z.land_nonneg. lia.
    - change 15 with (Z.ones 4).
      rewrite (land_low_bits b 4 224) by (try reflexivity; cbn; lia).
      destruct (Z.eqb_spec b 224); lia. }
  destruct ((240 <=? b) && (b <=? 244)) eqn:E4; cbn [fst snd app].
  { apply andb_true_iff in E4 as [Ha Hb].
    intros H. exfalso.
    apply (Hno (Z.land b 7) 2%nat (if b =? 240 then 144 else 128)
             (if b =? 244 then 143 else 191)) in H; [exact H | | | |].
    - destruct (b =? 240); lia.
    - destruct (b =? 244); lia.
    - apply Z.land_nonneg. lia.
    - change 7 with (Z.ones 3).
      rewrite (land_low_bits b 3 240) by (try reflexivity; cbn; lia).
      destruct (Z.eqb_spec b 240); lia. }
  intros H. apply Forall_cons in H as [H _]. lia.
Qed.

Lemma utf16_units_ascii_inv l :
  Forall (fun c => 0 <= c < 128) (concat (map utf16_units l)) ->
  concat (map utf16_units l) = l.
Proof.
  induction l as [|c l IH]; [reflexivity|].
  cbn [map concat]. unfold utf16_units at 1 3.
  destruct (Z.ltb_spec c 65536) as [Hlt|Hge]; cbn [app].
  - intros H. apply Forall_cons in H as [_ H]. rewrite (IH H). reflexivity.
  - intros H. apply Forall_cons in H as [H _].
    pose proof (Z.shiftr_nonneg (c - 65536) 10). lia.
Qed.

(** The decoder maps a byte string to an ASCII text of the same length
    only if the bytes are that text. *)
Lemma decode_ascii_iff bs t :
  Forall (fun c => 0 <= c < 128) t -> length bs = length t ->
  TextDecoder_decode bs = t <-> bs = t.
Proof.
  intros Ht Hlen. split; [|intros ->; apply decode_ascii, Ht].
  unfold TextDecoder_decode. intros H.
  assert (Hs : strip_bom (utf8_decode Idle bs) = t).
  { rewrite <- H. symmetry. apply utf16_units_ascii_inv. rewrite H. exact Ht. }
  clear H. pose proof (utf8_decode_length bs Idle) as Hl. rewrite Nat.add_0_r in Hl.
  destruct (utf8_decode Idle bs) as [|c cps] eqn:Hcps.
  - cbn in Hs. subst t. destruct bs; [reflexivity | discriminate Hlen].
  - cbn [strip_bom] in Hs. destruct (c =? 65279).
    + subst t. cbn [length] in Hl. lia.
    + rewrite <- Hcps in Hs. rewrite <- Hs. symmetry.
      apply utf8_decode_ascii_inv. rewrite Hs. exact Ht.
Qed.

(** ** Typed reads and the bounds of the buffer *)

Lemma read_typed_after w conv s :
  exists s', after (read_typed w conv s) = Some s' /\
    offset s' = js_add (offset s) w /\
    buffer s' = buffer s /\ ignoreBounds s' = ignoreBounds s.
Proof.
  destruct (read_typed_state w conv s) as (s' & -> & [[v ->] | ->]);
    (eexists; split; [reflexivity|]);
    rewrite offset_store, buffer_store, ignoreBounds_store; auto.
Qed.


Lemma read_typed_inside w conv s o :
  offset s = Num o -> 0 <= o -> o + w <= byteLength s ->
  read_typed w conv s =
  Ok (conv (take (Z.to_nat w) (drop (Z.to_nat o) (buffer s))))
     (store_offset (Num (o + w)) s).
Proof.
  intros Ho H0 Hlen. rewrite read_typed_eq, Ho. cbn [js_add js_gt js_sub].
  cbv zeta. replace (byteLength s <? o + w) with false by (symmetry; lia).
  rewrite andb_false_r. unfold view_get. rewrite byteLength_store, buffer_store.
  replace (o + w - w) with o by lia.
  replace (o <? 0) with false by (symmetry; lia).
  replace (byteLength s <? o + w) with false by (symmetry; lia).
  reflexivity.
Qed.



(** ** Termination of the reads at a numeric offset *)

Lemma safe_ret P {A} (a : A) : safe P (mret a).
Proof. intros s Hs. exact Hs. Qed.

Lemma safe_bind P {A B} (m : M A) (f : A -> M B) :
  safe P m -> (forall a, safe P (f a)) -> safe P (m ≫= f).
Proof.
  intros Hm Hf s Hs. rewrite bind_eq. specialize (Hm s Hs).
  destruct (m s) as [a s1|e s1|]; [apply Hf; exact Hm | exact Hm | exact Hm].
Qed.

Lemma safe_throw P {A} e : safe P (throw (A := A) e).
Proof. intros s Hs. exact Hs. Qed.

Lemma safe_try_catch P {A} (m h : M A) :
  safe P m -> safe P h -> safe P (try_catch m h).
Proof.
  intros Hm Hh s Hs. unfold try_catch. specialize (Hm s Hs).
  destruct (m s) as [a s1|e s1|]; [exact Hm | apply Hh; exact Hm | exact Hm].
Qed.

(** One byte read at a numeric offset, spelled out. *)
Lemma readUInt8_cases s o :
  offset s = Num o ->
  let s' := store_offset (Num (o + 1)) s in
  if (0 <=? o) && (o + 1 <=? byteLength s) then
    readUInt8 s = Ok (byte_or_zero (buffer s) (Z.to_nat o)) s'
  else if ignoreBounds s && (byteLength s <? o + 1) then
    readUInt8 s = Ok 0 s' /\ byte_or_zero (buffer s) (Z.to_nat o) = 0
  else readUInt8 s = Throw RangeError s'.
Proof.
  intros Ho. cbv zeta.
  destruct ((0 <=? o) && (o + 1 <=? byteLength s)) eqn:Hin.
  - apply andb_true_iff in Hin as [H0 H1].
    unfold readUInt8. rewrite (read_typed_inside 1 _ s o Ho) by lia.
    f_equal. unfold byte_or_zero.
    destruct (drop (Z.to_nat o) (buffer s)) as [|b rest] eqn:Hd.
    + apply (f_equal length) in Hd. rewrite length_drop in Hd.
      unfold byteLength in H1. cbn in Hd. lia.
    + assert (Hl : buffer s !! Z.to_nat o = Some b).
      { rewrite <- (Nat.add_0_r (Z.to_nat o)), <- lookup_drop, Hd.
        reflexivity. }
      rewrite Hl. change (Z.to_nat 1) with 1%nat. cbn [take le_unsigned]. rewrite take_0. cbn [le_unsigned]. lia.
  - unfold readUInt8. rewrite read_typed_eq, Ho.
    cbn [js_add js_gt js_sub]. cbv zeta.
    destruct (ignoreBounds s && (byteLength s <? o + 1)) eqn:Hl.
    + split; [reflexivity|]. apply andb_true_iff in Hl as [_ Hl].
      unfold byte_or_zero. rewrite lookup_ge_None_2; [reflexivity|].
      unfold byteLength in Hl. lia.
    + unfold view_get. rewrite byteLength_store.
      replace (o + 1 - 1) with o by lia.
      destruct ((o <? 0) || (byteLength s <? o + 1)) eqn:Hb; [reflexivity|].
      apply orb_false_iff in Hb as [Hb1 Hb2].
      apply andb_false_iff in Hin as [Hin | Hin]; lia.
Qed.

Lemma numeric_store o s : numeric (store_offset (Num o) s).
Proof. exists o. apply offset_store. Qed.

Lemma steady_store bytes mode o s :
  steady bytes mode s -> steady bytes mode (store_offset (Num o) s).
Proof.
  intros (_ & Hb & Hm). split; [apply numeric_store|].
  rewrite buffer_store, ignoreBounds_store. auto.
Qed.

Section Steady.

Variables (bytes : list byte) (mode : bool).

Lemma safe_set_offset_num o : safe (steady bytes mode) (set_offset (Num o)).
Proof. intros s Hs. apply steady_store, Hs. Qed.

Lemma safe_read_typed w conv : safe (steady bytes mode) (read_typed w conv).
Proof.
  intros s Hs. pose proof Hs as ([o Ho] & _).
  destruct (read_typed_state w conv s) as (s' & -> & [[v ->] | ->]);
    rewrite Ho; apply steady_store, Hs.
Qed.

Lemma safe_skipBytes n : safe (steady bytes mode) (skipBytes n).
Proof.
  intros s Hs. pose proof Hs as ([o Ho] & _).
  unfold skipBytes, get_parser, set_offset.
  rewrite bind_eq. cbv beta iota. rewrite Ho. apply steady_store, Hs.
Qed.

Lemma safe_read_n n : safe (steady bytes mode) (read_n n).
Proof.
  induction n as [|n IH]; cbn [read_n].
  - apply safe_ret.
  - apply safe_bind; [apply safe_read_typed|]. intros b.
    apply safe_bind; [exact IH|]. intros bs. apply safe_ret.
Qed.

Lemma safe_read_int32s n : safe (steady bytes mode) (read_int32s n).
Proof.
  induction n as [|n IH]; cbn [read_int32s].
  - apply safe_ret.
  - apply safe_bind; [apply safe_read_typed|]. intros b.
    apply safe_bind; [exact IH|]. intros bs. apply safe_ret.
Qed.

(** The length-prefix loop ends at a numeric offset when given one
    round more than there are bytes left. *)
Lemma safe_read_varlen k len shift s o :
  steady bytes mode s -> offset s = Num o ->
  (1 <= k)%nat -> (o < 0 \/ byteLength s - o < Z.of_nat k) ->
  match read_varlen k len shift s with
  | Ok _ s' => steady bytes mode s'
  | Throw _ s' => steady bytes mode s'
  | Diverge => False
  end.
Proof.
  revert len shift s o.
  induction k as [|k IH]; intros len shift s o Hs Ho Hk Hfuel.
  - lia.
  - cbn [read_varlen]. rewrite bind_eq.
    pose proof (readUInt8_cases s o Ho) as Hrd. cbv zeta in Hrd.
    destruct ((0 <=? o) && (o + 1 <=? byteLength s)) eqn:Hin.
    + rewrite Hrd.
      destruct (Z.land (byte_or_zero (buffer s) (Z.to_nat o)) 128 =? 0).
      * apply steady_store, Hs.
      * apply andb_true_iff in Hin as [H0 H1].
        apply (IH _ _ _ (o + 1)).
        -- apply steady_store, Hs.
        -- apply offset_store.
        -- lia.
        -- right. rewrite byteLength_store. lia.
    + destruct (ignoreBounds s && (byteLength s <? o + 1)).
      * destruct Hrd as [-> _]. cbn. apply steady_store, Hs.
      * rewrite Hrd. apply steady_store, Hs.
Qed.

Lemma safe_readString len : safe (steady bytes mode) (readString len).
Proof.
  unfold readString.
  apply safe_bind;
    [|intros n; apply safe_bind; [apply safe_read_n | intros bs; apply safe_ret]].
  destruct len as [n|]; [apply safe_ret|].
  intros s Hs. pose proof Hs as ([o Ho] & _).
  unfold get_parser. rewrite bind_eq.
  apply (safe_read_varlen _ _ _ _ o Hs Ho); [lia|].
  unfold byteLength. lia.
Qed.

Lemma safe_parseBitsByte size : safe (steady bytes mode) (parseBitsByte size).
Proof.
  unfold parseBitsByte. apply safe_bind; [apply safe_read_n|].
  intros bs. apply safe_ret.
Qed.

Lemma safe_preamble : safe (steady bytes mode) preamble.
Proof.
  unfold preamble, readInt32, readInt16, readUInt8.
  repeat (apply safe_bind;
          [first [ apply safe_read_typed | apply safe_readString
                 | apply safe_skipBytes | apply safe_read_int32s
                 | apply safe_parseBitsByte ]
          | intros ?]).
  apply safe_ret.
Qed.

End Steady.

(** ** The validator *)

Lemma parseNecessaryData_eq s :
  parseNecessaryData s =
  match preamble (store_offset (Num 0) s) with
  | Ok p s1 =>
      let s2 := store_offset (Num 0) s1 in
      if negb (list_Z_eqb (p_magicNumber p) relogic) || negb (p_fileType p =? 2)
      then Throw (Error msg_invalid) s2
      else if p_version p <? 194 then Throw (Error msg_too_old) s2
      else Ok (mkWorld (p_version p) (p_pointers p) (p_importants p)
                 (p_width p) (p_height p)) s2
  | Throw _ s1 => Throw (Error msg_invalid) s1
  | Diverge => Diverge
  end.
Proof.
  unfold parseNecessaryData, set_offset, try_catch, throw.
  repeat (rewrite bind_eq; cbv beta iota).
  destruct (preamble (store_offset (Num 0) s)) as [p s1|e s1|]; try reflexivity.
  rewrite bind_eq.
  destruct (negb (list_Z_eqb (p_magicNumber p) relogic)
            || negb (p_fileType p =? 2)); [reflexivity|].
  destruct (p_version p <? 194); reflexivity.
Qed.

(** The validator always comes back, and with nothing but its own two
    errors. *)
Lemma parseNecessaryData_outcomes s :
  (exists w s', parseNecessaryData s = Ok w s') \/
  (exists s', parseNecessaryData s = Throw FormatError s') \/
  (exists s', parseNecessaryData s = Throw UnsupportedVersionError s').
Proof.
  rewrite parseNecessaryData_eq.
  pose proof (safe_preamble (buffer s) (ignoreBounds s)
                (store_offset (Num 0) s)) as H.
  specialize (H (conj (numeric_store 0 s)
                   (conj (buffer_store _ s) (ignoreBounds_store _ s)))).
  destruct (preamble (store_offset (Num 0) s)) as [p s1|e s1|].
  - cbv zeta.
    destruct (negb (list_Z_eqb (p_magicNumber p) relogic)
              || negb (p_fileType p =? 2)); [right; left; eauto|].
    destruct (p_version p <? 194); [right; right; eauto | left; eauto].
  - right. left. eauto.
  - destruct H.
Qed.

Lemma read_typed_Ok w conv s v s' o :
  read_typed w conv s = Ok v s' -> offset s = Num o -> 0 <= o ->
  s' = store_offset (Num (o + w)) s /\
  v = if o + w <=? byteLength s
      then conv (take (Z.to_nat w) (drop (Z.to_nat o) (buffer s)))
      else 0.
Proof.
  intros H Ho H0. destruct (o + w <=? byteLength s) eqn:Hin.
  - rewrite (read_typed_inside w conv s o Ho) in H by lia.
    injection H as <- <-. split; reflexivity.
  - rewrite read_typed_eq, Ho in H. cbn [js_add js_gt js_sub] in H.
    cbv zeta in H. replace (byteLength s <? o + w) with true in H by (symmetry; lia).
    destruct (ignoreBounds s); cbn [andb] in H.
    + injection H as <- <-. split; reflexivity.
    + unfold view_get in H. rewrite byteLength_store in H.
      replace (o + w - w) with o in H by lia.
      replace (byteLength s <? o + w) with true in H by (symmetry; lia).
      rewrite orb_true_r in H. discriminate H.
Qed.

Lemma readUInt8_Ok s v s' o :
  readUInt8 s = Ok v s' -> offset s = Num o -> 0 <= o ->
  s' = store_offset (Num (o + 1)) s /\
  v = byte_or_zero (buffer s) (Z.to_nat o).
Proof.
  intros H Ho H0. pose proof (readUInt8_cases s o Ho) as Hc. cbv zeta in Hc.
  destruct ((0 <=? o) && (o + 1 <=? byteLength s)).
  - rewrite Hc in H. injection H as <- <-. split; reflexivity.
  - destruct (ignoreBounds s && (byteLength s <? o + 1)).
    + destruct Hc as [Hc Hz]. rewrite Hc in H. injection H as <- <-.
      split; [reflexivity | symmetry; exact Hz].
    + rewrite Hc in H. discriminate H.
Qed.

Lemma read_n_Ok n s vs s' o :
  read_n n s = Ok vs s' -> offset s = Num o -> 0 <= o ->
  offset s' = Num (o + Z.of_nat n) /\ buffer s' = buffer s /\
  vs = map (byte_or_zero (buffer s)) (seq (Z.to_nat o) n).
Proof.
  revert s vs s' o. induction n as [|n IH]; intros s vs s' o H Ho H0.
  - injection H as <- <-. rewrite Ho. repeat split. f_equal. lia.
  - cbn [read_n] in H. apply bind_Ok in H as (b & s1 & Hb & H).
    apply bind_Ok in H as (bs & s2 & Hbs & H). injection H as <- <-.
    apply (readUInt8_Ok _ _ _ o) in Hb as [-> ->]; [|exact Ho|exact H0].
    apply (IH _ _ _ (o + 1)) in Hbs as (Hoff & Hbuf & ->);
      [|apply offset_store|lia].
    rewrite buffer_store in Hbuf. rewrite buffer_store.
    rewrite Hoff, Hbuf. repeat split; [f_equal; lia|].
    cbn [seq map]. f_equal. f_equal. f_equal. lia.
Qed.

(** The first three fields of a preamble that was read to its end. *)
Lemma preamble_head s p s1 :
  preamble s = Ok p s1 -> offset s = Num 0 ->
  p_version p = (if 4 <=? byteLength s then version_of (buffer s) else 0) /\
  p_magicNumber p
  = TextDecoder_decode (map (byte_or_zero (buffer s)) (seq 4 7)) /\
  p_fileType p = byte_or_zero (buffer s) 11.
Proof.
  intros H Ho. unfold preamble in H.
  apply bind_Ok in H as (v & sa & Hv & H).
  apply bind_Ok in H as (mg & sb & Hmg & H).
  apply bind_Ok in H as (ft & sc & Hft & H).
  repeat (apply bind_Ok in H as (? & ? & _ & H)).
  injection H as <- _. cbn [p_version p_magicNumber p_fileType].
  apply (read_typed_Ok _ _ _ _ _ 0 ) in Hv as [-> ->]; [|exact Ho|lia].
  unfold readString in Hmg. rewrite bind_eq in Hmg. cbv beta iota in Hmg.
  apply bind_Ok in Hmg as (raw & sr & Hraw & Hmg). apply ret_Ok in Hmg as [<- <-].
  unfold readBytes in Hraw.
  apply (read_n_Ok _ _ _ _ 4) in Hraw as (Hoff & Hbuf & ->);
    [|apply offset_store|lia].
  rewrite buffer_store in Hbuf. rewrite buffer_store.
  apply (readUInt8_Ok _ _ _ 11) in Hft as [_ ->]; [|exact Hoff|lia].
  rewrite Hbuf. repeat split.
Qed.

Lemma magic_as_read bytes :
  map (byte_or_zero bytes) (seq 4 7) = relogic <-> magic_of bytes = relogic.
Proof.
  unfold magic_of, relogic.
  do 11 (destruct bytes as [|? bytes];
         [cbn; split; intros H; discriminate H|]).
  reflexivity.
Qed.

Lemma tag_as_read bytes :
  byte_or_zero bytes 11 = 2 <-> tag_of bytes = Some 2.
Proof.
  unfold byte_or_zero, tag_of. destruct (bytes !! 11%nat) as [b|]; cbn.
  - split; intros H; [rewrite H; reflexivity | injection H as H; exact H].
  - split; intros H; discriminate H.
Qed.

Lemma magic_length bytes : magic_of bytes = relogic -> (11 <= length bytes)%nat.
Proof.
  intros H. apply (f_equal length) in H. unfold magic_of in H.
  rewrite length_map, length_take, length_drop in H.
  change (length relogic) with 7%nat in H. lia.
Qed.

(** What the checks after the [try] block see, in terms of the buffer. *)
Lemma preamble_checks s p s1 :
  preamble s = Ok p s1 -> offset s = Num 0 ->
  (list_Z_eqb (p_magicNumber p) relogic = true <-> magic_of (buffer s) = relogic) /\
  ((p_fileType p =? 2) = true <-> tag_of (buffer s) = Some 2) /\
  (magic_of (buffer s) = relogic -> p_version p = version_of (buffer s)).
Proof.
  intros H Ho. destruct (preamble_head s p s1 H Ho) as (Hv & Hm & Ht).
  split; [|split].
  - unfold list_Z_eqb. rewrite bool_decide_eq_true, Hm.
    rewrite decode_ascii_iff; [apply magic_as_read | | reflexivity].
    unfold relogic. repeat constructor; lia.
  - rewrite Z.eqb_eq, Ht. apply tag_as_read.
  - intros Hmagic. apply magic_length in Hmagic. rewrite Hv.
    unfold byteLength. destruct (4 <=? Z.of_nat (length (buffer s))) eqn:E;
      [reflexivity | lia].
Qed.

(** What the validator has seen when it returns. *)
Lemma parseNecessaryData_Ok s w s' :
  parseNecessaryData s = Ok w s' ->
  magic_of (buffer s) = relogic /\ tag_of (buffer s) = Some 2 /\
  194 <= version_of (buffer s) /\ version w = version_of (buffer s).
Proof.
  intros H. rewrite parseNecessaryData_eq in H.
  destruct (preamble (store_offset (Num 0) s)) as [p s1|e s1|] eqn:Hp;
    try discriminate H.
  apply preamble_checks in Hp as (Hm & Ht & Hv); [|apply offset_store].
  rewrite buffer_store in Hm, Ht, Hv. cbv zeta in H.
  destruct (list_Z_eqb (p_magicNumber p) relogic) eqn:Em;
    [|discriminate H].
  destruct (p_fileType p =? 2) eqn:Et; [|discriminate H].
  cbn [negb orb] in H.
  destruct (p_version p <? 194) eqn:Ev; [discriminate H|].
  injection H as <- _. cbn [version].
  assert (Hmagic : magic_of (buffer s) = relogic) by (apply Hm; reflexivity).
  rewrite <- (Hv Hmagic).
  repeat split; [exact Hmagic | apply Ht; reflexivity | lia].
Qed.

(** C10. The validator returns only for a buffer whose bytes 4-10 spell
    "relogic", whose byte 11 is 2 and whose bytes 0-3 hold a signed
    little-endian version of at least 194, which is the version it
    returns; every buffer that violates one of the three conditions is
    rejected with an [Error]. *)
Theorem validator_acceptance (s : parser) :
  (forall w s', parseNecessaryData s = Ok w s' ->
     magic_of (buffer s) = relogic /\ tag_of (buffer s) = Some 2 /\
     194 <= version_of (buffer s) /\ version w = version_of (buffer s)) /\
  (~ (magic_of (buffer s) = relogic /\ tag_of (buffer s) = Some 2 /\
      194 <= version_of (buffer s)) ->
   exists msg s', parseNecessaryData s = Throw (Error msg) s').
Proof.
  split; [apply parseNecessaryData_Ok|].
  intros Hbad.
  destruct (parseNecessaryData_outcomes s)
    as [(w & s' & H) | [(s' & H) | (s' & H)]].
  - exfalso. apply Hbad.
    destruct (parseNecessaryData_Ok s w s' H) as (? & ? & ? & _). auto.
  - exists msg_invalid, s'. exact H.
  - exists msg_too_old, s'. exact H.
Qed.

(** The validator on a complete preamble of version 279 and on the empty
    buffer. *)
Lemma validator_acceptance_witness :
  version_of (map byte_of_Z (sample_preamble 279 90 90 1 1)) = 279 /\
  exists msg s', parseNecessaryData (new_parser []) = Throw (Error msg) s'.
Proof.
  split.
  - assert (H : exists w s',
               parseNecessaryData
                 (new_parser (map byte_of_Z (sample_preamble 279 90 90 1 1)))
               = Ok w s' /\ version w = 279).
    { vm_compute. eexists _, _. split; reflexivity. }
    destruct H as (w & s' & H & Hv).
    destruct (validator_acceptance
                (new_parser (map byte_of_Z (sample_preamble 279 90 90 1 1))))
      as [Hacc _].
    destruct (Hacc w s' H) as (_ & _ & _ & Hw).
    cbn [buffer new_parser] in Hw. rewrite <- Hw. exact Hv.
  - destruct (validator_acceptance (new_parser [])) as [_ Hrej].
    apply Hrej. intros (Hm & _). vm_compute in Hm. discriminate Hm.
Defined.

(** ** Strict reads on a buffer and on its continuation *)

Lemma mono_ret {A} (a : A) : mono (mret a).
Proof.
  intros s1 s2 b s1' He H. injection H as <- <-. exists s2. split; [reflexivity | exact He].
Qed.

Lemma mono_bind {A B} (m : M A) (f : A -> M B) :
  mono m -> (forall a, mono (f a)) -> mono (m ≫= f).
Proof.
  intros Hm Hf s1 s2 b s1' He H.
  apply bind_Ok in H as (a & sa & Ha & H).
  destruct (Hm _ _ _ _ He Ha) as (sb & Hb & He').
  destruct (Hf a _ _ _ _ He' H) as (s2' & H2 & He2).
  exists s2'. split; [|exact He2]. rewrite bind_eq, Hb. exact H2.
Qed.

Lemma extends_store v s1 s2 :
  extends s1 s2 -> extends (store_offset v s1) (store_offset v s2).
Proof.
  intros (Ho & Hr & Hh & Hc & Hm1 & Hm2 & Hb).
  unfold extends. rewrite !offset_store, !RLE_store, !ignoreBounds_store,
    !buffer_store.
  repeat split; try assumption.
  - unfold store_offset. rewrite Hh. destruct (hook s2) as [h|]; [|reflexivity].
    destruct (js_ge v (nextPercentSize h)); reflexivity.
  - unfold store_offset. rewrite Hh, Hc. destruct (hook s2) as [h|]; [|reflexivity].
    destruct (js_ge v (nextPercentSize h)); reflexivity.
Qed.

Lemma mono_set_offset v : mono (set_offset v).
Proof.
  intros s1 s2 a s1' He H. injection H as <- <-.
  eexists. split; [reflexivity|]. apply extends_store, He.
Qed.

Lemma mono_skipBytes n : mono (skipBytes n).
Proof.
  intros s1 s2 a s1' He H. unfold skipBytes, get_parser, set_offset in *.
  rewrite bind_eq in H. cbv beta iota in H. injection H as <- <-.
  rewrite bind_eq. cbv beta iota. eexists. split; [reflexivity|].
  destruct He as (Ho & He). rewrite Ho. apply extends_store. split; assumption.
Qed.

Lemma mono_read_typed w conv : 0 <= w -> mono (read_typed w conv).
Proof.
  intros Hw s1 s2 v s1' He H.
  pose proof He as (Ho & _ & _ & _ & Hm1 & Hm2 & [ext Hb]).
  rewrite read_typed_eq in H. rewrite read_typed_eq.
  rewrite Hm1 in H. rewrite Hm2. cbn [andb] in *. cbv zeta in *.
  rewrite <- Ho. unfold view_get in *.
  rewrite byteLength_store, buffer_store in *.
  set (i := match js_sub (js_add (offset s1) w) w with Num z => z | NaN => 0 end) in *.
  destruct ((i <? 0) || (byteLength s1 <? i + w)) eqn:Hin; [discriminate H|].
  apply orb_false_iff in Hin as [Hi0 Hi1].
  assert (Hlen : byteLength s2 = byteLength s1 + Z.of_nat (length ext)).
  { unfold byteLength. rewrite Hb, length_app. lia. }
  replace ((i <? 0) || (byteLength s2 <? i + w)) with false
    by (symmetry; apply orb_false_iff; split; lia).
  injection H as <- <-. eexists. split; [|apply extends_store, He].
  f_equal. f_equal. rewrite Hb.
  unfold byteLength in Hi1.
  rewrite drop_app_le by lia. rewrite take_app_le; [reflexivity|].
  rewrite length_drop. lia.
Qed.

Lemma mono_read_n n : mono (read_n n).
Proof.
  induction n as [|n IH]; cbn [read_n].
  - apply mono_ret.
  - apply mono_bind; [apply mono_read_typed; lia|]. intros b.
    apply mono_bind; [exact IH|]. intros bs. apply mono_ret.
Qed.

Lemma mono_read_int32s n : mono (read_int32s n).
Proof.
  induction n as [|n IH]; cbn [read_int32s].
  - apply mono_ret.
  - apply mono_bind; [apply mono_read_typed; lia|]. intros b.
    apply mono_bind; [exact IH|]. intros bs. apply mono_ret.
Qed.

(** More rounds do not change a length-prefix loop that has ended. *)
Lemma mono_read_varlen k1 k2 len shift s1 s2 v s1' :
  (k1 <= k2)%nat -> extends s1 s2 ->
  read_varlen k1 len shift s1 = Ok v s1' ->
  exists s2', read_varlen k2 len shift s2 = Ok v s2' /\ extends s1' s2'.
Proof.
  revert k2 len shift s1 s2.
  induction k1 as [|k1 IH]; intros k2 len shift s1 s2 Hk He H;
    [discriminate H|].
  destruct k2 as [|k2]; [lia|]. cbn [read_varlen] in *.
  apply bind_Ok in H as (b & sa & Hb & H).
  destruct (mono_read_typed 1 le_unsigned ltac:(lia) _ _ _ _ He Hb)
    as (sb & Hb2 & He').
  rewrite bind_eq. unfold readUInt8. rewrite Hb2.
  destruct (Z.land b 128 =? 0).
  - injection H as <- <-. exists sb. split; [reflexivity | exact He'].
  - apply (IH k2 _ _ _ _ ltac:(lia) He' H).
Qed.

Lemma mono_readString len : mono (readString len).
Proof.
  unfold readString.
  apply mono_bind;
    [|intros n; apply mono_bind; [apply mono_read_n | intros bs; apply mono_ret]].
  destruct len as [n|]; [apply mono_ret|].
  intros s1 s2 v s1' He H. unfold get_parser in *.
  rewrite bind_eq in H. rewrite bind_eq.
  refine (mono_read_varlen _ _ _ _ _ _ _ _ _ He H).
  destruct He as (_ & _ & _ & _ & _ & _ & [ext ->]). rewrite length_app. lia.
Qed.

Lemma mono_parseBitsByte size : mono (parseBitsByte size).
Proof.
  unfold parseBitsByte. apply mono_bind; [apply mono_read_n|].
  intros bs. apply mono_ret.
Qed.

Lemma mono_preamble : mono preamble.
Proof.
  unfold preamble, readInt32, readInt16, readUInt8.
  repeat (apply mono_bind;
          [first [ apply mono_read_typed; lia | apply mono_readString
                 | apply mono_skipBytes | apply mono_read_int32s
                 | apply mono_parseBitsByte ]
          | intros ?]).
  apply mono_ret.
Qed.

(** A strict typed read that returns has stayed inside the buffer. *)
Lemma read_typed_strict_inside w conv s v s' o :
  ignoreBounds s = false -> offset s = Num o ->
  read_typed w conv s = Ok v s' ->
  offset s' = Num (o + w) /\ o + w <= byteLength s.
Proof.
  intros Hm Ho H. rewrite read_typed_eq, Hm, Ho in H.
  cbn [andb js_add js_sub] in H. cbv zeta in H. unfold view_get in H.
  rewrite byteLength_store in H.
  destruct ((o + w - w <? 0) || (byteLength s <? o + w - w + w)) eqn:Hin;
    [discriminate H|].
  injection H as _ <-. rewrite offset_store.
  apply orb_false_iff in Hin as [_ Hin]. split; [reflexivity | lia].
Qed.

(** A strict preamble pass that returns ends inside the buffer. *)
Lemma preamble_strict_end s p s1 :
  ignoreBounds s = false -> numeric s ->
  preamble s = Ok p s1 ->
  exists n, offset s1 = Num n /\ n <= byteLength s.
Proof.
  intros Hm Hnum H.
  assert (Hst : steady (buffer s) false s) by (repeat split; auto).
  unfold preamble in H.
  repeat match type of H with
         | (?m ≫= _) _ = Ok _ _ =>
             let Hx := fresh "Hx" in
             let Hy := fresh "Hy" in
             apply bind_Ok in H as (? & ? & Hx & H);
             match type of Hx with
             | ?m0 ?s0 = Ok _ ?s1 =>
                 assert (Hy : steady (buffer s) false s1);
                 [ match goal with
                   | Hs : steady (buffer s) false s0 |- _ =>
                       let Hsafe := fresh in
                       assert (Hsafe : safe (steady (buffer s) false) m0)
                         by first [ apply safe_read_typed | apply safe_readString
                                  | apply safe_skipBytes | apply safe_read_int32s
                                  | apply safe_parseBitsByte ];
                       specialize (Hsafe s0 Hs); rewrite Hx in Hsafe; exact Hsafe
                   end
                 | ]
             end
         end.
  injection H as _ <-.
  match goal with
  | Hx : readInt32 ?s0 = Ok _ ?sz, Hs : steady (buffer s) false ?s0 |- exists n, offset ?sz = _ /\ _ =>
      destruct Hs as ([o Ho] & Hb & Hmd);
      destruct (read_typed_strict_inside _ _ _ _ _ o Hmd Ho Hx) as [Hoff Hle];
      exists (o + 4); split; [exact Hoff|];
      unfold byteLength in *; rewrite Hb in Hle; exact Hle
  end.
Qed.


Lemma extends_take k bytes :
  extends (new_parser (take k bytes)) (new_parser bytes).
Proof.
  unfold extends. cbn. repeat split. exists (drop k bytes).
  symmetry. apply take_drop.
Qed.

(** C5.  (a) A buffer with the right magic string and a wrong or missing
    file-type tag is rejected with FormatError.  (b) A buffer with the
    right magic string and tag, a version below 194 and a preamble that
    can be read to its end is rejected with UnsupportedVersionError.
    (c) A buffer cut anywhere before the end of its preamble is rejected
    with FormatError: the fault of the cursor is caught and replaced.
    (d) The validator always comes back, and never with an error of the
    cursor. *)
Theorem validator_rejections :
  (forall s, magic_of (buffer s) = relogic -> tag_of (buffer s) <> Some 2 ->
     exists s', parseNecessaryData s = Throw FormatError s') /\
  (forall s p s1, preamble (store_offset (Num 0) s) = Ok p s1 ->
     magic_of (buffer s) = relogic -> tag_of (buffer s) = Some 2 ->
     version_of (buffer s) < 194 ->
     exists s', parseNecessaryData s = Throw UnsupportedVersionError s') /\
  (forall bytes p s1 n (k : nat), preamble (new_parser bytes) = Ok p s1 ->
     offset s1 = Num n -> Z.of_nat k < n ->
     exists s', parseNecessaryData (new_parser (take k bytes))
                = Throw FormatError s') /\
  (forall s, parseNecessaryData s <> Diverge /\
     forall e s', parseNecessaryData s = Throw e s' ->
       e = FormatError \/ e = UnsupportedVersionError).
Proof.
  split; [|split; [|split]].
  - intros s Hmagic Htag. rewrite parseNecessaryData_eq.
    pose proof (safe_preamble (buffer s) (ignoreBounds s)
                  (store_offset (Num 0) s)) as Hsafe.
    specialize (Hsafe (conj (numeric_store 0 s)
                         (conj (buffer_store _ s) (ignoreBounds_store _ s)))).
    destruct (preamble (store_offset (Num 0) s)) as [p s1|e s1|] eqn:Hp.
    + apply preamble_checks in Hp as (_ & Ht & _); [|apply offset_store].
      rewrite buffer_store in Ht. cbv zeta.
      destruct (p_fileType p =? 2) eqn:Et.
      * exfalso. apply Htag, Ht. reflexivity.
      * rewrite orb_true_r. eexists. reflexivity.
    + eexists. reflexivity.
    + destruct Hsafe.
  - intros s p s1 Hp Hmagic Htag Hver. rewrite parseNecessaryData_eq, Hp.
    apply preamble_checks in Hp as (Hm & Ht & Hv); [|apply offset_store].
    rewrite buffer_store in Hm, Ht, Hv. cbv zeta.
    replace (list_Z_eqb (p_magicNumber p) relogic) with true
      by (symmetry; apply Hm, Hmagic).
    replace (p_fileType p =? 2) with true by (symmetry; apply Ht, Htag).
    cbn [negb orb]. rewrite (Hv Hmagic).
    replace (version_of (buffer s) <? 194) with true by (symmetry; lia).
    eexists. reflexivity.
  - intros bytes p s1 n k Hfull Hn Hk. rewrite parseNecessaryData_eq.
    change (store_offset (Num 0) (new_parser (take k bytes)))
      with (new_parser (take k bytes)).
    pose proof (safe_preamble (take k bytes) false
                  (new_parser (take k bytes))) as Hsafe.
    specialize (Hsafe (conj (ex_intro _ 0 eq_refl) (conj eq_refl eq_refl))).
    destruct (preamble (new_parser (take k bytes))) as [p' s1'|e s1'|] eqn:Hcut.
    + exfalso.
      destruct (mono_preamble _ _ _ _ (extends_take k bytes) Hcut)
        as (s2' & Hfull' & He).
      rewrite Hfull in Hfull'. injection Hfull' as _ <-.
      destruct (preamble_strict_end (new_parser (take k bytes)) p' s1'
                  eq_refl (ex_intro _ 0 eq_refl) Hcut)
        as (n' & Hn' & Hle).
      destruct He as (Ho & _). rewrite Hn, Hn' in Ho. injection Ho as <-.
      unfold byteLength in Hle. cbn [buffer new_parser] in Hle.
      rewrite length_take in Hle. lia.
    + eexists. reflexivity.
    + destruct Hsafe.
  - intros s. destruct (parseNecessaryData_outcomes s)
      as [(w & s' & H) | [(s' & H) | (s' & H)]]; rewrite H;
      (split; [discriminate|]); intros e s'' He; try discriminate He;
      injection He as <- _; auto.
Qed.

(** A 90-byte preamble of version 100, and the same preamble of version
    279 cut after 50 bytes. *)
Lemma validator_rejections_witness :
  (exists s', parseNecessaryData
                (new_parser (map byte_of_Z (<[11%nat := 3]> (sample_preamble 279 90 90 1 1))))
              = Throw FormatError s') /\
  (exists s', parseNecessaryData
                (new_parser (map byte_of_Z (sample_preamble 100 90 90 1 1)))
              = Throw UnsupportedVersionError s') /\
  (exists s', parseNecessaryData
                (new_parser (take 50 (map byte_of_Z (sample_preamble 279 90 90 1 1))))
              = Throw FormatError s').
Proof.
  destruct validator_rejections as (Ha & Hb & Hc & _).
  split; [|split].
  - apply Ha; vm_compute; [reflexivity | discriminate].
  - assert (H : exists p s1,
               preamble (store_offset (Num 0)
                 (new_parser (map byte_of_Z (sample_preamble 100 90 90 1 1))))
               = Ok p s1) by (vm_compute; eauto).
    destruct H as (p & s1 & H).
    apply (Hb _ p s1 H); vm_compute; reflexivity.
  - assert (H : exists p s1,
               preamble (new_parser (map byte_of_Z (sample_preamble 279 90 90 1 1)))
               = Ok p s1 /\ offset s1 = Num 90) by (vm_compute; eauto).
    destruct H as (p & s1 & H & Ho).
    apply (Hc _ p s1 90 50%nat H Ho). lia.
Defined.

(** ** One tile record *)

Lemma le_unsigned_1 bs : (length bs <= 1)%nat -> 0 <= le_unsigned bs < 256.
Proof.
  destruct bs as [|b [|b' bs]]; cbn [length le_unsigned]; intros H.
  - lia.
  - pose proof (u8_range b). lia.
  - lia.
Qed.

Lemma readUInt8_range s v s' : readUInt8 s = Ok v s' -> 0 <= v < 256.
Proof.
  unfold readUInt8. rewrite read_typed_eq. cbv zeta.
  destruct (ignoreBounds s && _).
  - intros H. injection H as <- _. lia.
  - unfold view_get. destruct (_ || _); [discriminate|].
    intros H. injection H as <- _. apply le_unsigned_1.
    rewrite length_take. change (Z.to_nat 1) with 1%nat. lia.
Qed.

Lemma readUInt8_offset s v s' :
  readUInt8 s = Ok v s' -> offset s' = js_add (offset s) 1.
Proof.
  intros H. destruct (read_typed_after 1 le_unsigned s) as (s1 & Ha & Ho & _).
  unfold readUInt8 in H. rewrite H in Ha. injection Ha as ->. exact Ho.
Qed.

(** Masks with one bit. *)
Lemma land_pow2 a n :
  0 <= n -> Z.land a (2 ^ n) = if Z.testbit a n then 2 ^ n else 0.
Proof.
  intros Hn. apply Z.bits_inj'. intros m Hm.
  rewrite Z.land_spec, Z.pow2_bits_eqb by lia.
  destruct (Z.eqb_spec n m) as [->|Hne].
  - destruct (Z.testbit a m); cbn [andb].
    + rewrite Z.pow2_bits_true; [reflexivity | lia].
    + rewrite Z.bits_0. reflexivity.
  - rewrite andb_false_r. destruct (Z.testbit a n).
    + rewrite Z.pow2_bits_false; [reflexivity | lia].
    + rewrite Z.bits_0. reflexivity.
Qed.

Lemma has_pow2 a n : 0 <= n -> has a (2 ^ n) = Z.testbit a n.
Proof.
  intros Hn. unfold has, truthy. rewrite land_pow2 by exact Hn.
  destruct (Z.testbit a n); [|reflexivity].
  assert (0 < 2 ^ n) by (apply Z.pow_pos_nonneg; lia).
  destruct (Z.eqb_spec (2 ^ n) 0); [lia | reflexivity].
Qed.

Lemma testbit_truthy a n : Z.testbit a n = true -> truthy a = true.
Proof.
  intros H. unfold truthy. destruct (Z.eqb_spec a 0) as [->|]; [|reflexivity].
  rewrite Z.bits_0 in H. discriminate H.
Qed.

Lemma opt_has_pow2 f n : 0 <= n -> opt_has f (2 ^ n) = flag_bit f n.
Proof.
  intros Hn. destruct f as [z|]; [|reflexivity]. cbn [opt_has flag_bit].
  rewrite has_pow2 by exact Hn.
  destruct (Z.testbit z n) eqn:E; [|apply andb_false_r].
  rewrite (testbit_truthy _ _ E). reflexivity.
Qed.

(** The liquid field as the source computes it, [(flags1 & 24) >> 3]. *)
Lemma liquid_field_eq f1 : Z.shiftr (Z.land f1 24) 3 = liquid_field f1.
Proof.
  unfold liquid_field. change 24 with (Z.shiftl 3 3).
  apply Z.bits_inj'. intros m Hm.
  rewrite Z.shiftr_spec, !Z.land_spec, Z.shiftr_spec by lia.
  rewrite Z.shiftl_spec by lia. replace (m + 3 - 3) with m by lia.
  reflexivity.
Qed.

Lemma liquid_field_range f1 : 0 <= liquid_field f1 <= 3.
Proof.
  unfold liquid_field.
  assert (H : Z.land (Z.shiftr f1 3) 3 = Z.shiftr f1 3 mod 4)
    by (apply (Z.land_ones _ 2); lia).
  rewrite H. pose proof (Z.mod_pos_bound (Z.shiftr f1 3) 4). lia.
Qed.

(** The chain of flag bytes: which bytes exist, and their ranges. *)
Lemma read_flags_shape s f s1 :
  read_flags s = Ok f s1 ->
  0 <= flags1 f < 256 /\
  (forall f3, flags3 f = Some f3 ->
     exists f2, flags2 f = Some f2 /\ Z.testbit f2 0 = true /\
                Z.testbit (flags1 f) 0 = true) /\
  (forall f4, flags4 f = Some f4 ->
     exists f3, flags3 f = Some f3 /\ Z.testbit f3 0 = true).
Proof.
  unfold read_flags. intros H.
  apply bind_Ok in H as (f1 & sa & H1 & H).
  pose proof (readUInt8_range _ _ _ H1) as R1.
  change 1 with (2 ^ 0) in H. rewrite has_pow2 in H by lia.
  destruct (Z.testbit f1 0) eqn:E1.
  - apply bind_Ok in H as (f2 & sb & H2 & H).
    rewrite has_pow2 in H by lia.
    destruct (Z.testbit f2 0) eqn:E2.
    + apply bind_Ok in H as (f3 & sc & H3 & H).
      rewrite has_pow2 in H by lia.
      destruct (Z.testbit f3 0) eqn:E3.
      * apply bind_Ok in H as (f4 & sd & H4 & H). injection H as <- _.
        cbn. repeat split; try lia.
        -- intros ? [= <-]. eauto.
        -- intros ? [= <-]. eauto.
      * injection H as <- _. cbn. repeat split; try lia.
        -- intros ? [= <-]. eauto.
        -- intros ? [=].
    + injection H as <- _. cbn. repeat split; try lia; intros ? [=].
  - injection H as <- _. cbn. repeat split; try lia; intros ? [=].
Qed.

(** Turn the hypotheses that say a compound computation returned into
    hypotheses about its parts. *)
Ltac run_ok :=
  repeat match goal with
         | H : (_ ≫= _) _ = Ok _ _ |- _ =>
             apply bind_Ok in H as (? & ? & ? & H)
         | H : mret _ _ = Ok _ _ |- _ => apply ret_Ok in H as [<- <-]
         | H : (if ?b then _ else _) _ = Ok _ _ |- _ => destruct b eqn:?
         end.

Ltac split_matches :=
  repeat match goal with
         | |- context [match ?x with _ => _ end] => destruct x
         end.

Section TileRecord.

Variable world : WorldNecessary.

Lemma tile_block_keeps f t s t' s' :
  tile_block world f t s = Ok t' s' ->
  wallId t' = wallId t /\ liquidAmount t' = liquidAmount t /\
  liquidType t' = liquidType t.
Proof.
  unfold tile_block. intros H. run_ok;
    try match goal with |- context [if ?b then _ else _] => destruct b end;
    cbn; auto.
Qed.

Lemma tile_wall_spec f t s t' s' :
  tile_wall f t s = Ok t' s' ->
  liquidAmount t' = liquidAmount t /\ liquidType t' = liquidType t /\
  if has (flags1 f) 4
  then exists lo, 0 <= lo < 256 /\ wallId t' = Some lo
  else wallId t' = wallId t.
Proof.
  unfold tile_wall. intros H.
  destruct (has (flags1 f) 4); run_ok; cbn; repeat split; auto;
    match goal with
    | Hr : readUInt8 _ = Ok ?id _ |- exists lo, _ /\ Some ?id = Some lo =>
        exists id; split; [exact (readUInt8_range _ _ _ Hr) | reflexivity]
    end.
Qed.

(** The liquid step: nothing is read and nothing is set when the field
    is 0; otherwise one byte is read as the amount and the kind is
    shimmer if bit 7 of flag byte 3 is set and the kind the field
    selects if not. *)
Lemma tile_liquid_spec f t s t' s' :
  tile_liquid f t s = Ok t' s' ->
  wallId t' = wallId t /\
  if liquid_field (flags1 f) =? 0 then t' = t /\ s' = s
  else
    offset s' = js_add (offset s) 1 /\
    (exists d, 0 <= d < 256 /\ liquidAmount t' = Some d) /\
    liquidType t' =
      Some (if flag_bit (flags3 f) 7 then shimmer
            else ordinary_liquid (liquid_field (flags1 f))).
Proof.
  unfold tile_liquid. rewrite liquid_field_eq.
  change 128 with (2 ^ 7). rewrite opt_has_pow2 by lia.
  pose proof (liquid_field_range (flags1 f)) as Hk.
  set (k := liquid_field (flags1 f)) in *. unfold truthy.
  destruct (Z.eqb_spec k 0) as [Hz|Hnz]; cbn [negb].
  - intros H. apply ret_Ok in H as [<- <-]. auto.
  - intros H. apply bind_Ok in H as (d & sa & Hd & H).
    apply ret_Ok in H as [<- <-].
    split; [destruct (flag_bit (flags3 f) 7); split_matches; reflexivity|].
    split; [exact (readUInt8_offset _ _ _ Hd)|].
    split.
    + exists d. split; [exact (readUInt8_range _ _ _ Hd)|].
      destruct (flag_bit (flags3 f) 7); split_matches; reflexivity.
    + destruct (flag_bit (flags3 f) 7); [reflexivity|].
      assert (Hc : k = 1 \/ k = 2 \/ k = 3) by lia.
      destruct Hc as [-> | [-> | ->]]; reflexivity.
Qed.

Lemma tile_wires_slope_keeps f2 t :
  wallId (tile_wires_slope f2 t) = wallId t /\
  liquidAmount (tile_wires_slope f2 t) = liquidAmount t /\
  liquidType (tile_wires_slope f2 t) = liquidType t.
Proof.
  unfold tile_wires_slope. cbv zeta.
  destruct (has f2 2), (has f2 4), (has f2 8),
    (truthy (Z.shiftr (Z.land f2 112) 4));
    split_matches; repeat split.
Qed.

Lemma tile_actuator_bits_keeps f3 t :
  wallId (tile_actuator_bits f3 t) = wallId t /\
  liquidAmount (tile_actuator_bits f3 t) = liquidAmount t /\
  liquidType (tile_actuator_bits f3 t) = liquidType t.
Proof.
  unfold tile_actuator_bits. cbv zeta.
  destruct (has f3 2), (has f3 4), (has f3 32); repeat split.
Qed.

Lemma tile_coating_bits_keeps f4 t :
  wallId (tile_coating_bits f4 t) = wallId t /\
  liquidAmount (tile_coating_bits f4 t) = liquidAmount t /\
  liquidType (tile_coating_bits f4 t) = liquidType t.
Proof.
  unfold tile_coating_bits. destruct f4 as [f4|]; [|repeat split].
  cbv zeta.
  destruct (truthy f4), (has f4 2), (has f4 4), (has f4 8), (has f4 16);
    repeat split.
Qed.

(** Line 573 on its own. *)
Lemma tile_wall_high_spec f3 t s t' s' :
  tile_wall_high f3 t s = Ok t' s' ->
  liquidAmount t' = liquidAmount t /\ liquidType t' = liquidType t /\
  if Z.testbit f3 6
  then offset s' = js_add (offset s) 1 /\
       exists hi, 0 <= hi < 256 /\
         wallId t' = Some (or32 (shl32 hi 8) (default 0 (wallId t)))
  else t' = t /\ s' = s.
Proof.
  unfold tile_wall_high. change 64 with (2 ^ 6). rewrite has_pow2 by lia.
  destruct (Z.testbit f3 6); intros H; run_ok.
  - repeat split; [eapply readUInt8_offset; eassumption|].
    eexists. split; [eapply readUInt8_range; eassumption | reflexivity].
  - auto.
Qed.

(** Lines 557-581: the liquid members are left alone; the wall id is
    rewritten exactly when flag byte 3 was read with bit 6 set, and one
    byte is read exactly then. *)
Lemma tile_extras_spec f t s t' s' :
  tile_extras f t s = Ok t' s' ->
  (forall f3, flags3 f = Some f3 ->
     exists f2, flags2 f = Some f2 /\ Z.testbit f2 0 = true) ->
  liquidAmount t' = liquidAmount t /\ liquidType t' = liquidType t /\
  if flag_bit (flags3 f) 6
  then offset s' = js_add (offset s) 1 /\
       exists hi, 0 <= hi < 256 /\
         wallId t' = Some (or32 (shl32 hi 8) (default 0 (wallId t)))
  else wallId t' = wallId t /\ s' = s.
Proof.
  unfold tile_extras. intros H Hshape.
  destruct (flags3 f) as [f3|] eqn:E3.
  - destruct (Hshape f3 eq_refl) as (f2 & Hf2 & Hb).
    rewrite Hf2, (testbit_truthy _ _ Hb) in H.
    destruct (tile_wires_slope_keeps f2 t) as (Hw1 & Ha1 & Ht1).
    cbn [flag_bit]. cbv zeta in H.
    destruct (truthy f3) eqn:Et3.
    + apply bind_Ok in H as (t2 & sa & Hh & H).
      apply ret_Ok in H as [<- <-].
      apply tile_wall_high_spec in Hh as (Ha2 & Ht2 & Hw2).
      destruct (tile_actuator_bits_keeps f3 (tile_wires_slope f2 t))
        as (Hw3 & Ha3 & Ht3).
      destruct (tile_coating_bits_keeps (flags4 f) t2) as (Hw4 & Ha4 & Ht4).
      rewrite Ha4, Ht4, Hw4, Ha2, Ht2, Ha3, Ht3, Ha1, Ht1.
      split; [reflexivity|]. split; [reflexivity|].
      destruct (Z.testbit f3 6).
      * destruct Hw2 as (Ho & hi & Hhi & Hw2). split; [exact Ho|].
        exists hi. split; [exact Hhi|]. rewrite Hw2, Hw3, Hw1. reflexivity.
      * destruct Hw2 as [-> ->]. rewrite Hw3, Hw1. auto.
    + apply ret_Ok in H as [<- <-].
      assert (Hb6 : Z.testbit f3 6 = false).
      { destruct (Z.testbit f3 6) eqn:E6; [|reflexivity].
        rewrite (testbit_truthy _ _ E6) in Et3. discriminate Et3. }
      rewrite Hb6. auto.
  - cbn [flag_bit].
    destruct (flags2 f) as [f2|]; [destruct (truthy f2)|];
      apply ret_Ok in H as [<- <-];
      try destruct (tile_wires_slope_keeps f2 t) as (Hw1 & Ha1 & Ht1); auto.
Qed.

(** Lines 528-555 as a whole. *)
Lemma tile_layers_spec f s t s' :
  tile_layers world f s = Ok t s' -> 0 <= flags1 f ->
  (if has (flags1 f) 4
   then exists lo, 0 <= lo < 256 /\ wallId t = Some lo
   else wallId t = None) /\
  (if liquid_field (flags1 f) =? 0
   then liquidAmount t = None /\ liquidType t = None
   else (exists d, 0 <= d < 256 /\ liquidAmount t = Some d) /\
        liquidType t =
          Some (if flag_bit (flags3 f) 7 then shimmer
                else ordinary_liquid (liquid_field (flags1 f)))).
Proof.
  unfold tile_layers. intros H Hpos.
  destruct (Z.ltb_spec 1 (flags1 f)) as [Hgt|Hle].
  - apply bind_Ok in H as (t1 & s1 & Hb & H).
    apply bind_Ok in H as (t2 & s2 & Hw & H).
    apply tile_block_keeps in Hb as (Hb1 & Hb2 & Hb3).
    apply tile_wall_spec in Hw as (Hw1 & Hw2 & Hw3).
    apply tile_liquid_spec in H as (Hl1 & Hl2).
    split.
    + rewrite Hl1. destruct (has (flags1 f) 4); [exact Hw3|].
      rewrite Hw3, Hb1. reflexivity.
    + destruct (liquid_field (flags1 f) =? 0).
      * destruct Hl2 as [-> _]. rewrite Hw1, Hw2, Hb2, Hb3. auto.
      * destruct Hl2 as (_ & Hd & Hk). auto.
  - apply ret_Ok in H as [<- <-].
    assert (Hc : flags1 f = 0 \/ flags1 f = 1) by lia.
    destruct Hc as [-> | ->]; vm_compute; auto.
Qed.

(** The reads behind the members: which call of [readUInt8] a wall id,
    a liquid amount and the high byte of a wall id come from. *)
Lemma tile_wall_read f t s t' s' :
  tile_wall f t s = Ok t' s' -> has (flags1 f) 4 = true ->
  exists lo sw, readUInt8 s = Ok lo sw /\ wallId t' = Some lo.
Proof.
  unfold tile_wall. intros H Hb. rewrite Hb in H.
  apply bind_Ok in H as (id & sw & Hid & H). exists id, sw.
  split; [exact Hid|]. cbv zeta in H.
  destruct (opt_has (flags3 f) 16); run_ok; reflexivity.
Qed.

Lemma tile_liquid_read f t s t' s' :
  tile_liquid f t s = Ok t' s' ->
  if liquid_field (flags1 f) =? 0 then t' = t /\ s' = s
  else exists d, readUInt8 s = Ok d s' /\ liquidAmount t' = Some d.
Proof.
  unfold tile_liquid. rewrite liquid_field_eq.
  set (k := liquid_field (flags1 f)). unfold truthy.
  destruct (k =? 0); cbn [negb]; intros H.
  - apply ret_Ok in H as [<- <-]. auto.
  - apply bind_Ok in H as (d & sa & Hd & H). apply ret_Ok in H as [<- <-].
    exists d. split; [exact Hd|].
    destruct (opt_has (flags3 f) 128); split_matches; reflexivity.
Qed.

Lemma tile_layers_reads f s t s' :
  tile_layers world f s = Ok t s' -> 0 <= flags1 f ->
  (Z.testbit (flags1 f) 2 = true ->
     exists t1 sa lo sw,
       tile_block world f empty_tile s = Ok t1 sa /\
       readUInt8 sa = Ok lo sw /\ wallId t = Some lo) /\
  ((liquid_field (flags1 f) =? 0) = false ->
     exists t1 sa t2 sb d,
       tile_block world f empty_tile s = Ok t1 sa /\
       tile_wall f t1 sa = Ok t2 sb /\
       readUInt8 sb = Ok d s' /\ liquidAmount t = Some d).
Proof.
  unfold tile_layers. intros H Hpos.
  destruct (Z.ltb_spec 1 (flags1 f)) as [Hgt|Hle].
  - apply bind_Ok in H as (t1 & s1 & Hb & H).
    apply bind_Ok in H as (t2 & s2 & Hw & H).
    split.
    + intros Hbit. change 4 with (2 ^ 2) in Hw.
      pose proof (has_pow2 (flags1 f) 2 ltac:(lia)) as Hh.
      rewrite Hbit in Hh. change (2 ^ 2) with 4 in Hh, Hw.
      destruct (tile_wall_read _ _ _ _ _ Hw Hh) as (lo & sw & Hlo & Hid).
      exists t1, s1, lo, sw. split; [exact Hb|]. split; [exact Hlo|].
      apply tile_liquid_spec in H as [-> _]. exact Hid.
    + intros Hk. apply tile_liquid_read in H. rewrite Hk in H.
      destruct H as (d & Hd & Ha). exists t1, s1, t2, s2, d. auto.
  - apply ret_Ok in H as [<- <-].
    assert (Hc : flags1 f = 0 \/ flags1 f = 1) by lia.
    split; destruct Hc as [-> | ->]; intros Hx; vm_compute in Hx;
      discriminate Hx.
Qed.

Lemma tile_wall_high_read f3 t s t' s' :
  tile_wall_high f3 t s = Ok t' s' -> Z.testbit f3 6 = true ->
  exists hi, readUInt8 s = Ok hi s' /\
    wallId t' = Some (or32 (shl32 hi 8) (default 0 (wallId t))).
Proof.
  unfold tile_wall_high. change 64 with (2 ^ 6). rewrite has_pow2 by lia.
  intros H Hb. rewrite Hb in H.
  apply bind_Ok in H as (hi & sa & Hhi & H). apply ret_Ok in H as [<- <-].
  exists hi. split; [exact Hhi | reflexivity].
Qed.

Lemma tile_extras_read f t s t' s' :
  tile_extras f t s = Ok t' s' ->
  (forall f3, flags3 f = Some f3 ->
     exists f2, flags2 f = Some f2 /\ Z.testbit f2 0 = true) ->
  flag_bit (flags3 f) 6 = true ->
  exists hi, readUInt8 s = Ok hi s' /\
    wallId t' = Some (or32 (shl32 hi 8) (default 0 (wallId t))).
Proof.
  unfold tile_extras. intros H Hshape Hb6.
  destruct (flags3 f) as [f3|] eqn:E3; [|discriminate Hb6].
  cbn [flag_bit] in Hb6.
  destruct (Hshape f3 eq_refl) as (f2 & Hf2 & Hb).
  rewrite Hf2, (testbit_truthy _ _ Hb), (testbit_truthy _ _ Hb6) in H.
  cbv zeta in H. apply bind_Ok in H as (t2 & sa & Hh & H).
  apply ret_Ok in H as [<- <-].
  destruct (tile_wall_high_read _ _ _ _ _ Hh Hb6) as (hi & Hhi & Hw).
  exists hi. split; [exact Hhi|].
  destruct (tile_coating_bits_keeps (flags4 f) t2) as (-> & _).
  rewrite Hw.
  destruct (tile_actuator_bits_keeps f3 (tile_wires_slope f2 t)) as (-> & _).
  destruct (tile_wires_slope_keeps f2 t) as (-> & _). reflexivity.
Qed.

End TileRecord.

Lemma byte_in_range z : 0 <= z < 256 -> In z (map Z.of_nat (seq 0 256)).
Proof.
  intros Hz. apply in_map_iff. exists (Z.to_nat z).
  split; [lia | apply in_seq; lia].
Qed.

(** [(hi << 8) | lo] on two bytes, by running through all of them. *)
Lemma wall_combine hi lo :
  0 <= hi < 256 -> 0 <= lo < 256 -> or32 (shl32 hi 8) lo = 256 * hi + lo.
Proof.
  intros Hhi Hlo.
  assert (Hall : forallb (fun h => forallb (fun l =>
                   or32 (shl32 h 8) l =? 256 * h + l)
                   (map Z.of_nat (seq 0 256))) (map Z.of_nat (seq 0 256)) = true)
    by (vm_compute; reflexivity).
  rewrite forallb_forall in Hall.
  specialize (Hall hi (byte_in_range hi Hhi)).
  rewrite forallb_forall in Hall.
  specialize (Hall lo (byte_in_range lo Hlo)).
  apply Z.eqb_eq, Hall.
Qed.

Lemma js_add_0 o : js_add o 0 = o.
Proof. destruct o as [z|]; [cbn; f_equal; lia | reflexivity]. Qed.

(** ** The grid *)

Lemma length_array_set {A} (i : nat) (v : option A) (a : js_array A) :
  length (array_set i v a) = (length a `max` S i)%nat.
Proof.
  unfold array_set. case_decide.
  - rewrite length_insert. lia.
  - rewrite !length_app, length_replicate. cbn [length]. lia.
Qed.

Lemma array_set_same {A} (i : nat) (v : option A) (a : js_array A) :
  array_set i v a !! i = Some v.
Proof.
  unfold array_set. case_decide.
  - apply list_lookup_insert_eq. assumption.
  - rewrite lookup_app_r by lia. rewrite lookup_app_r;
      rewrite length_replicate; [|lia].
    replace (i - length a - (i - length a))%nat with O by lia. reflexivity.
Qed.

Lemma array_set_other {A} (i j : nat) (v : option A) (a : js_array A) :
  (j < length a)%nat -> j <> i -> array_set i v a !! j = a !! j.
Proof.
  intros Hj Hne. unfold array_set. case_decide.
  - apply list_lookup_insert_ne. congruence.
  - apply lookup_app_l. assumption.
Qed.

Lemma array_get_lookup {A} (i : nat) (a : js_array A) (v : option A) :
  a !! i = Some v -> array_get i a = v.
Proof. unfold array_get. intros ->. reflexivity. Qed.

(** The copies of a run: the column grows to hold them, the rows above
    the record keep their entries, the rows of the run hold the entry of
    the record. *)
Lemma copy_down_spec n y col v :
  col !! y = Some v ->
  length (copy_down n y col) = (length col `max` S (y + n))%nat /\
  (forall i, (i < y)%nat -> copy_down n y col !! i = col !! i) /\
  (forall k, (k <= n)%nat -> copy_down n y col !! (y + k)%nat = Some v).
Proof.
  revert y col. induction n as [|n IH]; intros y col Hy; cbn [copy_down].
  - pose proof (lookup_lt_Some _ _ _ Hy). repeat split.
    + lia.
    + intros k Hk. replace (y + k)%nat with y by lia. exact Hy.
  - pose proof (lookup_lt_Some _ _ _ Hy) as Hlt.
    rewrite (array_get_lookup _ _ _ Hy).
    destruct (IH (S y) (array_set (S y) v col) (array_set_same _ _ _))
      as (Hlen & Hlow & Hrun).
    rewrite length_array_set in Hlen. repeat split.
    + lia.
    + intros i Hi. rewrite Hlow by lia. apply array_set_other; lia.
    + intros k Hk. destruct k as [|k].
      * rewrite Hlow by lia. rewrite Nat.add_0_r.
        rewrite array_set_other by lia. exact Hy.
      * replace (y + S k)%nat with (S y + k)%nat by lia. apply Hrun. lia.
Qed.

(** The [while] loop, in closed form. *)
Lemma run_copy_eq n y col s :
  n = Z.to_nat (RLE s) ->
  run_copy n y col s =
  Ok ((y + n)%nat, copy_down n y col)
     (mkParser (offset s) (buffer s) (ignoreBounds s) (Z.min (RLE s) 0)
        (hook s) (calls s)).
Proof.
  revert y col s. induction n as [|n IH]; intros y col s Hn.
  - destruct s as [o b m r h c]. cbn [RLE] in Hn.
    cbn [run_copy]. rewrite bind_eq. unfold get_parser. cbv beta iota.
    cbn [RLE offset buffer ignoreBounds hook calls].
    replace (0 <? r) with false by (symmetry; lia).
    rewrite Nat.add_0_r. replace (Z.min r 0) with r by lia. reflexivity.
  - destruct s as [o b m r h c]. cbn [RLE] in Hn.
    cbn [run_copy]. rewrite bind_eq. unfold get_parser. cbv beta iota.
    cbn [RLE offset buffer ignoreBounds hook calls].
    replace (0 <? r) with true by (symmetry; lia).
    rewrite bind_eq. unfold set_RLE. cbv beta iota.
    cbn [RLE offset buffer ignoreBounds hook calls].
    rewrite IH by (cbn [RLE]; lia).
    cbn [RLE offset buffer ignoreBounds hook calls copy_down].
    replace (Z.min (r - 1) 0) with (Z.min r 0) by lia.
    replace (S y + n)%nat with (y + S n)%nat by lia. reflexivity.
Qed.

Lemma sum_runs_cons r recs : sum_runs (r :: recs) = (run_rows r + sum_runs recs)%nat.
Proof. reflexivity. Qed.

Lemma sum_runs_app a b : sum_runs (a ++ b) = (sum_runs a + sum_runs b)%nat.
Proof. apply sum_list_with_app. Qed.

(** One column.  Started at row [y] with the rows above it filled, the
    loop appends its records to the log; it ends at row
    [y + records + rows of their runs], at or below the height; it keeps
    the rows above [y]; every record it decodes lies in the column at its
    row and on the rows of its run; and the loop ends exactly at the height
    when every run ends above it. *)
Lemma column_loop_traced_spec world x rounds y col log s col' log' s' :
  column_loop_traced world x rounds y col log s = Ok (col', log') s' ->
  length col = (Z.to_nat (height world) `max` y)%nat ->
  exists new, log' = log ++ new /\
    length col' = (Z.to_nat (height world)
                   `max` (y + length new + sum_runs new))%nat /\
    height world <= Z.of_nat (y + length new + sum_runs new) /\
    (forall i, (i < y)%nat -> col' !! i = col !! i) /\
    Forall (fun r => rec_x r = x /\ (y <= rec_y r)%nat /\
              forall k, (k <= run_rows r)%nat ->
                col' !! (rec_y r + k)%nat = Some (Some (rec_tile r))) new /\
    (Forall (fun r => Z.of_nat (rec_y r) + rec_run r < height world) new ->
     Z.of_nat y <= height world ->
     Z.of_nat (y + length new + sum_runs new) = height world).
Proof.
  revert y col log s. induction rounds as [|rounds IH]; intros y col log s H Hlen.
  - cbn [column_loop_traced] in H.
    destruct (Z.ltb_spec (Z.of_nat y) (height world)) as [Hlt|Hge];
      [discriminate H|].
    apply ret_Ok in H as [H _]. injection H as <- <-.
    exists []. rewrite app_nil_r. cbn [length sum_runs sum_list_with].
    rewrite !Nat.add_0_r. repeat split; try assumption; try lia.
    apply Forall_nil. exact I.
  - cbn [column_loop_traced] in H.
    destruct (Z.ltb_spec (Z.of_nat y) (height world)) as [Hlt|Hge].
    + apply bind_Ok in H as (tile & s1 & Htile & H).
      rewrite bind_eq in H. unfold get_parser in H. cbv beta iota in H.
      apply bind_Ok in H as ([y2 col2] & s2 & Hrc & H).
      rewrite (run_copy_eq _ _ _ _ eq_refl) in Hrc.
      injection Hrc as <- <- <-.
      set (n := Z.to_nat (RLE s1)) in *.
      set (col1 := array_set y (Some tile) col) in *.
      assert (Hy1 : col1 !! y = Some (Some tile)) by apply array_set_same.
      destruct (copy_down_spec n y col1 _ Hy1) as (Hlen2 & Hlow2 & Hrun2).
      assert (Hlen1 : length col1 = length col).
      { unfold col1. rewrite length_array_set. lia. }
      apply IH in H as (new & -> & Hl & Hh & Hlow & Hrecs & Hfit);
        [|rewrite Hlen2, Hlen1, Hlen; lia].
      exists (mkRecord x y tile (RLE s1) :: new).
      rewrite <- app_assoc. cbn [app length]. rewrite sum_runs_cons.
      change (run_rows (mkRecord x y tile (RLE s1))) with n.
      split; [reflexivity|].
      split; [rewrite Hl; lia|]. split; [lia|].
      split; [|split].
      * intros i Hi. rewrite Hlow by lia. rewrite Hlow2 by lia.
        unfold col1. apply array_set_other; lia.
      * apply Forall_cons. split.
        -- cbn [rec_x rec_y rec_tile]. split; [reflexivity|].
           split; [lia|]. intros k Hk.
           change (run_rows (mkRecord x y tile (RLE s1))) with n in Hk.
           rewrite Hlow by lia. apply Hrun2. exact Hk.
        -- eapply Forall_impl; [exact Hrecs|].
           intros r (Hx & Hy & Hk). cbn beta. repeat split; [exact Hx | lia | exact Hk].
      * intros Hall Hyh. apply Forall_cons in Hall as [Hr Hall].
        cbn [rec_y rec_run] in Hr.
        rewrite <- Hfit; [lia | exact Hall | lia].
    + apply ret_Ok in H as [H _]. injection H as <- <-.
      exists []. rewrite app_nil_r. cbn [length sum_runs sum_list_with].
      rewrite !Nat.add_0_r. repeat split; try assumption; try lia.
      apply Forall_nil. exact I.
Qed.

Lemma new_array_Ok {A} n s (a : js_array A) s' :
  new_array n s = Ok a s' ->
  0 <= n /\ a = replicate (Z.to_nat n) None /\ s' = s.
Proof.
  unfold new_array. destruct (Z.ltb_spec n 0) as [Hneg|Hpos]; cbn [orb].
  - discriminate.
  - destruct (2 ^ 32 <=? n); [discriminate|].
    intros H. apply ret_Ok in H as [<- <-]. auto.
Qed.

Lemma grid_at_column grid x col y t :
  grid !! x = Some (Some col) -> col !! y = Some (Some t) ->
  grid_at grid x y = Some t.
Proof.
  intros Hx Hy. unfold grid_at.
  rewrite (array_get_lookup _ _ _ Hx). apply (array_get_lookup _ _ _ Hy).
Qed.

(** The columns from [x] on.  The loop appends the records of its columns
    to the log, keeps the columns before [x], puts every record it decodes
    and the rows of its run in the grid, and fills as many entries as it
    decodes records and rows of runs; when every run ends above the
    height, that is [height] entries a column. *)
Lemma grid_loop_traced_spec world rounds x data log s grid log' s' :
  grid_loop_traced world rounds x data log s = Ok (grid, log') s' ->
  length data = (x + rounds)%nat ->
  exists new, log' = log ++ new /\
    length grid = length data /\
    (forall i, (i < x)%nat -> grid !! i = data !! i) /\
    Forall (fun r => (x <= rec_x r)%nat /\
              forall k, (k <= run_rows r)%nat ->
                grid_at grid (rec_x r) (rec_y r + k) = Some (rec_tile r)) new /\
    sum_list_with column_length (drop x grid) = (length new + sum_runs new)%nat /\
    (Forall (fun r => Z.of_nat (rec_y r) + rec_run r < height world) new ->
     Z.of_nat (sum_list_with column_length (drop x grid))
     = Z.of_nat rounds * height world).
Proof.
  revert x data log s.
  induction rounds as [|rounds IH]; intros x data log s H Hlen.
  - cbn [grid_loop_traced] in H. apply ret_Ok in H as [H _].
    injection H as <- <-. exists []. rewrite app_nil_r.
    rewrite drop_ge by lia. cbn.
    repeat split; auto; try (apply Forall_nil; exact I).
  - cbn [grid_loop_traced] in H.
    apply bind_Ok in H as (col0 & s0 & Hnew & H).
    apply new_array_Ok in Hnew as (Hh & -> & ->).
    apply bind_Ok in H as ([col log1] & s1 & Hcol & H).
    apply column_loop_traced_spec in Hcol
      as (new1 & -> & Hl1 & Hh1 & _ & Hrecs1 & Hfit1);
      [|rewrite length_replicate; lia].
    cbn [Nat.add] in Hl1, Hh1, Hfit1.
    assert (Hx : (x < length data)%nat) by lia.
    assert (Hgx : array_set x (Some col) data !! x = Some (Some col))
      by apply array_set_same.
    apply IH in H as (new2 & -> & Hlg & Hlow & Hrecs2 & Hsum & Hfit2);
      [|rewrite length_array_set; lia].
    rewrite length_array_set in Hlg.
    assert (Hgrid_x : grid !! x = Some (Some col))
      by (rewrite Hlow by lia; exact Hgx).
    exists (new1 ++ new2). rewrite app_assoc.
    split; [reflexivity|]. split; [lia|].
    split; [|split; [|split]].
    + intros i Hi. rewrite Hlow by lia. apply array_set_other; lia.
    + apply Forall_app. split.
      * eapply Forall_impl; [exact Hrecs1|].
        intros r (Hrx & _ & Hk). cbn beta. split; [lia|].
        intros k Hle. rewrite Hrx.
        apply (grid_at_column _ _ col); [exact Hgrid_x | apply Hk, Hle].
      * eapply Forall_impl; [exact Hrecs2|].
        intros r (Hrx & Hk). cbn beta. split; [lia | exact Hk].
    + rewrite (drop_S _ _ _ Hgrid_x). cbn [sum_list_with column_length].
      rewrite Hsum, Hl1, length_app, sum_runs_app. lia.
    + intros Hall. apply Forall_app in Hall as [Hall1 Hall2].
      rewrite (drop_S _ _ _ Hgrid_x). cbn [sum_list_with column_length].
      rewrite Nat2Z.inj_add, (Hfit2 Hall2), Hl1.
      specialize (Hfit1 Hall1 ltac:(lia)). lia.
Qed.

(** The traced loops compute what the plain ones compute. *)
Lemma column_loop_traced_grid world x rounds y col log s :
  column_loop world rounds y col s =
  match column_loop_traced world x rounds y col log s with
  | Ok r s' => Ok (fst r) s'
  | Throw e s' => Throw e s'
  | Diverge => Diverge
  end.
Proof.
  revert y col log s. induction rounds as [|rounds IH]; intros y col log s;
    cbn [column_loop column_loop_traced];
    destruct (Z.of_nat y <? height world); try reflexivity.
  rewrite !bind_eq. destruct (parseTileData world s) as [tile s1| |];
    [|reflexivity|reflexivity].
  rewrite !bind_eq. unfold get_parser. cbv beta iota. rewrite !bind_eq.
  destruct (run_copy _ _ _ s1) as [[y2 col2] s2| |]; [|reflexivity|reflexivity].
  apply IH.
Qed.

Lemma grid_loop_traced_grid world rounds x data log s :
  grid_loop world rounds x data s =
  match grid_loop_traced world rounds x data log s with
  | Ok r s' => Ok (fst r) s'
  | Throw e s' => Throw e s'
  | Diverge => Diverge
  end.
Proof.
  revert x data log s. induction rounds as [|rounds IH]; intros x data log s;
    cbn [grid_loop grid_loop_traced]; [reflexivity|].
  rewrite !bind_eq. destruct (new_array (height world) s) as [col0 s0| |];
    [|reflexivity|reflexivity].
  rewrite !bind_eq.
  rewrite (column_loop_traced_grid world x _ _ _ log).
  destruct (column_loop_traced world x _ _ _ log s0) as [[col log1] s1| |];
    [|reflexivity|reflexivity].
  cbn [fst]. apply IH.
Qed.

Lemma parseWorldTiles_traced_grid world s :
  parseWorldTiles world s =
  match parseWorldTiles_traced world s with
  | Ok r s' => Ok (fst r) s'
  | Throw e s' => Throw e s'
  | Diverge => Diverge
  end.
Proof.
  unfold parseWorldTiles, parseWorldTiles_traced. rewrite !bind_eq.
  unfold set_RLE. cbv beta iota. rewrite !bind_eq.
  destruct (new_array (width world) _) as [data s0| |];
    [|reflexivity|reflexivity].
  apply grid_loop_traced_grid.
Qed.

(** C1, as the code has it.  A grid decode that returns has decoded a list
    of records such that every record lies in the grid at its column and
    row; for a record with run count [R > 0] the [R] entries below it in
    its column hold the same tile; the number of records plus the sum of
    the positive run counts is the number of entries of the columns; and
    when no run reaches the bottom of its column, that number is
    [width * height], so the number of records is [width * height] minus
    the sum of the positive run counts. *)
Theorem run_length_expansion (world : WorldNecessary) (s s' : parser)
    (grid : js_array (js_array Tile)) :
  parseWorldTiles world s = Ok grid s' ->
  exists recs,
    parseWorldTiles_traced world s = Ok (grid, recs) s' /\
    (forall r, r ∈ recs ->
       grid_at grid (rec_x r) (rec_y r) = Some (rec_tile r) /\
       forall k, 1 <= k <= rec_run r ->
         grid_at grid (rec_x r) (rec_y r + Z.to_nat k) = Some (rec_tile r)) /\
    (length recs + sum_runs recs)%nat = total_entries grid /\
    (Forall (fun r => Z.of_nat (rec_y r) + rec_run r < height world) recs ->
     Z.of_nat (length recs)
     = width world * height world - Z.of_nat (sum_runs recs)).
Proof.
  intros H. rewrite parseWorldTiles_traced_grid in H.
  destruct (parseWorldTiles_traced world s) as [[grid' recs] s1| |] eqn:Ht;
    try discriminate H.
  injection H as <- <-. exists recs. split; [reflexivity|].
  unfold parseWorldTiles_traced in Ht.
  apply bind_Ok in Ht as (u & s0 & _ & Ht).
  apply bind_Ok in Ht as (data & s2 & Hnew & Ht).
  apply new_array_Ok in Hnew as (Hw & -> & ->).
  apply grid_loop_traced_spec in Ht
    as (new & Hlog & _ & _ & Hrecs & Hsum & Hfit);
    [|rewrite length_replicate; lia].
  cbn [app] in Hlog. subst new. rewrite drop_0 in Hsum, Hfit.
  split; [|split].
  - intros r Hr. rewrite Forall_forall in Hrecs.
    destruct (Hrecs r Hr) as [_ Hk]. split.
    + rewrite <- (Nat.add_0_r (rec_y r)). apply Hk. lia.
    + intros k Hle. apply Hk. unfold run_rows. lia.
  - unfold total_entries. rewrite Hsum. reflexivity.
  - intros Hall. specialize (Hfit Hall).
    rewrite Hsum, Z2Nat.id in Hfit by lia. lia.
Qed.

(** Two columns of height 2, each one record with run count 1. *)
Lemma run_length_expansion_witness :
  exists grid s',
    parseWorldTiles (mkWorld 279 [0; 90; 90] [] 2 2)
      (new_parser (map byte_of_Z [64; 1; 64; 1])) = Ok grid s' /\
    grid_at grid 1 1 = Some empty_tile /\ total_entries grid = 4%nat.
Proof.
  assert (H : exists grid s',
             parseWorldTiles (mkWorld 279 [0; 90; 90] [] 2 2)
               (new_parser (map byte_of_Z [64; 1; 64; 1])) = Ok grid s' /\
             parseWorldTiles_traced (mkWorld 279 [0; 90; 90] [] 2 2)
               (new_parser (map byte_of_Z [64; 1; 64; 1]))
             = Ok (grid, [mkRecord 0 0 empty_tile 1; mkRecord 1 0 empty_tile 1]) s').
  { vm_compute. eexists _, _. split; reflexivity. }
  destruct H as (grid & s' & Hp & Ht). exists grid, s'.
  split; [exact Hp|].
  destruct (run_length_expansion _ _ _ _ Hp) as (recs & Ht' & Hrun & Hcount & _).
  rewrite Ht in Ht'. injection Ht' as <-.
  split.
  - destruct (Hrun (mkRecord 1 0 empty_tile 1)) as [_ Hk].
    + apply elem_of_cons. right. apply elem_of_cons. left. reflexivity.
    + apply (Hk 1). cbn. lia.
  - rewrite <- Hcount. reflexivity.
Defined.

(** C1 as stated fails: in a grid of width 1 and height 1 the single
    record has run count 1; one record was read, the logical tile count is
    1 and the sum of the run counts is 1. *)
Lemma run_length_expansion_counterexample :
  ~ (forall world s grid recs s',
       parseWorldTiles_traced world s = Ok (grid, recs) s' ->
       Z.of_nat (length recs)
       = width world * height world - Z.of_nat (sum_runs recs)).
Proof.
  intros H.
  specialize (H (mkWorld 279 [0; 90; 90] [] 1 1)
                (new_parser (map byte_of_Z [64; 1]))).
  assert (Hrun : exists grid s',
             parseWorldTiles_traced (mkWorld 279 [0; 90; 90] [] 1 1)
               (new_parser (map byte_of_Z [64; 1]))
             = Ok (grid, [mkRecord 0 0 empty_tile 1]) s').
  { vm_compute. eexists _, _. reflexivity. }
  destruct Hrun as (grid & s' & Hrun).
  specialize (H _ _ _ Hrun). vm_compute in H. discriminate H.
Qed.

(** *** The grid decode always comes back *)

Lemma returns_ret {A} (a : A) : returns (mret a).
Proof. intros s. discriminate. Qed.

Lemma returns_bind {A B} (m : M A) (f : A -> M B) :
  returns m -> (forall a, returns (f a)) -> returns (m ≫= f).
Proof.
  intros Hm Hf s. rewrite bind_eq. specialize (Hm s).
  destruct (m s) as [a s1|e s1|]; [apply Hf | discriminate | contradiction].
Qed.

Lemma returns_read_typed w conv : returns (read_typed w conv).
Proof.
  intros s. destruct (read_typed_state w conv s) as (s' & _ & [[v ->] | ->]);
    discriminate.
Qed.

Lemma returns_set_RLE r : returns (set_RLE r).
Proof. intros s. discriminate. Qed.

Ltac returns_walk :=
  repeat first
    [ apply returns_ret
    | apply returns_read_typed
    | apply returns_set_RLE
    | apply returns_bind; [|intros ?]
    | match goal with
      | |- returns (if ?b then _ else _) => destruct b
      | |- returns (match ?x with _ => _ end) => destruct x
      end ].

Lemma returns_parseTileData world : returns (parseTileData world).
Proof.
  unfold parseTileData, read_flags, tile_layers, tile_block, tile_wall,
    tile_liquid, tile_extras, tile_wall_high, tile_rle,
    readUInt8, readUInt16, readInt16.
  returns_walk.
Qed.

(** [height - y] rounds are enough for a column. *)
Lemma column_loop_returns world rounds y col s :
  (Z.to_nat (height world) - y <= rounds)%nat ->
  column_loop world rounds y col s <> Diverge.
Proof.
  revert y col s. induction rounds as [|rounds IH]; intros y col s Hfuel;
    cbn [column_loop];
    destruct (Z.ltb_spec (Z.of_nat y) (height world)) as [Hlt|Hge];
    try discriminate; [lia|].
  rewrite bind_eq. pose proof (returns_parseTileData world s) as Ht.
  destruct (parseTileData world s) as [tile s1| |];
    [|discriminate|contradiction].
  rewrite bind_eq. unfold get_parser. cbv beta iota. rewrite bind_eq.
  rewrite (run_copy_eq _ _ _ _ eq_refl). apply IH. lia.
Qed.

Lemma grid_loop_returns world rounds x data s :
  grid_loop world rounds x data s <> Diverge.
Proof.
  revert x data s. induction rounds as [|rounds IH]; intros x data s;
    cbn [grid_loop]; [discriminate|].
  rewrite bind_eq. unfold new_array.
  destruct (_ || _); [discriminate|]. cbv beta iota.
  change (mret (M := M) ?a s) with (Ok a s). cbv beta iota. rewrite bind_eq.
  pose proof (column_loop_returns world (Z.to_nat (height world)) 0
                (replicate (Z.to_nat (height world)) None) s ltac:(lia)) as Hc.
  destruct (column_loop _ _ _ _ s) as [col s1| |];
    [apply IH | discriminate | contradiction].
Qed.

(** The bounds given to the loops of [parseWorldTiles] are never reached:
    it returns a grid or throws. *)
Lemma parseWorldTiles_returns world : returns (parseWorldTiles world).
Proof.
  intros s. unfold parseWorldTiles. rewrite bind_eq. unfold set_RLE.
  cbv beta iota. rewrite bind_eq. unfold new_array.
  destruct (_ || _); [discriminate|].
  change (mret (M := M) ?a ?t) with (Ok a t). cbv beta iota.
  apply grid_loop_returns.
Qed.

(** ** The members of the header *)

Lemma writes_field k r : writes (k <~ r) [k].
Proof.
  intros d s d' s' H key. unfold field in H.
  apply bind_Ok in H as (v & s1 & _ & H). apply ret_Ok in H as [<- _].
  rewrite lookup_insert_is_Some, list_elem_of_singleton.
  destruct (decide (k = key)) as [->|Hne]; [tauto|].
  split; [intros [? | [_ ?]]; [congruence | tauto]
         | intros [? | ?]; [tauto | congruence]].
Qed.

Lemma writes_guidString : writes guidString_step ["guidString"].
Proof.
  intros d s d' s' H key. unfold guidString_step in H.
  apply ret_Ok in H as [<- _].
  rewrite lookup_insert_is_Some, list_elem_of_singleton.
  destruct (decide ("guidString" = key)) as [<-|Hne]; [tauto|].
  split; [intros [? | [_ ?]]; [congruence | tauto]
         | intros [? | ?]; [tauto | congruence]].
Qed.

Lemma writes_nil : writes (run_steps []) [].
Proof.
  intros d s d' s' H key. apply ret_Ok in H as [<- _].
  rewrite elem_of_nil. tauto.
Qed.

Lemma writes_cons f l K1 K2 :
  writes f K1 -> writes (run_steps l) K2 -> writes (run_steps (f :: l)) (K1 ++ K2).
Proof.
  intros Hf Hl d s d' s' H key. cbn [run_steps] in H.
  apply bind_Ok in H as (d1 & s1 & H1 & H).
  rewrite (Hl _ _ _ _ H key), (Hf _ _ _ _ H1 key), elem_of_app. tauto.
Qed.

Lemma writes_since world t l K :
  writes (run_steps l) K ->
  writes (since world t l) (if t <=? version world then K else []).
Proof.
  intros Hl d s d' s' H key. unfold since in H.
  destruct (t <=? version world); [exact (Hl _ _ _ _ H key)|].
  apply ret_Ok in H as [<- _]. rewrite elem_of_nil. tauto.
Qed.

Lemma writes_since_else world t l1 l2 K1 K2 :
  writes (run_steps l1) K1 -> writes (run_steps l2) K2 ->
  writes (since_else world t l1 l2) (if t <=? version world then K1 else K2).
Proof.
  intros H1 H2 d s d' s' H key. unfold since_else in H.
  destruct (t <=? version world);
    [exact (H1 _ _ _ _ H key) | exact (H2 _ _ _ _ H key)].
Qed.

Lemma writes_header_steps world :
  writes (run_steps (header_steps world)) (header_keys (version world)).
Proof.
  unfold header_steps, header_keys.
  repeat first [ apply writes_nil
               | apply writes_cons
               | apply writes_field
               | apply writes_guidString
               | apply writes_since
               | apply writes_since_else ].
Qed.

(** The members of a decoded header are those listed for its version. *)
Lemma parseHeader_keys world s h s' :
  parseHeader world s = Ok h s' ->
  forall k, is_Some (h !! k) <-> k ∈ header_keys (version world).
Proof.
  intros H k. rewrite (writes_header_steps world _ _ _ _ H k).
  rewrite lookup_empty. split; [intros [[? Hx] | ?]; [discriminate Hx | assumption] | auto].
Qed.

Lemma mem_spec k l : mem k l = true <-> k ∈ l.
Proof.
  induction l as [|x l IH]; cbn [mem].
  - rewrite elem_of_nil. split; [discriminate | tauto].
  - rewrite orb_true_iff, elem_of_cons, IH, String.eqb_eq. tauto.
Qed.

Ltac decide_member :=
  match goal with
  | |- ?k ∈ ?l <-> ?t <= ?v =>
      first
        [ assert (t <= v) by lia;
          split; [intros _; assumption|]; intros _;
          apply mem_spec; vm_compute; reflexivity
        | assert (~ t <= v) by lia;
          split; [|intros; contradiction];
          let Hin := fresh in
          intros Hin; apply mem_spec in Hin;
          vm_compute in Hin; discriminate Hin ]
  end.

(** A member assigned under the test [version >= t] is among the members
    of a header exactly when the version is at least [t].  The table is
    checked at one version per interval between thresholds. *)
Lemma gates_okb_sound v :
  gates_okb v = true ->
  Forall (fun g => Forall (fun k => k ∈ header_keys v <-> fst g <= v) (snd g))
    version_gates.
Proof.
  unfold gates_okb. rewrite forallb_forall. intros H.
  apply Forall_forall. intros g Hg.
  apply list_elem_of_In, H in Hg. rewrite forallb_forall in Hg.
  apply Forall_forall. intros k Hk. apply list_elem_of_In, Hg in Hk.
  apply Bool.eqb_prop in Hk. rewrite <- mem_spec, Hk. apply Z.leb_le.
Qed.

Ltac norm_leb v t :=
  first [ replace (t <=? v) with true by (symmetry; apply Z.leb_le; lia)
        | replace (t <=? v) with false by (symmetry; apply Z.leb_gt; lia) ].

(** Every version agrees, on the members and on the tests, with one of
    eleven versions at which the gate table has been checked. *)
Lemma header_keys_representative v :
  exists r, gates_okb r = true /\ header_keys v = header_keys r /\
            Forall (fun g => fst g <= v <-> fst g <= r) version_gates.
Proof.
  assert (Hcase : v < 225 \/ 225 <= v < 227 \/ 227 <= v < 238 \/
                  238 <= v < 239 \/ 239 <= v < 240 \/ 240 <= v < 241 \/
                  241 <= v < 249 \/ 249 <= v < 266 \/ 266 <= v < 267 \/
                  267 <= v < 269 \/ 269 <= v) by lia.
  decompose [or] Hcase; clear Hcase;
    [ exists 0 | exists 225 | exists 227 | exists 238 | exists 239
    | exists 240 | exists 241 | exists 249 | exists 266 | exists 267
    | exists 269 ];
    (split; [vm_compute; reflexivity|]);
    (split; [unfold header_keys; norm_leb v 225; norm_leb v 227;
             norm_leb v 238; norm_leb v 239; norm_leb v 240; norm_leb v 241;
             norm_leb v 249; norm_leb v 266; norm_leb v 267; norm_leb v 269;
             reflexivity|]);
    unfold version_gates; repeat (apply Forall_cons; split; [cbn [fst]; lia|]);
    apply Forall_nil; exact I.
Qed.

(** A member assigned under the test [version >= t] is among the members
    of a header exactly when the version is at least [t]. *)
Lemma header_keys_gates v t fields k :
  (t, fields) ∈ version_gates -> k ∈ fields ->
  (k ∈ header_keys v <-> t <= v).
Proof.
  intros Hg Hk.
  destruct (header_keys_representative v) as (r & Hok & -> & Hle).
  apply gates_okb_sound in Hok.
  rewrite Forall_forall in Hok, Hle.
  specialize (Hok _ Hg). specialize (Hle _ Hg). cbn [fst snd] in Hok, Hle.
  rewrite Forall_forall in Hok. rewrite (Hok k Hk). symmetry. exact Hle.
Qed.

Lemma run_steps_app l1 l2 d s :
  run_steps (l1 ++ l2) d s = (d1 ← run_steps l1 d; run_steps l2 d1) s.
Proof.
  revert d s. induction l1 as [|f l1 IH]; intros d s; cbn [run_steps app].
  - reflexivity.
  - rewrite !bind_eq. destruct (f d s) as [d1 s1| |]; [|reflexivity|reflexivity].
    rewrite IH. reflexivity.
Qed.

Lemma run_steps_cons f l d s :
  run_steps (f :: l) d s = (d1 ← f d; run_steps l d1) s.
Proof. reflexivity. Qed.

Lemma keeps_field k k' r : k <> k' -> keeps_member k (k' <~ r).
Proof.
  intros Hne d s d' s' H. unfold field in H.
  apply bind_Ok in H as (v & s1 & _ & H). apply ret_Ok in H as [<- _].
  apply lookup_insert_ne. congruence.
Qed.

Lemma keeps_run k l : Forall (keeps_member k) l -> keeps_member k (run_steps l).
Proof.
  induction 1 as [|f l Hf Hl IH]; intros d s d' s' H; cbn [run_steps] in H.
  - apply ret_Ok in H as [<- _]. reflexivity.
  - apply bind_Ok in H as (d1 & s1 & H1 & H).
    rewrite (IH _ _ _ _ H). exact (Hf _ _ _ _ H1).
Qed.

Lemma keeps_since k world t l :
  Forall (keeps_member k) l -> keeps_member k (since world t l).
Proof.
  intros Hl d s d' s' H. unfold since in H.
  destruct (t <=? version world); [exact (keeps_run k l Hl _ _ _ _ H)|].
  apply ret_Ok in H as [<- _]. reflexivity.
Qed.

Lemma string_neq a b : String.eqb a b = false -> a <> b.
Proof. intros H E. apply String.eqb_eq in E. congruence. Qed.

(** Below version 257 the header has a member [afterPartyOfDoom], and it
    is [false]. *)
Lemma afterPartyOfDoom_default world s h s' :
  parseHeader world s = Ok h s' -> version world < 257 ->
  h !! "afterPartyOfDoom" = Some (VBool false).
Proof.
  intros H Hv. unfold parseHeader in H.
  rewrite <- (take_drop 57 (header_steps world)), run_steps_app in H.
  apply bind_Ok in H as (d1 & s1 & _ & H).
  cbv [header_steps drop] in H. rewrite run_steps_cons in H.
  apply bind_Ok in H as (d2 & s2 & Hstep & H).
  match type of H with
  | run_steps ?l _ _ = _ =>
      assert (Hall : Forall (keeps_member "afterPartyOfDoom") l)
  end.
  { repeat first
      [ apply Forall_nil; exact I
      | apply Forall_cons; split
      | apply keeps_field; apply string_neq; vm_compute; reflexivity
      | apply keeps_since ]. }
  rewrite (keeps_run _ _ Hall _ _ _ _ H). unfold field in Hstep.
  replace (257 <=? version world) with false in Hstep by (symmetry; lia).
  apply bind_Ok in Hstep as (v & s3 & Hv' & Hstep).
  apply ret_Ok in Hv' as [<- _]. apply ret_Ok in Hstep as [<- _].
  apply lookup_insert_eq.
Qed.

Lemma buffer_assign_options s u s' :
  assign_options s = Ok u s' -> buffer s' = buffer s.
Proof. intros H. injection H as _ <-. reflexivity. Qed.

(** A header returned by [parse] was decoded by [parseHeader] for a world
    whose version is the one at the head of the buffer. *)
Lemma parse_header opts s r s' h :
  parse opts s = Ok r s' -> r_header r = Some h ->
  exists w sa sb, version w = version_of (buffer s) /\
                  parseHeader w sa = Ok h sb.
Proof.
  unfold parse. intros H Hh.
  apply bind_Ok in H as (u0 & s0 & H0 & H).
  apply bind_Ok in H as (u1 & s1 & H1 & H).
  apply bind_Ok in H as (w & s2 & Hw & H).
  apply bind_Ok in H as (hdr & s3 & Hhdr & H).
  apply bind_Ok in H as (tls & s4 & Htls & H).
  apply ret_Ok in H as [<- _]. cbn [r_header] in Hh. subst hdr.
  destruct (parseNecessaryData_Ok s1 w s2 Hw) as (_ & _ & _ & Hver).
  assert (Hbuf : buffer s1 = buffer s).
  { apply buffer_assign_options in H0. rewrite <- H0.
    destruct (progressCallback opts).
    - injection H1 as _ <-. reflexivity.
    - apply ret_Ok in H1 as [_ <-]. reflexivity. }
  rewrite Hbuf in Hver.
  destruct (includes _ "header").
  - apply bind_Ok in Hhdr as (u2 & s5 & _ & Hhdr).
    apply bind_Ok in Hhdr as (h' & s6 & Hp & Hhdr).
    apply ret_Ok in Hhdr as [Hh' _]. injection Hh' as <-.
    exists w, s5, s6. split; [exact Hver | exact Hp].
  - apply ret_Ok in Hhdr as [Hh' _]. discriminate Hh'.
Qed.

(** C4, as the code has it.  For every test [version >= t] of
    [parseHeader] and every member assigned under it: a file whose version
    is below [t] decodes to a header without the member, and a file whose
    version is at least [t] to a header with it; this holds for any two
    buffers, in particular for two that differ in the version field only.
    The member [afterPartyOfDoom] is not assigned under such a test: below
    version 257 it is present with the value [false]. *)
Theorem header_version_gating (opts : options) (bytesA bytesB : list byte)
    (rA rB : parse_result) (sA sB : parser) (hA hB : header)
    (t : Z) (fields : list string) :
  (t, fields) ∈ version_gates ->
  version_of bytesA < t <= version_of bytesB ->
  parse opts (new_parser bytesA) = Ok rA sA -> r_header rA = Some hA ->
  parse opts (new_parser bytesB) = Ok rB sB -> r_header rB = Some hB ->
  (forall k, k ∈ fields -> hA !! k = None /\ is_Some (hB !! k)) /\
  (version_of bytesA < 257 -> hA !! "afterPartyOfDoom" = Some (VBool false)).
Proof.
  intros Hg Hv HA HhA HB HhB.
  destruct (parse_header _ _ _ _ _ HA HhA) as (wA & sA1 & sA2 & HvA & HpA).
  destruct (parse_header _ _ _ _ _ HB HhB) as (wB & sB1 & sB2 & HvB & HpB).
  cbn [buffer new_parser] in HvA, HvB. split.
  - intros k Hk. split.
    + apply eq_None_not_Some. rewrite (parseHeader_keys _ _ _ _ HpA k).
      rewrite (header_keys_gates _ t fields k Hg Hk). lia.
    + rewrite (parseHeader_keys _ _ _ _ HpB k).
      rewrite (header_keys_gates _ t fields k Hg Hk). lia.
  - intros H257. apply (afterPartyOfDoom_default _ _ _ _ HpA). lia.
Qed.

Lemma decoded_header_Some opts bytes h :
  decoded_header opts bytes = Some h ->
  exists r s, parse opts (new_parser bytes) = Ok r s /\ r_header r = Some h.
Proof.
  unfold decoded_header.
  destruct (parse opts (new_parser bytes)) as [r s| |]; try discriminate.
  eauto.
Qed.

Lemma is_Some_true {A} (o : option A) :
  match o with Some _ => true | None => false end = true -> is_Some o.
Proof. destruct o; [eauto | discriminate]. Qed.

(** Versions 226 and 227 around the test for [getGoodWorld]. *)
Lemma header_version_gating_witness :
  (decoded_header header_only (sample_file 226) ≫= (.!! "getGoodWorld")) = None /\
  is_Some (decoded_header header_only (sample_file 227) ≫= (.!! "getGoodWorld")).
Proof.
  assert (HA : is_Some (decoded_header header_only (sample_file 226)))
    by (apply is_Some_true; vm_compute; reflexivity).
  assert (HB : is_Some (decoded_header header_only (sample_file 227)))
    by (apply is_Some_true; vm_compute; reflexivity).
  destruct HA as [hA HA], HB as [hB HB]. rewrite HA, HB. cbn [mbind option_bind].
  destruct (decoded_header_Some _ _ _ HA) as (rA & sA & EA & EhA).
  destruct (decoded_header_Some _ _ _ HB) as (rB & sB & EB & EhB).
  assert (Hg : (227, ["getGoodWorld"]) ∈ version_gates).
  { unfold version_gates. apply elem_of_cons. right.
    apply elem_of_cons. left. reflexivity. }
  assert (Hv : version_of (sample_file 226) < 227 <= version_of (sample_file 227))
    by (vm_compute; split; [reflexivity | discriminate]).
  destruct (header_version_gating header_only _ _ _ _ _ _ _ _ _ _
              Hg Hv EA EhA EB EhB) as [Hk _].
  apply (Hk "getGoodWorld"). apply elem_of_cons. left. reflexivity.
Defined.

(** C4 as stated fails: a file of version 256, below the threshold 257 of
    [afterPartyOfDoom], decodes to a header in which that member is
    present with the default [false]. *)
Lemma header_version_gating_counterexample :
  ~ (forall opts bytes r s h,
       parse opts (new_parser bytes) = Ok r s -> r_header r = Some h ->
       version_of bytes < 257 -> h !! "afterPartyOfDoom" = None).
Proof.
  intros H.
  assert (Hrun : (decoded_header header_only (sample_file 256)
                    ≫= (.!! "afterPartyOfDoom")) = Some (VBool false))
    by (vm_compute; reflexivity).
  destruct (decoded_header header_only (sample_file 256)) as [h|] eqn:Hd;
    [|discriminate Hrun].
  cbn [mbind option_bind] in Hrun.
  destruct (decoded_header_Some _ _ _ Hd) as (r & s & E & Eh).
  rewrite (H _ _ _ _ _ E Eh) in Hrun; [discriminate Hrun|].
  vm_compute. reflexivity.
Qed.

(** *** The header decode comes back from a numeric offset *)

Section SteadyHeader.

Variables (bytes : list byte) (mode : bool) (world : WorldNecessary).

Lemma safe_read_strings n : safe (steady bytes mode) (read_strings n).
Proof.
  induction n as [|n IH]; cbn [read_strings]; [apply safe_ret|].
  apply safe_bind; [apply safe_readString|]. intros x.
  apply safe_bind; [exact IH|]. intros xs. apply safe_ret.
Qed.

Lemma safe_reader_value {A} (m : M A) (f : A -> value) :
  safe (steady bytes mode) m -> safe (steady bytes mode) (v ← m; mret (f v)).
Proof. intros Hm. apply safe_bind; [exact Hm|]. intros v. apply safe_ret. Qed.

Lemma safe_field k r d :
  safe (steady bytes mode) r -> safe (steady bytes mode) ((k <~ r) d).
Proof.
  intros Hr. unfold field. apply safe_bind; [exact Hr|].
  intros v. apply safe_ret.
Qed.

Lemma safe_run_steps l :
  Forall (fun f => forall d, safe (steady bytes mode) (f d)) l ->
  forall d, safe (steady bytes mode) (run_steps l d).
Proof.
  induction 1 as [|f l Hf Hl IH]; intros d; cbn [run_steps];
    [apply safe_ret|].
  apply safe_bind; [apply Hf | exact IH].
Qed.

Lemma safe_since t l d :
  Forall (fun f => forall d, safe (steady bytes mode) (f d)) l ->
  safe (steady bytes mode) (since world t l d).
Proof.
  intros Hl. unfold since. destruct (t <=? version world);
    [apply safe_run_steps, Hl | apply safe_ret].
Qed.

Lemma safe_since_else t l1 l2 d :
  Forall (fun f => forall d, safe (steady bytes mode) (f d)) l1 ->
  Forall (fun f => forall d, safe (steady bytes mode) (f d)) l2 ->
  safe (steady bytes mode) (since_else world t l1 l2 d).
Proof.
  intros H1 H2. unfold since_else. destruct (t <=? version world);
    apply safe_run_steps; assumption.
Qed.

Lemma safe_header_steps :
  Forall (fun f => forall d, safe (steady bytes mode) (f d)) (header_steps world).
Proof.
  unfold header_steps, rd_int32_list, rd_string_list, rd_string, rd_bytes,
    rd_int32, rd_int16, rd_uint8, rd_bool, rd_float32, rd_float64,
    rd_int32_tuple, readBoolean, readBytes, guidString_step,
    readInt32, readInt16, readUInt8, readFloat32, readFloat64.
  repeat first
    [ apply Forall_nil; exact I
    | apply Forall_cons; split
    | intros ?; apply safe_field
    | intros ?; apply safe_since
    | intros ?; apply safe_since_else
    | intros ?; apply safe_ret
    | apply safe_ret
    | apply safe_read_typed
    | apply safe_readString
    | apply safe_read_n
    | apply safe_read_int32s
    | apply safe_read_strings
    | apply safe_bind; [|intros ?]
    | match goal with
      | |- safe _ (if ?b then _ else _) => destruct b
      end ].
Qed.

(** Started at a numeric offset, [parseHeader] returns or throws. *)
Lemma safe_parseHeader : safe (steady bytes mode) (parseHeader world).
Proof. apply safe_run_steps, safe_header_steps. Qed.

End SteadyHeader.

(** ** The progress callback *)

Lemma same_decoder_refl s : same_decoder s s.
Proof. repeat split. Qed.

Lemma same_decoder_store v s1 s2 :
  same_decoder s1 s2 -> same_decoder (store_offset v s1) (store_offset v s2).
Proof.
  intros (Ho & Hb & Hm & Hr). unfold same_decoder.
  rewrite !offset_store, !buffer_store, !ignoreBounds_store, !RLE_store. auto.
Qed.

Lemma same_byteLength s1 s2 : same_decoder s1 s2 -> byteLength s1 = byteLength s2.
Proof. intros (_ & Hb & _). unfold byteLength. rewrite Hb. reflexivity. Qed.

Lemma oblivious2_bind {A B} (m1 m2 : M A) (f1 f2 : A -> M B) :
  oblivious2 m1 m2 -> (forall a, oblivious2 (f1 a) (f2 a)) ->
  oblivious2 (m1 ≫= f1) (m2 ≫= f2).
Proof.
  intros Hm Hf s1 s2 Hs. rewrite !bind_eq. specialize (Hm s1 s2 Hs).
  destruct (m1 s1) as [a1 t1|e1 t1|], (m2 s2) as [a2 t2|e2 t2|];
    cbn in Hm; try contradiction; try exact Hm.
  destruct Hm as [<- Ht]. apply Hf, Ht.
Qed.

Lemma oblivious_bind {A B} (m : M A) (f : A -> M B) :
  oblivious m -> (forall a, oblivious (f a)) -> oblivious (m ≫= f).
Proof. apply oblivious2_bind. Qed.

Lemma oblivious_ret {A} (a : A) : oblivious (mret a).
Proof. intros s1 s2 Hs. split; [reflexivity | exact Hs]. Qed.

Lemma oblivious_throw {A} e : oblivious (throw (A := A) e).
Proof. intros s1 s2 Hs. split; [reflexivity | exact Hs]. Qed.

Lemma oblivious_diverge {A} : oblivious (diverge (A := A)).
Proof. intros s1 s2 Hs. exact I. Qed.

Lemma oblivious_try_catch {A} (m h : M A) :
  oblivious m -> oblivious h -> oblivious (try_catch m h).
Proof.
  intros Hm Hh s1 s2 Hs. unfold try_catch. specialize (Hm s1 s2 Hs).
  destruct (m s1) as [a1 t1|e1 t1|], (m s2) as [a2 t2|e2 t2|];
    cbn in Hm; try contradiction; try exact Hm.
  destruct Hm as [_ Ht]. apply Hh, Ht.
Qed.

(** Reading the parser object is harmless when what is done with it is. *)
Lemma oblivious_get {A} (f : parser -> M A) :
  (forall s1 s2, same_decoder s1 s2 -> agree (f s1 s1) (f s2 s2)) ->
  oblivious (get_parser ≫= f).
Proof. intros Hf s1 s2 Hs. rewrite !bind_eq. apply Hf, Hs. Qed.

Lemma oblivious_set_offset v : oblivious (set_offset v).
Proof.
  intros s1 s2 Hs. split; [reflexivity | apply same_decoder_store, Hs].
Qed.

Lemma oblivious_set_RLE r : oblivious (set_RLE r).
Proof.
  intros s1 s2 (Ho & Hb & Hm & Hr). split; [reflexivity|].
  repeat split; assumption.
Qed.

Lemma oblivious_view_get w idx : oblivious (view_get w idx).
Proof.
  intros s1 s2 Hs. unfold view_get. rewrite (same_byteLength _ _ Hs).
  destruct Hs as (Ho & Hb & Hm & Hr). rewrite Hb.
  destruct (_ || _); (split; [reflexivity | repeat split; assumption]).
Qed.

Lemma oblivious_read_typed w conv : oblivious (read_typed w conv).
Proof.
  intros s1 s2 Hs. rewrite !read_typed_eq. cbv zeta.
  rewrite (same_byteLength _ _ Hs).
  pose proof Hs as (Ho & Hb & Hm & Hr). rewrite Ho, Hm.
  destruct (ignoreBounds s2 && _).
  - split; [reflexivity | apply same_decoder_store, Hs].
  - pose proof (oblivious_view_get w (js_sub (js_add (offset s2) w) w)
                  _ _ (same_decoder_store (js_add (offset s2) w) _ _ Hs)) as Hv.
    destruct (view_get _ _ (store_offset _ s1)) as [b1 t1|e1 t1|],
             (view_get _ _ (store_offset _ s2)) as [b2 t2|e2 t2|];
      cbn in Hv; try contradiction; try exact Hv.
    destruct Hv as [<- Ht]. split; [reflexivity | exact Ht].
Qed.

Lemma oblivious_skipBytes n : oblivious (skipBytes n).
Proof.
  unfold skipBytes. apply oblivious_get. intros s1 s2 Hs.
  destruct Hs as (Ho & Hs'). rewrite Ho.
  apply oblivious_set_offset. split; assumption.
Qed.

Lemma oblivious_readBoolean : oblivious readBoolean.
Proof.
  unfold readBoolean. apply oblivious_bind; [apply oblivious_read_typed|].
  intros b. apply oblivious_ret.
Qed.

Lemma oblivious_read_n n : oblivious (read_n n).
Proof.
  induction n as [|n IH]; cbn [read_n]; [apply oblivious_ret|].
  apply oblivious_bind; [apply oblivious_read_typed|]. intros b.
  apply oblivious_bind; [exact IH|]. intros bs. apply oblivious_ret.
Qed.

Lemma oblivious_read_int32s n : oblivious (read_int32s n).
Proof.
  induction n as [|n IH]; cbn [read_int32s]; [apply oblivious_ret|].
  apply oblivious_bind; [apply oblivious_read_typed|]. intros b.
  apply oblivious_bind; [exact IH|]. intros bs. apply oblivious_ret.
Qed.

Lemma oblivious_read_varlen k len shift : oblivious (read_varlen k len shift).
Proof.
  revert len shift. induction k as [|k IH]; intros len shift;
    cbn [read_varlen]; [apply oblivious_diverge|].
  apply oblivious_bind; [apply oblivious_read_typed|]. intros b.
  destruct (Z.land b 128 =? 0); [apply oblivious_ret | apply IH].
Qed.

Lemma oblivious_readString len : oblivious (readString len).
Proof.
  unfold readString.
  apply oblivious_bind;
    [|intros n; apply oblivious_bind;
        [apply oblivious_read_n | intros bs; apply oblivious_ret]].
  destruct len as [n|]; [apply oblivious_ret|].
  apply oblivious_get. intros s1 s2 Hs.
  pose proof Hs as (_ & Hb & _). rewrite Hb.
  apply oblivious_read_varlen, Hs.
Qed.

Lemma oblivious_read_strings n : oblivious (read_strings n).
Proof.
  induction n as [|n IH]; cbn [read_strings]; [apply oblivious_ret|].
  apply oblivious_bind; [apply oblivious_readString|]. intros b.
  apply oblivious_bind; [exact IH|]. intros bs. apply oblivious_ret.
Qed.

Lemma oblivious_parseBitsByte size : oblivious (parseBitsByte size).
Proof.
  unfold parseBitsByte. apply oblivious_bind; [apply oblivious_read_n|].
  intros bs. apply oblivious_ret.
Qed.

Create HintDb oblivious_db.

#[local] Hint Resolve oblivious_ret oblivious_throw oblivious_diverge
  oblivious_set_offset oblivious_set_RLE oblivious_read_typed
  oblivious_skipBytes oblivious_readBoolean oblivious_read_n
  oblivious_read_int32s oblivious_readString oblivious_read_strings
  oblivious_parseBitsByte oblivious_try_catch : oblivious_db.

(** Walk down a computation built from binds and conditionals. *)
Ltac oblivious_walk :=
  repeat first
    [ solve [auto with oblivious_db]
    | apply oblivious_bind; [|intros ?]
    | match goal with
      | |- oblivious (if ?b then _ else _) => destruct b
      | |- oblivious (match ?x with _ => _ end) => destruct x
      end ].

Lemma oblivious_preamble : oblivious preamble.
Proof.
  unfold preamble, readInt32, readInt16, readUInt8. oblivious_walk.
Qed.

Lemma oblivious_parseNecessaryData : oblivious parseNecessaryData.
Proof.
  unfold parseNecessaryData.
  apply oblivious_bind; [apply oblivious_set_offset|]. intros _.
  apply oblivious_bind;
    [apply oblivious_try_catch;
       [apply oblivious_preamble | apply oblivious_throw]|].
  intros p. oblivious_walk.
Qed.

Lemma oblivious_readUInt8 : oblivious readUInt8.
Proof. apply oblivious_read_typed. Qed.
Lemma oblivious_readInt16 : oblivious readInt16.
Proof. apply oblivious_read_typed. Qed.
Lemma oblivious_readUInt16 : oblivious readUInt16.
Proof. apply oblivious_read_typed. Qed.
Lemma oblivious_readInt32 : oblivious readInt32.
Proof. apply oblivious_read_typed. Qed.
Lemma oblivious_readFloat32 : oblivious readFloat32.
Proof. apply oblivious_read_typed. Qed.
Lemma oblivious_readFloat64 : oblivious readFloat64.
Proof. apply oblivious_read_typed. Qed.

#[local] Hint Resolve oblivious_readUInt8 oblivious_readInt16
  oblivious_readUInt16 oblivious_readInt32 oblivious_readFloat32
  oblivious_readFloat64 : oblivious_db.

Lemma oblivious_new_array {A} n : oblivious (new_array (A := A) n).
Proof. unfold new_array. destruct (_ || _); auto with oblivious_db. Qed.

Section ObliviousTiles.

Variable world : WorldNecessary.

Lemma oblivious_read_flags : oblivious read_flags.
Proof. unfold read_flags. oblivious_walk. Qed.

Lemma oblivious_tile_layers f : oblivious (tile_layers world f).
Proof.
  unfold tile_layers, tile_block, tile_wall, tile_liquid. oblivious_walk.
Qed.

Lemma oblivious_tile_extras f t : oblivious (tile_extras f t).
Proof. unfold tile_extras, tile_wall_high. oblivious_walk. Qed.

Lemma oblivious_tile_rle f : oblivious (tile_rle f).
Proof. unfold tile_rle. oblivious_walk. Qed.

Lemma oblivious_parseTileData : oblivious (parseTileData world).
Proof.
  unfold parseTileData.
  apply oblivious_bind; [apply oblivious_read_flags|]. intros f.
  apply oblivious_bind; [apply oblivious_tile_layers|]. intros t.
  apply oblivious_bind; [apply oblivious_tile_extras|]. intros t'.
  apply oblivious_bind; [apply oblivious_tile_rle|]. intros _.
  apply oblivious_ret.
Qed.

Lemma oblivious_run_copy rounds y col : oblivious (run_copy rounds y col).
Proof.
  revert y col. induction rounds as [|rounds IH]; intros y col;
    cbn [run_copy]; apply oblivious_get; intros s1 s2 Hs;
    pose proof Hs as (_ & _ & _ & Hr); rewrite Hr;
    destruct (0 <? RLE s2); try (apply oblivious_ret, Hs).
  - exact I.
  - apply oblivious_bind; [apply oblivious_set_RLE | intros _; apply IH | exact Hs].
Qed.

Lemma oblivious_column_loop rounds y col : oblivious (column_loop world rounds y col).
Proof.
  revert y col. induction rounds as [|rounds IH]; intros y col;
    cbn [column_loop]; destruct (Z.of_nat y <? height world);
    try apply oblivious_ret; [apply oblivious_diverge|].
  apply oblivious_bind; [apply oblivious_parseTileData|]. intros tile.
  apply oblivious_get. intros s1 s2 Hs.
  pose proof Hs as (_ & _ & _ & Hr). rewrite Hr.
  apply oblivious_bind; [apply oblivious_run_copy | | exact Hs].
  intros [y2 col2]. apply IH.
Qed.

Lemma oblivious_grid_loop rounds x data : oblivious (grid_loop world rounds x data).
Proof.
  revert x data. induction rounds as [|rounds IH]; intros x data;
    cbn [grid_loop]; [apply oblivious_ret|].
  apply oblivious_bind; [apply oblivious_new_array|]. intros col.
  apply oblivious_bind; [apply oblivious_column_loop|]. intros col'.
  apply IH.
Qed.

Lemma oblivious_parseWorldTiles : oblivious (parseWorldTiles world).
Proof.
  unfold parseWorldTiles.
  apply oblivious_bind; [apply oblivious_set_RLE|]. intros _.
  apply oblivious_bind; [apply oblivious_new_array|]. intros data.
  apply oblivious_grid_loop.
Qed.

Lemma oblivious_field k r d : oblivious r -> oblivious ((k <~ r) d).
Proof.
  intros Hr. unfold field. apply oblivious_bind; [exact Hr|].
  intros v. apply oblivious_ret.
Qed.

Lemma oblivious_run_steps l :
  Forall (fun f => forall d, oblivious (f d)) l ->
  forall d, oblivious (run_steps l d).
Proof.
  induction 1 as [|f l Hf Hl IH]; intros d; cbn [run_steps];
    [apply oblivious_ret|].
  apply oblivious_bind; [apply Hf | exact IH].
Qed.

Lemma oblivious_since t l d :
  Forall (fun f => forall d, oblivious (f d)) l -> oblivious (since world t l d).
Proof.
  intros Hl. unfold since. destruct (t <=? version world);
    [apply oblivious_run_steps, Hl | apply oblivious_ret].
Qed.

Lemma oblivious_since_else t l1 l2 d :
  Forall (fun f => forall d, oblivious (f d)) l1 ->
  Forall (fun f => forall d, oblivious (f d)) l2 ->
  oblivious (since_else world t l1 l2 d).
Proof.
  intros H1 H2. unfold since_else. destruct (t <=? version world);
    apply oblivious_run_steps; assumption.
Qed.

Lemma oblivious_reader_value {A} (m : M A) (f : A -> value) :
  oblivious m -> oblivious (v ← m; mret (f v)).
Proof.
  intros Hm. apply oblivious_bind; [exact Hm|]. intros v. apply oblivious_ret.
Qed.

Lemma oblivious_rd_int32_list count : oblivious count -> oblivious (rd_int32_list count).
Proof.
  intros Hc. unfold rd_int32_list. apply oblivious_bind; [exact Hc|].
  intros n. apply oblivious_reader_value, oblivious_read_int32s.
Qed.

Lemma oblivious_rd_string_list count : oblivious count -> oblivious (rd_string_list count).
Proof.
  intros Hc. unfold rd_string_list. apply oblivious_bind; [exact Hc|].
  intros n. apply oblivious_reader_value, oblivious_read_strings.
Qed.

Lemma oblivious_header_steps :
  Forall (fun f => forall d, oblivious (f d)) (header_steps world).
Proof.
  unfold header_steps.
  repeat first
    [ apply Forall_nil; exact I
    | apply Forall_cons; split
    | intros ?; apply oblivious_field
    | intros ?; apply oblivious_since
    | intros ?; apply oblivious_since_else
    | intros ?; apply oblivious_ret
    | apply oblivious_rd_int32_list
    | apply oblivious_rd_string_list
    | apply oblivious_reader_value
    | solve [auto with oblivious_db]
    | match goal with
      | |- oblivious (if ?b then _ else _) => destruct b
      end
    | unfold readBytes ].
Qed.

Lemma oblivious_parseHeader : oblivious (parseHeader world).
Proof. apply oblivious_run_steps, oblivious_header_steps. Qed.

End ObliviousTiles.

Lemma oblivious_assign_options : oblivious assign_options.
Proof.
  intros s1 s2 (Ho & Hb & Hm & Hr). split; [reflexivity|].
  repeat split; assumption.
Qed.

(** Installing the accessor changes nothing the decoder reads. *)
Lemma oblivious2_install : oblivious2 install_progress (mret tt).
Proof.
  intros s1 s2 (Ho & Hb & Hm & Hr). split; [reflexivity|].
  repeat split; assumption.
Qed.

Lemma agree_answer (o1 o2 : outcome parse_result) :
  agree o1 o2 -> answer_of o1 = answer_of o2.
Proof.
  destruct o1 as [r1 s1|e1 s1|], o2 as [r2 s2|e2 s2|]; cbn;
    try contradiction; try reflexivity; intros [-> _]; reflexivity.
Qed.

(** C9. For every buffer and every selection of sections, [parse] with a
    progress callback and [parse] without one give the caller the same
    answer: the same header and grid, the same error, or neither returns;
    and they leave the cursor at the same offset over the same buffer. *)
Theorem progress_noninterference (bytes : list byte) (wanted : list string) :
  answer_of (parse (mkOptions wanted true) (new_parser bytes))
  = answer_of (parse (mkOptions wanted false) (new_parser bytes)) /\
  agree (parse (mkOptions wanted true) (new_parser bytes))
        (parse (mkOptions wanted false) (new_parser bytes)).
Proof.
  assert (H : oblivious2 (parse (mkOptions wanted true))
                         (parse (mkOptions wanted false))).
  { unfold parse. cbn [sections progressCallback].
    apply oblivious2_bind; [apply oblivious_assign_options|]. intros _.
    apply oblivious2_bind; [apply oblivious2_install|]. intros _.
    apply oblivious_bind; [apply oblivious_parseNecessaryData|]. intros world.
    apply oblivious_bind.
    - destruct (includes _ "header"); [|apply oblivious_ret].
      apply oblivious_bind; [apply oblivious_set_offset|]. intros _.
      apply oblivious_bind; [apply oblivious_parseHeader|]. intros h.
      apply oblivious_ret.
    - intros hdr. apply oblivious_bind.
      + destruct (includes _ "tiles"); [|apply oblivious_ret].
        apply oblivious_bind; [apply oblivious_set_offset|]. intros _.
        apply oblivious_bind; [apply oblivious_parseWorldTiles|]. intros t.
        apply oblivious_ret.
      + intros tls. apply oblivious_ret. }
  specialize (H (new_parser bytes) (new_parser bytes) (same_decoder_refl _)).
  split; [apply agree_answer, H | exact H].
Qed.

(** The callback is not idle in the model: decoding the header of the
    sample file of version 279 calls it 25 times, the last time with 25. *)
Example progress_calls_sample :
  match parse (mkOptions ["header"] true) (new_parser (sample_file 279)) with
  | Ok _ s => Some (length (calls s), last (calls s))
  | Throw _ _ => None
  | Diverge => None
  end = Some (25%nat, Some 25).
Proof. vm_compute. reflexivity. Qed.

(** The one way [parse] does not come back: the header is asked for, the
    section table has no entry for it, so that the offset becomes NaN and
    every read fetches byte 0, and byte 0 has its high bit set; the
    length-prefix loop of the first string then never ends.  Here byte 0
    is 194, the low byte of the version. *)
Example parse_hangs_without_pointer :
  answer_of (parse header_only (new_parser sample_no_pointers)) = Hangs.
Proof. vm_compute. reflexivity. Qed.

(** ** The rasterizer *)

(** C6. The colour of a cell comes from exactly one rule, the first that
    applies: the block rule when the cell has a block id, whatever else it
    has; else the liquid rule when it has a liquid kind; else the wall rule
    when it has a wall id above 0; else the background rule of its row. *)
Theorem rasterizer_precedence (surface rockLayer : bound) (hellLayer y : Z)
    (tile : Tile) :
  (forall id, blockId tile = Some id ->
     cell_color surface rockLayer hellLayer y tile = block_rule id) /\
  (forall l, blockId tile = None -> liquidType tile = Some l ->
     cell_color surface rockLayer hellLayer y tile = Some (liquid_rule l)) /\
  (forall w, blockId tile = None -> liquidType tile = None ->
     wallId tile = Some w -> 0 < w ->
     cell_color surface rockLayer hellLayer y tile = Some (wall_rule w)) /\
  (blockId tile = None -> liquidType tile = None ->
   (wallId tile = None \/ exists w, wallId tile = Some w /\ w <= 0) ->
   cell_color surface rockLayer hellLayer y tile =
     Some (background_rule surface rockLayer hellLayer y)).
Proof.
  unfold cell_color. repeat split.
  - intros id ->. unfold block_rule. destruct (419 <? id); [reflexivity|].
    destruct (table_get TILE_COLORS id); reflexivity.
  - intros l -> ->. unfold liquid_rule. destruct (LIQUID_COLORS l); reflexivity.
  - intros w -> -> -> Hw. replace (0 <? w) with true by (symmetry; lia).
    unfold wall_rule. change (default 0 (Some w)) with w.
    destruct (table_get WALL_COLORS w); reflexivity.
  - intros -> -> [-> | (w & -> & Hw)]; [reflexivity|].
    replace (0 <? w) with false by (symmetry; lia). reflexivity.
Qed.

(** A cell with block id 1, lava and wall id 4 takes the colour of the
    block; without the block id it takes that of lava. *)
Lemma rasterizer_precedence_witness :
  cell_color (Fin 3) (Fin 5) 10 0
    (set_wallId 4 (set_liquidType lava (set_blockId 1 empty_tile)))
  = Some (128, 128, 128) /\
  cell_color (Fin 3) (Fin 5) 10 0 (set_wallId 4 (set_liquidType lava empty_tile))
  = Some (200, 60, 10).
Proof.
  split.
  - destruct (rasterizer_precedence (Fin 3) (Fin 5) 10 0
                (set_wallId 4 (set_liquidType lava (set_blockId 1 empty_tile))))
      as (Hb & _).
    rewrite (Hb 1 eq_refl). reflexivity.
  - destruct (rasterizer_precedence (Fin 3) (Fin 5) 10 0
                (set_wallId 4 (set_liquidType lava empty_tile)))
      as (_ & Hl & _).
    rewrite (Hl lava eq_refl eq_refl). reflexivity.
Defined.

Lemma palette_index id :
  (Z.to_nat (id mod Z.of_nat (length MOD_TILE_COLORS))
   < length MOD_TILE_COLORS)%nat.
Proof.
  pose proof (Z.mod_pos_bound id (Z.of_nat (length MOD_TILE_COLORS))) as H.
  cbn [length MOD_TILE_COLORS] in *. lia.
Qed.

(** Every id from 0 to 419 has an entry in the block colour table. *)
Lemma TILE_COLORS_complete id :
  0 <= id <= 419 -> is_Some (table_get TILE_COLORS id).
Proof.
  intros Hid.
  assert (Hall : forallb (fun i => match table_get TILE_COLORS i with
                                   | Some _ => true | None => false end)
                   (map Z.of_nat (seq 0 420)) = true)
    by (vm_compute; reflexivity).
  rewrite forallb_forall in Hall.
  specialize (Hall id). destruct (table_get TILE_COLORS id); [eauto|].
  exfalso. enough (false = true) by discriminate. apply Hall.
  apply in_map_iff. exists (Z.to_nat id). split; [lia | apply in_seq; lia].
Qed.

(** ** Byte arrays, length prefixes, bit sets and identifiers *)

Lemma read_n_lenient_or_inside n s o :
  offset s = Num o -> 0 <= o ->
  o + Z.of_nat n <= byteLength s \/ ignoreBounds s = true ->
  exists s', read_n n s = Ok (map (byte_or_zero (buffer s)) (seq (Z.to_nat o) n)) s' /\
    offset s' = Num (o + Z.of_nat n) /\ buffer s' = buffer s /\
    ignoreBounds s' = ignoreBounds s.
Proof.
  revert s o. induction n as [|n IH]; intros s o Ho H0 Hin.
  - exists s. cbn. rewrite Ho. repeat split. f_equal. lia.
  - cbn [read_n]. rewrite bind_eq.
    pose proof (readUInt8_cases s o Ho) as Hc. cbv zeta in Hc.
    assert (Hrd : readUInt8 s
                  = Ok (byte_or_zero (buffer s) (Z.to_nat o))
                       (store_offset (Num (o + 1)) s)).
    { destruct ((0 <=? o) && (o + 1 <=? byteLength s)) eqn:E; [exact Hc|].
      assert (Hm : ignoreBounds s = true /\ byteLength s < o + 1).
      { apply andb_false_iff in E. destruct Hin as [Hin|Hin]; [lia|].
        split; [exact Hin|]. destruct E as [E|E]; lia. }
      destruct Hm as [Hm Hlt]. rewrite Hm in Hc.
      replace (byteLength s <? o + 1) with true in Hc by (symmetry; lia).
      cbn [andb] in Hc. destruct Hc as [-> ->]. reflexivity. }
    rewrite Hrd.
    destruct (IH (store_offset (Num (o + 1)) s) (o + 1)) as (s' & Hr & Hoff & Hb & Hm).
    { apply offset_store. }
    { lia. }
    { rewrite byteLength_store, ignoreBounds_store.
      destruct Hin as [Hin|Hin]; [left; lia | right; exact Hin]. }
    exists s'. rewrite bind_eq, Hr. rewrite buffer_store in *.
    rewrite ignoreBounds_store in Hm.
    repeat split; try assumption.
    + cbn [seq map]. do 3 f_equal. f_equal. lia.
    + rewrite Hoff. f_equal. lia.
Qed.

Lemma read_n_strict_short n s o :
  offset s = Num o -> 0 <= o -> ignoreBounds s = false ->
  (0 < n)%nat -> byteLength s < o + Z.of_nat n ->
  exists s', read_n n s = Throw RangeError s' /\
    offset s' = Num (Z.max o (byteLength s) + 1).
Proof.
  revert s o. induction n as [|n IH]; intros s o Ho H0 Hm Hn Hlt; [lia|].
  cbn [read_n]. rewrite bind_eq.
  pose proof (readUInt8_cases s o Ho) as Hc. cbv zeta in Hc.
  destruct ((0 <=? o) && (o + 1 <=? byteLength s)) eqn:E.
  - rewrite Hc.
    destruct (IH (store_offset (Num (o + 1)) s) (o + 1)) as (s' & Hr & Hoff).
    + apply offset_store.
    + lia.
    + rewrite ignoreBounds_store. exact Hm.
    + lia.
    + rewrite byteLength_store. lia.
    + exists s'. rewrite bind_eq, Hr. split; [reflexivity|].
      rewrite Hoff, byteLength_store. f_equal. lia.
  - rewrite Hm in Hc. cbn [andb] in Hc. rewrite Hc.
    eexists. split; [reflexivity|]. rewrite offset_store. f_equal.
    apply andb_false_iff in E. destruct E as [E|E]; lia.
Qed.

Lemma readBytes_inside n s o :
  offset s = Num o -> 0 <= o -> 0 <= n -> o + n <= byteLength s ->
  exists s', readBytes n s = Ok (window (buffer s) o n) s' /\
    offset s' = Num (o + n) /\ buffer s' = buffer s.
Proof.
  intros Ho H0 Hn Hin. unfold readBytes, window.
  destruct (read_n_lenient_or_inside (Z.to_nat n) s o Ho H0)
    as (s' & Hr & Hoff & Hbuf & _).
  { rewrite Z2Nat.id by lia. left. exact Hin. }
  rewrite Z2Nat.id in Hoff by lia. exists s'. auto.
Qed.

(** X1. [readBytes(count)] with the offset at [o]: a count of zero or
    less reads nothing and leaves the parser as it is; when the [count]
    bytes lie inside the buffer, or in lenient mode, the call returns the
    bytes at [o .. o+count-1] (0 for those past the end) and leaves the
    offset at [o + count]; in strict mode, when they do not all lie inside
    the buffer, the call throws [RangeError], the bytes read so far are
    lost and the offset is one past the end of the buffer (or [o + 1] when
    [o] was already past it). *)
Theorem readBytes_window (count o : Z) (s : parser) :
  offset s = Num o -> 0 <= o ->
  (count <= 0 -> readBytes count s = Ok [] s) /\
  (0 <= count -> o + count <= byteLength s \/ ignoreBounds s = true ->
     exists s', readBytes count s = Ok (window (buffer s) o count) s' /\
       offset s' = Num (o + count) /\ buffer s' = buffer s /\
       ignoreBounds s' = ignoreBounds s) /\
  (ignoreBounds s = false -> 0 < count -> byteLength s < o + count ->
     exists s', readBytes count s = Throw RangeError s' /\
       offset s' = Num (Z.max o (byteLength s) + 1)).
Proof.
  intros Ho H0. unfold readBytes, window. repeat split.
  - intros Hc. replace (Z.to_nat count) with O by lia. reflexivity.
  - intros Hc Hin.
    destruct (read_n_lenient_or_inside (Z.to_nat count) s o Ho H0) as (s' & H).
    { rewrite Z2Nat.id by lia. exact Hin. }
    rewrite Z2Nat.id in H by lia. exists s'. exact H.
  - intros Hm Hc Hlt. apply read_n_strict_short; try assumption; lia.
Qed.

Lemma readBytes_window_witness :
  exists s',
    readBytes 2 (new_parser [Byte.x07; Byte.x09; Byte.x0b])
    = Ok [7; 9] s' /\ offset s' = Num 2.
Proof.
  destruct (readBytes_window 2 0 (new_parser [Byte.x07; Byte.x09; Byte.x0b])
              eq_refl ltac:(lia)) as (_ & H & _).
  destruct (H ltac:(lia) ltac:(left; vm_compute; congruence))
    as (s' & Hr & Ho & _).
  exists s'. split; [exact Hr | exact Ho].
Defined.

(** *** Length prefixes *)

Lemma to_int32_small z : - 2 ^ 31 <= z < 2 ^ 31 -> to_int32 z = z.
Proof.
  intros H. unfold to_int32. rewrite Z.mod_small by lia. lia.
Qed.

Lemma lor_disjoint_add a x n :
  0 <= n -> 0 <= a < 2 ^ n -> 0 <= x -> Z.lor a (x * 2 ^ n) = a + x * 2 ^ n.
Proof.
  intros Hn Ha Hx.
  assert (Hland : Z.land a (x * 2 ^ n) = 0).
  { apply Z.bits_inj'. intros m Hm. rewrite Z.land_spec, Z.bits_0.
    destruct (Z.lt_ge_cases m n) as [Hlt|Hge].
    - rewrite Z.mul_pow2_bits_low by lia. apply andb_false_r.
    - destruct (Z.eq_dec a 0) as [->|Hne]; [rewrite Z.bits_0; reflexivity|].
      rewrite (Z.bits_above_log2 a m); [reflexivity | lia |].
      apply Z.log2_lt_pow2; [lia|].
      apply Z.lt_le_trans with (2 ^ n); [lia|].
      apply Z.pow_le_mono_r; lia. }
  rewrite <- Z.lxor_lor by exact Hland.
  symmetry. apply Z.add_nocarry_lxor. exact Hland.
Qed.

(** One round of the prefix loop, while no more than 28 bits have been
    gathered: [length |= (byte & 127) << shift] adds the seven bits at
    their place. *)
Lemma varlen_round len b j :
  (j <= 3)%nat -> 0 <= len < 128 ^ Z.of_nat j -> 0 <= b < 256 ->
  or32 len (shl32 (Z.land b 127) (7 * Z.of_nat j))
  = len + (b mod 128) * 128 ^ Z.of_nat j.
Proof.
  intros Hj Hlen Hb.
  assert (Hland : Z.land b 127 = b mod 128)
    by (apply (Z.land_ones b 7); lia).
  rewrite Hland.
  pose proof (Z.mod_pos_bound b 128 ltac:(lia)) as Hm.
  assert (Hpow : 128 ^ Z.of_nat j = 2 ^ (7 * Z.of_nat j)).
  { change 128 with (2 ^ 7). rewrite <- Z.pow_mul_r by lia. reflexivity. }
  assert (Hbound : 128 ^ Z.of_nat j <= 2 ^ 21).
  { rewrite Hpow. apply Z.pow_le_mono_r; lia. }
  assert (Hpos : 0 < 128 ^ Z.of_nat j) by (apply Z.pow_pos_nonneg; lia).
  unfold shl32, or32.
  rewrite (Z.mod_small (7 * Z.of_nat j) 32) by lia.
  rewrite Z.shiftl_mul_pow2 by lia. rewrite <- Hpow.
  assert (Hx : 0 <= b mod 128 * 128 ^ Z.of_nat j < 2 ^ 28).
  { split; [nia|]. change (2 ^ 28) with (128 * 2 ^ 21). nia. }
  rewrite (to_int32_small (b mod 128 * 128 ^ Z.of_nat j)) by lia.
  rewrite Hpow. rewrite lor_disjoint_add; [|lia|rewrite <- Hpow; lia|lia].
  rewrite <- Hpow. apply to_int32_small.
  change (2 ^ 31) with (8 * 2 ^ 28). lia.
Qed.

Lemma read_varlen_prefix pre : forall last k len j s o,
  offset s = Num o -> 0 <= o ->
  (j + length pre <= 3)%nat -> (length pre < k)%nat ->
  0 <= len < 128 ^ Z.of_nat j ->
  Forall (fun b => 128 <= b < 256) pre -> 0 <= last < 128 ->
  o + Z.of_nat (S (length pre)) <= byteLength s ->
  window (buffer s) o (Z.of_nat (S (length pre))) = pre ++ [last] ->
  exists s', read_varlen k len (7 * Z.of_nat j) s
             = Ok (len + 128 ^ Z.of_nat j * varlen_value (pre ++ [last])) s' /\
    offset s' = Num (o + Z.of_nat (S (length pre))) /\
    buffer s' = buffer s /\ ignoreBounds s' = ignoreBounds s.
Proof.
  induction pre as [|b pre IH];
    intros last k len j s o Ho H0 Hj Hk Hlen Hpre Hlast Hin Hw;
    (destruct k as [|k]; [cbn [length] in Hk; lia|]);
    cbn [read_varlen]; rewrite bind_eq;
    pose proof (readUInt8_cases s o Ho) as Hc; cbv zeta in Hc;
    (replace ((0 <=? o) && (o + 1 <=? byteLength s)) with true in Hc
      by (symmetry; apply andb_true_iff; cbn [length] in Hin; lia));
    rewrite Hc; unfold window in Hw; rewrite Nat2Z.id in Hw;
    cbn [length seq map app] in Hw.
  - injection Hw as Hb. rewrite Hb.
    assert (Hl : Z.land last 128 = 0).
    { change 128 with (2 ^ 7). rewrite land_pow2 by lia.
      rewrite (Z.bits_above_log2 last 7); [reflexivity | lia |].
      destruct (Z.eq_dec last 0) as [->|]; [cbn; lia|].
      apply Z.log2_lt_pow2; lia. }
    rewrite Hl. cbn [Z.eqb].
    eexists. split; [|rewrite offset_store, buffer_store, ignoreBounds_store;
                       cbn [length]; repeat split; f_equal; lia].
    unfold mret, M_ret, retM. f_equal.
    rewrite varlen_round by (cbn [length] in Hj; lia).
    cbn [varlen_value app]. rewrite (Z.mod_small last 128) by lia. lia.
  - injection Hw as Hb Hrest. rewrite Hb.
    apply Forall_cons in Hpre as [Hb1 Hpre'].
    assert (Hl : Z.land b 128 = 128).
    { change 128 with (2 ^ 7) at 1. rewrite land_pow2 by lia.
      assert (Ht : Z.testbit b 7 = true).
      { rewrite Z.testbit_true by lia. change (2 ^ 7) with 128.
        assert (Hq : b / 128 = 1)
          by (symmetry; apply Z.div_unique with (b - 128); lia).
        rewrite Hq. reflexivity. }
      rewrite Ht. reflexivity. }
    rewrite Hl. cbn [Z.eqb].
    rewrite varlen_round by (cbn [length] in Hj; lia).
    replace (7 * Z.of_nat j + 7) with (7 * Z.of_nat (S j)) by lia.
    destruct (IH last k (len + b mod 128 * 128 ^ Z.of_nat j) (S j)
                (store_offset (Num (o + 1)) s) (o + 1))
      as (s' & Hr & Hoff & Hbuf & Hmode).
    + apply offset_store.
    + lia.
    + cbn [length] in Hj. lia.
    + cbn [length] in Hk. lia.
    + pose proof (Z.mod_pos_bound b 128 ltac:(lia)).
      rewrite Nat2Z.inj_succ, Z.pow_succ_r by lia.
      assert (0 < 128 ^ Z.of_nat j) by (apply Z.pow_pos_nonneg; lia). nia.
    + exact Hpre'.
    + exact Hlast.
    + rewrite byteLength_store. cbn [length] in Hin. lia.
    + unfold window. rewrite buffer_store, Nat2Z.id.
      replace (Z.to_nat (o + 1)) with (S (Z.to_nat o)) by lia. exact Hrest.
    + exists s'. rewrite Hr. rewrite buffer_store in Hbuf.
      rewrite ignoreBounds_store in Hmode.
      repeat split; try assumption.
      * f_equal. cbn [varlen_value app].
        rewrite Nat2Z.inj_succ, Z.pow_succ_r by lia. ring.
      * rewrite Hoff. f_equal. cbn [length]. lia.
Qed.

Lemma varlen_value_bound pre :
  Forall (fun b => 0 <= b) pre ->
  0 <= varlen_value pre < 128 ^ Z.of_nat (length pre).
Proof.
  induction 1 as [|b pre Hb _ IH].
  - cbn. lia.
  - cbn [varlen_value length]. rewrite Nat2Z.inj_succ, Z.pow_succ_r by lia.
    pose proof (Z.mod_pos_bound b 128 ltac:(lia)). lia.
Qed.

(** X2. [readString()] without a length: when the bytes at the offset are
    a prefix of at most four bytes, every byte but the last with bit 7
    set, the text returned is the UTF-8 decoding of the [n] bytes that
    follow the prefix, where [n] is the number the prefix spells seven
    bits at a time, least significant group first; the offset is left
    after those bytes.  When they are all ASCII the text is these bytes
    as characters. *)
Theorem readString_prefix (s : parser) (o : Z) (pre : list Z) (last : Z) :
  let n := varlen_value (pre ++ [last]) in
  let start := o + Z.of_nat (S (length pre)) in
  offset s = Num o -> 0 <= o -> (length pre <= 3)%nat ->
  Forall (fun b => 128 <= b < 256) pre -> 0 <= last < 128 ->
  window (buffer s) o (Z.of_nat (S (length pre))) = pre ++ [last] ->
  start + n <= byteLength s ->
  0 <= n < 2 ^ 28 /\
  exists s',
    readString None s
    = Ok (TextDecoder_decode (window (buffer s) start n)) s' /\
    offset s' = Num (start + n) /\ buffer s' = buffer s /\
    (Forall (fun b => 0 <= b < 128) (window (buffer s) start n) ->
     readString None s = Ok (window (buffer s) start n) s').
Proof.
  intros n start Ho H0 Hlen Hpre Hlast Hw Hin.
  assert (Hn : 0 <= n < 128 ^ Z.of_nat (S (length pre))).
  { subst n. replace (S (length pre)) with (length (pre ++ [last]))
      by (rewrite length_app; cbn; lia).
    apply varlen_value_bound. apply Forall_app. split.
    - eapply Forall_impl; [exact Hpre|]. cbn. intros; lia.
    - constructor; [lia | constructor]. }
  split.
  { split; [lia|]. apply Z.lt_le_trans with (128 ^ Z.of_nat (S (length pre)));
      [lia|]. change (2 ^ 28) with (128 ^ 4). apply Z.pow_le_mono_r; lia. }
  destruct (read_varlen_prefix pre last (S (length (buffer s))) 0 O s o)
    as (s1 & Hr & Hoff & Hbuf & Hmode); try assumption; try lia.
  { unfold byteLength in Hin. subst start. lia. }
  change (7 * Z.of_nat 0) with 0 in Hr. change (128 ^ Z.of_nat 0) with 1 in Hr.
  replace (0 + 1 * varlen_value (pre ++ [last])) with n in Hr by (subst n; lia).
  destruct (readBytes_inside n s1 start) as (s' & Hrb & Hoff' & Hbuf').
  - exact Hoff.
  - subst start. lia.
  - lia.
  - unfold byteLength. rewrite Hbuf. exact Hin.
  - rewrite Hbuf in Hrb, Hbuf'.
    assert (Hrun : readString None s
                   = Ok (TextDecoder_decode (window (buffer s) start n)) s').
    { unfold readString. rewrite bind_eq.
      unfold get_parser at 1. rewrite bind_eq. cbv beta iota.
      rewrite Hr, bind_eq, Hrb. reflexivity. }
    exists s'. split; [exact Hrun|]. split; [exact Hoff'|].
    split; [exact Hbuf'|].
    intros Hascii. rewrite Hrun, (decode_ascii _ Hascii). reflexivity.
Qed.

(** A length prefix of 4, a byte-order mark and the letter A: the text
    is "A". *)
Lemma readString_prefix_witness :
  exists s',
    readString None
      (new_parser [Byte.x04; Byte.xef; Byte.xbb; Byte.xbf; Byte.x41])
    = Ok [65] s' /\
    offset s' = Num 5.
Proof.
  destruct (readString_prefix
              (new_parser [Byte.x04; Byte.xef; Byte.xbb; Byte.xbf; Byte.x41])
              0 [] 4 eq_refl ltac:(lia) ltac:(cbn; lia)
              ltac:(constructor) ltac:(lia) eq_refl
              ltac:(vm_compute; congruence))
    as (_ & s' & Hr & Ho & _).
  exists s'. split; [exact Hr | exact Ho].
Defined.

(** *** Bit sets *)

Lemma bit_of_testbit bytes i :
  0 <= nth (i / 8) bytes 0 ->
  bit_of bytes i = Z.testbit (nth (i / 8) bytes 0) (Z.of_nat (i mod 8)).
Proof.
  intros Hb. unfold bit_of. rewrite Z.shiftl_1_l, land_pow2 by lia.
  destruct (Z.testbit _ _); [|reflexivity].
  apply Z.ltb_lt. apply Z.pow_pos_nonneg; lia.
Qed.

Lemma byte_or_zero_range bytes i : 0 <= byte_or_zero bytes i < 256.
Proof.
  unfold byte_or_zero. destruct (bytes !! i) as [b|]; [apply u8_range | lia].
Qed.

Lemma parseBitsByte_Ok size o s bits s' :
  parseBitsByte size s = Ok bits s' -> offset s = Num o -> 0 <= o ->
  length bits = Z.to_nat size /\
  offset s' = Num (o + Z.max 0 ((size + 7) / 8)) /\
  forall i, (i < Z.to_nat size)%nat ->
    bits !! i = Some (Z.testbit (byte_or_zero (buffer s) (Z.to_nat o + i / 8))
                        (Z.of_nat (i mod 8))).
Proof.
  unfold parseBitsByte. intros H Ho H0.
  apply bind_Ok in H as (bytes & s1 & Hrd & H). apply ret_Ok in H as [<- <-].
  apply (read_n_Ok _ _ _ _ o) in Hrd as (Hoff & _ & ->); [|exact Ho|exact H0].
  split; [rewrite length_map, length_seq; reflexivity|].
  split; [rewrite Hoff; f_equal; lia|].
  intros i Hi.
  rewrite list_lookup_fmap, lookup_seq_lt by exact Hi.
  cbn [fmap option_fmap option_map Nat.add].
  assert (Hidx : (i / 8 < Z.to_nat ((size + 7) / 8))%nat).
  { apply Nat2Z.inj_lt. rewrite Nat2Z.inj_div.
    assert (0 < size) by lia.
    rewrite Z2Nat.id by (apply Z.div_pos; lia).
    change (Z.of_nat 8) with 8.
    assert (Z.of_nat i < size) by lia.
    pose proof (Z.div_mod (Z.of_nat i) 8 ltac:(lia)).
    pose proof (Z.mod_pos_bound (Z.of_nat i) 8 ltac:(lia)).
    pose proof (Z.div_mod (size + 7) 8 ltac:(lia)).
    pose proof (Z.mod_pos_bound (size + 7) 8 ltac:(lia)). lia. }
  assert (Hnth : nth (i / 8)
                   (map (byte_or_zero (buffer s))
                      (seq (Z.to_nat o) (Z.to_nat ((size + 7) / 8)))) 0
                 = byte_or_zero (buffer s) (Z.to_nat o + i / 8)).
  { rewrite nth_lookup, list_lookup_fmap, lookup_seq_lt by exact Hidx.
    reflexivity. }
  f_equal. rewrite bit_of_testbit; rewrite Hnth; [reflexivity|].
  apply byte_or_zero_range.
Qed.

(** X3. [parseBitsByte(size)] with the offset at [o]: a size of zero or
    less reads nothing and returns the empty array; otherwise the call
    reads [ceil(size / 8)] bytes and, when it returns, the array has
    [size] entries, entry [i] being bit [i mod 8] (least significant
    first) of the byte at [o + floor(i / 8)]; it returns whenever those
    bytes lie inside the buffer. *)
Theorem parseBitsByte_bits (size o : Z) (s : parser) :
  offset s = Num o -> 0 <= o ->
  (size <= 0 -> parseBitsByte size s = Ok [] s) /\
  (forall bits s', parseBitsByte size s = Ok bits s' ->
     length bits = Z.to_nat size /\
     offset s' = Num (o + Z.max 0 ((size + 7) / 8)) /\
     forall i, (i < Z.to_nat size)%nat ->
       bits !! i = Some (Z.testbit (byte_or_zero (buffer s) (Z.to_nat o + i / 8))
                           (Z.of_nat (i mod 8)))) /\
  (o + (size + 7) / 8 <= byteLength s ->
     exists bits s', parseBitsByte size s = Ok bits s').
Proof.
  intros Ho H0. split; [|split].
  - intros Hs. unfold parseBitsByte. rewrite bind_eq.
    replace (Z.to_nat ((size + 7) / 8)) with O
      by (assert ((size + 7) / 8 < 1) by (apply Z.div_lt_upper_bound; lia); lia).
    cbn [read_n]. replace (Z.to_nat size) with O by lia. reflexivity.
  - intros bits s' H. apply (parseBitsByte_Ok size o s bits s' H Ho H0).
  - intros Hin. unfold parseBitsByte. rewrite bind_eq.
    destruct (Z.le_gt_cases ((size + 7) / 8) 0) as [Hle|Hgt].
    + replace (Z.to_nat ((size + 7) / 8)) with O by lia.
      eexists _, _. reflexivity.
    + destruct (read_n_lenient_or_inside (Z.to_nat ((size + 7) / 8)) s o Ho H0)
        as (s1 & Hr & _).
      { left. lia. }
      rewrite Hr. eexists _, _. reflexivity.
Qed.

Lemma parseBitsByte_bits_witness :
  exists bits s',
    parseBitsByte 10 (new_parser [Byte.x05; Byte.x02]) = Ok bits s' /\
    length bits = 10%nat /\ offset s' = Num 2 /\
    bits !! 2%nat = Some true /\ bits !! 9%nat = Some true /\
    bits !! 1%nat = Some false.
Proof.
  destruct (parseBitsByte_bits 10 0 (new_parser [Byte.x05; Byte.x02])
              eq_refl ltac:(lia)) as (_ & Hspec & Hex).
  destruct (Hex ltac:(vm_compute; congruence)) as (bits & s' & Hr).
  destruct (Hspec bits s' Hr) as (Hlen & Hoff & Hbit).
  exists bits, s'. repeat split; try assumption.
  - apply (Hbit 2%nat). cbn. lia.
  - apply (Hbit 9%nat). cbn. lia.
  - apply (Hbit 1%nat). cbn. lia.
Defined.

(** *** Identifiers *)

Lemma parseGuid_16 b0 b1 b2 b3 b4 b5 b6 b7 b8 b9 b10 b11 b12 b13 b14 b15 :
  parseGuid [b0; b1; b2; b3; b4; b5; b6; b7; b8; b9; b10; b11; b12; b13; b14; b15]
  = hex2 b3 ++ hex2 b2 ++ hex2 b1 ++ hex2 b0 ++ hex2 b5 ++ [45] ++
    hex2 b4 ++ hex2 b7 ++ [45] ++ hex2 b6 ++ hex2 b8 ++ [45] ++
    hex2 b9 ++ hex2 b10 ++ [45] ++ hex2 b11 ++ hex2 b12 ++ hex2 b13 ++
    hex2 b14 ++ hex2 b15.
Proof. reflexivity. Qed.

Lemma hex_digit_hex d : 0 <= d < 16 -> is_hex (hex_digit d).
Proof.
  intros Hd. unfold is_hex, hex_digit.
  destruct (Z.ltb_spec d 10); lia.
Qed.

Lemma hex_digit_inj d e :
  0 <= d < 16 -> 0 <= e < 16 -> hex_digit d = hex_digit e -> d = e.
Proof.
  unfold hex_digit. intros Hd He.
  destruct (Z.ltb_spec d 10), (Z.ltb_spec e 10); lia.
Qed.

Lemma nibbles b : is_byte b -> 0 <= b / 16 < 16 /\ 0 <= b mod 16 < 16.
Proof.
  unfold is_byte. intros Hb.
  pose proof (Z.div_mod b 16 ltac:(lia)).
  pose proof (Z.mod_pos_bound b 16 ltac:(lia)). lia.
Qed.

Lemma hex2_inj a b :
  is_byte a -> is_byte b ->
  hex_digit (a / 16) = hex_digit (b / 16) ->
  hex_digit (a mod 16) = hex_digit (b mod 16) -> a = b.
Proof.
  intros Ha Hb Hq Hr.
  destruct (nibbles a Ha) as [Ha1 Ha2]. destruct (nibbles b Hb) as [Hb1 Hb2].
  apply hex_digit_inj in Hq; [|assumption..].
  apply hex_digit_inj in Hr; [|assumption..].
  rewrite (Z.div_mod a 16), (Z.div_mod b 16) by lia. congruence.
Qed.

Ltac sixteen bytes Hlen :=
  do 16 (destruct bytes as [|? bytes]; [discriminate Hlen|]);
  destruct bytes; [|discriminate Hlen].

(** X4. [parseGuid] of sixteen bytes is a text of 36 characters: a dash
    at the positions 10, 15, 20 and 25 (that is, after the entries of
    index 4, 6, 8 and 10 of the reordered bytes), and a lower-case
    hexadecimal digit everywhere else. *)
Theorem parseGuid_shape (bytes : list Z) :
  length bytes = 16%nat -> Forall is_byte bytes ->
  length (parseGuid bytes) = 36%nat /\
  forall i c, parseGuid bytes !! i = Some c ->
    if dash_position i then c = 45 else is_hex c.
Proof.
  intros Hlen Hall. sixteen bytes Hlen.
  rewrite parseGuid_16. unfold hex2. cbn [app]. split; [reflexivity|].
  repeat match goal with
         | H : Forall _ (_ :: _) |- _ => apply Forall_cons in H as [? H]
         end.
  intros i c Hc.
  do 36 (destruct i as [|i];
         [injection Hc as <-; cbn [dash_position Nat.eqb orb];
          first [reflexivity
                | apply hex_digit_hex; apply nibbles; assumption]|]).
  discriminate Hc.
Qed.

Lemma parseGuid_shape_witness :
  length (parseGuid (replicate 16 171)) = 36%nat /\
  parseGuid (replicate 16 171) !! 10%nat = Some 45 /\
  parseGuid (replicate 16 171) !! 9%nat = Some 98.
Proof.
  destruct (parseGuid_shape (replicate 16 171) eq_refl
              ltac:(repeat constructor; unfold is_byte; lia)) as [Hlen Hc].
  split; [exact Hlen|]. split; reflexivity.
Defined.

(** X5. [parseGuid] is one-to-one on arrays of sixteen bytes: the text
    determines the identifier. *)
Theorem parseGuid_injective (a b : list Z) :
  length a = 16%nat -> length b = 16%nat ->
  Forall is_byte a -> Forall is_byte b ->
  parseGuid a = parseGuid b -> a = b.
Proof.
  intros Hla Hlb Ha Hb. sixteen a Hla. sixteen b Hlb.
  rewrite !parseGuid_16. unfold hex2. cbn [app]. intros Heq.
  repeat match goal with
         | H : Forall _ (_ :: _) |- _ => apply Forall_cons in H as [? H]
         end.
  injection Heq as Heq. intros.
  repeat f_equal; apply hex2_inj; assumption.
Qed.

Lemma parseGuid_injective_witness :
  Forall is_byte (replicate 16 1) /\
  parseGuid (replicate 16 1) = parseGuid (map (fun _ => 1) (seq 0 16)) /\
  replicate 16 1 = map (fun _ => 1) (seq 0 16).
Proof.
  assert (Hb : Forall is_byte (replicate 16 1))
    by (repeat constructor; unfold is_byte; lia).
  split; [exact Hb|]. split; [reflexivity|].
  exact (parseGuid_injective (replicate 16 1) (map (fun _ => 1) (seq 0 16))
           eq_refl eq_refl Hb Hb eq_refl).
Defined.

(** *** The offset that is not a number *)

Lemma typed_reads_shape w r :
  (w, r) ∈ typed_reads -> exists conv, r = read_typed w conv /\ 0 < w.
Proof.
  unfold typed_reads. intros Hin.
  repeat (apply elem_of_cons in Hin as [Hin|Hin];
          [injection Hin as -> ->; eexists; split; [reflexivity | lia]|]).
  apply elem_of_nil in Hin. destruct Hin.
Qed.

Lemma read_typed_nan w conv s :
  offset s = NaN ->
  result_of (read_typed w conv s)
  = result_of (read_typed w conv (in_mode false (at_offset (Num 0) s))).
Proof.
  intros Ho. rewrite !read_typed_eq. cbv zeta. rewrite Ho.
  cbn [js_add js_gt js_sub offset ignoreBounds in_mode at_offset andb].
  rewrite andb_false_r. unfold view_get.
  rewrite !byteLength_store, !buffer_store.
  change (byteLength (in_mode false (at_offset (Num 0) s))) with (byteLength s).
  change (buffer (in_mode false (at_offset (Num 0) s))) with (buffer s).
  replace (0 + w - w) with 0 by lia.
  destruct ((0 <? 0) || (byteLength s <? 0 + w)); reflexivity.
Qed.

(** X6. Once the offset is NaN (after [this.offset = undefined] and a
    first [+=]), every typed read yields what a strict read with the
    offset at 0 yields, in lenient mode too: the value of the first bytes
    of the buffer, or [RangeError] when the buffer is shorter than the
    type; and the offset is NaN again afterwards. *)
Theorem nan_offset_reads (w : Z) (r : M Z) (s : parser) :
  (w, r) ∈ typed_reads -> offset s = NaN ->
  result_of (r s) = result_of (r (in_mode false (at_offset (Num 0) s))) /\
  exists s', after (r s) = Some s' /\ offset s' = NaN.
Proof.
  intros Hin Ho. destruct (typed_reads_shape w r Hin) as (conv & -> & _).
  split; [apply read_typed_nan; exact Ho|].
  destruct (read_typed_after w conv s) as (s' & Ha & Hoff & _).
  exists s'. split; [exact Ha|]. rewrite Hoff, Ho. reflexivity.
Qed.

Lemma nan_offset_reads_witness :
  result_of (readUInt8 (mkParser NaN [Byte.x2a; Byte.x00] true 0 None []))
  = Some (inl 42) /\
  result_of (readInt32 (mkParser NaN [Byte.x2a; Byte.x00] true 0 None []))
  = Some (inr RangeError).
Proof.
  split.
  - destruct (nan_offset_reads 1 readUInt8
                (mkParser NaN [Byte.x2a; Byte.x00] true 0 None [])
                ltac:(repeat constructor) eq_refl) as [H _].
    rewrite H. reflexivity.
  - destruct (nan_offset_reads 4 readInt32
                (mkParser NaN [Byte.x2a; Byte.x00] true 0 None [])
                ltac:(repeat constructor) eq_refl) as [H _].
    rewrite H. reflexivity.
Defined.

(** *** When the length-prefix loop ends *)

Lemma read_varlen_total s o len :
  offset s = Num o -> readString len s <> Diverge.
Proof.
  intros Ho.
  pose proof (safe_readString (buffer s) (ignoreBounds s) len s) as H.
  intros E. rewrite E in H. apply H.
  split; [exists o; exact Ho | split; reflexivity].
Qed.

Lemma readUInt8_nan s b rest :
  offset s = NaN -> buffer s = b :: rest ->
  readUInt8 s = Ok (u8 b) (store_offset NaN s).
Proof.
  intros Ho Hb. unfold readUInt8. rewrite read_typed_eq. cbv zeta. rewrite Ho.
  cbn [js_add js_gt js_sub]. rewrite andb_false_r. unfold view_get.
  rewrite byteLength_store, buffer_store. unfold byteLength. rewrite Hb.
  cbn [length]. replace (Z.of_nat (S (length rest)) <? 0 + 1) with false
    by (symmetry; apply Z.ltb_ge; lia).
  cbn [Z.ltb Z.compare orb]. change (Z.to_nat 1) with 1%nat.
  change (Z.to_nat 0) with 0%nat. cbn [drop take]. rewrite take_0.
  cbn [le_unsigned]. f_equal. lia.
Qed.

Lemma read_varlen_nan k : forall len shift s b rest,
  offset s = NaN -> buffer s = b :: rest -> 128 <= u8 b ->
  read_varlen k len shift s = Diverge.
Proof.
  induction k as [|k IH]; intros len shift s b rest Ho Hb Hbit;
    cbn [read_varlen]; [reflexivity|].
  rewrite bind_eq, (readUInt8_nan s b rest Ho Hb).
  assert (Hl : (Z.land (u8 b) 128 =? 0) = false).
  { pose proof (u8_range b) as Hr. apply Z.eqb_neq.
    change 128 with (2 ^ 7). rewrite land_pow2 by lia.
    assert (Ht : Z.testbit (u8 b) 7 = true).
    { rewrite Z.testbit_true by lia. change (2 ^ 7) with 128.
      assert (Hq : u8 b / 128 = 1)
        by (symmetry; apply Z.div_unique with (u8 b - 128); lia).
      rewrite Hq. reflexivity. }
    rewrite Ht. discriminate. }
  rewrite Hl. apply (IH _ _ _ b rest); [apply offset_store| |exact Hbit].
  rewrite buffer_store. exact Hb.
Qed.

(** X26. [readString()] without a length always comes back, returning or
    throwing, when the offset is a number.  When the offset is NaN every
    round of its length-prefix loop reads the first byte of the buffer
    again: the call never comes back if that byte has bit 7 set. *)
Theorem readString_termination (s : parser) :
  (forall o, offset s = Num o -> readString None s <> Diverge) /\
  (forall b rest, offset s = NaN -> buffer s = b :: rest -> 128 <= u8 b ->
     readString None s = Diverge).
Proof.
  split.
  - intros o Ho. exact (read_varlen_total s o None Ho).
  - intros b rest Ho Hb Hbit. unfold readString. rewrite bind_eq.
    unfold get_parser at 1. rewrite bind_eq. cbv beta iota.
    rewrite (read_varlen_nan _ _ _ s b rest Ho Hb Hbit). reflexivity.
Qed.

Lemma readString_termination_witness :
  readString None (new_parser [Byte.xc2]) <> Diverge /\
  readString None (mkParser NaN [Byte.xc2] false 0 None []) = Diverge.
Proof.
  split.
  - destruct (readString_termination (new_parser [Byte.xc2])) as [H _].
    apply (H 0). reflexivity.
  - destruct (readString_termination (mkParser NaN [Byte.xc2] false 0 None []))
      as [_ H].
    apply (H Byte.xc2 []); [reflexivity | reflexivity | vm_compute; discriminate].
Defined.

(** ** The start of the file: section table and importance flags *)

Lemma read_typed_field w conv s v s' o :
  read_typed w conv s = Ok v s' -> offset s = Num o -> 0 <= o ->
  s' = store_offset (Num (o + w)) s /\ v = field_at w conv (buffer s) o.
Proof. apply read_typed_Ok. Qed.

Lemma read_int32s_Ok n s vs s' o :
  read_int32s n s = Ok vs s' -> offset s = Num o -> 0 <= o ->
  offset s' = Num (o + 4 * Z.of_nat n) /\ buffer s' = buffer s /\
  vs = map (fun k => int32_at (buffer s) (o + 4 * Z.of_nat k)) (seq 0 n).
Proof.
  revert s vs s' o. induction n as [|n IH]; intros s vs s' o H Ho H0.
  - apply ret_Ok in H as [<- <-]. rewrite Ho. repeat split. f_equal. lia.
  - cbn [read_int32s] in H. apply bind_Ok in H as (p & s1 & Hp & H).
    apply bind_Ok in H as (ps & s2 & Hps & H). apply ret_Ok in H as [<- <-].
    apply (read_typed_field _ _ _ _ _ o) in Hp as [-> ->];
      [|exact Ho|exact H0].
    apply (IH _ _ _ (o + 4)) in Hps as (Hoff & Hbuf & ->);
      [|apply offset_store|lia].
    rewrite buffer_store in Hbuf. rewrite buffer_store.
    rewrite Hoff, Hbuf. repeat split; [f_equal; lia|].
    cbn [seq map]. f_equal.
    + unfold int32_at. f_equal. lia.
    + rewrite <- seq_shift, map_map. apply map_ext. intros k.
      unfold int32_at. f_equal. lia.
Qed.

Lemma skipBytes_Ok n s u s' o :
  skipBytes n s = Ok u s' -> offset s = Num o ->
  s' = store_offset (Num (o + n)) s.
Proof.
  unfold skipBytes, get_parser, set_offset. rewrite bind_eq.
  intros H Ho. rewrite Ho in H. cbn [js_add] in H. injection H as _ <-.
  reflexivity.
Qed.

(** X7. When [parseNecessaryData] returns, the offset is back at 0 and
    the buffer and the mode are as before; the section table it returns
    is 0 followed by the [n] little-endian 32-bit numbers that start at
    byte 26, [n] being the 16-bit number at byte 24; the importance flags
    are the [m] bits that start after the 16-bit number [m] that follows
    the table, least significant bit of each byte first. *)
Theorem section_table (s : parser) (w : WorldNecessary) (s' : parser) :
  let bytes := buffer s in
  let n := Z.max 0 (int16_at bytes 24) in
  let m := Z.max 0 (int16_at bytes (26 + 4 * n)) in
  parseNecessaryData s = Ok w s' ->
  offset s' = Num 0 /\ buffer s' = bytes /\
  ignoreBounds s' = ignoreBounds s /\
  pointers w = 0 :: map (fun k => int32_at bytes (26 + 4 * Z.of_nat k))
                      (seq 0 (Z.to_nat n)) /\
  length (importants w) = Z.to_nat m /\
  forall i, (i < Z.to_nat m)%nat ->
    importants w !! i
    = Some (Z.testbit (byte_or_zero bytes (Z.to_nat (28 + 4 * n) + i / 8))
              (Z.of_nat (i mod 8))).
Proof.
  intros bytes n m H. rewrite parseNecessaryData_eq in H.
  pose proof (safe_preamble (buffer s) (ignoreBounds s)
                (store_offset (Num 0) s)
                (conj (numeric_store 0 s)
                   (conj (buffer_store _ s) (ignoreBounds_store _ s)))) as Hst.
  destruct (preamble (store_offset (Num 0) s)) as [p s1|e s1|] eqn:Hp;
    try discriminate H.
  destruct Hst as (_ & Hbuf1 & Hmode1). cbv zeta in H.
  destruct (negb (list_Z_eqb (p_magicNumber p) relogic)
            || negb (p_fileType p =? 2)); [discriminate H|].
  destruct (p_version p <? 194); [discriminate H|].
  injection H as <- <-. cbn [pointers importants].
  rewrite offset_store, buffer_store, ignoreBounds_store.
  split; [reflexivity|]. split; [exact Hbuf1|]. split; [exact Hmode1|].
  clear Hbuf1 Hmode1.
  unfold preamble in Hp.
  apply bind_Ok in Hp as (v & sa & Hv & Hp).
  apply bind_Ok in Hp as (mg & sb & Hmg & Hp).
  apply bind_Ok in Hp as (ft & sc & Hft & Hp).
  apply bind_Ok in Hp as (u & sd & Hsk & Hp).
  apply bind_Ok in Hp as (cnt & se & Hcnt & Hp).
  apply bind_Ok in Hp as (rest & sf & Hrest & Hp).
  apply bind_Ok in Hp as (sz & sg & Hsz & Hp).
  apply bind_Ok in Hp as (imp & sh & Himp & Hp).
  repeat (apply bind_Ok in Hp as (? & ? & _ & Hp)).
  apply ret_Ok in Hp as [<- _]. cbn [p_pointers p_importants].
  apply (read_typed_field _ _ _ _ _ 0) in Hv as [-> _];
    [|apply offset_store|lia].
  unfold readString in Hmg. rewrite bind_eq in Hmg. cbv beta iota in Hmg.
  apply bind_Ok in Hmg as (raw & sr & Hraw & Hmg). apply ret_Ok in Hmg as [_ <-].
  unfold readBytes in Hraw.
  apply (read_n_Ok _ _ _ _ 4) in Hraw as (Hoffb & Hbufb & _);
    [|apply offset_store|lia].
  rewrite !buffer_store in Hbufb.
  apply (readUInt8_Ok _ _ _ 11) in Hft as [-> _]; [|exact Hoffb|lia].
  apply (skipBytes_Ok _ _ _ _ 12) in Hsk; [|apply offset_store]. subst sd.
  apply (read_typed_field _ _ _ _ _ 24) in Hcnt as [-> ->];
    [|apply offset_store|lia].
  rewrite !buffer_store, Hbufb in *.
  apply (read_int32s_Ok _ _ _ _ 26) in Hrest as (Hofff & Hbuff & ->);
    [|apply offset_store|lia].
  rewrite !buffer_store, Hbufb in *.
  change (field_at 2 (le_signed 16) (buffer s) 24)
    with (int16_at bytes 24) in Hofff |- *.
  assert (Hn : Z.of_nat (Z.to_nat (int16_at bytes 24)) = n) by (subst n; lia).
  rewrite Hn in Hofff.
  replace (Z.to_nat (int16_at bytes 24)) with (Z.to_nat n) by (subst n; lia).
  split; [reflexivity|].
  apply (read_typed_field _ _ _ _ _ (26 + 4 * n)) in Hsz as [-> ->];
    [|exact Hofff|lia].
  rewrite Hbuff in Himp.
  apply (parseBitsByte_Ok _ (26 + 4 * n + 2)) in Himp as (Hlen & _ & Hbits);
    [|apply offset_store|lia].
  rewrite buffer_store, Hbuff in Hbits.
  assert (Hm : Z.to_nat (field_at 2 (le_signed 16) (buffer s) (26 + 4 * n))
               = Z.to_nat m) by (subst m bytes; unfold int16_at; lia).
  rewrite Hm in Hlen, Hbits.
  split; [exact Hlen|]. intros i Hi.
  replace (28 + 4 * n) with (26 + 4 * n + 2) by lia. apply Hbits. exact Hi.
Qed.

Lemma section_table_witness :
  exists w s',
    parseNecessaryData
      (new_parser (map byte_of_Z (sample_preamble 279 90 94 1 1))) = Ok w s' /\
    pointers w = [0; 90; 94] /\ offset s' = Num 0.
Proof.
  assert (H : exists w s',
             parseNecessaryData
               (new_parser (map byte_of_Z (sample_preamble 279 90 94 1 1)))
             = Ok w s') by (vm_compute; eexists _, _; reflexivity).
  destruct H as (w & s' & H). exists w, s'. split; [exact H|].
  destruct (section_table _ _ _ H) as (Ho & _ & _ & Hp & _).
  split; [rewrite Hp; vm_compute; reflexivity | exact Ho].
Defined.

(** ** The members of a decoded tile *)

Lemma le_unsigned_bound bs : 0 <= le_unsigned bs < 256 ^ Z.of_nat (length bs).
Proof.
  induction bs as [|b bs IH]; cbn [le_unsigned length].
  - cbn. lia.
  - pose proof (u8_range b). rewrite Nat2Z.inj_succ, Z.pow_succ_r by lia. lia.
Qed.

Lemma read_typed_value w conv s v s' :
  read_typed w conv s = Ok v s' ->
  v = 0 \/ exists bs, (length bs <= Z.to_nat w)%nat /\ v = conv bs.
Proof.
  rewrite read_typed_eq. cbv zeta. destruct (ignoreBounds s && _).
  - intros H. injection H as <- _. left. reflexivity.
  - unfold view_get. destruct (_ || _); [discriminate|].
    intros H. injection H as <- _. right. eexists. split; [|reflexivity].
    rewrite length_take. lia.
Qed.

Lemma le_unsigned_2 bs : (length bs <= 2)%nat -> 0 <= le_unsigned bs < 65536.
Proof.
  intros Hl. pose proof (le_unsigned_bound bs) as Hb.
  assert (256 ^ Z.of_nat (length bs) <= 256 ^ 2)
    by (apply Z.pow_le_mono_r; lia).
  change (256 ^ 2) with 65536 in *. lia.
Qed.

Lemma readUInt16_range s v s' : readUInt16 s = Ok v s' -> 0 <= v < 65536.
Proof.
  intros H. apply read_typed_value in H as [->|(bs & Hl & ->)]; [lia|].
  apply le_unsigned_2. exact Hl.
Qed.

Lemma readInt16_range s v s' : readInt16 s = Ok v s' -> -32768 <= v < 32768.
Proof.
  intros H. apply read_typed_value in H as [->|(bs & Hl & ->)]; [lia|].
  pose proof (le_unsigned_2 bs Hl) as Hb. unfold le_signed, to_signed.
  change (2 ^ (16 - 1)) with 32768. change (2 ^ 16) with 65536.
  destruct (Z.ltb_spec (le_unsigned bs) 32768); lia.
Qed.

(** Collect the ranges of the values read in the hypotheses. *)
Ltac read_ranges :=
  repeat match goal with
         | H : readUInt8 _ = Ok ?v _ |- _ =>
             lazymatch goal with
             | _ : 0 <= v < 256 |- _ => fail
             | _ => pose proof (readUInt8_range _ _ _ H)
             end
         | H : readUInt16 _ = Ok ?v _ |- _ =>
             lazymatch goal with
             | _ : 0 <= v < 65536 |- _ => fail
             | _ => pose proof (readUInt16_range _ _ _ H)
             end
         | H : readInt16 _ = Ok ?v _ |- _ =>
             lazymatch goal with
             | _ : -32768 <= v < 32768 |- _ => fail
             | _ => pose proof (readInt16_range _ _ _ H)
             end
         end.

Ltac case_ifs :=
  repeat match goal with
         | |- context [if ?b then _ else _] => destruct b eqn:?
         end.

Lemma numeric_fields_empty W : numeric_fields W empty_tile.
Proof. repeat split. Qed.

Lemma tile_shape_empty : tile_shape empty_tile.
Proof.
  unfold tile_shape, block_group. cbn.
  repeat split; try (intros [? [=]]); try discriminate.
Qed.

Lemma flags_not_false_empty : flags_not_false empty_tile.
Proof. repeat split; discriminate. Qed.

Section TileMembers.

Variable world : WorldNecessary.

Lemma tile_block_numeric W f t s t' s' :
  tile_block world f t s = Ok t' s' ->
  numeric_fields W t -> numeric_fields W t'.
Proof.
  unfold tile_block, numeric_fields. intros H (H1 & H2 & H3 & H4 & H5 & H6 & H7).
  run_ok; read_ranges; case_ifs; cbn; repeat split; auto; cbn; lia.
Qed.

Lemma tile_block_shape f t s t' s' :
  tile_block world f t s = Ok t' s' ->
  frameX t = None -> frameY t = None -> blockColor t = None ->
  block_group t' /\ wallId t' = wallId t /\ wallColor t' = wallColor t /\
  liquidAmount t' = liquidAmount t /\ liquidType t' = liquidType t /\
  flags_not_false t' = flags_not_false t.
Proof.
  unfold tile_block, block_group. intros H Hx Hy Hc.
  run_ok; case_ifs; cbn; rewrite ?Hx, ?Hy, ?Hc;
    repeat split;
    first [ solve [eauto]
          | discriminate
          | match goal with
            | E : (?id =? 144) = false |- Some ?id = Some 144 -> _ =>
                intros [= ->]; discriminate E
            end
          | solve [intros [? [=]]]
          | solve [intros _ [? [=]]] ].
Qed.

Lemma tile_wall_numeric f t s t' s' :
  tile_wall f t s = Ok t' s' ->
  numeric_fields 256 t -> numeric_fields 256 t'.
Proof.
  unfold tile_wall, numeric_fields. intros H (H1 & H2 & H3 & H4 & H5 & H6 & H7).
  run_ok; read_ranges; cbn; repeat split; auto; cbn; lia.
Qed.

Lemma tile_wall_shape f t s t' s' :
  tile_wall f t s = Ok t' s' ->
  tile_shape t -> flags_not_false t -> tile_shape t' /\ flags_not_false t'.
Proof.
  unfold tile_wall, tile_shape, block_group, flags_not_false.
  intros H Hs Hf. run_ok; cbn; repeat split; try tauto; eauto.
Qed.

(** The three shapes the liquid step can give a tile. *)
Lemma tile_liquid_forms f t s t' s' :
  tile_liquid f t s = Ok t' s' ->
  t' = t \/
  exists x, 0 <= x < 256 /\
    (t' = set_liquidAmount x t \/
     exists l, t' = set_liquidType l (set_liquidAmount x t)).
Proof.
  unfold tile_liquid. cbv zeta. destruct (truthy _); intros H.
  - apply bind_Ok in H as (x & s1 & Hx & H). apply ret_Ok in H as [<- _].
    right. exists x. split; [exact (readUInt8_range _ _ _ Hx)|].
    destruct (opt_has (flags3 f) 128); [right; eauto|].
    split_matches; eauto.
  - apply ret_Ok in H as [<- _]. left. reflexivity.
Qed.

Lemma tile_liquid_numeric f t s t' s' :
  tile_liquid f t s = Ok t' s' ->
  numeric_fields 256 t -> numeric_fields 256 t'.
Proof.
  intros H (H1 & H2 & H3 & H4 & H5 & H6 & H7).
  apply tile_liquid_forms in H as [->|(x & Hx & [->|[l ->]])];
    unfold numeric_fields; cbn; repeat split; auto; lia.
Qed.

Lemma tile_liquid_shape f t s t' s' :
  tile_liquid f t s = Ok t' s' ->
  tile_shape t -> flags_not_false t -> tile_shape t' /\ flags_not_false t'.
Proof.
  intros H Hs Hf. pose proof H as Hspec.
  apply tile_liquid_spec in Hspec as (_ & Hspec).
  destruct (liquid_field (flags1 f) =? 0).
  { destruct Hspec as [-> _]. auto. }
  destruct Hspec as (_ & (d & _ & Hd) & Hk).
  assert (Hboth : is_Some (liquidType t') <-> is_Some (liquidAmount t'))
    by (rewrite Hk, Hd; split; eauto).
  apply tile_liquid_forms in H as [->|(x & Hx & [->|[l ->]])]; [auto| |];
    unfold tile_shape, block_group, flags_not_false in *; cbn in *;
    repeat split; try tauto; eauto.
Qed.

Ltac setter_inv :=
  intros (N & S & F);
  unfold tile_inv, numeric_fields, tile_shape, block_group,
    flags_not_false, not_false in *;
  cbn; repeat split; first [tauto | discriminate].

Lemma inv_wireRed W t : tile_inv W t -> tile_inv W (set_wireRed true t).
Proof. setter_inv. Qed.
Lemma inv_wireBlue W t : tile_inv W t -> tile_inv W (set_wireBlue true t).
Proof. setter_inv. Qed.
Lemma inv_wireGreen W t : tile_inv W t -> tile_inv W (set_wireGreen true t).
Proof. setter_inv. Qed.
Lemma inv_wireYellow W t : tile_inv W t -> tile_inv W (set_wireYellow true t).
Proof. setter_inv. Qed.
Lemma inv_slope W k t : tile_inv W t -> tile_inv W (set_slope k t).
Proof. setter_inv. Qed.
Lemma inv_actuator W t : tile_inv W t -> tile_inv W (set_actuator true t).
Proof. setter_inv. Qed.
Lemma inv_actuated W t : tile_inv W t -> tile_inv W (set_actuated true t).
Proof. setter_inv. Qed.
Lemma inv_invisibleBlock W t :
  tile_inv W t -> tile_inv W (set_invisibleBlock true t).
Proof. setter_inv. Qed.
Lemma inv_invisibleWall W t :
  tile_inv W t -> tile_inv W (set_invisibleWall true t).
Proof. setter_inv. Qed.
Lemma inv_fullBrightBlock W t :
  tile_inv W t -> tile_inv W (set_fullBrightBlock true t).
Proof. setter_inv. Qed.
Lemma inv_fullBrightWall W t :
  tile_inv W t -> tile_inv W (set_fullBrightWall true t).
Proof. setter_inv. Qed.

(** An assignment under a condition. *)
Lemma inv_if W (b : bool) (f : Tile -> Tile) t :
  (forall t0, tile_inv W t0 -> tile_inv W (f t0)) ->
  tile_inv W t -> tile_inv W (if b then f t else t).
Proof. intros Hf Ht. destruct b; [apply Hf|]; exact Ht. Qed.

Lemma slope_forms (z : Z) t :
  match z with
  | 1 => set_slope half t
  | 2 => set_slope TR t
  | 3 => set_slope TL t
  | 4 => set_slope BR t
  | 5 => set_slope BL t
  | _ => t
  end = t \/
  exists k, match z with
            | 1 => set_slope half t
            | 2 => set_slope TR t
            | 3 => set_slope TL t
            | 4 => set_slope BR t
            | 5 => set_slope BL t
            | _ => t
            end = set_slope k t.
Proof. split_matches; eauto. Qed.

Lemma tile_wires_slope_inv W f2 t :
  tile_inv W t -> tile_inv W (tile_wires_slope f2 t).
Proof.
  intros Ht. unfold tile_wires_slope. cbv zeta.
  set (t1 := if has f2 2 then set_wireRed true t else t).
  set (t2 := if has f2 4 then set_wireBlue true t1 else t1).
  set (t3 := if has f2 8 then set_wireGreen true t2 else t2).
  assert (I1 : tile_inv W t1) by (apply inv_if; [apply inv_wireRed | exact Ht]).
  assert (I2 : tile_inv W t2) by (apply inv_if; [apply inv_wireBlue | exact I1]).
  assert (I3 : tile_inv W t3) by (apply inv_if; [apply inv_wireGreen | exact I2]).
  destruct (truthy _); [|exact I3].
  destruct (slope_forms (Z.shiftr (Z.land f2 112) 4) t3) as [->|[k ->]];
    [exact I3 | apply inv_slope, I3].
Qed.

Lemma tile_actuator_bits_inv W f3 t :
  tile_inv W t -> tile_inv W (tile_actuator_bits f3 t).
Proof.
  intros Ht. unfold tile_actuator_bits. cbv zeta.
  apply inv_if; [apply inv_wireYellow|].
  apply inv_if; [apply inv_actuated|].
  apply inv_if; [apply inv_actuator | exact Ht].
Qed.

Lemma tile_coating_bits_inv W f4 t :
  tile_inv W t -> tile_inv W (tile_coating_bits f4 t).
Proof.
  intros Ht. unfold tile_coating_bits. destruct f4 as [f4|]; [|exact Ht].
  destruct (truthy f4); [|exact Ht]. cbv zeta.
  apply inv_if; [apply inv_fullBrightWall|].
  apply inv_if; [apply inv_fullBrightBlock|].
  apply inv_if; [apply inv_invisibleWall|].
  apply inv_if; [apply inv_invisibleBlock | exact Ht].
Qed.

Lemma tile_wall_high_inv f3 t s t' s' :
  tile_wall_high f3 t s = Ok t' s' ->
  tile_inv 256 t -> tile_inv 65536 t'.
Proof.
  unfold tile_wall_high, tile_inv. intros H (Hn & Hs & Hf).
  destruct (has f3 64).
  - apply bind_Ok in H as (hi & s1 & Hhi & H). apply ret_Ok in H as [<- _].
    pose proof (readUInt8_range _ _ _ Hhi) as Rhi.
    assert (Rlo : 0 <= default 0 (wallId t) < 256).
    { destruct Hn as (_ & _ & _ & _ & Hw & _).
      destruct (wallId t); cbn in *; lia. }
    pose proof (wall_combine hi _ Rhi Rlo) as Hc.
    unfold numeric_fields, tile_shape, block_group, flags_not_false in *.
    cbn. rewrite Hc. repeat split; try tauto; eauto; lia.
  - apply ret_Ok in H as [<- _]. split; [|auto].
    unfold numeric_fields in *. destruct Hn as (? & ? & ? & ? & Hw & ? & ?).
    repeat split; auto. destruct (wallId t); cbn in *; lia.
Qed.

Lemma numeric_fields_widen t : numeric_fields 256 t -> numeric_fields 65536 t.
Proof.
  unfold numeric_fields. intros (? & ? & ? & ? & Hw & ? & ?).
  repeat split; auto. destruct (wallId t); cbn in *; lia.
Qed.

Lemma tile_layers_inv f s t s' :
  tile_layers world f s = Ok t s' -> tile_inv 256 t.
Proof.
  unfold tile_layers, tile_inv. destruct (1 <? flags1 f); intros H.
  - apply bind_Ok in H as (t1 & s1 & Hb & H).
    apply bind_Ok in H as (t2 & s2 & Hw & Hl).
    pose proof (tile_block_numeric 256 _ _ _ _ _ Hb (numeric_fields_empty _)) as N1.
    destruct (tile_block_shape _ _ _ _ _ Hb eq_refl eq_refl eq_refl)
      as (G1 & K1 & K2 & K3 & K4 & K5).
    assert (S1 : tile_shape t1 /\ flags_not_false t1).
    { split; [|rewrite K5; apply flags_not_false_empty].
      unfold tile_shape. split; [exact G1|]. rewrite K1, K2, K3, K4. cbn.
      split; [intros [? [=]] | split; intros [? [=]]]. }
    pose proof (tile_wall_numeric _ _ _ _ _ Hw N1) as N2.
    destruct (tile_wall_shape _ _ _ _ _ Hw (proj1 S1) (proj2 S1)) as [S2 F2].
    pose proof (tile_liquid_numeric _ _ _ _ _ Hl N2) as N3.
    destruct (tile_liquid_shape _ _ _ _ _ Hl S2 F2) as [S3 F3]. auto.
  - apply ret_Ok in H as [<- _].
    split; [apply numeric_fields_empty|].
    split; [apply tile_shape_empty | apply flags_not_false_empty].
Qed.

Lemma tile_inv_widen t : tile_inv 256 t -> tile_inv 65536 t.
Proof.
  intros (Hn & Hr). split; [apply numeric_fields_widen, Hn | exact Hr].
Qed.

Lemma tile_extras_inv f t s t' s' :
  tile_extras f t s = Ok t' s' -> tile_inv 256 t -> tile_inv 65536 t'.
Proof.
  unfold tile_extras. intros H Hinv.
  pose proof (tile_inv_widen t Hinv) as Hwide.
  destruct (flags2 f) as [f2|]; [|apply ret_Ok in H as [<- _]; exact Hwide].
  destruct (truthy f2); [|apply ret_Ok in H as [<- _]; exact Hwide].
  cbv zeta in H.
  pose proof (tile_wires_slope_inv 256 f2 t Hinv) as I1.
  destruct (flags3 f) as [f3|].
  - destruct (truthy f3).
    + apply bind_Ok in H as (t2 & s2 & Hh & H). apply ret_Ok in H as [<- _].
      apply tile_coating_bits_inv.
      apply (tile_wall_high_inv _ _ _ _ _ Hh).
      apply tile_actuator_bits_inv, I1.
    + apply ret_Ok in H as [<- _]. apply tile_inv_widen, I1.
  - apply ret_Ok in H as [<- _]. apply tile_inv_widen, I1.
Qed.

Lemma parseTileData_inv s t s' :
  parseTileData world s = Ok t s' -> tile_inv 65536 t.
Proof.
  unfold parseTileData. intros H.
  apply bind_Ok in H as (f & s1 & _ & H).
  apply bind_Ok in H as (t1 & s2 & Hl & H).
  apply bind_Ok in H as (t2 & s3 & He & H).
  apply bind_Ok in H as (u & s4 & _ & H). apply ret_Ok in H as [<- _].
  apply (tile_extras_inv _ _ _ _ _ He), (tile_layers_inv _ _ _ _ Hl).
Qed.

End TileMembers.

(** X11. Every numeric member of a tile [parseTileData] returns lies in
    the range of the type it was read as: block and wall ids in
    [0, 65536), frame coordinates in [-32768, 32768), colours and liquid
    amount in [0, 256). *)
Theorem tile_member_ranges (world : WorldNecessary) (s : parser) (t : Tile)
    (s' : parser) :
  parseTileData world s = Ok t s' -> numeric_fields 65536 t.
Proof. intros H. apply (parseTileData_inv world s t s' H). Qed.

(** X12. In every tile [parseTileData] returns the frame coordinates
    are both present or both absent and come only with a block id, with
    frame row 0 for block 144; a block colour comes only with a block id,
    a wall colour only with a wall id, a liquid kind exactly with a liquid
    amount; and the wire, actuator and coating members are [true] or
    absent, never [false]. *)
Theorem tile_member_shape (world : WorldNecessary) (s : parser) (t : Tile)
    (s' : parser) :
  parseTileData world s = Ok t s' -> tile_shape t /\ flags_not_false t.
Proof. intros H. apply (parseTileData_inv world s t s' H). Qed.

Lemma tile_member_ranges_witness :
  exists t s',
    parseTileData (mkWorld 279 [0] [true] 1 1)
      (new_parser [Byte.x0e; Byte.x00; Byte.x05; Byte.x00; Byte.x07;
                   Byte.x00; Byte.x03; Byte.xff]) = Ok t s' /\
    numeric_fields 65536 t.
Proof.
  assert (H : exists t s',
             parseTileData (mkWorld 279 [0] [true] 1 1)
               (new_parser [Byte.x0e; Byte.x00; Byte.x05; Byte.x00; Byte.x07;
                            Byte.x00; Byte.x03; Byte.xff]) = Ok t s')
    by (vm_compute; eexists _, _; reflexivity).
  destruct H as (t & s' & H). exists t, s'. split; [exact H|].
  apply (tile_member_ranges _ _ _ _ H).
Defined.

Lemma tile_member_shape_witness :
  exists t s',
    parseTileData (mkWorld 279 [0] [true] 1 1)
      (new_parser [Byte.x0f; Byte.x03; Byte.x26; Byte.x00; Byte.x05;
                   Byte.x00; Byte.x07; Byte.x00; Byte.x03; Byte.xff]) = Ok t s' /\
    tile_shape t /\ flags_not_false t.
Proof.
  assert (H : exists t s',
             parseTileData (mkWorld 279 [0] [true] 1 1)
               (new_parser [Byte.x0f; Byte.x03; Byte.x26; Byte.x00; Byte.x05;
                            Byte.x00; Byte.x07; Byte.x00; Byte.x03; Byte.xff])
             = Ok t s')
    by (vm_compute; eexists _, _; reflexivity).
  destruct H as (t & s' & H). exists t, s'. split; [exact H|].
  apply (tile_member_shape _ _ _ _ H).
Defined.

(** ** The size of a record *)

Lemma advances_ret {A} (a : A) : advances 0 0 (mret a).
Proof.
  intros s o b s' Ho H. apply ret_Ok in H as [_ <-].
  exists o. split; [exact Ho | lia].
Qed.

Lemma advances_bind a b c d {A B} (m : M A) (f : A -> M B) :
  advances a b m -> (forall x, advances c d (f x)) ->
  advances (a + c) (b + d) (m ≫= f).
Proof.
  intros Hm Hf s o y s' Ho H. apply bind_Ok in H as (x & s1 & H1 & H2).
  destruct (Hm _ _ _ _ Ho H1) as (o1 & Ho1 & R1).
  destruct (Hf x _ _ _ _ Ho1 H2) as (o2 & Ho2 & R2).
  exists o2. split; [exact Ho2 | lia].
Qed.

Lemma advances_weaken a b a' b' {A} (m : M A) :
  advances a b m -> a' <= a -> b <= b' -> advances a' b' m.
Proof.
  intros Hm Ha Hb s o y s' Ho H. destruct (Hm _ _ _ _ Ho H) as (o1 & Ho1 & R).
  exists o1. split; [exact Ho1 | lia].
Qed.

Lemma advances_read_typed w conv : advances w w (read_typed w conv).
Proof.
  intros s o v s' Ho H.
  destruct (read_typed_after w conv s) as (s1 & Ha & Hoff & _).
  rewrite H in Ha. injection Ha as <-. rewrite Ho in Hoff.
  exists (o + w). split; [exact Hoff | lia].
Qed.

Lemma advances_set_RLE r : advances 0 0 (set_RLE r).
Proof.
  intros s o u s' Ho H. injection H as _ <-. exists o. split; [exact Ho | lia].
Qed.

(** A conditional advances within the bounds of its branches. *)
Ltac advances_step :=
  first
    [ eapply advances_weaken; [apply advances_ret | lia | lia]
    | eapply advances_weaken; [apply advances_read_typed | lia | lia]
    | eapply advances_weaken; [apply advances_set_RLE | lia | lia] ].

Section RecordSize.

Variable world : WorldNecessary.

Lemma advances_read_flags : advances 1 4 (read_flags).
Proof.
  unfold read_flags, readUInt8.
  apply (advances_bind 1 1 0 3); [apply advances_read_typed|]. intros f1.
  destruct (has f1 1); [|advances_step].
  apply (advances_bind 1 1 (-1) 2); [apply advances_read_typed|]. intros f2.
  destruct (has f2 1); [|advances_step].
  apply (advances_bind 1 1 (-2) 1); [apply advances_read_typed|]. intros f3.
  destruct (has f3 1); [|advances_step].
  apply (advances_bind 1 1 (-3) 0); [apply advances_read_typed|]. intros f4.
  advances_step.
Qed.

Lemma advances_tile_block f t : advances 0 7 (tile_block world f t).
Proof.
  unfold tile_block, readUInt8, readUInt16, readInt16.
  destruct (has (flags1 f) 2); [|advances_step].
  apply (advances_bind 1 2 (-1) 5).
  { destruct (has (flags1 f) 32); advances_step. }
  intros id. cbv zeta.
  apply (advances_bind 0 4 (-1) 1).
  - destruct (important world id); [|advances_step].
    apply (advances_bind 2 2 (-2) 2); [apply advances_read_typed|]. intros fx.
    apply (advances_bind 2 2 (-4) 0); [apply advances_read_typed|]. intros fy.
    advances_step.
  - intros t1. destruct (opt_has (flags3 f) 8); [|advances_step].
    apply (advances_bind 1 1 (-2) 0); [apply advances_read_typed|]. intros c.
    advances_step.
Qed.

Lemma advances_tile_wall f t : advances 0 2 (tile_wall f t).
Proof.
  unfold tile_wall, readUInt8.
  destruct (has (flags1 f) 4); [|advances_step].
  apply (advances_bind 1 1 (-1) 1); [apply advances_read_typed|]. intros id.
  cbv zeta. destruct (opt_has (flags3 f) 16); [|advances_step].
  apply (advances_bind 1 1 (-2) 0); [apply advances_read_typed|]. intros c.
  advances_step.
Qed.

Lemma advances_tile_liquid f t : advances 0 1 (tile_liquid f t).
Proof.
  unfold tile_liquid, readUInt8. cbv zeta.
  destruct (truthy _); [|advances_step].
  apply (advances_bind 1 1 (-1) 0); [apply advances_read_typed|]. intros a.
  advances_step.
Qed.

Lemma advances_tile_layers f : advances 0 10 (tile_layers world f).
Proof.
  unfold tile_layers. destruct (1 <? flags1 f); [|advances_step].
  apply (advances_bind 0 7 0 3); [apply advances_tile_block|]. intros t1.
  apply (advances_bind 0 2 0 1); [apply advances_tile_wall|]. intros t2.
  apply advances_tile_liquid.
Qed.

Lemma advances_tile_extras f t : advances 0 1 (tile_extras f t).
Proof.
  unfold tile_extras, tile_wall_high, readUInt8.
  destruct (flags2 f) as [f2|]; [|advances_step].
  destruct (truthy f2); [|advances_step]. cbv zeta.
  destruct (flags3 f) as [f3|]; [|advances_step].
  destruct (truthy f3); [|advances_step].
  apply (advances_bind 0 1 0 0); [|intros t2; advances_step].
  destruct (has f3 64); [|advances_step].
  apply (advances_bind 1 1 (-1) 0); [apply advances_read_typed|]. intros hi.
  advances_step.
Qed.

Lemma advances_tile_rle f : advances 0 2 (tile_rle f).
Proof.
  unfold tile_rle, readUInt8, readInt16.
  split_matches; try advances_step;
    (apply (advances_bind 1 2 (-1) 0);
     [advances_step | intros r; advances_step]).
Qed.

Lemma advances_parseTileData : advances 1 17 (parseTileData world).
Proof.
  unfold parseTileData.
  apply (advances_bind 1 4 0 13); [apply advances_read_flags|]. intros f.
  apply (advances_bind 0 10 0 3); [apply advances_tile_layers|]. intros t1.
  apply (advances_bind 0 1 0 2); [apply advances_tile_extras|]. intros t2.
  apply (advances_bind 0 2 0 0); [apply advances_tile_rle|]. intros _.
  apply advances_ret.
Qed.

End RecordSize.

(** X13. A record of the tile stream is between 1 and 17 bytes long:
    when [parseTileData] returns, the offset has moved forward by at
    least 1 and at most 17. *)
Theorem record_size (world : WorldNecessary) (s : parser) (o : Z) (t : Tile)
    (s' : parser) :
  offset s = Num o -> parseTileData world s = Ok t s' ->
  exists o', offset s' = Num o' /\ 1 <= o' - o <= 17.
Proof. intros Ho H. exact (advances_parseTileData world s o t s' Ho H). Qed.

Lemma record_size_witness :
  exists t s' o',
    parseTileData (mkWorld 279 [0] [true] 1 1)
      (new_parser [Byte.x0e; Byte.x00; Byte.x05; Byte.x00; Byte.x07;
                   Byte.x00; Byte.x03; Byte.xff]) = Ok t s' /\
    offset s' = Num o' /\ 1 <= o' - 0 <= 17.
Proof.
  assert (H : exists t s',
             parseTileData (mkWorld 279 [0] [true] 1 1)
               (new_parser [Byte.x0e; Byte.x00; Byte.x05; Byte.x00; Byte.x07;
                            Byte.x00; Byte.x03; Byte.xff]) = Ok t s')
    by (vm_compute; eexists _, _; reflexivity).
  destruct H as (t & s' & H).
  pose proof (fun Ho => record_size _ _ 0 _ _ Ho H) as Hr.
  destruct (Hr eq_refl) as (o' & Ho & R).
  exists t, s', o'. auto.
Defined.

(** ** The shape of the grid *)

Lemma parseWorldTiles_eq world s :
  parseWorldTiles world s =
  (data ← new_array (width world);
   grid_loop world (Z.to_nat (width world)) 0 data)
    (mkParser (offset s) (buffer s) (ignoreBounds s) 0 (hook s) (calls s)).
Proof. reflexivity. Qed.

Lemma new_array_eq {A} n s :
  new_array (A := A) n s =
  if (n <? 0) || (2 ^ 32 <=? n) then Throw RangeError s
  else Ok (replicate (Z.to_nat n) None) s.
Proof. unfold new_array. destruct (_ || _); reflexivity. Qed.

Lemma array_set_next {A} (x k : nat) (v : option A) :
  array_set x v (replicate x v ++ replicate (S k) None)
  = replicate (S x) v ++ replicate k None.
Proof.
  unfold array_set. case_decide as Hlt.
  - rewrite insert_app_r_alt by (rewrite length_replicate; lia).
    rewrite length_replicate, Nat.sub_diag.
    change (<[0%nat:=v]> (replicate (S k) None)) with (v :: replicate k None).
    change (replicate (S x) v) with (v :: replicate x v).
    rewrite replicate_cons_app, <- app_assoc. reflexivity.
  - rewrite length_app, !length_replicate in Hlt. lia.
Qed.

Lemma grid_loop_flat world k : forall x s,
  height world = 0 ->
  grid_loop world k x (replicate x (Some []) ++ replicate k None) s
  = Ok (replicate (x + k) (Some [])) s.
Proof.
  induction k as [|k IH]; intros x s Hh; cbn [grid_loop].
  - cbn [replicate]. rewrite app_nil_r, Nat.add_0_r. reflexivity.
  - rewrite bind_eq, new_array_eq, Hh.
    change ((0 <? 0) || (2 ^ 32 <=? 0)) with false. cbv beta iota.
    rewrite bind_eq. change (Z.to_nat 0) with O. cbn [column_loop].
    rewrite Hh. change (Z.of_nat 0 <? 0) with false. cbv beta iota.
    change (mret (M := M) (replicate 0 None) s)
      with (Ok (@nil (option Tile)) s).
    cbv beta iota. rewrite array_set_next, IH by exact Hh.
    replace (S x + k)%nat with (x + S k)%nat by lia. reflexivity.
Qed.

(** X14. The degenerate sizes of [parseWorldTiles], none of which reads
    a byte: a negative width, or a negative height with a positive width,
    makes [new Array] throw [RangeError]; width 0 gives the empty grid
    whatever the height; height 0 gives [width] empty columns. *)
Theorem parseWorldTiles_degenerate (world : WorldNecessary) (s : parser) :
  let s0 := mkParser (offset s) (buffer s) (ignoreBounds s) 0 (hook s) (calls s) in
  (width world < 0 -> parseWorldTiles world s = Throw RangeError s0) /\
  (width world = 0 -> parseWorldTiles world s = Ok [] s0) /\
  (0 < width world < 2 ^ 32 -> height world < 0 ->
   parseWorldTiles world s = Throw RangeError s0) /\
  (0 <= width world < 2 ^ 32 -> height world = 0 ->
   parseWorldTiles world s
   = Ok (replicate (Z.to_nat (width world)) (Some [])) s0).
Proof.
  cbv zeta. rewrite parseWorldTiles_eq, bind_eq, new_array_eq.
  split; [|split; [|split]].
  - intros Hw. replace (width world <? 0) with true by (symmetry; lia).
    reflexivity.
  - intros ->. reflexivity.
  - intros Hw Hh.
    replace (width world <? 0) with false by (symmetry; lia).
    replace (2 ^ 32 <=? width world) with false by (symmetry; lia).
    cbn [orb]. destruct (Z.to_nat (width world)) as [|k] eqn:Ek; [lia|].
    cbn [grid_loop]. rewrite bind_eq, new_array_eq.
    replace (height world <? 0) with true by (symmetry; lia). reflexivity.
  - intros Hw Hh.
    replace (width world <? 0) with false by (symmetry; lia).
    replace (2 ^ 32 <=? width world) with false by (symmetry; lia).
    cbn [orb].
    apply (grid_loop_flat world (Z.to_nat (width world)) 0 _ Hh).
Qed.

Lemma parseWorldTiles_degenerate_witness :
  parseWorldTiles (mkWorld 279 [0] [] (-1) 5) (new_parser [])
  = Throw RangeError (new_parser []) /\
  parseWorldTiles (mkWorld 279 [0] [] 2 0) (new_parser [])
  = Ok [Some []; Some []] (new_parser []).
Proof.
  split.
  - destruct (parseWorldTiles_degenerate (mkWorld 279 [0] [] (-1) 5)
                (new_parser [])) as (Hneg & _).
    apply Hneg. cbn. lia.
  - destruct (parseWorldTiles_degenerate (mkWorld 279 [0] [] 2 0)
                (new_parser [])) as (_ & _ & _ & Hflat).
    apply Hflat; cbn; lia.
Defined.

Lemma filled_weaken n m col : (m <= n)%nat -> filled n col -> filled m col.
Proof. intros Hle Hf i Hi. apply Hf. lia. Qed.

Lemma column_loop_filled world rounds : forall y col s col' s',
  column_loop world rounds y col s = Ok col' s' ->
  filled y col -> filled (Z.to_nat (height world)) col'.
Proof.
  induction rounds as [|rounds IH]; intros y col s col' s' H Hf;
    cbn [column_loop] in H;
    destruct (Z.ltb_spec (Z.of_nat y) (height world)) as [Hlt|Hge];
    try discriminate H;
    try (apply ret_Ok in H as [<- _]; apply (filled_weaken y); [lia | exact Hf]).
  apply bind_Ok in H as (tile & s1 & _ & H).
  rewrite bind_eq in H. unfold get_parser in H. cbv beta iota in H.
  rewrite bind_eq, (run_copy_eq _ _ _ _ eq_refl) in H. cbv beta iota in H.
  apply IH in H; [exact H|].
  set (n := Z.to_nat (RLE s1)). set (col1 := array_set y (Some tile) col).
  destruct (copy_down_spec n y col1 (Some tile) (array_set_same _ _ _))
    as (_ & Hlow & Hrun).
  intros i Hi. destruct (Nat.lt_ge_cases i y) as [Hiy|Hiy].
  - destruct (Hf i Hiy) as [t Ht]. exists t. rewrite Hlow by exact Hiy.
    subst col1. rewrite array_set_other; [exact Ht | | lia].
    apply lookup_lt_Some in Ht. exact Ht.
  - exists tile. replace i with (y + (i - y))%nat by lia. apply Hrun. lia.
Qed.

Lemma grid_loop_dense world rounds : forall x data s grid s',
  grid_loop world rounds x data s = Ok grid s' ->
  (x + rounds <= length data)%nat ->
  length grid = length data /\
  (forall i, (i < x)%nat -> grid !! i = data !! i) /\
  (forall i, (x <= i < x + rounds)%nat ->
     exists col, grid !! i = Some (Some col) /\
                 filled (Z.to_nat (height world)) col).
Proof.
  induction rounds as [|rounds IH]; intros x data s grid s' H Hlen;
    cbn [grid_loop] in H.
  - apply ret_Ok in H as [<- _]. repeat split. intros i Hi. lia.
  - apply bind_Ok in H as (col0 & s1 & _ & H).
    apply bind_Ok in H as (col & s2 & Hcol & H).
    apply column_loop_filled in Hcol; [|intros i Hi; lia].
    apply IH in H as (Hl & Hlow & Hnew);
      [|rewrite length_array_set; lia].
    rewrite length_array_set in Hl. split; [lia|]. split.
    + intros i Hi. rewrite Hlow by lia. apply array_set_other; lia.
    + intros i Hi. destruct (Nat.eq_dec i x) as [->|Hne].
      * exists col. rewrite Hlow by lia. split; [apply array_set_same | exact Hcol].
      * apply Hnew. lia.
Qed.

Lemma parseWorldTiles_dense world s grid s' :
  parseWorldTiles world s = Ok grid s' ->
  length grid = Z.to_nat (width world) /\
  forall x y, (x < Z.to_nat (width world))%nat ->
    (y < Z.to_nat (height world))%nat ->
    exists t, grid_at grid x y = Some t.
Proof.
  rewrite parseWorldTiles_eq. intros H.
  apply bind_Ok in H as (data & s1 & Hd & H).
  rewrite new_array_eq in Hd. destruct (_ || _); [discriminate Hd|].
  injection Hd as <- <-.
  apply grid_loop_dense in H as (Hl & _ & Hnew);
    [|rewrite length_replicate; lia].
  rewrite length_replicate in Hl. split; [exact Hl|].
  intros x y Hx Hy. destruct (Hnew x ltac:(lia)) as (col & Hcol & Hf).
  destruct (Hf y Hy) as [t Ht]. exists t. unfold grid_at.
  rewrite (array_get_lookup _ _ _ Hcol). apply array_get_lookup, Ht.
Qed.

(** X15. The grid [parseWorldTiles] returns has no hole: it has [width]
    columns and a tile at every column [x < width] and row [y < height]
    (a column may be longer than [height] when a run passes its end). *)
Theorem grid_is_dense (world : WorldNecessary) (s : parser)
    (grid : js_array (js_array Tile)) (s' : parser) :
  parseWorldTiles world s = Ok grid s' ->
  length grid = Z.to_nat (width world) /\
  forall x y, (x < Z.to_nat (width world))%nat ->
    (y < Z.to_nat (height world))%nat ->
    exists t, grid_at grid x y = Some t.
Proof. apply parseWorldTiles_dense. Qed.

Lemma grid_is_dense_witness :
  exists grid s' t,
    parseWorldTiles (mkWorld 279 [0] [] 1 3)
      (new_parser [Byte.x40; Byte.x01; Byte.x00]) = Ok grid s' /\
    length grid = 1%nat /\ grid_at grid 0 2 = Some t.
Proof.
  assert (H : exists grid s',
             parseWorldTiles (mkWorld 279 [0] [] 1 3)
               (new_parser [Byte.x40; Byte.x01; Byte.x00]) = Ok grid s')
    by (vm_compute; eexists _, _; reflexivity).
  destruct H as (grid & s' & H).
  destruct (grid_is_dense _ _ _ _ H) as [Hl Hd].
  destruct (Hd 0%nat 2%nat ltac:(cbn; lia) ltac:(cbn; lia)) as [t Ht].
  exists grid, s', t. auto.
Defined.

(** ** Members of the header that its users rely on *)

Lemma keeps_since_else k world t l1 l2 :
  Forall (keeps_member k) l1 -> Forall (keeps_member k) l2 ->
  keeps_member k (since_else world t l1 l2).
Proof.
  intros H1 H2 d s d' s' H. unfold since_else in H.
  destruct (t <=? version world);
    [exact (keeps_run k l1 H1 _ _ _ _ H) | exact (keeps_run k l2 H2 _ _ _ _ H)].
Qed.

Lemma keeps_guidString k : k <> "guidString" -> keeps_member k guidString_step.
Proof.
  intros Hne d s d' s' H. unfold guidString_step in H.
  apply ret_Ok in H as [<- _]. apply lookup_insert_ne. congruence.
Qed.

(** The later statements of [parseHeader] leave the member alone. *)
Ltac keeps_tail :=
  repeat first
    [ apply Forall_nil; exact I
    | apply Forall_cons; split
    | apply keeps_field; apply string_neq; vm_compute; reflexivity
    | apply keeps_guidString; apply string_neq; vm_compute; reflexivity
    | apply keeps_since
    | apply keeps_since_else ].

Lemma member_after_step k r tail d s h s' :
  run_steps ((k <~ r) :: tail) d s = Ok h s' ->
  Forall (keeps_member k) tail ->
  exists sa v sb, r sa = Ok v sb /\ h !! k = Some v.
Proof.
  intros H Hall. rewrite run_steps_cons in H.
  apply bind_Ok in H as (d1 & s1 & Hstep & H).
  rewrite (keeps_run _ _ Hall _ _ _ _ H). unfold field in Hstep.
  apply bind_Ok in Hstep as (v & s2 & Hv & Hstep).
  apply ret_Ok in Hstep as [<- _]. exists s, v, s2.
  split; [exact Hv | apply lookup_insert_eq].
Qed.

Lemma parseHeader_from world n s h s' :
  parseHeader world s = Ok h s' ->
  exists d1 s1, run_steps (drop n (header_steps world)) d1 s1 = Ok h s'.
Proof.
  unfold parseHeader. intros H.
  rewrite <- (take_drop n (header_steps world)), run_steps_app in H.
  apply bind_Ok in H as (d1 & s1 & _ & H). eauto.
Qed.

Lemma le_unsigned_4 bs :
  (length bs <= 4)%nat -> 0 <= le_unsigned bs < 2 ^ 32.
Proof.
  intros Hl. pose proof (le_unsigned_bound bs) as Hb.
  assert (256 ^ Z.of_nat (length bs) <= 256 ^ 4)
    by (apply Z.pow_le_mono_r; lia).
  change (256 ^ 4) with (2 ^ 32) in *. lia.
Qed.

Lemma readInt32_range s v s' : readInt32 s = Ok v s' -> is_int32 v.
Proof.
  unfold is_int32. intros H.
  apply read_typed_value in H as [->|(bs & Hl & ->)]; [lia|].
  pose proof (le_unsigned_4 bs Hl) as Hb. unfold le_signed, to_signed.
  change (2 ^ (32 - 1)) with (2 ^ 31). change (2 ^ 32) with (2 * 2 ^ 31) in *.
  destruct (Z.ltb_spec (le_unsigned bs) (2 ^ 31)); lia.
Qed.

Lemma rd_int32_value s v s' :
  rd_int32 s = Ok v s' -> exists z, v = VInt z /\ is_int32 z.
Proof.
  unfold rd_int32. intros H. apply bind_Ok in H as (z & s1 & Hz & H).
  apply ret_Ok in H as [<- _]. exists z.
  split; [reflexivity | exact (readInt32_range _ _ _ Hz)].
Qed.

Lemma rd_float64_value s v s' :
  rd_float64 s = Ok v s' -> exists bits, v = VFloat64 bits.
Proof.
  unfold rd_float64. intros H. apply bind_Ok in H as (z & s1 & _ & H).
  apply ret_Ok in H as [<- _]. eauto.
Qed.

(** X16. Whatever the version, a header [parseHeader] returns has the
    four members the rasterizer reads: [maxTilesX] and [maxTilesY], which
    are 32-bit signed integers, and [worldSurface] and [rockLayer], which
    are 64-bit floating-point numbers. *)
Theorem header_raster_members (world : WorldNecessary) (s : parser)
    (h : header) (s' : parser) :
  parseHeader world s = Ok h s' ->
  exists w hh surface rock,
    h !! "maxTilesX" = Some (VInt w) /\ is_int32 w /\
    h !! "maxTilesY" = Some (VInt hh) /\ is_int32 hh /\
    h !! "worldSurface" = Some (VFloat64 surface) /\
    h !! "rockLayer" = Some (VFloat64 rock).
Proof.
  intros H.
  destruct (parseHeader_from world 11 s h s' H) as (d1 & s1 & H1).
  destruct (parseHeader_from world 10 s h s' H) as (d2 & s2 & H2).
  destruct (parseHeader_from world 24 s h s' H) as (d3 & s3 & H3).
  destruct (parseHeader_from world 25 s h s' H) as (d4 & s4 & H4).
  cbv [header_steps drop] in H1, H2, H3, H4.
  apply member_after_step in H1 as (? & v1 & ? & Hv1 & Hk1); [|keeps_tail].
  apply member_after_step in H2 as (? & v2 & ? & Hv2 & Hk2); [|keeps_tail].
  apply member_after_step in H3 as (? & v3 & ? & Hv3 & Hk3); [|keeps_tail].
  apply member_after_step in H4 as (? & v4 & ? & Hv4 & Hk4); [|keeps_tail].
  apply rd_int32_value in Hv1 as (w & -> & Rw).
  apply rd_int32_value in Hv2 as (hh & -> & Rh).
  apply rd_float64_value in Hv3 as (sf & ->).
  apply rd_float64_value in Hv4 as (rl & ->).
  exists w, hh, sf, rl. auto 10.
Qed.

Lemma ok_true {A} (o : outcome A) :
  match o with Ok _ _ => true | _ => false end = true ->
  exists a s, o = Ok a s.
Proof. destruct o; [eauto | discriminate | discriminate]. Qed.

Lemma header_raster_members_witness :
  exists h s' w,
    parseHeader (mkWorld 279 [] [] 1 1) (new_parser (replicate 2000 Byte.x00))
    = Ok h s' /\
    h !! "maxTilesX" = Some (VInt w).
Proof.
  destruct (ok_true (parseHeader (mkWorld 279 [] [] 1 1)
                       (new_parser (replicate 2000 Byte.x00))))
    as (h & s' & H); [vm_compute; reflexivity|].
  destruct (header_raster_members _ _ _ _ H) as (w & _ & _ & _ & Hw & _).
  exists h, s', w. auto.
Defined.

Lemma read_n_values n s vs s' :
  read_n n s = Ok vs s' -> length vs = n /\ Forall is_byte vs.
Proof.
  revert s vs s'. induction n as [|n IH]; intros s vs s' H; cbn [read_n] in H.
  - apply ret_Ok in H as [<- _]. split; [reflexivity | constructor].
  - apply bind_Ok in H as (b & s1 & Hb & H).
    apply bind_Ok in H as (bs & s2 & Hbs & H). apply ret_Ok in H as [<- _].
    apply IH in Hbs as [Hl Hall]. split; [cbn; lia|].
    constructor; [exact (readUInt8_range _ _ _ Hb) | exact Hall].
Qed.

(** X17. In a header [parseHeader] returns, [guid] is an array of
    sixteen bytes and [guidString] is [parseGuid] of that very array. *)
Theorem header_guid (world : WorldNecessary) (s : parser) (h : header)
    (s' : parser) :
  parseHeader world s = Ok h s' ->
  exists g, h !! "guid" = Some (VBytes g) /\ length g = 16%nat /\
            Forall is_byte g /\
            h !! "guidString" = Some (VString (parseGuid g)).
Proof.
  intros H.
  destruct (parseHeader_from world 3 s h s' H) as (d1 & s1 & H1).
  cbv [header_steps drop] in H1. rewrite run_steps_cons in H1.
  apply bind_Ok in H1 as (d2 & s2 & Hg & H1).
  unfold field, rd_bytes, readBytes in Hg.
  apply bind_Ok in Hg as (v & s3 & Hv & Hg). apply ret_Ok in Hg as [<- _].
  apply bind_Ok in Hv as (g & s4 & Hrd & Hv). apply ret_Ok in Hv as [<- _].
  apply read_n_values in Hrd as [Hl Hall].
  rewrite run_steps_cons in H1.
  apply bind_Ok in H1 as (d3 & s5 & Hs & H1).
  unfold guidString_step in Hs. rewrite lookup_insert_eq in Hs.
  apply ret_Ok in Hs as [<- _].
  match type of H1 with
  | run_steps ?l _ _ = _ =>
      assert (K1 : Forall (keeps_member "guid") l) by keeps_tail;
      assert (K2 : Forall (keeps_member "guidString") l) by keeps_tail
  end.
  exists g.
  rewrite (keeps_run _ _ K1 _ _ _ _ H1), (keeps_run _ _ K2 _ _ _ _ H1).
  rewrite lookup_insert_eq, lookup_insert_ne by discriminate.
  rewrite lookup_insert_eq. auto.
Qed.

Lemma header_guid_witness :
  exists h s',
    parseHeader (mkWorld 279 [] [] 1 1) (new_parser (replicate 2000 Byte.x00))
    = Ok h s' /\
    h !! "guidString" = Some (VString (parseGuid (replicate 16 0))).
Proof.
  destruct (ok_true (parseHeader (mkWorld 279 [] [] 1 1)
                       (new_parser (replicate 2000 Byte.x00))))
    as (h & s' & H); [vm_compute; reflexivity|].
  destruct (header_guid _ _ _ _ H) as (g & Hg & _ & _ & Hs).
  exists h, s'. split; [exact H|]. rewrite Hs.
  assert (Hobs : match parseHeader (mkWorld 279 [] [] 1 1)
                         (new_parser (replicate 2000 Byte.x00)) with
                 | Ok h0 _ => h0 !! "guid"
                 | _ => None
                 end = Some (VBytes (replicate 16 0)))
    by (vm_compute; reflexivity).
  rewrite H, Hg in Hobs. injection Hobs as ->. reflexivity.
Defined.

(** *** The members of a header and the version *)

Lemma rep_version_spec v :
  header_keys v = header_keys (rep_version v) /\
  In (rep_version v) rep_versions /\
  (v < 225 <-> rep_version v < 225).
Proof.
  assert (Hcase : v < 225 \/ 225 <= v < 227 \/ 227 <= v < 238 \/
                  238 <= v < 239 \/ 239 <= v < 240 \/ 240 <= v < 241 \/
                  241 <= v < 249 \/ 249 <= v < 266 \/ 266 <= v < 267 \/
                  267 <= v < 269 \/ 269 <= v) by lia.
  decompose [or] Hcase; clear Hcase;
    [ assert (Hr : rep_version v = 0) | assert (Hr : rep_version v = 225)
    | assert (Hr : rep_version v = 227) | assert (Hr : rep_version v = 238)
    | assert (Hr : rep_version v = 239) | assert (Hr : rep_version v = 240)
    | assert (Hr : rep_version v = 241) | assert (Hr : rep_version v = 249)
    | assert (Hr : rep_version v = 266) | assert (Hr : rep_version v = 267)
    | assert (Hr : rep_version v = 269) ];
    try (unfold rep_version;
         repeat match goal with
                | |- context [?a <? ?b] => destruct (Z.ltb_spec a b); try lia
                end; reflexivity);
    rewrite Hr;
    (split; [unfold header_keys; norm_leb v 225; norm_leb v 227;
             norm_leb v 238; norm_leb v 239; norm_leb v 240; norm_leb v 241;
             norm_leb v 249; norm_leb v 266; norm_leb v 267; norm_leb v 269;
             reflexivity|]);
    (split; [cbn; tauto | lia]).
Qed.

Lemma rep_version_mono v v' : v <= v' -> rep_version v <= rep_version v'.
Proof.
  intros Hle. unfold rep_version.
  repeat match goal with
         | |- context [?a <? ?b] => destruct (Z.ltb_spec a b); try lia
         end.
Qed.

Lemma keys_kept_all :
  forallb (fun r => forallb (fun r' => (r' <? r) || keys_kept r r') rep_versions)
    rep_versions = true.
Proof. vm_compute. reflexivity. Qed.

Lemma header_keys_grow v v' k :
  v <= v' -> k ∈ header_keys v -> k <> "expertMode" -> k ∈ header_keys v'.
Proof.
  intros Hle Hk Hne.
  destruct (rep_version_spec v) as (Hv & Hin & _).
  destruct (rep_version_spec v') as (Hv' & Hin' & _).
  rewrite Hv in Hk. rewrite Hv'.
  pose proof keys_kept_all as Hall. rewrite forallb_forall in Hall.
  specialize (Hall _ Hin). rewrite forallb_forall in Hall.
  specialize (Hall _ Hin'). apply orb_true_iff in Hall as [Hlt|Hkept].
  - pose proof (rep_version_mono v v' Hle). lia.
  - unfold keys_kept in Hkept. rewrite forallb_forall in Hkept.
    apply list_elem_of_In, Hkept in Hk. apply orb_true_iff in Hk as [Hk|Hk].
    + apply String.eqb_eq in Hk. contradiction.
    + apply mem_spec, Hk.
Qed.

Lemma expertMode_keys v : "expertMode" ∈ header_keys v <-> v < 225.
Proof.
  destruct (rep_version_spec v) as (-> & Hin & ->).
  cbn [rep_versions In] in Hin.
  rewrite <- mem_spec.
  decompose [or] Hin; clear Hin;
    match goal with
    | H : _ = rep_version v |- _ => rewrite <- H
    | H : False |- _ => destruct H
    end;
    split; intros Hx; try lia;
    first [ vm_compute; reflexivity | vm_compute in Hx; discriminate Hx ].
Qed.

(** X18. The members of a header only grow with the version: every
    member of a header decoded for one version, [expertMode] apart, is a
    member of every header decoded for a version at least as high; and
    [expertMode] is a member exactly below version 225. *)
Theorem header_grows (worldA worldB : WorldNecessary) (sA sA' sB sB' : parser)
    (hA hB : header) :
  parseHeader worldA sA = Ok hA sA' -> parseHeader worldB sB = Ok hB sB' ->
  version worldA <= version worldB ->
  (forall k, is_Some (hA !! k) -> k <> "expertMode" -> is_Some (hB !! k)) /\
  (is_Some (hA !! "expertMode") <-> version worldA < 225).
Proof.
  intros HA HB Hle. split.
  - intros k Hk Hne.
    apply (parseHeader_keys _ _ _ _ HB).
    apply (header_keys_grow (version worldA)); [exact Hle| |exact Hne].
    apply (parseHeader_keys _ _ _ _ HA), Hk.
  - rewrite (parseHeader_keys _ _ _ _ HA). apply expertMode_keys.
Qed.

Lemma header_grows_witness :
  exists hA sA hB sB,
    parseHeader (mkWorld 224 [] [] 1 1) (new_parser (replicate 2000 Byte.x00))
    = Ok hA sA /\
    parseHeader (mkWorld 279 [] [] 1 1) (new_parser (replicate 2000 Byte.x00))
    = Ok hB sB /\
    is_Some (hA !! "expertMode") /\
    (is_Some (hA !! "moonType") -> is_Some (hB !! "moonType")).
Proof.
  destruct (ok_true (parseHeader (mkWorld 224 [] [] 1 1)
                       (new_parser (replicate 2000 Byte.x00))))
    as (hA & sA & HA); [vm_compute; reflexivity|].
  destruct (ok_true (parseHeader (mkWorld 279 [] [] 1 1)
                       (new_parser (replicate 2000 Byte.x00))))
    as (hB & sB & HB); [vm_compute; reflexivity|].
  destruct (header_grows _ _ _ _ _ _ _ _ HA HB ltac:(cbn; lia)) as [Hgrow Hexp].
  exists hA, sA, hB, sB. split; [exact HA|]. split; [exact HB|]. split.
  - apply Hexp. cbn. lia.
  - intros Hm. apply Hgrow; [exact Hm | discriminate].
Defined.

(** ** What the decoding methods assign and throw *)

Lemma reach_trans a b c : reach a b -> reach b c -> reach a c.
Proof.
  intros Hab Hbc. induction Hbc; [exact Hab | |];
    constructor; apply IHHbc; exact Hab.
Qed.

Lemma reach_store v s : reach s (store_offset v s).
Proof. apply reach_offset, reach_refl. Qed.

Lemma reach_buffer s s' :
  reach s s' -> buffer s' = buffer s /\ ignoreBounds s' = ignoreBounds s.
Proof.
  induction 1 as [s|s s' v _ IH|s s' r _ IH]; [split; reflexivity | |].
  - rewrite buffer_store, ignoreBounds_store. exact IH.
  - exact IH.
Qed.

Lemma tame_ret E {A} (a : A) : tame E (mret a).
Proof. intros s. apply reach_refl. Qed.

Lemma tame_throw (E : exn -> Prop) {A} e : E e -> tame E (throw (A := A) e).
Proof. intros He s. split; [apply reach_refl | exact He]. Qed.

Lemma tame_diverge E {A} : tame E (diverge (A := A)).
Proof. intros s. exact I. Qed.

Lemma tame_bind E {A B} (m : M A) (f : A -> M B) :
  tame E m -> (forall a, tame E (f a)) -> tame E (m ≫= f).
Proof.
  intros Hm Hf s. rewrite bind_eq. specialize (Hm s).
  destruct (m s) as [a s1|e s1|]; [|exact Hm|exact I].
  specialize (Hf a s1). destruct (f a s1) as [b s2|e s2|]; [| |exact I].
  - apply reach_trans with s1; assumption.
  - destruct Hf as [Hr He]. split; [apply reach_trans with s1; assumption|exact He].
Qed.

Lemma tame_weaken (E E' : exn -> Prop) {A} (m : M A) :
  (forall e, E e -> E' e) -> tame E m -> tame E' m.
Proof.
  intros HE Hm s. specialize (Hm s). destruct (m s) as [a s1|e s1|];
    [exact Hm | destruct Hm; auto | exact I].
Qed.

Lemma tame_get E {A} (f : parser -> M A) :
  (forall s0, tame E (f s0)) -> tame E (get_parser ≫= f).
Proof. intros Hf s. rewrite bind_eq. apply Hf. Qed.

Lemma tame_set_offset E v : tame E (set_offset v).
Proof. intros s. apply reach_store. Qed.

Lemma tame_set_RLE E r : tame E (set_RLE r).
Proof. intros s. apply reach_RLE, reach_refl. Qed.

Lemma tame_read_typed w conv : tame only_RangeError (read_typed w conv).
Proof.
  intros s. destruct (read_typed_state w conv s) as (s' & -> & [[v ->] | ->]).
  - apply reach_store.
  - split; [apply reach_store | reflexivity].
Qed.

Lemma tame_skipBytes E n : tame E (skipBytes n).
Proof. unfold skipBytes. apply tame_get. intros s0. apply tame_set_offset. Qed.

Lemma tame_readBoolean : tame only_RangeError readBoolean.
Proof.
  unfold readBoolean. apply tame_bind; [apply tame_read_typed|].
  intros b. apply tame_ret.
Qed.

Lemma tame_read_n n : tame only_RangeError (read_n n).
Proof.
  induction n as [|n IH]; cbn [read_n]; [apply tame_ret|].
  apply tame_bind; [apply tame_read_typed|]. intros b.
  apply tame_bind; [exact IH|]. intros bs. apply tame_ret.
Qed.

Lemma tame_read_int32s n : tame only_RangeError (read_int32s n).
Proof.
  induction n as [|n IH]; cbn [read_int32s]; [apply tame_ret|].
  apply tame_bind; [apply tame_read_typed|]. intros b.
  apply tame_bind; [exact IH|]. intros bs. apply tame_ret.
Qed.

Lemma tame_read_varlen k len shift : tame only_RangeError (read_varlen k len shift).
Proof.
  revert len shift. induction k as [|k IH]; intros len shift;
    cbn [read_varlen]; [apply tame_diverge|].
  apply tame_bind; [apply tame_read_typed|]. intros b.
  destruct (Z.land b 128 =? 0); [apply tame_ret | apply IH].
Qed.

Lemma tame_readString len : tame only_RangeError (readString len).
Proof.
  unfold readString.
  apply tame_bind;
    [|intros n; apply tame_bind; [apply tame_read_n | intros bs; apply tame_ret]].
  destruct len as [n|]; [apply tame_ret|].
  apply tame_get. intros s0. apply tame_read_varlen.
Qed.

Lemma tame_read_strings n : tame only_RangeError (read_strings n).
Proof.
  induction n as [|n IH]; cbn [read_strings]; [apply tame_ret|].
  apply tame_bind; [apply tame_readString|]. intros b.
  apply tame_bind; [exact IH|]. intros bs. apply tame_ret.
Qed.

Lemma tame_parseBitsByte size : tame only_RangeError (parseBitsByte size).
Proof.
  unfold parseBitsByte. apply tame_bind; [apply tame_read_n|].
  intros bs. apply tame_ret.
Qed.

Lemma tame_new_array {A} n : tame only_RangeError (new_array (A := A) n).
Proof.
  unfold new_array. destruct (_ || _);
    [apply tame_throw; reflexivity | apply tame_ret].
Qed.

Lemma tame_readUInt8 : tame only_RangeError readUInt8.
Proof. apply tame_read_typed. Qed.
Lemma tame_readInt16 : tame only_RangeError readInt16.
Proof. apply tame_read_typed. Qed.
Lemma tame_readUInt16 : tame only_RangeError readUInt16.
Proof. apply tame_read_typed. Qed.
Lemma tame_readInt32 : tame only_RangeError readInt32.
Proof. apply tame_read_typed. Qed.
Lemma tame_readFloat32 : tame only_RangeError readFloat32.
Proof. apply tame_read_typed. Qed.
Lemma tame_readFloat64 : tame only_RangeError readFloat64.
Proof. apply tame_read_typed. Qed.

Create HintDb tame_db.

#[local] Hint Resolve tame_ret tame_diverge tame_set_offset tame_set_RLE
  tame_read_typed tame_skipBytes tame_readBoolean tame_read_n
  tame_read_int32s tame_readString tame_read_strings tame_parseBitsByte
  tame_new_array tame_readUInt8 tame_readInt16 tame_readUInt16
  tame_readInt32 tame_readFloat32 tame_readFloat64 : tame_db.

(** Walk down a computation built from binds and conditionals. *)
Ltac tame_walk :=
  repeat first
    [ solve [auto with tame_db]
    | apply tame_bind; [|intros ?]
    | match goal with
      | |- tame _ (if ?b then _ else _) => destruct b
      | |- tame _ (match ?x with _ => _ end) => destruct x
      end ].

Lemma tame_preamble : tame only_RangeError preamble.
Proof. unfold preamble, readInt32, readInt16, readUInt8. tame_walk. Qed.

Lemma tame_parseNecessaryData : tame parse_error parseNecessaryData.
Proof.
  intros s. rewrite parseNecessaryData_eq.
  pose proof (tame_preamble (store_offset (Num 0) s)) as Hp.
  destruct (preamble (store_offset (Num 0) s)) as [p s1|e s1|]; [| |exact I].
  - assert (Hr : reach s (store_offset (Num 0) s1)).
    { apply reach_offset. apply reach_trans with (store_offset (Num 0) s);
        [apply reach_store | exact Hp]. }
    cbv zeta. destruct (_ || _).
    + split; [exact Hr | right; left; reflexivity].
    + destruct (p_version p <? 194);
        [split; [exact Hr | right; right; reflexivity] | exact Hr].
  - destruct Hp as [Hp _]. split; [|right; left; reflexivity].
    apply reach_trans with (store_offset (Num 0) s); [apply reach_store | exact Hp].
Qed.

Section TameSections.

Variable world : WorldNecessary.

Lemma tame_parseTileData : tame only_RangeError (parseTileData world).
Proof.
  unfold parseTileData, read_flags, tile_layers, tile_block, tile_wall,
    tile_liquid, tile_extras, tile_wall_high, tile_rle,
    readUInt8, readUInt16, readInt16.
  tame_walk.
Qed.

Lemma tame_read_flags : tame only_RangeError read_flags.
Proof. unfold read_flags, readUInt8. tame_walk. Qed.

Lemma tame_tile_block f t : tame only_RangeError (tile_block world f t).
Proof. unfold tile_block, readUInt8, readUInt16, readInt16. tame_walk. Qed.

Lemma tame_tile_wall f t : tame only_RangeError (tile_wall f t).
Proof. unfold tile_wall, readUInt8. tame_walk. Qed.

Lemma tame_tile_layers f : tame only_RangeError (tile_layers world f).
Proof.
  unfold tile_layers, tile_block, tile_wall, tile_liquid,
    readUInt8, readUInt16, readInt16.
  tame_walk.
Qed.

Lemma tame_run_copy rounds y col : tame only_RangeError (run_copy rounds y col).
Proof.
  revert y col. induction rounds as [|rounds IH]; intros y col;
    cbn [run_copy]; apply tame_get; intros s0;
    destruct (0 <? RLE s0); try apply tame_ret; [apply tame_diverge|].
  apply tame_bind; [apply tame_set_RLE | intros _; apply IH].
Qed.

Lemma tame_column_loop rounds y col :
  tame only_RangeError (column_loop world rounds y col).
Proof.
  revert y col. induction rounds as [|rounds IH]; intros y col;
    cbn [column_loop]; destruct (Z.of_nat y <? height world);
    try apply tame_ret; [apply tame_diverge|].
  apply tame_bind; [apply tame_parseTileData|]. intros tile.
  apply tame_get. intros s0.
  apply tame_bind; [apply tame_run_copy|]. intros [y2 col2]. apply IH.
Qed.

Lemma tame_grid_loop rounds x data :
  tame only_RangeError (grid_loop world rounds x data).
Proof.
  revert x data. induction rounds as [|rounds IH]; intros x data;
    cbn [grid_loop]; [apply tame_ret|].
  apply tame_bind; [apply tame_new_array|]. intros col.
  apply tame_bind; [apply tame_column_loop|]. intros col'. apply IH.
Qed.

Lemma tame_parseWorldTiles : tame only_RangeError (parseWorldTiles world).
Proof.
  unfold parseWorldTiles.
  apply tame_bind; [apply tame_set_RLE|]. intros _.
  apply tame_bind; [apply tame_new_array|]. intros data.
  apply tame_grid_loop.
Qed.

Lemma tame_field k r d :
  tame only_RangeError r -> tame only_RangeError ((k <~ r) d).
Proof.
  intros Hr. unfold field. apply tame_bind; [exact Hr|].
  intros v. apply tame_ret.
Qed.

Lemma tame_run_steps l :
  Forall (fun f => forall d, tame only_RangeError (f d)) l ->
  forall d, tame only_RangeError (run_steps l d).
Proof.
  induction 1 as [|f l Hf Hl IH]; intros d; cbn [run_steps];
    [apply tame_ret|].
  apply tame_bind; [apply Hf | exact IH].
Qed.

Lemma tame_since t l d :
  Forall (fun f => forall d, tame only_RangeError (f d)) l ->
  tame only_RangeError (since world t l d).
Proof.
  intros Hl. unfold since. destruct (t <=? version world);
    [apply tame_run_steps, Hl | apply tame_ret].
Qed.

Lemma tame_since_else t l1 l2 d :
  Forall (fun f => forall d, tame only_RangeError (f d)) l1 ->
  Forall (fun f => forall d, tame only_RangeError (f d)) l2 ->
  tame only_RangeError (since_else world t l1 l2 d).
Proof.
  intros H1 H2. unfold since_else. destruct (t <=? version world);
    apply tame_run_steps; assumption.
Qed.

Lemma tame_reader_value {A} (m : M A) (f : A -> value) :
  tame only_RangeError m -> tame only_RangeError (v ← m; mret (f v)).
Proof.
  intros Hm. apply tame_bind; [exact Hm|]. intros v. apply tame_ret.
Qed.

Lemma tame_rd_int32_list count :
  tame only_RangeError count -> tame only_RangeError (rd_int32_list count).
Proof.
  intros Hc. unfold rd_int32_list. apply tame_bind; [exact Hc|].
  intros n. apply tame_reader_value, tame_read_int32s.
Qed.

Lemma tame_rd_string_list count :
  tame only_RangeError count -> tame only_RangeError (rd_string_list count).
Proof.
  intros Hc. unfold rd_string_list. apply tame_bind; [exact Hc|].
  intros n. apply tame_reader_value, tame_read_strings.
Qed.

Lemma tame_header_steps :
  Forall (fun f => forall d, tame only_RangeError (f d)) (header_steps world).
Proof.
  unfold header_steps.
  repeat first
    [ apply Forall_nil; exact I
    | apply Forall_cons; split
    | intros ?; apply tame_field
    | intros ?; apply tame_since
    | intros ?; apply tame_since_else
    | intros ?; apply tame_ret
    | apply tame_rd_int32_list
    | apply tame_rd_string_list
    | apply tame_reader_value
    | solve [auto with tame_db]
    | match goal with
      | |- tame _ (if ?b then _ else _) => destruct b
      end
    | unfold readBytes ].
Qed.

Lemma tame_parseHeader : tame only_RangeError (parseHeader world).
Proof. apply tame_run_steps, tame_header_steps. Qed.

End TameSections.

Lemma range_is_parse_error e : only_RangeError e -> parse_error e.
Proof. intros ->. left. reflexivity. Qed.

(** The part of [parse] that follows the assignment of the options and
    the installation of the accessor. *)
Lemma tame_parse_sections wanted :
  tame parse_error
    (world ← parseNecessaryData;
     hdr ← (if includes wanted "header" then
              set_offset (pointer world 1);;
              h ← parseHeader world; mret (Some h)
            else mret None);
     tls ← (if includes wanted "tiles" then
              set_offset (pointer world 2);;
              t ← parseWorldTiles world; mret (Some t)
            else mret None);
     mret (mkResult hdr tls)).
Proof.
  apply tame_bind; [apply tame_parseNecessaryData|]. intros world.
  apply tame_bind.
  - destruct (includes wanted "header"); [|apply tame_ret].
    apply tame_bind; [apply tame_set_offset|]. intros _.
    apply tame_bind; [|intros h; apply tame_ret].
    apply (tame_weaken only_RangeError); [apply range_is_parse_error|].
    apply tame_parseHeader.
  - intros hdr. apply tame_bind; [|intros tls; apply tame_ret].
    destruct (includes wanted "tiles"); [|apply tame_ret].
    apply tame_bind; [apply tame_set_offset|]. intros _.
    apply tame_bind; [|intros t; apply tame_ret].
    apply (tame_weaken only_RangeError); [apply range_is_parse_error|].
    apply tame_parseWorldTiles.
Qed.

Lemma parse_eq opts s :
  parse opts s =
  (world ← parseNecessaryData;
   hdr ← (if includes (map toLowerCase (sections opts)) "header" then
            set_offset (pointer world 1);;
            h ← parseHeader world; mret (Some h)
          else mret None);
   tls ← (if includes (map toLowerCase (sections opts)) "tiles" then
            set_offset (pointer world 2);;
            t ← parseWorldTiles world; mret (Some t)
          else mret None);
   mret (mkResult hdr tls))
    (if progressCallback opts
     then mkParser (offset s) (buffer s) false (RLE s)
            (Some (mkProgress (byteLength s / 100) (byteLength s / 100) 0))
            (calls s)
     else mkParser (offset s) (buffer s) false (RLE s) (hook s) (calls s)).
Proof.
  unfold parse. rewrite bind_eq. unfold assign_options at 1. cbv beta iota.
  rewrite bind_eq. destruct (progressCallback opts); reflexivity.
Qed.




(** *** The calls of the progress callback *)

Lemma count_up_S k : count_up (S k) = count_up k ++ [Z.of_nat k + 1].
Proof.
  unfold count_up. rewrite seq_S, map_app. cbn [map Nat.add]. do 2 f_equal. lia.
Qed.

Lemma counted_reach s s' : reach s s' -> counted s -> counted s'.
Proof.
  induction 1 as [s|s s' v _ IH|s s' r _ IH]; intros Hc; [exact Hc | |].
  - destruct (IH Hc) as (h & k & Hh & Hp & Hk). unfold store_offset. rewrite Hh.
    destruct (js_ge v (nextPercentSize h)).
    + eexists _, (S k). cbn [hook calls]. split; [reflexivity|].
      cbn [percent]. split; [lia|]. rewrite count_up_S, Hk, Hp. reflexivity.
    + exists h, k. cbn [hook calls]. auto.
  - destruct (IH Hc) as (h & k & Hh & Hp & Hk). exists h, k. cbn [hook calls]. auto.
Qed.

(** X9. However [parse] ends on a new parser, the progress callback has
    been called with 1, 2, 3, ... in this order, each percentage once:
    the calls it has received are the numbers from 1 to their count. *)
Theorem progress_calls_in_order (bytes : list byte) (wanted : list string)
    (s' : parser) :
  after (parse (mkOptions wanted true) (new_parser bytes)) = Some s' ->
  calls s' = count_up (length (calls s')).
Proof.
  rewrite parse_eq. cbn [progressCallback sections].
  match goal with
  | |- after (?m ?s1) = _ -> _ =>
      pose proof (tame_parse_sections (map toLowerCase wanted) s1) as H;
      assert (Hc : counted s1)
        by (eexists _, O; cbn [hook calls percent new_parser]; auto);
      destruct (m s1) as [r s2|e s2|]
  end; cbn [after]; intros Ha; try discriminate Ha; injection Ha as <-.
  - destruct (counted_reach _ _ H Hc) as (h & k & _ & _ & Hk).
    rewrite Hk. unfold count_up. rewrite length_map, length_seq. reflexivity.
  - destruct H as [H _].
    destruct (counted_reach _ _ H Hc) as (h & k & _ & _ & Hk).
    rewrite Hk. unfold count_up. rewrite length_map, length_seq. reflexivity.
Qed.

Lemma progress_calls_in_order_witness :
  exists s',
    after (parse (mkOptions ["tiles"] true)
             (new_parser (map byte_of_Z (sample_preamble 279 90 90 1 1 ++ [0]))))
    = Some s' /\
    calls s' = count_up (length (calls s')).
Proof.
  assert (H : is_Some
                (after (parse (mkOptions ["tiles"] true)
                          (new_parser
                             (map byte_of_Z
                                (sample_preamble 279 90 90 1 1 ++ [0]))))))
    by (apply is_Some_true; vm_compute; reflexivity).
  destruct H as [s' H]. exists s'. split; [exact H|].
  apply (progress_calls_in_order _ _ _ H).
Defined.

(** *** The sections asked for *)

Lemma includes_lower wanted name :
  includes (map toLowerCase wanted) name = true <->
  exists n, n ∈ wanted /\ toLowerCase n = name.
Proof.
  unfold includes. rewrite bool_decide_eq_true.
  change (map toLowerCase wanted) with (toLowerCase <$> wanted).
  rewrite list_elem_of_fmap. split; intros (n & H1 & H2); exists n; auto.
Qed.

(** X10. The object [parse] returns has a [header] member exactly when
    one of the section names asked for is "header" up to the case of its
    letters, and a [tiles] member exactly when one is "tiles" up to case;
    other names, repetitions and the order of the names change nothing. *)
Theorem parse_sections (opts : options) (s : parser) (r : parse_result)
    (s' : parser) :
  parse opts s = Ok r s' ->
  (is_Some (r_header r) <->
   exists n, n ∈ sections opts /\ toLowerCase n = "header") /\
  (is_Some (r_tiles r) <->
   exists n, n ∈ sections opts /\ toLowerCase n = "tiles").
Proof.
  rewrite parse_eq. intros H.
  apply bind_Ok in H as (world & s1 & _ & H).
  apply bind_Ok in H as (hdr & s2 & Hh & H).
  apply bind_Ok in H as (tls & s3 & Ht & H).
  apply ret_Ok in H as [<- _]. cbn [r_header r_tiles].
  rewrite <- !includes_lower. split.
  - destruct (includes _ "header").
    + apply bind_Ok in Hh as (? & ? & _ & Hh).
      apply bind_Ok in Hh as (h & ? & _ & Hh). apply ret_Ok in Hh as [<- _].
      split; [reflexivity | eauto].
    + apply ret_Ok in Hh as [<- _]. split; [intros [? [=]] | discriminate].
  - destruct (includes _ "tiles").
    + apply bind_Ok in Ht as (? & ? & _ & Ht).
      apply bind_Ok in Ht as (t & ? & _ & Ht). apply ret_Ok in Ht as [<- _].
      split; [reflexivity | eauto].
    + apply ret_Ok in Ht as [<- _]. split; [intros [? [=]] | discriminate].
Qed.

Lemma parse_sections_witness :
  exists r s',
    parse (mkOptions ["Tiles"; "footer"] false)
      (new_parser (map byte_of_Z (sample_preamble 279 90 90 1 1 ++ [0])))
    = Ok r s' /\
    is_Some (r_tiles r) /\ r_header r = None.
Proof.
  assert (H : exists r s',
             parse (mkOptions ["Tiles"; "footer"] false)
               (new_parser (map byte_of_Z (sample_preamble 279 90 90 1 1 ++ [0])))
             = Ok r s') by (vm_compute; eexists _, _; reflexivity).
  destruct H as (r & s' & H). exists r, s'. split; [exact H|].
  destruct (parse_sections _ _ _ _ H) as [Hh Ht]. split.
  - apply Ht. exists "Tiles". split; [apply elem_of_cons; left; reflexivity | reflexivity].
  - destruct (r_header r) as [h|] eqn:E; [|reflexivity].
    destruct Hh as [Hh _]. destruct (Hh ltac:(eauto)) as (n & Hn & Hl).
    cbn [sections] in Hn. apply elem_of_cons in Hn as [->|Hn];
      [discriminate Hl|].
    apply elem_of_cons in Hn as [->|Hn]; [discriminate Hl|].
    apply elem_of_nil in Hn. destruct Hn.
Defined.

(** ** The bytes behind the members of a record *)

(** The bytes of the buffer are those of the start of the record at
    every stage of its decoding. *)
Lemma tame_Ok {A} (E : exn -> Prop) (m : M A) s a s' :
  tame E m -> m s = Ok a s' -> buffer s' = buffer s.
Proof.
  intros Hm H. specialize (Hm s). rewrite H in Hm.
  apply reach_buffer in Hm as [Hb _]. exact Hb.
Qed.

(** C2, as the code has it.  The field at bits 3-4 of flag byte 1 decides:
    when it is 0 the record has neither liquid amount nor liquid kind,
    whatever flag byte 3 says, and the liquid step reads nothing; when it
    is 1, 2 or 3 the amount is the byte [readUInt8] returns right after
    the block and wall members of the record, that is, the byte of the
    buffer at the offset reached there, and the kind is shimmer if flag
    byte 3 was read with bit 7 set and water, lava or honey, by the field,
    if not. *)
Theorem liquid_decoding (world : WorldNecessary) (s s1 s' : parser)
    (f : flag_bytes) (tile : Tile) :
  read_flags s = Ok f s1 ->
  parseTileData world s = Ok tile s' ->
  (if liquid_field (flags1 f) =? 0
   then liquidAmount tile = None /\ liquidType tile = None
   else (exists t1 sa t2 sb d sc,
           tile_block world f empty_tile s1 = Ok t1 sa /\
           tile_wall f t1 sa = Ok t2 sb /\
           readUInt8 sb = Ok d sc /\
           (forall o, offset sb = Num o -> 0 <= o ->
              d = byte_or_zero (buffer s) (Z.to_nat o)) /\
           0 <= d < 256 /\ liquidAmount tile = Some d) /\
        liquidType tile =
          Some (if flag_bit (flags3 f) 7 then shimmer
                else ordinary_liquid (liquid_field (flags1 f)))) /\
  (forall t sx t' sx', tile_liquid f t sx = Ok t' sx' ->
     (if liquid_field (flags1 f) =? 0 then t' = t /\ sx' = sx
      else exists d, readUInt8 sx = Ok d sx' /\ liquidAmount t' = Some d) /\
     offset sx' =
       js_add (offset sx) (if liquid_field (flags1 f) =? 0 then 0 else 1)).
Proof.
  intros Hf H. split.
  - unfold parseTileData in H. apply bind_Ok in H as (f' & sa & Hf' & H).
    rewrite Hf in Hf'. injection Hf' as <- <-.
    apply bind_Ok in H as (t3 & s2 & Hl & H).
    apply bind_Ok in H as (t4 & s3 & He & H).
    apply bind_Ok in H as (u & s4 & Hr & H). apply ret_Ok in H as [<- <-].
    destruct (read_flags_shape _ _ _ Hf) as (R1 & Hs3 & _).
    pose proof Hl as Hreads.
    apply tile_layers_reads in Hreads as (_ & Hreads); [|lia].
    apply tile_layers_spec in Hl as (_ & Hl); [|lia].
    apply tile_extras_spec in He as (Ha & Ht & _);
      [|intros f3 E3; destruct (Hs3 f3 E3) as (f2 & E2 & Hb & _); eauto].
    rewrite Ha, Ht.
    destruct (liquid_field (flags1 f) =? 0); [exact Hl|].
    destruct Hl as [_ Hkind]. split; [|exact Hkind].
    destruct (Hreads eq_refl) as (t1 & sa & t2 & sb & d & Hb & Hw & Hd & Hamount).
    exists t1, sa, t2, sb, d, s2.
    split; [exact Hb|]. split; [exact Hw|]. split; [exact Hd|].
    split; [|split; [exact (readUInt8_range _ _ _ Hd) | exact Hamount]].
    intros o Ho H0.
    destruct (readUInt8_Ok _ _ _ o Hd Ho H0) as [_ ->]. f_equal.
    rewrite (tame_Ok _ _ _ _ _ (tame_tile_wall f t1) Hw).
    rewrite (tame_Ok _ _ _ _ _ (tame_tile_block world f empty_tile) Hb).
    exact (tame_Ok _ _ _ _ _ tame_read_flags Hf).
  - intros t sx t' sx' Hl. split; [exact (tile_liquid_read _ _ _ _ _ Hl)|].
    apply tile_liquid_spec in Hl as (_ & Hl).
    destruct (liquid_field (flags1 f) =? 0).
    + destruct Hl as [_ ->]. symmetry. apply js_add_0.
    + apply Hl.
Qed.

(** A record with liquid field 1 and bit 7 of flag byte 3 set: the amount
    is the fourth byte, 200. *)
Lemma liquid_decoding_witness :
  exists tile s',
    parseTileData (mkWorld 279 [0; 90; 90] [] 1 1)
      (new_parser (map byte_of_Z [9; 1; 128; 200])) = Ok tile s' /\
    liquidAmount tile = Some 200 /\ liquidType tile = Some shimmer.
Proof.
  assert (H : exists f s1 tile s',
             read_flags (new_parser (map byte_of_Z [9; 1; 128; 200])) = Ok f s1 /\
             parseTileData (mkWorld 279 [0; 90; 90] [] 1 1)
               (new_parser (map byte_of_Z [9; 1; 128; 200])) = Ok tile s' /\
             flags1 f = 9 /\ flags3 f = Some 128 /\
             liquidAmount tile = Some 200).
  { vm_compute. eexists _, _, _, _. repeat split. }
  destruct H as (f & s1 & tile & s' & Hf & Hp & E1 & E3 & Ha).
  exists tile, s'. split; [exact Hp|]. split; [exact Ha|].
  destruct (liquid_decoding _ _ _ _ _ _ Hf Hp) as [Hl _].
  rewrite E1, E3 in Hl. exact (proj2 Hl).
Defined.

(** C2 as stated fails: flag byte 3 is read with bit 7 set, the liquid
    field is 0, and the record has no liquid kind at all. *)
Lemma liquid_decoding_counterexample :
  ~ (forall world s f s1 tile s',
       read_flags s = Ok f s1 -> parseTileData world s = Ok tile s' ->
       flag_bit (flags3 f) 7 = true -> liquidType tile = Some shimmer).
Proof.
  intros H.
  specialize (H (mkWorld 279 [0; 90; 90] [] 1 1)
                (new_parser (map byte_of_Z [1; 1; 128]))).
  assert (Hrun : exists f s1 tile s',
             read_flags (new_parser (map byte_of_Z [1; 1; 128])) = Ok f s1 /\
             parseTileData (mkWorld 279 [0; 90; 90] [] 1 1)
               (new_parser (map byte_of_Z [1; 1; 128])) = Ok tile s' /\
             flag_bit (flags3 f) 7 = true /\ liquidType tile = None).
  { vm_compute. eexists _, _, _, _. repeat split. }
  destruct Hrun as (f & s1 & tile & s' & Hf & Hp & Hb & Hn).
  specialize (H f s1 tile s' Hf Hp Hb). rewrite Hn in H. discriminate H.
Qed.

(** C3, as the code has it.  When flag byte 3 was read with bit 6 set, the
    byte [hi] that [readUInt8] returns right after the layers of the
    record, that is, the byte of the buffer at the offset reached there,
    becomes the high byte of the wall id: the wall id is [256 * hi + lo],
    where [lo] is the byte read as the wall id of the record if bit 2 of
    flag byte 1 announced one and 0 if not: a record without a wall
    member gets the wall id [256 * hi]. *)
Theorem wall_high_byte (world : WorldNecessary) (s s1 s2 s' : parser)
    (f : flag_bytes) (f3 : Z) (t3 tile : Tile) :
  read_flags s = Ok f s1 ->
  tile_layers world f s1 = Ok t3 s2 ->
  parseTileData world s = Ok tile s' ->
  flags3 f = Some f3 -> Z.testbit f3 6 = true ->
  exists hi lo s3,
    readUInt8 s2 = Ok hi s3 /\
    (forall o, offset s2 = Num o -> 0 <= o ->
       hi = byte_or_zero (buffer s) (Z.to_nat o)) /\
    0 <= hi < 256 /\ 0 <= lo < 256 /\
    wallId tile = Some (256 * hi + lo) /\
    (if Z.testbit (flags1 f) 2
     then wallId t3 = Some lo /\
          exists t1 sa sw, tile_block world f empty_tile s1 = Ok t1 sa /\
                           readUInt8 sa = Ok lo sw
     else wallId t3 = None /\ lo = 0) /\
    tile_extras f t3 s2 = Ok tile s3 /\ offset s3 = js_add (offset s2) 1.
Proof.
  intros Hf Hl H E3 Hb6.
  unfold parseTileData in H. apply bind_Ok in H as (f' & sa & Hf' & H).
  rewrite Hf in Hf'. injection Hf' as <- <-.
  apply bind_Ok in H as (t3' & s2' & Hl' & H).
  rewrite Hl in Hl'. injection Hl' as <- <-.
  apply bind_Ok in H as (t4 & s3 & He & H).
  apply bind_Ok in H as (u & s4 & Hr & H). apply ret_Ok in H as [<- <-].
  destruct (read_flags_shape _ _ _ Hf) as (R1 & Hs3 & _).
  assert (Hshape : forall f3', flags3 f = Some f3' ->
            exists f2, flags2 f = Some f2 /\ Z.testbit f2 0 = true).
  { intros f3' E3'. destruct (Hs3 f3' E3') as (f2 & E2 & Hb & _). eauto. }
  assert (Hbit : flag_bit (flags3 f) 6 = true) by (rewrite E3; exact Hb6).
  destruct (tile_extras_read _ _ _ _ _ He Hshape Hbit) as (hi & Hhi & Hwall).
  pose proof (readUInt8_range _ _ _ Hhi) as Rhi.
  pose proof (tile_layers_reads _ _ _ _ _ Hl ltac:(lia)) as (Hlow & _).
  pose proof Hl as Hspec. apply tile_layers_spec in Hspec as (Hw & _); [|lia].
  change 4 with (2 ^ 2) in Hw. rewrite has_pow2 in Hw by lia.
  assert (Hbyte : forall o, offset s2 = Num o -> 0 <= o ->
            hi = byte_or_zero (buffer s) (Z.to_nat o)).
  { intros o Ho H0. destruct (readUInt8_Ok _ _ _ o Hhi Ho H0) as [_ ->].
    f_equal. rewrite (tame_Ok _ _ _ _ _ (tame_tile_layers world f) Hl).
    exact (tame_Ok _ _ _ _ _ tame_read_flags Hf). }
  destruct (Z.testbit (flags1 f) 2) eqn:E2.
  - destruct (Hlow eq_refl) as (t1 & sb & lo & sw & Hb & Hlo & Hid).
    pose proof (readUInt8_range _ _ _ Hlo) as Rlo.
    exists hi, lo, s3. rewrite Hid in Hwall. cbn [default] in Hwall.
    rewrite wall_combine in Hwall by assumption.
    repeat split; try assumption; try lia; eauto using readUInt8_offset.
  - exists hi, 0, s3. rewrite Hw in Hwall. cbn [default] in Hwall.
    rewrite wall_combine in Hwall by lia.
    repeat split; try assumption; try lia; eauto using readUInt8_offset.
Qed.

(** A record with wall id 5 and high byte 1. *)
Lemma wall_high_byte_witness :
  exists tile s',
    parseTileData (mkWorld 279 [0; 90; 90] [] 1 1)
      (new_parser (map byte_of_Z [5; 1; 64; 5; 1])) = Ok tile s' /\
    wallId tile = Some 261.
Proof.
  assert (H : exists f s1 t3 s2 tile s',
             read_flags (new_parser (map byte_of_Z [5; 1; 64; 5; 1])) = Ok f s1 /\
             tile_layers (mkWorld 279 [0; 90; 90] [] 1 1) f s1 = Ok t3 s2 /\
             parseTileData (mkWorld 279 [0; 90; 90] [] 1 1)
               (new_parser (map byte_of_Z [5; 1; 64; 5; 1])) = Ok tile s' /\
             flags3 f = Some 64 /\ wallId tile = Some 261).
  { vm_compute. eexists _, _, _, _, _, _. repeat split. }
  destruct H as (f & s1 & t3 & s2 & tile & s' & Hf & Hl & Hp & E3 & Hw).
  exists tile, s'. split; [exact Hp|].
  destruct (wall_high_byte _ _ _ _ _ _ 64 _ _ Hf Hl Hp E3 eq_refl)
    as (hi & lo & s3 & _ & _ & _ & _ & Hwall & _).
  rewrite Hwall in Hw. rewrite Hwall. exact Hw.
Defined.

(** C3 as stated fails: the record has no wall member (bit 2 of flag
    byte 1 is clear, no wall id is read), flag byte 3 has bit 6 set, and
    the record comes out with wall id [7 * 256]. *)
Lemma wall_high_byte_counterexample :
  ~ (forall world s f s1 t3 s2 tile s',
       read_flags s = Ok f s1 -> tile_layers world f s1 = Ok t3 s2 ->
       parseTileData world s = Ok tile s' ->
       flag_bit (flags3 f) 6 = true -> wallId t3 = None ->
       wallId tile = None).
Proof.
  intros H.
  specialize (H (mkWorld 279 [0; 90; 90] [] 1 1)
                (new_parser (map byte_of_Z [1; 1; 64; 7]))).
  assert (Hrun : exists f s1 t3 s2 tile s',
             read_flags (new_parser (map byte_of_Z [1; 1; 64; 7])) = Ok f s1 /\
             tile_layers (mkWorld 279 [0; 90; 90] [] 1 1) f s1 = Ok t3 s2 /\
             parseTileData (mkWorld 279 [0; 90; 90] [] 1 1)
               (new_parser (map byte_of_Z [1; 1; 64; 7])) = Ok tile s' /\
             flag_bit (flags3 f) 6 = true /\ wallId t3 = None /\
             wallId tile = Some 1792).
  { vm_compute. eexists _, _, _, _, _, _. repeat split. }
  destruct Hrun as (f & s1 & t3 & s2 & tile & s' & Hf & Hl & Hp & Hb & Hn & Hw).
  specialize (H f s1 t3 s2 tile s' Hf Hl Hp Hb Hn).
  rewrite Hw in H. discriminate H.
Qed.

(** ** Typed reads and the bounds of the buffer *)




(** ** The colour of a block *)

Lemma table_get_absent t id :
  Forall (fun kc => fst kc <> id) t -> table_get t id = None.
Proof.
  induction 1 as [|[k c] t Hk _ IH]; [reflexivity|].
  cbn [table_get]. cbn [fst] in Hk.
  destruct (Z.eqb_spec k id); [contradiction | exact IH].
Qed.

Lemma TILE_COLORS_keys : Forall (fun kc => 0 <= fst kc) TILE_COLORS.
Proof.
  apply Forall_forall. intros kc Hkc.
  assert (Hall : forallb (fun kc => 0 <=? fst kc) TILE_COLORS = true)
    by (vm_compute; reflexivity).
  rewrite forallb_forall in Hall. apply Z.leb_le, Hall.
  apply list_elem_of_In, Hkc.
Qed.

(** The ids from 0 to 419 whose entry is magenta. *)
Lemma TILE_COLORS_magenta id :
  0 <= id <= 419 ->
  default magenta (table_get TILE_COLORS id) = magenta ->
  id ∈ [178; 186; 187; 233].
Proof.
  intros Hid Hm.
  assert (Hall : forallb (fun i =>
                    implb (bool_decide
                             (default magenta (table_get TILE_COLORS i) = magenta))
                          (bool_decide (i ∈ [178; 186; 187; 233])))
                   (map Z.of_nat (seq 0 420)) = true)
    by (vm_compute; reflexivity).
  rewrite forallb_forall in Hall. specialize (Hall id).
  rewrite bool_decide_eq_true_2 in Hall by exact Hm. cbn [implb] in Hall.
  eapply bool_decide_eq_true_1, Hall.
  apply in_map_iff. exists (Z.to_nat id). split; [lia | apply in_seq; lia].
Qed.

(** C7, as the code has it.  A cell whose block id is above 419 gets the
    entry of the fallback palette at index [id mod paletteSize], which
    exists and is never magenta.  A cell whose block id is at most 419
    gets its entry of the block colour table, and magenta when the table
    has none; the table has an entry for every id from 0 to 419, so that
    default serves negative ids only, which no record carries: the block
    id of a decoded tile lies between 0 and 65535.  Magenta is still the
    colour of the ids 178, 186, 187 and 233, by their table entries, and
    of no other id from 0 up. *)
Theorem fallback_palette (surface rockLayer : bound) (hellLayer y : Z)
    (tile : Tile) (id : Z) :
  blockId tile = Some id ->
  (419 < id ->
     let paletteSize := Z.of_nat (length MOD_TILE_COLORS) in
     cell_color surface rockLayer hellLayer y tile
       = MOD_TILE_COLORS !! Z.to_nat (id mod paletteSize) /\
     exists c, MOD_TILE_COLORS !! Z.to_nat (id mod paletteSize) = Some c /\
               c <> magenta) /\
  (id <= 419 ->
     (forall c, table_get TILE_COLORS id = Some c ->
        cell_color surface rockLayer hellLayer y tile = Some c) /\
     (table_get TILE_COLORS id = None ->
        cell_color surface rockLayer hellLayer y tile = Some magenta)) /\
  (0 <= id <= 419 -> is_Some (table_get TILE_COLORS id)) /\
  (id < 0 -> table_get TILE_COLORS id = None) /\
  (cell_color surface rockLayer hellLayer y tile = Some magenta <->
   id < 0 \/ id ∈ [178; 186; 187; 233]) /\
  (forall world s s', parseTileData world s = Ok tile s' -> 0 <= id < 65536).
Proof.
  intros Hb.
  assert (Hhigh : 419 < id ->
            exists c, MOD_TILE_COLORS
                        !! Z.to_nat (id mod Z.of_nat (length MOD_TILE_COLORS))
                      = Some c /\ c <> magenta).
  { intros _.
    destruct (lookup_lt_is_Some_2 MOD_TILE_COLORS _ (palette_index id))
      as [c Hc].
    exists c. split; [exact Hc|].
    apply list_elem_of_lookup_2 in Hc. unfold MOD_TILE_COLORS in Hc.
    repeat (apply elem_of_cons in Hc as [-> | Hc]; [discriminate|]).
    inversion Hc. }
  assert (Hneg : id < 0 -> table_get TILE_COLORS id = None).
  { intros Hid. apply table_get_absent.
    eapply Forall_impl; [apply TILE_COLORS_keys|]. cbn. intros; lia. }
  unfold cell_color. rewrite Hb.
  split; [|split; [|split; [|split; [|split]]]].
  - intros Hid. replace (419 <? id) with true by (symmetry; lia).
    cbv zeta. split; [reflexivity | exact (Hhigh Hid)].
  - intros Hid. replace (419 <? id) with false by (symmetry; lia).
    split; [intros c ->; reflexivity | intros ->; reflexivity].
  - apply TILE_COLORS_complete.
  - exact Hneg.
  - destruct (Z.ltb_spec 419 id) as [Hid|Hid].
    + split.
      * intros Hc. destruct (Hhigh Hid) as (c & Hl & Hne).
        rewrite Hl in Hc. injection Hc as ->. contradiction.
      * intros [Hn | Hfour]; [lia|]. exfalso.
        repeat (apply elem_of_cons in Hfour as [-> | Hfour]; [lia|]).
        inversion Hfour.
    + split.
      * intros Hc.
        destruct (Z.lt_ge_cases id 0) as [Hn|Hp]; [left; exact Hn | right].
        apply TILE_COLORS_magenta; [lia|].
        exact (f_equal (fun o => match o with Some c => c | None => magenta end)
                 Hc).
      * intros [Hn | Hfour].
        -- rewrite (Hneg Hn). reflexivity.
        -- repeat (apply elem_of_cons in Hfour as [-> | Hfour];
                   [reflexivity|]).
           inversion Hfour.
  - intros world s s' Hp.
    destruct (parseTileData_inv world s tile s' Hp) as [(Hrange & _) _].
    rewrite Hb in Hrange. exact Hrange.
Qed.

(** Block id 999: entry 7 of the palette. *)
Lemma fallback_palette_witness :
  cell_color (Fin 3) (Fin 5) 10 0 (set_blockId 999 empty_tile)
  = Some (120, 140, 140).
Proof.
  destruct (fallback_palette (Fin 3) (Fin 5) 10 0
              (set_blockId 999 empty_tile) 999 eq_refl) as [Hhigh _].
  destruct (Hhigh ltac:(lia)) as [-> _]. reflexivity.
Defined.

(** C7 as stated fails: the record 02 b2 decodes to a tile of block id
    178, which the table has, and its cell is magenta. *)
Lemma fallback_palette_counterexample :
  ~ (forall world s tile s' id surface rockLayer hellLayer y,
       parseTileData world s = Ok tile s' -> blockId tile = Some id ->
       cell_color surface rockLayer hellLayer y tile = Some magenta ->
       id <= 419 /\ table_get TILE_COLORS id = None).
Proof.
  intros H.
  assert (Hrun : exists tile s',
             parseTileData (mkWorld 279 [0; 90; 90] [] 1 1)
               (new_parser (map byte_of_Z [2; 178])) = Ok tile s' /\
             blockId tile = Some 178 /\
             cell_color (Fin 3) (Fin 5) 10 0 tile = Some magenta).
  { vm_compute. eexists _, _. repeat split. }
  destruct Hrun as (tile & s' & Hp & Hb & Hc).
  destruct (H _ _ tile s' 178 (Fin 3) (Fin 5) 10 0 Hp Hb Hc) as [_ Hnone].
  vm_compute in Hnone. discriminate Hnone.
Qed.

(** ** The pixels of the image *)

Lemma color_okb_bytes r g b :
  color_okb (r, g, b) = true -> is_byte r /\ is_byte g /\ is_byte b.
Proof. unfold color_okb, is_byte. intros H. lia. Qed.

Lemma table_get_In t id c : table_get t id = Some c -> In c (map snd t).
Proof.
  induction t as [|[k c'] t IH]; cbn [table_get map snd]; [discriminate|].
  destruct (k =? id); [intros [= <-]; left; reflexivity | right; auto].
Qed.

Lemma tables_are_bytes :
  forallb color_okb (map snd TILE_COLORS) = true /\
  forallb color_okb (map snd WALL_COLORS) = true /\
  forallb color_okb MOD_TILE_COLORS = true.
Proof. vm_compute. auto. Qed.

Lemma cell_color_bytes surface rockLayer hellLayer y tile r g b :
  cell_color surface rockLayer hellLayer y tile = Some (r, g, b) ->
  is_byte r /\ is_byte g /\ is_byte b.
Proof.
  destruct tables_are_bytes as (HT & HW & HM).
  rewrite forallb_forall in HT, HW, HM.
  unfold cell_color. intros H. apply color_okb_bytes.
  destruct (blockId tile) as [id|].
  - destruct (419 <? id).
    + apply HM. apply list_elem_of_In. eapply list_elem_of_lookup_2. exact H.
    + revert H. destruct (table_get TILE_COLORS id) as [c|] eqn:E; intros H.
      * assert (Hc : c = (r, g, b)) by (injection H; intros; first [assumption | subst; reflexivity]). rewrite <- Hc.
        apply (HT c). eapply table_get_In. exact E.
      * assert (Hc : magenta = (r, g, b)) by (injection H; intros; first [assumption | subst; reflexivity]). rewrite <- Hc.
        reflexivity.
  - destruct (liquidType tile) as [l|].
    + assert (Hc : default (9, 61, 191) (LIQUID_COLORS l) = (r, g, b))
        by (injection H; intros; first [assumption | subst; reflexivity]).
      rewrite <- Hc. destruct l; reflexivity.
    + destruct (match wallId tile with Some w => 0 <? w | None => false end).
      * revert H.
        destruct (table_get WALL_COLORS (default 0 (wallId tile))) as [c|] eqn:E;
          intros H.
        -- assert (Hc : c = (r, g, b)) by (injection H; intros; first [assumption | subst; reflexivity]). rewrite <- Hc.
           apply (HW c). eapply table_get_In. exact E.
        -- assert (Hc : dark_gray = (r, g, b)) by (injection H; intros; first [assumption | subst; reflexivity]). rewrite <- Hc.
           reflexivity.
      * assert (Hc : (if below y surface then BG_SKY
                      else if below y rockLayer then BG_UNDERGROUND
                      else if y <? hellLayer then BG_CAVERN else BG_HELL)
                     = (r, g, b)) by (injection H; intros; first [assumption | subst; reflexivity]).
        rewrite <- Hc.
        destruct (below y surface); [reflexivity|].
        destruct (below y rockLayer); [reflexivity|].
        destruct (y <? hellLayer); reflexivity.
Qed.

Lemma cell_color_Some surface rockLayer hellLayer y tile :
  exists c, cell_color surface rockLayer hellLayer y tile = Some c.
Proof.
  unfold cell_color. destruct (blockId tile) as [id|].
  - destruct (419 <? id); [|eauto].
    apply lookup_lt_is_Some. cbn [length MOD_TILE_COLORS].
    pose proof (Z.mod_pos_bound id 8 ltac:(lia)). cbn [Z.of_nat Pos.of_succ_nat Pos.succ]. lia.
  - destruct (liquidType tile); [eauto|].
    destruct (wallId tile) as [w|]; [destruct (0 <? w)|]; eauto.
Qed.

Lemma clamp8_byte v : is_byte v -> clamp8 v = v.
Proof. unfold is_byte, clamp8. lia. Qed.

Lemma typed_set_length i v d : length (typed_set i v d) = length d.
Proof. unfold typed_set. destruct (i <? 0); [reflexivity | apply length_insert]. Qed.

Lemma typed_set_eq i v d (j : nat) :
  i = Z.of_nat j -> (j < length d)%nat ->
  typed_set i v d !! j = Some (clamp8 v).
Proof.
  intros -> Hj. unfold typed_set.
  replace (Z.of_nat j <? 0) with false by (symmetry; lia).
  rewrite Nat2Z.id. apply list_lookup_insert_eq. exact Hj.
Qed.

Lemma typed_set_ne i v d (j : nat) :
  i <> Z.of_nat j -> typed_set i v d !! j = d !! j.
Proof.
  intros Hne. unfold typed_set. destruct (Z.ltb_spec i 0); [reflexivity|].
  apply list_lookup_insert_ne. lia.
Qed.

Section PaintProofs.

Variables (width height : Z) (surface rockLayer : bound).
Variable tiles : js_array (js_array Tile).

Hypothesis width_nonneg : 0 <= width.

#[local] Abbreviation W := (Z.to_nat width).
#[local] Abbreviation H := (Z.to_nat height).
#[local] Abbreviation cell x y :=
  (paint_cell width height surface rockLayer tiles x y).
#[local] Abbreviation done out x y :=
  (painted width height surface rockLayer tiles out x y).

Lemma cell_inside (x y : nat) :
  (x < W)%nat -> (y < H)%nat -> ((y * W + x) * 4 + 3 < 4 * W * H)%nat.
Proof. intros Hx Hy. nia. Qed.

Lemma cells_apart (x y x' y' : nat) (c c' : nat) :
  (x < W)%nat -> (x' < W)%nat -> (c < 4)%nat -> (c' < 4)%nat ->
  ((y * W + x) * 4 + c)%nat = ((y' * W + x') * 4 + c')%nat ->
  x = x' /\ y = y'.
Proof.
  intros Hx Hx' Hc Hc' He.
  assert (Hq : (y * W + x)%nat = (y' * W + x')%nat) by lia.
  assert (Hy : y = y') by nia. subst y'. split; [lia | reflexivity].
Qed.

Lemma paint_cell_spec (x y : nat) data out :
  cell x y data = Finished out ->
  (x < W)%nat -> (y < H)%nat -> length data = (4 * W * H)%nat ->
  length out = length data /\ done out x y /\
  forall j, (forall c, (c < 4)%nat -> j <> ((y * W + x) * 4 + c)%nat) ->
            out !! j = data !! j.
Proof.
  unfold paint_cell, painted, grid_at. intros Hc Hx Hy Hlen.
  destruct (array_get x tiles) as [col|]; [|discriminate Hc].
  destruct (array_get y col) as [tile|]; [|discriminate Hc].
  cbv zeta in Hc.
  destruct (cell_color _ _ _ _ tile) as [[[r g] b]|] eqn:Ec; [|discriminate Hc].
  injection Hc as <-.
  destruct (cell_color_bytes _ _ _ _ _ _ _ _ Ec) as (Br & Bg & Bb).
  pose proof (cell_inside x y Hx Hy) as Hin.
  set (i := ((y * W + x) * 4)%nat) in *.
  assert (Hi : (Z.of_nat y * width + Z.of_nat x) * 4 = Z.of_nat i)
    by (subst i; lia).
  rewrite Hi. split; [rewrite !typed_set_length; reflexivity|]. split.
  - exists tile, r, g, b. split; [reflexivity|]. split; [exact Ec|].
    cbv zeta. repeat split.
    + rewrite !typed_set_ne by lia.
      rewrite typed_set_eq by lia. rewrite clamp8_byte by exact Br. reflexivity.
    + rewrite !typed_set_ne by lia.
      rewrite typed_set_eq by (rewrite ?typed_set_length; lia).
      rewrite clamp8_byte by exact Bg. reflexivity.
    + rewrite typed_set_ne by lia.
      rewrite typed_set_eq by (rewrite ?typed_set_length; lia).
      rewrite clamp8_byte by exact Bb. reflexivity.
    + rewrite typed_set_eq by (rewrite ?typed_set_length; lia). reflexivity.
  - intros j Hj.
    pose proof (Hj 0%nat ltac:(lia)). pose proof (Hj 1%nat ltac:(lia)).
    pose proof (Hj 2%nat ltac:(lia)). pose proof (Hj 3%nat ltac:(lia)).
    rewrite !typed_set_ne by lia. reflexivity.
Qed.

Lemma done_kept (x y x' y' : nat) data out :
  (forall j, (forall c, (c < 4)%nat -> j <> ((y * W + x) * 4 + c)%nat) ->
             out !! j = data !! j) ->
  (x < W)%nat -> (x' < W)%nat -> (x', y') <> (x, y) ->
  done data x' y' -> done out x' y'.
Proof.
  intros Hsame Hx Hx' Hne (tile & r & g & b & Hg & Hc & H0 & H1 & H2 & H3).
  exists tile, r, g, b. split; [exact Hg|]. split; [exact Hc|]. cbv zeta.
  assert (Hfar : forall c', (c' < 4)%nat ->
            forall c, (c < 4)%nat ->
              ((y' * W + x') * 4 + c')%nat <> ((y * W + x) * 4 + c)%nat).
  { intros c' Hc' c Hcc He.
    apply cells_apart in He as [-> ->]; try assumption. apply Hne. reflexivity. }
  repeat split.
  - rewrite <- H0. rewrite <- (Nat.add_0_r (_ * 4)%nat) at 1.
    rewrite Hsame; [f_equal; lia|]. apply Hfar. lia.
  - rewrite <- H1. apply Hsame, Hfar. lia.
  - rewrite <- H2. apply Hsame, Hfar. lia.
  - rewrite <- H3. apply Hsame, Hfar. lia.
Qed.

Lemma paint_rows_spec (x : nat) ys : forall data out (Q : nat -> nat -> Prop),
  paint_rows width height surface rockLayer tiles x ys data = Finished out ->
  (x < W)%nat -> Forall (fun y => (y < H)%nat) ys ->
  length data = (4 * W * H)%nat ->
  (forall x' y', Q x' y' -> (x' < W)%nat /\ done data x' y') ->
  length out = (4 * W * H)%nat /\
  forall x' y', Q x' y' \/ (x' = x /\ y' ∈ ys) -> done out x' y'.
Proof.
  induction ys as [|y ys IH]; intros data out Q Hr Hx Hys Hlen HQ;
    cbn [paint_rows] in Hr.
  - injection Hr as <-. split; [exact Hlen|].
    intros x' y' [Hq|[_ Hin]]; [apply HQ, Hq | apply elem_of_nil in Hin; destruct Hin].
  - destruct (cell x y data) as [d1|e] eqn:Hc; [|discriminate Hr].
    apply Forall_cons in Hys as [Hy Hys].
    destruct (paint_cell_spec x y data d1 Hc Hx Hy Hlen) as (Hl1 & Hd1 & Hsame).
    destruct (IH d1 out (fun x' y' => Q x' y' \/ (x' = x /\ y' = y)) Hr Hx Hys)
      as (Hlo & Hall).
    + rewrite Hl1. exact Hlen.
    + intros x' y' [Hq|[-> ->]]; [|split; [exact Hx | exact Hd1]].
      destruct (HQ x' y' Hq) as [Hx' Hd]. split; [exact Hx'|].
      destruct (decide ((x', y') = (x, y))) as [[= -> ->]|Hne]; [exact Hd1|].
      apply (done_kept x y x' y' data d1 Hsame Hx Hx' Hne Hd).
    + split; [exact Hlo|]. intros x' y' [Hq|[-> Hin]].
      * apply Hall. left. left. exact Hq.
      * apply elem_of_cons in Hin as [->|Hin]; apply Hall;
          [left; right; auto | right; auto].
Qed.

Lemma paint_columns_spec xs : forall data out (Q : nat -> nat -> Prop),
  paint_columns width height surface rockLayer tiles xs data = Finished out ->
  Forall (fun x => (x < W)%nat) xs ->
  length data = (4 * W * H)%nat ->
  (forall x' y', Q x' y' -> (x' < W)%nat /\ done data x' y') ->
  length out = (4 * W * H)%nat /\
  forall x' y', Q x' y' \/ (x' ∈ xs /\ (y' < H)%nat) -> done out x' y'.
Proof.
  induction xs as [|x xs IH]; intros data out Q Hr Hxs Hlen HQ;
    cbn [paint_columns] in Hr.
  - injection Hr as <-. split; [exact Hlen|].
    intros x' y' [Hq|[Hin _]]; [apply HQ, Hq | apply elem_of_nil in Hin; destruct Hin].
  - destruct (paint_rows _ _ _ _ _ x _ data) as [d1|e] eqn:Hrow; [|discriminate Hr].
    apply Forall_cons in Hxs as [Hx Hxs].
    destruct (paint_rows_spec x _ data d1 Q Hrow Hx) as (Hl1 & Hd1);
      [apply Forall_forall; intros y Hy; apply elem_of_seq in Hy; lia
      | exact Hlen | exact HQ |].
    destruct (IH d1 out (fun x' y' => Q x' y' \/ (x' = x /\ (y' < H)%nat)) Hr Hxs Hl1)
      as (Hlo & Hall).
    + intros x' y' [Hq|[-> Hy]].
      * split; [apply (HQ x' y' Hq) | apply Hd1; left; exact Hq].
      * split; [exact Hx|]. apply Hd1. right. split; [reflexivity|].
        apply elem_of_seq. lia.
    + split; [exact Hlo|]. intros x' y' [Hq|[Hin Hy]].
      * apply Hall. left. left. exact Hq.
      * apply elem_of_cons in Hin as [->|Hin]; apply Hall;
          [left; right; auto | right; auto].
Qed.

Lemma paint_spec data out :
  paint width height surface rockLayer tiles data = Finished out ->
  length data = (4 * W * H)%nat ->
  length out = length data /\
  forall x y, (x < W)%nat -> (y < H)%nat -> done out x y.
Proof.
  unfold paint. intros Hp Hlen.
  destruct (paint_columns_spec _ data out (fun _ _ => False) Hp) as (Hl & Hall).
  - apply Forall_forall. intros x Hx. apply elem_of_seq in Hx. lia.
  - exact Hlen.
  - intros x' y' [].
  - split; [congruence|]. intros x y Hx Hy. apply Hall. right.
    split; [apply elem_of_seq; lia | exact Hy].
Qed.

Lemma paint_rows_error x ys : forall data e,
  paint_rows width height surface rockLayer tiles x ys data = Failed e ->
  e = TypeError.
Proof.
  induction ys as [|y ys IH]; intros data e Hr; cbn [paint_rows] in Hr;
    [discriminate Hr|].
  destruct (cell x y data) as [d1|e1] eqn:Hc; [exact (IH _ _ Hr)|].
  injection Hr as <-. unfold paint_cell in Hc.
  destruct (array_get x tiles) as [col|]; [|injection Hc as <-; reflexivity].
  destruct (array_get y col) as [tile|]; [|injection Hc as <-; reflexivity].
  cbv zeta in Hc. destruct (cell_color _ _ _ _ tile) as [[[r g] b]|];
    [discriminate Hc | injection Hc as <-; reflexivity].
Qed.

Lemma paint_error data e :
  paint width height surface rockLayer tiles data = Failed e -> e = TypeError.
Proof.
  unfold paint. generalize (seq 0 W). intros xs. revert data.
  induction xs as [|x xs IH]; intros data Hr; cbn [paint_columns] in Hr;
    [discriminate Hr|].
  destruct (paint_rows _ _ _ _ _ x _ data) as [d1|e1] eqn:Hrow;
    [exact (IH _ Hr)|].
  injection Hr as <-. exact (paint_rows_error _ _ _ _ Hrow).
Qed.

Lemma paint_rows_finishes x ys : forall data,
  Forall (fun y => is_Some (grid_at tiles x y)) ys ->
  exists out, paint_rows width height surface rockLayer tiles x ys data
              = Finished out.
Proof.
  induction ys as [|y ys IH]; intros data Hys; cbn [paint_rows]; [eauto|].
  apply Forall_cons in Hys as [[tile Hy] Hys].
  unfold paint_cell. unfold grid_at in Hy.
  destruct (array_get x tiles) as [col|]; [|discriminate Hy]. rewrite Hy.
  cbv zeta.
  destruct (cell_color_Some surface rockLayer (height - 200) (Z.of_nat y) tile)
    as [[[r g] b] ->].
  apply IH, Hys.
Qed.

Lemma paint_finishes data :
  (forall x y, (x < W)%nat -> (y < H)%nat -> is_Some (grid_at tiles x y)) ->
  exists out, paint width height surface rockLayer tiles data = Finished out.
Proof.
  intros Hall. unfold paint.
  assert (Hxs : Forall (fun x => (x < W)%nat) (seq 0 W)).
  { apply Forall_forall. intros x Hx. apply elem_of_seq in Hx. lia. }
  revert data. induction Hxs as [|x xs Hx _ IH]; intros data;
    cbn [paint_columns]; [eauto|].
  destruct (paint_rows_finishes x (seq 0 H) data) as [d1 ->]; [|apply IH].
  apply Forall_forall. intros y Hy. apply elem_of_seq in Hy. apply Hall; lia.
Qed.

End PaintProofs.

(** X19. When the pixel loop of [doConvert] finishes on an image of
    [4 * width * height] bytes, the image has kept its length and every
    pixel has been written: the four bytes at index [(y * width + x) * 4]
    are the red, green and blue of the colour of the cell at column [x],
    row [y], and the opacity 255. *)
Theorem paint_layout (width height : Z) (surface rockLayer : bound)
    (tiles : js_array (js_array Tile)) (data out : list Z) :
  0 <= width ->
  length data = (4 * Z.to_nat width * Z.to_nat height)%nat ->
  paint width height surface rockLayer tiles data = Finished out ->
  length out = length data /\
  forall x y, (x < Z.to_nat width)%nat -> (y < Z.to_nat height)%nat ->
    painted width height surface rockLayer tiles out x y.
Proof.
  intros Hw Hlen Hp.
  exact (paint_spec width height surface rockLayer tiles Hw data out Hp Hlen).
Qed.

Lemma paint_layout_witness :
  painted 1 1 (Fin 1) (Fin 2) [Some [Some empty_tile]] [91; 172; 255; 255] 0 0.
Proof.
  destruct (paint_layout 1 1 (Fin 1) (Fin 2) [Some [Some empty_tile]]
              [0; 0; 0; 0] [91; 172; 255; 255] ltac:(lia) eq_refl eq_refl)
    as [_ Hall].
  apply Hall; cbn; lia.
Defined.

(** X20. The pixel loop either finishes or throws [TypeError]: it
    finishes when the grid has a tile at every column below [width] and
    row below [height], and throws [TypeError] when one of those cells is
    missing. *)
Theorem paint_outcome (width height : Z) (surface rockLayer : bound)
    (tiles : js_array (js_array Tile)) (data : list Z) :
  0 <= width ->
  length data = (4 * Z.to_nat width * Z.to_nat height)%nat ->
  ((forall x y, (x < Z.to_nat width)%nat -> (y < Z.to_nat height)%nat ->
      is_Some (grid_at tiles x y)) ->
   exists out, paint width height surface rockLayer tiles data = Finished out) /\
  (forall x y, (x < Z.to_nat width)%nat -> (y < Z.to_nat height)%nat ->
     grid_at tiles x y = None ->
     paint width height surface rockLayer tiles data = Failed TypeError).
Proof.
  intros Hw Hlen. split.
  - apply paint_finishes.
  - intros x y Hx Hy Hnone.
    destruct (paint width height surface rockLayer tiles data) as [out|e] eqn:Hp.
    + destruct (paint_spec _ _ _ _ _ Hw _ _ Hp Hlen) as [_ Hall].
      destruct (Hall x y Hx Hy) as (tile & ? & ? & ? & Hg & _).
      rewrite Hnone in Hg. discriminate Hg.
    + rewrite (paint_error _ _ _ _ _ _ _ Hp). reflexivity.
Qed.

Lemma paint_outcome_witness :
  paint 2 1 (Fin 1) (Fin 2) [Some [Some empty_tile]] (replicate 8 0)
  = Failed TypeError.
Proof.
  destruct (paint_outcome 2 1 (Fin 1) (Fin 2) [Some [Some empty_tile]]
              (replicate 8 0) ltac:(lia) eq_refl) as [_ Hfail].
  apply (Hfail 1%nat 0%nat); [cbn; lia | cbn; lia | reflexivity].
Defined.

Lemma parseWorldTiles_width world s grid s' :
  parseWorldTiles world s = Ok grid s' -> 0 <= width world.
Proof.
  rewrite parseWorldTiles_eq. intros H.
  apply bind_Ok in H as (data & s1 & Hd & _). rewrite new_array_eq in Hd.
  destruct (Z.ltb_spec (width world) 0); [discriminate Hd | assumption].
Qed.

(** X21. A grid [parseWorldTiles] has returned can be painted at any
    size up to the width and height it was decoded for; painting it with
    a width above the one it was decoded for (a header that announces more
    columns than the start of the file) throws [TypeError]. *)
Theorem decoded_grid_paints (world : WorldNecessary) (s s' : parser)
    (grid : js_array (js_array Tile)) (w h : Z) (surface rockLayer : bound)
    (data : list Z) :
  parseWorldTiles world s = Ok grid s' -> 0 <= w ->
  length data = (4 * Z.to_nat w * Z.to_nat h)%nat ->
  (w <= width world -> h <= height world ->
   exists out, paint w h surface rockLayer grid data = Finished out) /\
  (width world < w -> 0 < h ->
   paint w h surface rockLayer grid data = Failed TypeError).
Proof.
  intros Hg Hw Hlen.
  destruct (parseWorldTiles_dense _ _ _ _ Hg) as [Hl Hd].
  pose proof (parseWorldTiles_width _ _ _ _ Hg) as Hpos.
  split.
  - intros Hle Hhe. apply paint_finishes. intros x y Hx Hy.
    destruct (Hd x y ltac:(lia) ltac:(lia)) as [t Ht]. eauto.
  - intros Hgt Hh.
    destruct (paint w h surface rockLayer grid data) as [out|e] eqn:Hp.
    + destruct (paint_spec _ _ _ _ _ Hw _ _ Hp Hlen) as [_ Hall].
      destruct (Hall (Z.to_nat (width world)) 0%nat ltac:(lia) ltac:(lia))
        as (tile & ? & ? & ? & Hc & _).
      unfold grid_at, array_get in Hc.
      rewrite lookup_ge_None_2 in Hc by lia. discriminate Hc.
    + rewrite (paint_error _ _ _ _ _ _ _ Hp). reflexivity.
Qed.

Lemma decoded_grid_paints_witness :
  exists grid s',
    parseWorldTiles (mkWorld 279 [0] [] 1 1) (new_parser [Byte.x00])
    = Ok grid s' /\
    paint 2 1 (Fin 1) (Fin 2) grid (replicate 8 0) = Failed TypeError /\
    exists out, paint 1 1 (Fin 1) (Fin 2) grid (replicate 4 0) = Finished out.
Proof.
  assert (H : exists grid s',
             parseWorldTiles (mkWorld 279 [0] [] 1 1) (new_parser [Byte.x00])
             = Ok grid s') by (vm_compute; eexists _, _; reflexivity).
  destruct H as (grid & s' & H). exists grid, s'. split; [exact H|]. split.
  - destruct (decoded_grid_paints _ _ _ _ 2 1 (Fin 1) (Fin 2) (replicate 8 0)
                H ltac:(lia) eq_refl) as [_ Hfail].
    apply Hfail; cbn; lia.
  - destruct (decoded_grid_paints _ _ _ _ 1 1 (Fin 1) (Fin 2) (replicate 4 0)
                H ltac:(lia) eq_refl) as [Hok _].
    apply Hok; cbn; lia.
Defined.

(** ** Output file names *)

Lemma append_cons c a b : String c a +:+ b = String c (a +:+ b).
Proof. reflexivity. Qed.

Lemma append_nil b : "" +:+ b = b.
Proof. reflexivity. Qed.

Lemma split_dot_cons s : exists h t, split_dot s = h :: t.
Proof.
  induction s as [|c s (h & t & IH)]; cbn [split_dot]; [eauto|].
  destruct (Ascii.eqb c dot); [eauto|]. rewrite IH. eauto.
Qed.

Lemma split_dot_no_dot s : no_dot s = true -> split_dot s = [s].
Proof.
  induction s as [|c s IH]; cbn [no_dot split_dot]; [reflexivity|].
  intros H. apply andb_true_iff in H as [Hc Hs].
  apply negb_true_iff in Hc. rewrite Hc, (IH Hs). reflexivity.
Qed.

Lemma split_dot_app a b :
  split_dot (a +:+ String dot b) = split_dot a ++ split_dot b.
Proof.
  induction a as [|c a IH].
  - reflexivity.
  - change (String c a +:+ String dot b) with (String c (a +:+ String dot b)).
    cbn [split_dot]. rewrite IH.
    destruct (Ascii.eqb c dot); [reflexivity|].
    destruct (split_dot_cons a) as (h & t & ->). reflexivity.
Qed.

Lemma join_dot_char c h t : join_dot (String c h :: t) = String c (join_dot (h :: t)).
Proof. cbn [join_dot]. destruct t; reflexivity. Qed.

Lemma join_split s : join_dot (split_dot s) = s.
Proof.
  induction s as [|c s IH]; cbn [split_dot]; [reflexivity|].
  destruct (Ascii.eqb_spec c dot) as [->|Hne].
  - destruct (split_dot_cons s) as (h & t & E). rewrite E in IH |- *.
    cbn [join_dot] in *. rewrite append_nil, append_cons, append_nil, IH.
    reflexivity.
  - destruct (split_dot_cons s) as (h & t & E). rewrite E in IH |- *.
    rewrite join_dot_char, IH. reflexivity.
Qed.

Lemma slice_but_last_snoc {A} (l : list A) x : slice_but_last (l ++ [x]) = l.
Proof.
  unfold slice_but_last. rewrite length_app. cbn [length].
  replace (length l + 1 - 1)%nat with (length l) by lia.
  apply take_app_length.
Qed.

(** X22. The name [canvasToBlobHandler.doConvert] gives an output file
    is what precedes the first dot of the input name, a dot and the
    extension of the output format: everything from the first dot on is
    dropped, and a name without a dot is kept whole. *)
Theorem canvas_name_first_dot (base rest extension : string) :
  no_dot base = true ->
  canvas_name (base +:+ "." +:+ rest) extension = base +:+ "." +:+ extension /\
  canvas_name base extension = base +:+ "." +:+ extension.
Proof.
  intros Hb. unfold canvas_name.
  change (base +:+ "." +:+ rest) with (base +:+ String dot rest).
  rewrite split_dot_app, (split_dot_no_dot base Hb). split; reflexivity.
Qed.

Lemma canvas_name_first_dot_witness :
  canvas_name "my.world.png" "jpg" = "my.jpg".
Proof.
  destruct (canvas_name_first_dot "my" "world.png" "jpg" eq_refl) as [H _].
  exact H.
Defined.

(** X23. The name [markdownHandler.doConvert] gives an output file is
    what precedes the last dot of the input name, a dot and the extension
    of the output format; for an input name without a dot it is the dot
    and the extension alone. *)
Theorem outputName_last_dot (base last extension : string) :
  no_dot last = true ->
  outputName (base +:+ "." +:+ last) extension = base +:+ "." +:+ extension /\
  outputName last extension = "." +:+ extension.
Proof.
  intros Hl. unfold outputName. split.
  - change (base +:+ "." +:+ last) with (base +:+ String dot last).
    rewrite split_dot_app, (split_dot_no_dot last Hl), slice_but_last_snoc.
    rewrite join_split. reflexivity.
  - rewrite (split_dot_no_dot last Hl). reflexivity.
Qed.

Lemma outputName_last_dot_witness :
  outputName "notes.v2.md" "html" = "notes.v2.html" /\
  outputName "README" "html" = ".html".
Proof.
  destruct (outputName_last_dot "notes.v2" "md" "html" eq_refl) as [H1 _].
  destruct (outputName_last_dot "" "README" "html" eq_refl) as [_ H2].
  split; [exact H1 | exact H2].
Defined.

Lemma toLowerCase_app a b :
  toLowerCase (a +:+ b) = toLowerCase a +:+ toLowerCase b.
Proof.
  induction a as [|c a IH]; [reflexivity|].
  rewrite append_cons. cbn [toLowerCase]. rewrite IH. reflexivity.
Qed.

(** Something followed by ".wld" is longer than ".wld". *)
Lemma longer_than_dot_wld c x : String c (x +:+ ".wld") <> ".wld".
Proof.
  intros H. injection H as _ H.
  destruct x as [|c1 x]; [discriminate H|]. injection H as _ H.
  destruct x as [|c2 x]; [discriminate H|]. injection H as _ H.
  destruct x as [|c3 x]; [discriminate H|]. injection H as _ H.
  destruct x as [|c4 x]; discriminate H.
Qed.

Lemma is_dot_wld_false c b ext :
  toLowerCase ext = ".wld" -> is_dot_wld (String c (b +:+ ext)) = false.
Proof.
  intros He. unfold is_dot_wld. apply String.eqb_neq.
  cbn [toLowerCase]. rewrite toLowerCase_app, He. apply longer_than_dot_wld.
Qed.

(** X24. The name [WldHandler.doConvert] gives its output file is the
    input name with a final ".wld", in any mix of upper and lower case,
    replaced by ".png"; an input name with no such ending is returned
    unchanged. *)
Theorem outName_spec (name : string) :
  (forall base ext, name = base +:+ ext -> toLowerCase ext = ".wld" ->
     outName name = base +:+ ".png") /\
  ((forall base ext, name = base +:+ ext -> toLowerCase ext <> ".wld") ->
   outName name = name).
Proof.
  split.
  - intros base ext -> He. induction base as [|c b IH].
    + rewrite append_nil. destruct ext as [|c e]; [discriminate He|].
      cbn [outName]. unfold is_dot_wld. rewrite He. reflexivity.
    + rewrite !append_cons. cbn [outName].
      rewrite (is_dot_wld_false c b ext He), IH. reflexivity.
  - induction name as [|c rest IH]; intros Hno; [reflexivity|].
    cbn [outName]. destruct (is_dot_wld (String c rest)) eqn:E.
    + exfalso. apply (Hno "" (String c rest)); [reflexivity|].
      apply String.eqb_eq, E.
    + rewrite IH; [reflexivity|]. intros base ext -> He.
      apply (Hno (String c base) ext); [reflexivity | exact He].
Qed.

Lemma outName_spec_witness :
  outName "My World.WLD" = "My World.png" /\
  outName "world.wld.bak" = "world.wld.bak".
Proof.
  split.
  - destruct (outName_spec "My World.WLD") as [H _].
    apply (H "My World" ".WLD"); reflexivity.
  - reflexivity.
Defined.

(** ** The Markdown handler *)

Section MarkdownProofs.

Variable R : Type.
Variable decode : list byte -> string.
Variable encode : string -> list byte.

Lemma convert_file_unsupported (m2h h2m : string -> attempt R string)
    inputFormat outputFormat file :
  converts inputFormat outputFormat = false ->
  convert_file R decode encode m2h h2m inputFormat outputFormat file
  = Failed (ThrownText "Invalid output format.").
Proof.
  unfold converts, convert_file. intros H.
  apply orb_false_iff in H as [-> ->]. reflexivity.
Qed.

Lemma convert_file_name (m2h h2m : string -> attempt R string)
    inputFormat outputFormat file out :
  convert_file R decode encode m2h h2m inputFormat outputFormat file
  = Finished out ->
  file_name out = outputName (file_name file) (extension outputFormat) /\
  converts inputFormat outputFormat = true.
Proof.
  unfold convert_file, converts. cbv zeta.
  destruct (_ && _) eqn:E1.
  - destruct (m2h _); cbv beta iota; intros Hf; [|discriminate Hf].
    injection Hf as <-. auto.
  - cbv beta iota.
    destruct (String.eqb (internal inputFormat) "html"
              && String.eqb (internal outputFormat) "md") eqn:E2;
      cbv beta iota; [|intros Hf; discriminate Hf].
    destruct (h2m _); cbv beta iota; intros Hf; [|discriminate Hf].
    injection Hf as <-. auto.
Qed.

Lemma convert_files_names (m2h h2m : string -> attempt R string)
    inputFormat outputFormat files : forall out,
  convert_files R decode encode m2h h2m inputFormat outputFormat files
  = Finished out ->
  map file_name out
  = map (fun f => outputName (file_name f) (extension outputFormat)) files.
Proof.
  induction files as [|f files IH]; intros out H; cbn [convert_files] in H.
  - injection H as <-. reflexivity.
  - destruct (convert_file _ _ _ _ _ _ _ f) as [o|e] eqn:Ef; [|discriminate H].
    destruct (convert_files _ _ _ _ _ _ _ files) as [os|e]; [|discriminate H].
    injection H as <-. cbn [map]. rewrite (IH os eq_refl).
    apply convert_file_name in Ef as [-> _]. reflexivity.
Qed.

(** X25. [markdownHandler.doConvert]: before [init] has set both
    pipelines it throws "Handler not initialized.", whatever it is given;
    afterwards it returns the empty list for no input file, whatever the
    formats; for at least one input file and a pair of formats other
    than Markdown to HTML or HTML to Markdown it throws
    "Invalid output format."; and when it returns, it returns one file
    per input file, in the same order, each named by [outputName]. *)
Theorem doConvert_outcomes
    (htmlToMarkdownPipeline markdownToHtmlPipeline
       : option (string -> attempt R string))
    (inputFiles : list FileData) (inputFormat outputFormat : FileFormat) :
  let run := doConvert R decode encode htmlToMarkdownPipeline
               markdownToHtmlPipeline inputFiles inputFormat outputFormat in
  (htmlToMarkdownPipeline = None \/ markdownToHtmlPipeline = None ->
   run = Failed (ThrownText "Handler not initialized.")) /\
  (is_Some htmlToMarkdownPipeline -> is_Some markdownToHtmlPipeline ->
   (inputFiles = [] -> run = Finished []) /\
   (inputFiles <> [] -> converts inputFormat outputFormat = false ->
    run = Failed (ThrownText "Invalid output format.")) /\
   (forall out, run = Finished out ->
      map file_name out
      = map (fun f => outputName (file_name f) (extension outputFormat))
          inputFiles)).
Proof.
  cbv zeta. unfold doConvert. split.
  - intros [-> | ->]; [reflexivity|].
    destruct htmlToMarkdownPipeline; reflexivity.
  - intros [h2m ->] [m2h ->]. split; [|split].
    + intros ->. reflexivity.
    + intros Hne Hc. destruct inputFiles as [|f rest]; [contradiction|].
      cbn [convert_files]. rewrite convert_file_unsupported by exact Hc.
      reflexivity.
    + apply convert_files_names.
Qed.

End MarkdownProofs.

Lemma doConvert_outcomes_witness :
  doConvert unit (fun _ => "") (fun _ => []) None None
    [mkFile "a.md" []] (mkFormat "md" "md") (mkFormat "html" "html")
  = Failed (ThrownText "Handler not initialized.") /\
  doConvert unit (fun _ => "") (fun _ => [])
    (Some (fun t => Finished t)) (Some (fun t => Finished t))
    [mkFile "a.md" []] (mkFormat "md" "md") (mkFormat "md" "md")
  = Failed (ThrownText "Invalid output format.").
Proof.
  split.
  - destruct (doConvert_outcomes unit (fun _ => "") (fun _ => []) None None
                [mkFile "a.md" []] (mkFormat "md" "md") (mkFormat "html" "html"))
      as [H _].
    apply H. left. reflexivity.
  - destruct (doConvert_outcomes unit (fun _ => "") (fun _ => [])
                (Some (fun t => Finished t)) (Some (fun t => Finished t))
                [mkFile "a.md" []] (mkFormat "md" "md") (mkFormat "md" "md"))
      as [_ H].
    destruct (H ltac:(eauto) ltac:(eauto)) as (_ & Hbad & _).
    apply Hbad; [discriminate | reflexivity].
Defined.
